(** * ecstream: streamed Reed-Solomon erasure coding

  A shallow embedding of [lib/dencode_context.js], [lib/encode.js],
  [lib/decode.js] and [lib/repair.js], and the properties the
  specification states about them.

  JavaScript numbers are modelled as [Z] (every quantity of the library
  is an integer far below 2^53, where doubles are exact); a division
  that is followed by [Math.ceil] or [Math.floor] is taken in [Q].
  Bitfields are 32-bit signed integers, with the wrap-around of the
  bitwise operators written out. *)

From Stdlib Require Import ZArith List Bool Lia String Ascii QArith Qround.
From Stdlib Require Import DecimalString.
From Stdlib Require Init.Byte.
Import ListNotations.

Local Open Scope Z_scope.

(** ** JavaScript numbers *)

Module Js.

(** [ToInt32]: the operand conversion of every bitwise operator. *)
Definition toInt32 (z : Z) : Z := (z + 2 ^ 31) mod 2 ^ 32 - 2 ^ 31.

(** [a << b]: the shift count is taken modulo 32. *)
Definition shl (a b : Z) : Z := toInt32 (Z.shiftl (toInt32 a) (b mod 32)).

(** [a | b], [a & b], [~a]. *)
Definition bor (a b : Z) : Z := Z.lor (toInt32 a) (toInt32 b).
Definition band (a b : Z) : Z := Z.land (toInt32 a) (toInt32 b).
Definition bnot (a : Z) : Z := Z.lnot (toInt32 a).

(** [Math.ceil (a / b)] and [Math.floor (a / b)] for [b <> 0]. *)
Definition ceil_div (a b : Z) : Z := Qceiling (inject_Z a / inject_Z b).
Definition floor_div (a b : Z) : Z := Qfloor (inject_Z a / inject_Z b).

(** Template-literal rendering of an integer. *)
Definition show (z : Z) : string := NilZero.string_of_int (Z.to_int z).

End Js.

(** Number of bits set in a non-negative bitfield. *)
Fixpoint popcount_pos (p : positive) : Z :=
match p with
| xH => 1
| xO q => popcount_pos q
| xI q => 1 + popcount_pos q
end.

Definition popcount (z : Z) : Z :=
match z with
| Zpos p => popcount_pos p
| _ => 0
end.

(** ** Stripe geometry ([lib/dencode_context.js]) *)

Definition MAX_HWM : Z := 0x800000.

Definition safeStripeSize (k m hint : Z) : Z :=
let alignedHint := Js.ceil_div hint 8 * 8 in
let largest := Z.max k m in
let maximum := Js.floor_div MAX_HWM largest in
let maximumAligned := Js.floor_div maximum 8 * 8 in
Z.min alignedHint maximumAligned.

(** The geometry as the specification words it: the hint rounded up to the
  next multiple of 8, capped by the largest multiple of 8 that keeps
  [max k m] shards under the ceiling. *)
Definition round_up8 (hint : Z) : Z := hint + (- hint) mod 8.
Definition maxStripe (k m : Z) : Z := 8 * (MAX_HWM / Z.max k m / 8).
Definition safeStripeSize_spec (k m hint : Z) : Z :=
Z.min (round_up8 hint) (maxStripe k m).

(** ** Streams and lanes *)

Definition bytes := list Byte.byte.

(** The readable side of a Node stream: bytes buffered and not yet consumed,
  and whether the producer has signalled the end. *)
Record Readable := mkReadable { buffered : bytes; ended : bool }.

(** An array slot holding a stream, [null] or nothing at all: [arr[i]] in a
  condition. *)
Definition present {A : Type} (arr : list (option A)) (i : Z) : bool :=
if i <? 0 then false
else match nth_error arr (Z.to_nat i) with
     | Some (Some _) => true
     | _ => false
     end.

(** [arr.filter(s => s).length] *)
Definition count_present {A : Type} (arr : list (option A)) : Z :=
Z.of_nat (List.length (filter (fun s => match s with Some _ => true | None => false end) arr)).

(** ** Role selection *)

Record Roles := mkRoles { r_sources : Z; r_targets : Z; r_available : Z }.

Module Decode.

(** First loop of [getPartRoles] in [lib/decode.js]: data lanes. *)
Fixpoint scanData (fuel : nat) (i k : Z) (dataStreams : list (option Readable))
         (r : Roles) : Roles :=
  match fuel with
  | O => r
  | S fuel' =>
      if i <? k then
        if present dataStreams i then
          let r1 := mkRoles (Js.bor (r_sources r) (Js.shl 1 i))
                            (r_targets r) (r_available r + 1) in
          if r_available r1 =? k then r1
          else scanData fuel' (i + 1) k dataStreams r1
        else
          scanData fuel' (i + 1) k dataStreams
                   (mkRoles (r_sources r) (Js.bor (r_targets r) (Js.shl 1 i))
                            (r_available r))
      else r
  end.

(** Second loop: parity lanes, entered only when data lanes do not suffice. *)
Fixpoint scanParity (fuel : nat) (i k m : Z) (parityStreams : list (option Readable))
         (r : Roles) : Roles :=
  match fuel with
  | O => r
  | S fuel' =>
      if i <? m then
        if present parityStreams i then
          let r1 := mkRoles (Js.bor (r_sources r) (Js.shl 1 (k + i)))
                            (r_targets r) (r_available r + 1) in
          if r_available r1 =? k then r1
          else scanParity fuel' (i + 1) k m parityStreams r1
        else scanParity fuel' (i + 1) k m parityStreams r
      else r
  end.

Definition getPartRoles (dataStreams parityStreams : list (option Readable)) : Roles :=
  let k := Z.of_nat (List.length dataStreams) in
  let m := Z.of_nat (List.length parityStreams) in
  let r := scanData (Z.to_nat k) 0 k dataStreams (mkRoles 0 0 0) in
  if r_available r <? k
  then scanParity (Z.to_nat m) 0 k m parityStreams r
  else r.

End Decode.

Module Repair.

(** First loop of [getPartRoles] in [lib/repair.js]: the first [k] lanes
    with an input, data or parity alike. *)
Fixpoint scanInputs {A : Type} (fuel : nat) (i k m : Z) (istreams : list (option A))
         (sources available : Z) : Z * Z :=
  match fuel with
  | O => (sources, available)
  | S fuel' =>
      if i <? k + m then
        if present istreams i then
          if available =? k then (sources, available)
          else scanInputs fuel' (i + 1) k m istreams
                          (Js.bor sources (Js.shl 1 i)) (available + 1)
        else scanInputs fuel' (i + 1) k m istreams sources available
      else (sources, available)
  end.

(** Second loop: every lane with an output is a target. *)
Fixpoint scanOutputs {B : Type} (fuel : nat) (i k m : Z) (ostreams : list (option B))
         (targets : Z) : Z :=
  match fuel with
  | O => targets
  | S fuel' =>
      if i <? k + m then
        scanOutputs fuel' (i + 1) k m ostreams
                    (if present ostreams i then Js.bor targets (Js.shl 1 i) else targets)
      else targets
  end.

Definition getPartRoles {A B : Type} (k m : Z) (istreams : list (option A))
           (ostreams : list (option B)) : Roles :=
  let '(sources, available) := scanInputs (Z.to_nat (k + m)) 0 k m istreams 0 0 in
  let targets := scanOutputs (Z.to_nat (k + m)) 0 k m ostreams 0 in
  mkRoles sources targets available.

End Repair.

Module Encode.

(** [encode] in [lib/encode.js]: all data lanes feed, all parity lanes are
    computed. *)
Definition sources (k : Z) : Z := Js.shl 1 k - 1.
Definition targets (k m : Z) : Z := Js.shl (Js.shl 1 m - 1) k.

End Encode.


(** ** Buffers *)

(** What a buffer of [n] bytes holds when it is handed out uninitialised:
    whatever the heap held; [junk] stands for that content. *)
Definition heap_bytes (junk : nat -> Byte.byte) (n : Z) : bytes :=
  map junk (seq 0 (Z.to_nat n)).

(** [src.copy (target, targetStart)]: the new content of [target] and the
    number of bytes copied; the copy stops at the end of [target]. *)
Definition buf_copy (src target : bytes) (targetStart : Z) : bytes * Z :=
  let off := Z.to_nat targetStart in
  let n := Nat.min (List.length src) (List.length target - off) in
  (firstn off target ++ firstn n src ++ skipn (off + n) target, Z.of_nat n).

(** [buf.fill (0, start)] *)
Definition buf_fill0 (buf : bytes) (start : Z) : bytes :=
  firstn (Z.to_nat start) buf
  ++ repeat Byte.x00 (List.length buf - Z.to_nat start).

(** [buf.slice (start, end)]: negative positions count from the end, and
    both are clamped to the buffer. *)
Definition buf_clamp (len x : Z) : Z :=
  if x <? 0 then Z.max 0 (len + x) else Z.min x len.

Definition buf_slice (buf : bytes) (start stop : Z) : bytes :=
  let len := Z.of_nat (List.length buf) in
  skipn (Z.to_nat (buf_clamp len start)) (firstn (Z.to_nat (buf_clamp len stop)) buf).

(** [stream.read (n)] of a paused Node readable: [n] bytes when that many
    are buffered; what is left when the stream has ended; otherwise (and
    always for [n = 0]) [null], consuming nothing. *)
Definition stream_read (n : Z) (s : Readable) : option bytes * Readable :=
  if n <=? 0 then (None, s)
  else if n <=? Z.of_nat (List.length (buffered s)) then
    (Some (firstn (Z.to_nat n) (buffered s)),
     mkReadable (skipn (Z.to_nat n) (buffered s)) (ended s))
  else if ended s then
    match buffered s with
    | [] => (None, s)
    | _ => (Some (buffered s), mkReadable [] true)
    end
  else (None, s).

(** Indices of the slots that hold a stream: [arr.filter (s => s)], each
    stream named by its lane. *)
Fixpoint live_from {A : Type} (i : nat) (arr : list (option A)) : list nat :=
  match arr with
  | [] => []
  | Some _ :: rest => i :: live_from (S i) rest
  | None :: rest => live_from (S i) rest
  end.

Definition live {A : Type} (arr : list (option A)) : list nat := live_from 0 arr.

(** ** The shared operation context ([lib/dencode_context.js]) *)

Record Error := mkError { message : string }.

(** A writable stream is an opaque sink: what it receives is recorded in the
    trace of the operation. *)
Inductive Writable := writable.

(** What an operation does to the outside, in order. *)
Inductive Effect :=
| Emit_error (lane : nat) (err : Error)   (* ostreams[lane].emit ('error', err) *)
| Emit_end (lane : nat)                   (* ostreams[lane].emit ('end') *)
| Emit_readable (lane : nat)              (* istreams[lane].emit ('readable') *)
| Read (lane : nat) (n : Z)               (* istreams[lane].read (n) *)
| Write (lane : nat) (chunk : bytes)      (* ostreams[lane].write (chunk, ...) *)
| Submit (sources targets : Z)            (* ReedSolomon.encode (...) *)
| Bypass                                  (* setImmediate (() => dispatcher (this, null)) *)
| Pause (lane : nat)                      (* istreams[lane].pause () *)
| Resume (lane : nat).                    (* istreams[lane].resume () *)

Definition MAX_K : Z := 24.
Definition MAX_M : Z := 6.

Record DencodeContext := mkContext {
  k : Z;
  m : Z;
  stripeSize : Z;
  size : Z;
  data_size : Z;                          (* this.data.size *)
  parity_size : Z;                        (* this.parity.size *)
  istreams : list (option Readable);
  ostreams : list (option Writable);
  sources : Z;
  targets : Z;
  inFlight : bool;
  processedStripe : Z;
  nStripe : option Z;                     (* None: Infinity or NaN, equal to no counter *)
  waiting : Z;                            (* this._stripe.waiting *)
  dataBuffer : bytes;                     (* this._stripe.dataBuffer *)
  parityBuffer : bytes;                   (* this._stripe.parityBuffer *)
  inputError : option Error
}.

(** [x === this.nStripe] *)
Definition is_nStripe (x : Z) (c : DencodeContext) : bool :=
  match nStripe c with
  | Some n => x =? n
  | None => false
  end.

Definition set_istreams (v : list (option Readable)) (c : DencodeContext) :=
  mkContext (k c) (m c) (stripeSize c) (size c) (data_size c) (parity_size c)
            v (ostreams c) (sources c) (targets c) (inFlight c)
            (processedStripe c) (nStripe c) (waiting c) (dataBuffer c)
            (parityBuffer c) (inputError c).

Definition set_inFlight (v : bool) (c : DencodeContext) :=
  mkContext (k c) (m c) (stripeSize c) (size c) (data_size c) (parity_size c)
            (istreams c) (ostreams c) (sources c) (targets c) v
            (processedStripe c) (nStripe c) (waiting c) (dataBuffer c)
            (parityBuffer c) (inputError c).

Definition set_processedStripe (v : Z) (c : DencodeContext) :=
  mkContext (k c) (m c) (stripeSize c) (size c) (data_size c) (parity_size c)
            (istreams c) (ostreams c) (sources c) (targets c) (inFlight c)
            v (nStripe c) (waiting c) (dataBuffer c)
            (parityBuffer c) (inputError c).

Definition set_waiting (v : Z) (c : DencodeContext) :=
  mkContext (k c) (m c) (stripeSize c) (size c) (data_size c) (parity_size c)
            (istreams c) (ostreams c) (sources c) (targets c) (inFlight c)
            (processedStripe c) (nStripe c) v (dataBuffer c)
            (parityBuffer c) (inputError c).

Definition set_dataBuffer (v : bytes) (c : DencodeContext) :=
  mkContext (k c) (m c) (stripeSize c) (size c) (data_size c) (parity_size c)
            (istreams c) (ostreams c) (sources c) (targets c) (inFlight c)
            (processedStripe c) (nStripe c) (waiting c) v
            (parityBuffer c) (inputError c).

Definition set_parityBuffer (v : bytes) (c : DencodeContext) :=
  mkContext (k c) (m c) (stripeSize c) (size c) (data_size c) (parity_size c)
            (istreams c) (ostreams c) (sources c) (targets c) (inFlight c)
            (processedStripe c) (nStripe c) (waiting c) (dataBuffer c)
            v (inputError c).

Definition set_inputError (v : option Error) (c : DencodeContext) :=
  mkContext (k c) (m c) (stripeSize c) (size c) (data_size c) (parity_size c)
            (istreams c) (ostreams c) (sources c) (targets c) (inFlight c)
            (processedStripe c) (nStripe c) (waiting c) (dataBuffer c)
            (parityBuffer c) v.

(** The context together with what surrounds it while an operation runs:
    the effects so far, the listeners installed on the input streams, and
    the callbacks the event loop still owes. *)
Record World := mkWorld {
  ctx : DencodeContext;
  trace : list Effect;
  readers : list nat;          (* lanes with a 'readable' listener *)
  errorListeners : list nat;   (* lanes whose once ('error') listener has not run *)
  primitive : nat;             (* stripes given to the primitive, completion not yet run *)
  nPending : Z;                (* counter of the dispatch step in progress *)
  callbacks : nat;             (* write and drain callbacks registered, not yet run *)
  immediates : nat             (* deferred unref of the repair path, not yet run *)
}.

Definition upd_ctx (f : DencodeContext -> DencodeContext) (w : World) : World :=
  mkWorld (f (ctx w)) (trace w) (readers w) (errorListeners w) (primitive w)
          (nPending w) (callbacks w) (immediates w).

Definition log_all (es : list Effect) (w : World) : World :=
  mkWorld (ctx w) (trace w ++ es) (readers w) (errorListeners w) (primitive w)
          (nPending w) (callbacks w) (immediates w).

Definition log (e : Effect) (w : World) : World := log_all [e] w.

Definition set_readers (v : list nat) (w : World) : World :=
  mkWorld (ctx w) (trace w) v (errorListeners w) (primitive w)
          (nPending w) (callbacks w) (immediates w).

Definition set_errorListeners (v : list nat) (w : World) : World :=
  mkWorld (ctx w) (trace w) (readers w) v (primitive w)
          (nPending w) (callbacks w) (immediates w).

Definition set_primitive (v : nat) (w : World) : World :=
  mkWorld (ctx w) (trace w) (readers w) (errorListeners w) v
          (nPending w) (callbacks w) (immediates w).

Definition set_nPending (v : Z) (w : World) : World :=
  mkWorld (ctx w) (trace w) (readers w) (errorListeners w) (primitive w)
          v (callbacks w) (immediates w).

Definition set_callbacks (v : nat) (w : World) : World :=
  mkWorld (ctx w) (trace w) (readers w) (errorListeners w) (primitive w)
          (nPending w) v (immediates w).

Definition set_immediates (v : nat) (w : World) : World :=
  mkWorld (ctx w) (trace w) (readers w) (errorListeners w) (primitive w)
          (nPending w) (callbacks w) v.

(** Where a handler can throw. *)
Inductive Exception :=
| Assert_getECContext     (* the assertions on k and m of getECContext *)
| Assert_waiting          (* assert.strictEqual (this._stripe.waiting, 0) of ref *)
| Assert_inFlight         (* assert.ok (this.inFlight) of encode *)
| Assert_copied           (* assert.strictEqual (copied, bytes.length) *)
| Assert_length           (* the array length assertions of repair *)
| RangeError              (* Buffer.allocUnsafe of a negative size *)
| TypeError.              (* a method called on null or undefined *)

(** A handler either finishes or throws. *)
Inductive Outcome (A : Type) :=
| Ok (a : A)
| Throw (e : Exception).

Arguments Ok {A} a.
Arguments Throw {A} e.

Definition bind {A B : Type} (a : Outcome A) (f : A -> Outcome B) : Outcome B :=
  match a with
  | Ok x => f x
  | Throw e => Throw e
  end.

Notation "x <- a ;; b" := (bind a (fun x => b))
  (at level 61, a at next level, right associativity).

(** [arr[i] = v] *)
Fixpoint list_set {A : Type} (i : nat) (v : A) (l : list A) : list A :=
  match l, i with
  | [], _ => []
  | _ :: rest, O => v :: rest
  | x :: rest, S j => x :: list_set j v rest
  end.

(** [Buffer.allocUnsafe (n)]: [n] uninitialised bytes; a negative size is
    refused with a [RangeError]. *)
Definition allocUnsafe (junk : nat -> Byte.byte) (n : Z) : Outcome bytes :=
  if n <? 0 then Throw RangeError else Ok (heap_bytes junk n).

Module Context.

Definition getECContext (k m : Z) : Outcome unit :=
  if (0 <? k) && (k <=? MAX_K) && (0 <? m) && (m <=? MAX_M)
  then Ok tt else Throw Assert_getECContext.

(** [_newStripe ()]: the waiting mask is reset, then both buffers are
    allocated, the data buffer first. *)
Definition newStripe (junk : nat -> Byte.byte) (c : DencodeContext)
  : Outcome DencodeContext :=
  let c1 := set_waiting (sources c) c in
  dataBuffer <- allocUnsafe junk (data_size c1) ;;
  let c2 := set_dataBuffer dataBuffer c1 in
  parityBuffer <- allocUnsafe junk (parity_size c2) ;;
  Ok (set_parityBuffer parityBuffer c2).

(** [new DencodeContext (k, m, inputStreams, outputStreams, size, sources,
    targets, stripeSizeHint)]: the assertions of [getECContext] come first,
    the allocation of the first stripe last. *)
Definition create (junk : nat -> Byte.byte) (k m : Z)
           (inputStreams : list (option Readable))
           (outputStreams : list (option Writable))
           (size sources targets stripeSizeHint : Z) : Outcome DencodeContext :=
  _ <- getECContext k m ;;
  let stripeSize := safeStripeSize k m stripeSizeHint in
  newStripe junk
    (mkContext k m stripeSize size (stripeSize * k) (stripeSize * m)
               inputStreams outputStreams sources targets
               false 0
               (if k * stripeSize =? 0 then None
                else Some (Js.ceil_div size (k * stripeSize)))
               0 [] [] None).

Definition error (err : Error) (w : World) : World :=
  match inputError (ctx w) with
  | Some _ => w
  | None =>
      log_all (map (fun i => Emit_error i err) (live (ostreams (ctx w))))
              (upd_ctx (set_inputError (Some err)) w)
  end.

Definition ref (w : World) : Outcome World :=
  if waiting (ctx w) =? 0 then Ok (upd_ctx (set_inFlight true) w)
  else Throw Assert_waiting.

(** [emit ('readable')] on each stream in turn runs its listener at once. *)
Fixpoint wake (listener : nat -> World -> Outcome World) (lanes : list nat)
         (w : World) : Outcome World :=
  match lanes with
  | [] => Ok w
  | i :: rest =>
      w' <- listener i (log (Emit_readable i) w) ;;
      wake listener rest w'
  end.

Definition unref (junk : nat -> Byte.byte)
           (listener : nat -> World -> Outcome World) (w : World) : Outcome World :=
  let w1 := upd_ctx (fun c => set_processedStripe (processedStripe c + 1)
                                (set_inFlight false c)) w in
  if is_nStripe (processedStripe (ctx w1)) (ctx w1) then
    Ok (log_all (map Emit_end (live (ostreams (ctx w1)))) w1)
  else
    c <- newStripe junk (ctx w1) ;;
    wake listener (live (istreams (ctx w1))) (upd_ctx (fun _ => c) w1).

Definition wait (w : World) : bool := inFlight (ctx w).

Definition addedToStripe (mask : Z) (w : World) : World :=
  upd_ctx (fun c => set_waiting (Js.band (waiting c) (Js.bnot mask)) c) w.

Definition readyForEncoding (w : World) : bool := waiting (ctx w) =? 0.

(** [encode (dispatcher)]: the stripe goes to the primitive, or past it when
    nothing is to be computed; either way [dispatcher] runs later. *)
Definition encode (w : World) : Outcome World :=
  if inFlight (ctx w) then
    if targets (ctx w) =? 0 then
      Ok (log Bypass (set_primitive (S (primitive w)) w))
    else
      Ok (log (Submit (sources (ctx w)) (targets (ctx w)))
              (set_primitive (S (primitive w)) w))
  else Throw Assert_inFlight.

End Context.

(** ** The three pipelines *)

Inductive Operation := Encoding | Decoding | Repairing.

Section Pipeline.

(** Content of freshly allocated buffers. *)
Variable junk : nat -> Byte.byte.

(** The coding primitive, a black box: from the code parameters, the role
    bitfields and both stripe buffers, the bytes it computes for the shard
    of a lane. It writes the shards of the target lanes in place. *)
Variable rs : Z -> Z -> Z -> Z -> bytes -> bytes -> nat -> bytes.

Definition store_shard (i : nat) (shard : bytes) (c : DencodeContext) : DencodeContext :=
  let piece := firstn (Z.to_nat (stripeSize c)) shard in
  if Z.of_nat i <? k c then
    set_dataBuffer
      (fst (buf_copy piece (dataBuffer c) (Z.of_nat i * stripeSize c))) c
  else
    set_parityBuffer
      (fst (buf_copy piece (parityBuffer c) ((Z.of_nat i - k c) * stripeSize c))) c.

Definition primitive_result (c : DencodeContext) : DencodeContext :=
  let shard := rs (k c) (m c) (sources c) (targets c) (dataBuffer c) (parityBuffer c) in
  fold_left (fun c' i => if Z.testbit (targets c) (Z.of_nat i)
                         then store_shard i (shard i) c' else c')
            (seq 0 (Z.to_nat (k c + m c))) c.

(** One [write] of a dispatch step: the counter is bumped by [bump], the
    write callback is registered, and either a drain listener is registered
    too or the counter is released once. *)
Definition write_one (bump : Z) (i : nat) (chunk : bytes) (writeOk : bool)
           (w : World) : World :=
  let w1 := log (Write i chunk)
                (set_callbacks (S (callbacks w)) (set_nPending (nPending w + bump) w)) in
  if writeOk then set_nPending (nPending w1 - 1) w1
  else set_callbacks (S (callbacks w1)) w1.

(** The piece of the stripe that belongs to lane [i]. *)
Definition lane_slice (c : DencodeContext) (i : nat) : bytes :=
  let buffer := if Z.of_nat i <? k c then dataBuffer c else parityBuffer c in
  let stripeId := if Z.of_nat i <? k c then Z.of_nat i else Z.of_nat i - k c in
  buf_slice buffer (stripeId * stripeSize c) ((stripeId + 1) * stripeSize c).

(** *** [lib/encode.js] *)

Definition encodeBufferStep (istreamId : nat) (w : World) : Outcome World :=
  if Context.wait w then Ok w
  else
    let c := ctx w in
    let lastStripe := is_nStripe (processedStripe c + 1) c in
    let toRead := if lastStripe
                  then size c - processedStripe c * data_size c
                  else data_size c in
    match nth_error (istreams c) istreamId with
    | Some (Some s) =>
        let '(dataBytes, s') := stream_read toRead s in
        let w1 := log (Read istreamId toRead)
                      (upd_ctx (set_istreams (list_set istreamId (Some s') (istreams c))) w) in
        match dataBytes with
        | None => Ok w1
        | Some dataBytes =>
            let len := Z.of_nat (List.length dataBytes) in
            let w2 :=
              if len <? data_size c then
                upd_ctx (set_dataBuffer
                           (buf_fill0 (fst (buf_copy dataBytes (dataBuffer c) 0)) len)) w1
              else upd_ctx (set_dataBuffer dataBytes) w1 in
            w3 <- Context.ref (Context.addedToStripe (sources c) w2) ;;
            Context.encode w3
        end
    | _ => Throw TypeError
    end.

(** *** [lib/decode.js] *)

Definition fillStripeBuffers (istreamId : nat) (w : World) : Outcome (bool * World) :=
  let c := ctx w in
  let len := stripeSize c in
  match nth_error (istreams c) istreamId with
  | Some (Some s) =>
      let '(chunk, s') := stream_read len s in
      let w1 := log (Read istreamId len)
                    (upd_ctx (set_istreams (list_set istreamId (Some s') (istreams c))) w) in
      match chunk with
      | None => Ok (false, w1)
      | Some chunk =>
          if Z.of_nat istreamId <? k c then
            let '(buf, copied) := buf_copy chunk (dataBuffer c) (Z.of_nat istreamId * len) in
            if copied =? Z.of_nat (List.length chunk)
            then Ok (true, upd_ctx (set_dataBuffer buf) w1) else Throw Assert_copied
          else
            let '(buf, copied) :=
              buf_copy chunk (parityBuffer c) ((Z.of_nat istreamId - k c) * len) in
            if copied =? Z.of_nat (List.length chunk)
            then Ok (true, upd_ctx (set_parityBuffer buf) w1) else Throw Assert_copied
      end
  | _ => Throw TypeError
  end.

(** [nextStep] is [decodeStep] or [repairStep]; both hand the stripe over
    with [encode], and differ in the dispatcher that runs on completion. *)
Definition decodeBufferStep (istreamId : nat) (w : World) : Outcome World :=
  if Context.wait w then Ok w
  else if Js.band (waiting (ctx w)) (Js.shl 1 (Z.of_nat istreamId)) =? 0 then Ok w
  else
    r <- fillStripeBuffers istreamId w ;;
    let '(filled, w1) := r in
    if negb filled then Ok w1
    else
      let w2 := Context.addedToStripe (Js.shl 1 (Z.of_nat istreamId)) w1 in
      if Context.readyForEncoding w2 then
        w3 <- Context.ref w2 ;;
        Context.encode w3
      else Ok w2.

(** The listener installed on input lane [i]. *)
Definition listener (op : Operation) (i : nat) (w : World) : Outcome World :=
  if existsb (Nat.eqb i) (readers w) then
    match op with
    | Encoding => encodeBufferStep i w
    | Decoding | Repairing => decodeBufferStep i w
    end
  else Ok w.

Definition unref (op : Operation) (w : World) : Outcome World :=
  Context.unref junk (listener op) w.

(** [ostreams.forEach ((s, i) => ...)] where every slot must hold a stream. *)
Fixpoint encodeWrites (lanes : list nat) (writeOk : nat -> bool) (w : World)
  : Outcome World :=
  match lanes with
  | [] => Ok w
  | i :: rest =>
      match nth_error (ostreams (ctx w)) i with
      | Some (Some _) =>
          encodeWrites rest writeOk
                       (write_one 1 i (lane_slice (ctx w) i) (writeOk i) w)
      | _ => Throw TypeError
      end
  end.

Definition encodeDispatchStep (error : option Error) (writeOk : nat -> bool)
           (w : World) : Outcome World :=
  match error with
  | Some err => unref Encoding (Context.error err w)
  | None =>
      let n := List.length (ostreams (ctx w)) in
      encodeWrites (seq 0 n) writeOk (set_nPending (Z.of_nat n) w)
  end.

Definition decodeDispatchStep (error : option Error) (writeOk : nat -> bool)
           (w : World) : Outcome World :=
  match error with
  | Some err => unref Decoding (Context.error err w)
  | None =>
      let c := ctx w in
      let toPush :=
        if is_nStripe (processedStripe c + 1) c then
          let pushedBytes := processedStripe c * stripeSize c * k c in
          let leftover := size c - pushedBytes in
          buf_slice (dataBuffer c) 0 leftover
        else dataBuffer c in
      let lanes := live (ostreams c) in
      Ok (fold_left (fun w' i => write_one 1 i toPush (writeOk i) w')
                    lanes (set_nPending (Z.of_nat (List.length lanes)) w))
  end.

(** *** [lib/repair.js] *)

Fixpoint repairWrites (lanes : list nat) (writeOk : nat -> bool) (w : World)
  : Outcome World :=
  match lanes with
  | [] => Ok w
  | i :: rest =>
      if Js.band (targets (ctx w)) (Js.shl 1 (Z.of_nat i)) =? 0 then
        repairWrites rest writeOk w
      else
        match nth_error (ostreams (ctx w)) i with
        | Some (Some _) =>
            repairWrites rest writeOk
                         (write_one 2 i (lane_slice (ctx w) i) (writeOk i) w)
        | _ => Throw TypeError
        end
  end.

Definition repairDispatchStep (error : option Error) (writeOk : nat -> bool)
           (w : World) : Outcome World :=
  match error with
  | Some err => unref Repairing (Context.error err w)
  | None =>
      w1 <- repairWrites (seq 0 (List.length (ostreams (ctx w)))) writeOk
                         (set_nPending 1 w) ;;
      Ok (set_nPending (nPending w1 - 1) w1)
  end.

(** *** The event loop *)

(** What the outside can make happen: a lane signals that it may be read
    (for the encoder also that it ended), a producer pushes bytes or the end
    of a lane, a lane fails, the primitive completes (with the verdict of
    every [write] its dispatcher is about to make), a write or drain
    callback runs, a deferred call runs. *)
Inductive Event :=
| On_readable (lane : nat)
| Arrives (lane : nat) (chunk : bytes)
| Ends (lane : nat)
| On_error (lane : nat) (err : Error)
| Primitive_done (err : option Error) (writeOk : nat -> bool)
| Write_done
| Immediate.

Definition push_chunk (chunk : bytes) (s : option Readable) : option Readable :=
  match s with
  | Some r => if ended r then s else Some (mkReadable (buffered r ++ chunk) false)
  | None => None
  end.

Definition push_end (s : option Readable) : option Readable :=
  match s with
  | Some r => Some (mkReadable (buffered r) true)
  | None => None
  end.

Definition map_lane (f : option Readable -> option Readable) (i : nat) (w : World) : World :=
  match nth_error (istreams (ctx w)) i with
  | Some s => upd_ctx (set_istreams (list_set i (f s) (istreams (ctx w)))) w
  | None => w
  end.

Definition dispatcher (op : Operation) :=
  match op with
  | Encoding => encodeDispatchStep
  | Decoding => decodeDispatchStep
  | Repairing => repairDispatchStep
  end.

Definition step (op : Operation) (w : World) (e : Event) : Outcome World :=
  match e with
  | On_readable i => listener op i w
  | Arrives i chunk => Ok (map_lane (push_chunk chunk) i w)
  | Ends i => Ok (map_lane push_end i w)
  | On_error i err =>
      if existsb (Nat.eqb i) (errorListeners w) then
        Ok (Context.error err
              (set_errorListeners
                 (filter (fun j => negb (Nat.eqb i j)) (errorListeners w)) w))
      else Ok w
  | Primitive_done err writeOk =>
      match primitive w with
      | O => Ok w
      | S n =>
          let w1 := set_primitive n w in
          if targets (ctx w) =? 0 then dispatcher op None writeOk w1
          else
            match err with
            | Some _ => dispatcher op err writeOk w1
            | None => dispatcher op None writeOk (upd_ctx primitive_result w1)
            end
      end
  | Write_done =>
      match callbacks w with
      | O => Ok w
      | S n =>
          let w1 := set_nPending (nPending w - 1) (set_callbacks n w) in
          if nPending w1 =? 0 then
            match op with
            | Repairing => Ok (set_immediates (S (immediates w1)) w1)
            | _ => unref op w1
            end
          else Ok w1
      end
  | Immediate =>
      match immediates w with
      | O => Ok w
      | S n => unref op (set_immediates n w)
      end
  end.

Fixpoint run (op : Operation) (w : World) (events : list Event) : Outcome World :=
  match events with
  | [] => Ok w
  | e :: rest => w' <- step op w e ;; run op w' rest
  end.

(** *** Starting an operation *)

Definition encode (instream : option Readable) (size : Z)
           (dataOutStreams parityOutStreams : list (option Writable))
           (stripeSize : Z) : Outcome World :=
  let k := Z.of_nat (List.length dataOutStreams) in
  let m := Z.of_nat (List.length parityOutStreams) in
  let sources := Encode.sources k in
  let targets := Encode.targets k m in
  let ostreams := dataOutStreams ++ parityOutStreams in
  encodeContext <- Context.create junk k m [instream] ostreams size
                                  sources targets stripeSize ;;
  match instream with
  | Some _ => Ok (mkWorld encodeContext [Pause 0] [0%nat] [0%nat] 0 0 0 0)
  | None => Throw TypeError
  end.

(** [istreams.forEach ((s, i) => ...)] of [decode] and [repair]: lanes that
    are not sources are drained, source lanes are paused and listened to. *)
Fixpoint attach (lanes : list nat) (w : World) : Outcome World :=
  match lanes with
  | [] => Ok w
  | i :: rest =>
      if Js.band (sources (ctx w)) (Js.shl 1 (Z.of_nat i)) =? 0 then
        attach rest (if present (istreams (ctx w)) (Z.of_nat i)
                     then log (Resume i) w else w)
      else
        match nth_error (istreams (ctx w)) i with
        | Some (Some _) =>
            attach rest
                   (set_readers (readers w ++ [i])
                      (set_errorListeners (errorListeners w ++ [i])
                         (log (Pause i) w)))
        | _ => Throw TypeError
        end
  end.

Definition not_enough (available k : Z) : Error :=
  mkError ("Not enough parts for decoding: " ++ Js.show available
           ++ " < " ++ Js.show k).

Definition decode (ostream : option Writable) (size : Z)
           (dataStreams parityStreams : list (option Readable))
           (stripeSize : Z) : Outcome World :=
  let k := Z.of_nat (List.length dataStreams) in
  let m := Z.of_nat (List.length parityStreams) in
  let istreams := dataStreams ++ parityStreams in
  let roles := Decode.getPartRoles dataStreams parityStreams in
  decodeContext <- Context.create junk k m istreams [ostream] size
                                  (r_sources roles) (r_targets roles) stripeSize ;;
  let w := mkWorld decodeContext [] [] [] 0 0 0 0 in
  if r_available roles <? k then
    Ok (Context.error (not_enough (r_available roles) k) w)
  else attach (seq 0 (List.length istreams)) w.

Definition repair (k m : Z) (istreams : list (option Readable))
           (ostreams : list (option Writable)) (size stripeSize : Z) : Outcome World :=
  if negb (k + m =? Z.of_nat (List.length istreams)) then Throw Assert_length
  else if negb (k + m =? Z.of_nat (List.length ostreams)) then Throw Assert_length
  else
    let roles := Repair.getPartRoles k m istreams ostreams in
    repairContext <- Context.create junk k m istreams ostreams size
                                    (r_sources roles) (r_targets roles) stripeSize ;;
    let w := mkWorld repairContext [] [] [] 0 0 0 0 in
    if r_available roles <? k then
      Ok (Context.error (not_enough (r_available roles) k) w)
    else attach (seq 0 (List.length istreams)) w.

End Pipeline.

(** ** Reading a trace *)

Definition is_read (e : Effect) : bool :=
  match e with Read _ _ => true | _ => false end.

Definition is_submission (e : Effect) : bool :=
  match e with Submit _ _ | Bypass => true | _ => false end.

Definition is_wake (e : Effect) : bool :=
  match e with Emit_readable _ => true | _ => false end.

Definition is_end (e : Effect) : bool :=
  match e with Emit_end _ => true | _ => false end.

Definition is_error_on (lane : nat) (e : Effect) : bool :=
  match e with Emit_error i _ => Nat.eqb i lane | _ => false end.

Definition is_end_on (lane : nat) (e : Effect) : bool :=
  match e with Emit_end i => Nat.eqb i lane | _ => false end.

Definition is_wake_on (lane : nat) (e : Effect) : bool :=
  match e with Emit_readable i => Nat.eqb i lane | _ => false end.

Definition count (p : Effect -> bool) (t : list Effect) : nat :=
  List.length (filter p t).

(** Everything written to an output lane, in order. *)
Definition written (lane : nat) (t : list Effect) : bytes :=
  flat_map (fun e => match e with
                     | Write i chunk => if Nat.eqb i lane then chunk else []
                     | _ => []
                     end) t.

(** ** Reading a count *)

(** The decimal numeral of a natural number, written out digit by digit,
    the last digit first found: what the message of an error is expected to
    show for a count. *)
Definition digit (n : nat) : ascii := ascii_of_nat (48 + n).

Fixpoint decimal_onto (fuel n : nat) (tail : string) : string :=
  match fuel with
  | O => tail
  | S fuel' =>
      let tail' := String (digit (n mod 10)) tail in
      if Nat.eqb (n / 10) 0 then tail' else decimal_onto fuel' (n / 10) tail'
  end.

Definition decimal (n : nat) : string := decimal_onto (S n) n EmptyString.

(** ** Reading a bitfield *)

(** A bitfield over the lanes below [n]. *)
Definition mask_below (n s : Z) : Prop := 0 <= s < 2 ^ n.

(** Every lane of the bitfield [s] satisfies [p]. *)
Definition lanes_of (s : Z) (p : Z -> bool) : Prop :=
  forall j, 0 <= j -> Z.testbit s j = true -> p j = true.

(** The bitfield [s] is exactly the set of lanes below [n] that satisfy [p]. *)
Definition mask_of (n : Z) (p : Z -> bool) (s : Z) : Prop :=
  mask_below n s /\ forall j, 0 <= j < n -> Z.testbit s j = p j.

(** What role selection maintains while it scans: both bitfields stay below
    the lane it has reached, as many sources are counted as are set, sources
    are lanes that satisfy [src] and targets lanes that satisfy [tgt]. *)
Definition roles_inv (n : Z) (src tgt : Z -> bool) (r : Roles) : Prop :=
  mask_below n (r_sources r) /\ mask_below n (r_targets r)
  /\ popcount (r_sources r) = r_available r
  /\ lanes_of (r_sources r) src /\ lanes_of (r_targets r) tgt.

(** ** Invariants of a running operation *)

(** One stripe at a time: at most one completion of the primitive is
    outstanding; while the context is not in flight nothing is outstanding
    at all; callbacks of a dispatch step are outstanding only after the
    primitive has completed, and the dispatch counter counts them. *)
Definition flight_ok (w : World) : Prop :=
  (primitive w <= 1)%nat
  /\ (inFlight (ctx w) = false ->
      primitive w = 0%nat /\ callbacks w = 0%nat /\ immediates w = 0%nat)
  /\ (primitive w = 1%nat -> callbacks w = 0%nat /\ immediates w = 0%nat)
  /\ (callbacks w <> 0%nat ->
      nPending w = Z.of_nat (callbacks w) /\ immediates w = 0%nat)
  /\ (immediates w <= 1)%nat.

(** The sizes a context is built with. *)
Definition geometry_ok (c : DencodeContext) : Prop :=
  0 <= stripeSize c /\ 0 <= k c /\ 0 <= m c
  /\ data_size c = stripeSize c * k c
  /\ parity_size c = stripeSize c * m c.

(** The context [_newStripe] leaves when no size is negative. *)
Definition next_stripe (junk : nat -> Byte.byte) (c : DencodeContext) : DencodeContext :=
  set_parityBuffer (heap_bytes junk (parity_size c))
    (set_dataBuffer (heap_bytes junk (data_size c))
       (set_waiting (sources c) c)).

(** Every lane with a 'readable' listener holds a stream. *)
Definition readers_ok (w : World) : Prop :=
  forall i, In i (readers w) -> present (istreams (ctx w)) (Z.of_nat i) = true.

(** The outputs a dispatch step writes to exist: all of them for the
    encoder, the target lanes for a repair. *)
Definition outputs_ok (op : Operation) (c : DencodeContext) : Prop :=
  match op with
  | Encoding =>
      forall i, (i < List.length (ostreams c))%nat ->
                present (ostreams c) (Z.of_nat i) = true
  | Decoding => True
  | Repairing =>
      forall i, (i < List.length (ostreams c))%nat ->
                Js.band (targets c) (Js.shl 1 (Z.of_nat i)) <> 0 ->
                present (ostreams c) (Z.of_nat i) = true
  end.

(** The encoder marks all its sources at once, so what it waits for is
    always covered by [sources]; decode and repair fill one shard per lane
    into buffers of the full stripe. *)
Definition buffers_ok (op : Operation) (c : DencodeContext) : Prop :=
  match op with
  | Encoding => Js.band (waiting c) (Js.bnot (sources c)) = 0
  | Decoding | Repairing =>
      Z.of_nat (List.length (istreams c)) = k c + m c
      /\ List.length (dataBuffer c) = Z.to_nat (data_size c)
      /\ List.length (parityBuffer c) = Z.to_nat (parity_size c)
  end.

Definition sound (op : Operation) (w : World) : Prop :=
  geometry_ok (ctx w) /\ readers_ok w /\ outputs_ok op (ctx w)
  /\ buffers_ok op (ctx w) /\ flight_ok w.

(** Only the bookkeeping of a dispatch step and the trace differ. *)
Definition writes_only (w w' : World) : Prop :=
  ctx w' = ctx w /\ readers w' = readers w
  /\ errorListeners w' = errorListeners w
  /\ primitive w' = primitive w /\ immediates w' = immediates w.

(** Only the content of the stripe buffers differs, not their lengths. *)
Definition buffers_only (c c' : DencodeContext) : Prop :=
  c' = set_parityBuffer (parityBuffer c') (set_dataBuffer (dataBuffer c') c)
  /\ List.length (dataBuffer c') = List.length (dataBuffer c)
  /\ List.length (parityBuffer c') = List.length (parityBuffer c).

(** An operation the caller has just started on well-formed arguments: a
    non-negative stripe size hint and, for the encoder, a stream in every
    output slot. *)
Definition started (junk : nat -> Byte.byte) (op : Operation) (w : World) : Prop :=
  match op with
  | Encoding =>
      exists instream size dataOutStreams parityOutStreams hint,
        0 <= hint
        /\ (forall i, (i < List.length (dataOutStreams ++ parityOutStreams))%nat ->
                      present (dataOutStreams ++ parityOutStreams) (Z.of_nat i) = true)
        /\ encode junk instream size dataOutStreams parityOutStreams hint = Ok w
  | Decoding =>
      exists ostream size dataStreams parityStreams hint,
        0 <= hint
        /\ decode junk ostream size dataStreams parityStreams hint = Ok w
  | Repairing =>
      exists k m istreams ostreams size hint,
        0 <= hint
        /\ repair junk k m istreams ostreams size hint = Ok w
  end.

(** ** How a handler moves the operation on *)

Definition is_write (e : Effect) : bool :=
  match e with Write _ _ => true | _ => false end.

Definition is_error (e : Effect) : bool :=
  match e with Emit_error _ _ => true | _ => false end.

(** What a buffer-filling step may do: read, and hand a stripe over. *)
Definition is_fill (e : Effect) : bool := is_read e || is_submission e.

(** What a wake-up may do: signal the lane, and let its listener fill. *)
Definition is_refill (e : Effect) : bool := is_wake e || is_fill e.

(** What an operation is set up with never changes: the code parameters,
    the sizes, the roles, the number of stripes, the outputs, and which
    input lanes hold a stream. *)
Definition same_frame (c c' : DencodeContext) : Prop :=
  k c' = k c /\ m c' = m c /\ stripeSize c' = stripeSize c /\ size c' = size c
  /\ data_size c' = data_size c /\ parity_size c' = parity_size c
  /\ sources c' = sources c /\ targets c' = targets c
  /\ nStripe c' = nStripe c /\ ostreams c' = ostreams c
  /\ (forall j, present (istreams c') j = present (istreams c) j).

(** [w'] continues [w]: the effects [new] were added, and neither the stripe
    counter nor the terminal error moved. *)
Definition continues (w : World) (new : list Effect) (w' : World) : Prop :=
  trace w' = trace w ++ new
  /\ same_frame (ctx w) (ctx w')
  /\ processedStripe (ctx w') = processedStripe (ctx w)
  /\ inputError (ctx w') = inputError (ctx w).

(** [w'] is [w] one stripe later. *)
Definition advances (w : World) (new : list Effect) (w' : World) : Prop :=
  trace w' = trace w ++ new
  /\ same_frame (ctx w) (ctx w')
  /\ processedStripe (ctx w') = processedStripe (ctx w) + 1
  /\ inputError (ctx w') = inputError (ctx w).

(** End-of-stream reaches the outputs at most once, one signal per live
    output, and only when the stripe counter has reached the number of
    stripes. *)
Definition ends_ok (w : World) : Prop :=
  0 <= processedStripe (ctx w)
  /\ (filter is_end (trace w) = []
      \/ (filter is_end (trace w) = map Emit_end (live (ostreams (ctx w)))
          /\ exists n, nStripe (ctx w) = Some n
                       /\ 0 < n <= processedStripe (ctx w))).

(** The error signals in the trace are those of the retained error, one per
    live output. *)
Definition errors_ok (w : World) : Prop :=
  filter is_error (trace w)
  = match inputError (ctx w) with
    | None => []
    | Some err => map (fun i => Emit_error i err) (live (ostreams (ctx w)))
    end.

Definition is_setup (e : Effect) : bool :=
  match e with Pause _ | Resume _ => true | _ => false end.

(** What [create] builds, read on the context once the operation runs. *)
Definition fresh (c : DencodeContext) : Prop :=
  processedStripe c = 0 /\ inFlight c = false /\ waiting c = sources c
  /\ 0 < k c <= MAX_K /\ 0 < m c <= MAX_M
  /\ stripeSize c * k c = data_size c
  /\ nStripe c = (if k c * stripeSize c =? 0 then None
                  else Some (Js.ceil_div (size c) (k c * stripeSize c))).

(** The state in which [unref] is called: the primitive has completed and
    no callback of the dispatch step is outstanding. *)
Definition released (op : Operation) (w : World) : Prop :=
  geometry_ok (ctx w) /\ readers_ok w /\ outputs_ok op (ctx w)
  /\ buffers_ok op (ctx w)
  /\ primitive w = 0%nat /\ callbacks w = 0%nat /\ immediates w = 0%nat.

(** Nothing is buffered on any input lane, nothing is in flight and no
    stripe has been handed over yet. *)
Definition idle (w : World) : Prop :=
  inFlight (ctx w) = false /\ primitive w = 0%nat /\ callbacks w = 0%nat
  /\ immediates w = 0%nat /\ processedStripe (ctx w) = 0
  /\ (forall i s, nth_error (istreams (ctx w)) i = Some (Some s) -> buffered s = [])
  /\ filter is_submission (trace w) = [].

(** No byte reaches the inputs with this event. *)
Definition no_bytes (e : Event) : bool :=
  match e with
  | Arrives _ (_ :: _) => false
  | _ => true
  end.


(** ** Counting the bytes of a decode *)

(** The primitive does not report a failure. *)
Definition primitive_succeeds (e : Event) : bool :=
  match e with
  | Primitive_done (Some _) _ => false
  | _ => true
  end.

(** The callbacks of a dispatch step, its counter and the deferred calls are
    as they were. *)
Definition same_callbacks (w w' : World) : Prop :=
  callbacks w' = callbacks w /\ immediates w' = immediates w
  /\ nPending w' = nPending w.

(** The stripes whose dispatch step has written: those counted as processed,
    and the one whose write callbacks are outstanding. *)
Definition stripes_written (w : World) : Z :=
  processedStripe (ctx w) + (if Nat.eqb (callbacks w) 0 then 0 else 1).

(** The bytes on the output once [q] stripes are written: whole stripes
    before the last stripe of the object, the object with it, and whole
    stripes again for anything written past it. *)
Definition decoded_bytes (kk S sz n q : Z) : Z :=
  if q <? n then q * kk * S else sz + (q - n) * kk * S.

(** A decode of [sz] bytes, in [n] stripes of [kk] shards of [S] bytes, to
    its one output. *)
Definition decodes (kk S sz n : Z) (w : World) : Prop :=
  sound Decoding w
  /\ k (ctx w) = kk /\ stripeSize (ctx w) = S /\ size (ctx w) = sz
  /\ nStripe (ctx w) = Some n /\ ostreams (ctx w) = [Some writable]
  /\ 0 <= processedStripe (ctx w) /\ immediates w = 0%nat.

(** ** The layout of an encoded object *)

(** Stripe [p] of an object cut in stripes of [c] bytes: what the object holds
    from byte [p * c] on, [c] bytes at most. *)
Definition piece (c p : nat) (X : bytes) : bytes := firstn c (skipn (p * c) X).

(** The stripe as the encoder holds it, filled with zeroes up to [c] bytes. *)
Definition stripe (c p : nat) (X : bytes) : bytes :=
  piece c p X ++ repeat Byte.x00 (c - List.length (piece c p X)).

(** The shard of lane [j] in stripe [p]: bytes [j * S, (j + 1) * S[ of the
    stripe. *)
Definition shard (kn Sn p j : nat) (X : bytes) : bytes :=
  piece Sn j (stripe (kn * Sn) p X).

(** What lane [j] carries from stripe [p] to the last of the [nn] stripes. *)
Definition lane_from (kn Sn nn j p : nat) (X : bytes) : bytes :=
  flat_map (fun q => shard kn Sn q j X) (seq p (nn - p)).

(** [nn] stripes of [c] bytes are what it takes to carry [X]. *)
Definition stripes_of (c nn : nat) (X : bytes) : Prop :=
  (List.length X <= nn * c)%nat /\ (forall p, (p < nn)%nat -> (p * c < List.length X)%nat).

(** ** Input that arrives in chunks *)

(** What the producer of a lane has pushed, in all, once an event has
    happened, given what it had pushed before: a chunk is appended unless the
    end was pushed already, as [push_chunk] has it. Reading does not count:
    this is the stream as it was sent, not what is left of it. *)
Definition feed (lane : nat) (s : Readable) (e : Event) : Readable :=
  match e with
  | Arrives i chunk =>
      if Nat.eqb i lane
      then (if ended s then s else mkReadable (buffered s ++ chunk) false)
      else s
  | Ends i => if Nat.eqb i lane then mkReadable (buffered s) true else s
  | _ => s
  end.

Definition fed (lane : nat) (events : list Event) (s : Readable) : Readable :=
  fold_left (feed lane) events s.

(** The stream carries [L]: what it has delivered so far is the beginning
    of [L], and all of [L] if its end has been pushed. *)
Definition carries (L : bytes) (s : Readable) : Prop :=
  exists rest, L = buffered s ++ rest /\ (ended s = true -> rest = []).

(** An event that delivers nothing. *)
Definition quiet (e : Event) : Prop :=
  match e with Arrives _ _ | Ends _ => False | _ => True end.

(** What is left to deliver on each of the lanes [a], ..., [a + n - 1]
    arrives, one chunk a lane. *)
Definition arrivals (rest : nat -> bytes) (a n : nat) : list Event :=
  map (fun i => Arrives i (rest i)) (seq a n).

(** ** An operation that cannot move *)

(** Nothing is read into a stripe and nothing is pending: the stripe size is
    zero, so a read asks for no byte and returns nothing, no stripe is in
    flight, no callback is outstanding, and no lane has been written to. *)
Definition stalled (w : World) : Prop :=
  stripeSize (ctx w) = 0 /\ data_size (ctx w) = 0 /\ nStripe (ctx w) = None
  /\ inFlight (ctx w) = false
  /\ primitive w = 0%nat /\ callbacks w = 0%nat /\ immediates w = 0%nat
  /\ forall j, written j (trace w) = [].

(** ** A decode fed with every lane of an encoded object *)

(** How many shards the decode has read from data lane [j]: one for each
    stripe processed, and one more if the lane has been added to the stripe
    being filled. *)
Definition taken (pn nn : nat) (waiting : Z) (j : nat) : nat :=
  (pn + (if (pn <? nn)%nat && negb (Z.testbit waiting (Z.of_nat j)) then 1 else 0))%nat.

(** The state of a decode of [X] from its [kn] data lanes, [pn] stripes
    processed, lane [j] having been sent [g j] so far: [g j] carries the
    shards of lane [j], the lane holds what of [g j] has not been read, the
    lanes already added to the stripe have their shard in the data buffer,
    and the output holds the stripes written so far. *)
Record decoding_ok (X : bytes) (kn mn Sn nn pn : nat) (g : nat -> Readable) (w : World)
  : Prop := {
  dec_sound : sound Decoding w;
  dec_k : k (ctx w) = Z.of_nat kn;
  dec_m : m (ctx w) = Z.of_nat mn;
  dec_S : stripeSize (ctx w) = Z.of_nat Sn;
  dec_size : size (ctx w) = Z.of_nat (List.length X);
  dec_n : nStripe (ctx w) = Some (Z.of_nat nn);
  dec_out : ostreams (ctx w) = [Some writable];
  dec_targets : targets (ctx w) = 0;
  dec_sources : mask_below (Z.of_nat kn) (sources (ctx w))
                /\ forall j, (j < kn)%nat -> Z.testbit (sources (ctx w)) (Z.of_nat j) = true;
  dec_p : processedStripe (ctx w) = Z.of_nat pn /\ (pn <= nn)%nat;
  dec_waiting : mask_below (Z.of_nat kn) (waiting (ctx w));
  dec_fed : forall j, (j < kn)%nat -> carries (lane_from kn Sn nn j 0 X) (g j);
  dec_lanes :
    forall j, (j < kn)%nat ->
      In j (readers w)
      /\ nth_error (istreams (ctx w)) j
         = Some (Some (mkReadable
                         (skipn (taken pn nn (waiting (ctx w)) j * Sn) (buffered (g j)))
                         (ended (g j))))
      /\ (taken pn nn (waiting (ctx w)) j * Sn <= List.length (buffered (g j)))%nat;
  dec_buffer :
    (pn < nn)%nat ->
    forall j t, (j < kn)%nat -> (t < Sn)%nat ->
      Z.testbit (waiting (ctx w)) (Z.of_nat j) = false ->
      nth_error (dataBuffer (ctx w)) (j * Sn + t)
      = nth_error (stripe (kn * Sn) pn X) (j * Sn + t);
  dec_flight :
    if inFlight (ctx w)
    then (pn < nn)%nat /\ waiting (ctx w) = 0
         /\ ((primitive w = 1%nat /\ callbacks w = 0%nat)
             \/ (primitive w = 0%nat /\ callbacks w <> 0%nat))
    else (pn < nn)%nat -> waiting (ctx w) <> 0;
  dec_immediates : immediates w = 0%nat;
  dec_written :
    written 0 (trace w)
    = firstn ((pn + (if Nat.eqb (callbacks w) 0 then 0 else 1)) * (kn * Sn)) X
}.

(** ** An encode of an object *)

(** The state of an encode of [X], [pn] stripes processed, whose input has
    been sent [g] so far: [g] carries [X], the input holds what of [g] has
    not been read, a stripe in flight sits in the data buffer padded with
    zeroes, and every data lane has received its shard of each stripe
    written so far. *)
Record encoding_ok (X : bytes) (kn mn Sn nn pn : nat) (g : Readable) (w : World) : Prop := {
  enc_sound : sound Encoding w;
  enc_k : k (ctx w) = Z.of_nat kn;
  enc_m : m (ctx w) = Z.of_nat mn;
  enc_S : stripeSize (ctx w) = Z.of_nat Sn;
  enc_size : size (ctx w) = Z.of_nat (List.length X);
  enc_n : nStripe (ctx w) = Some (Z.of_nat nn);
  enc_out : List.length (ostreams (ctx w)) = (kn + mn)%nat;
  enc_targets : targets (ctx w) <> 0
                /\ forall j, (j < kn)%nat -> Z.testbit (targets (ctx w)) (Z.of_nat j) = false;
  enc_p : processedStripe (ctx w) = Z.of_nat pn /\ (pn <= nn)%nat;
  enc_fed : carries X g;
  enc_in : istreams (ctx w)
           = [Some (mkReadable
                      (skipn ((pn + (if inFlight (ctx w) then 1 else 0)) * (kn * Sn))
                             (buffered g))
                      (ended g))];
  enc_taken : (Nat.min ((pn + (if inFlight (ctx w) then 1 else 0)) * (kn * Sn))
                       (List.length X)
               <= List.length (buffered g))%nat;
  enc_readers : readers w = [0%nat];
  enc_flight :
    if inFlight (ctx w)
    then (pn < nn)%nat /\ dataBuffer (ctx w) = stripe (kn * Sn) pn X
         /\ ((primitive w = 1%nat /\ callbacks w = 0%nat)
             \/ (primitive w = 0%nat /\ callbacks w <> 0%nat))
    else (pn < nn)%nat -> List.length (dataBuffer (ctx w)) = (kn * Sn)%nat;
  enc_immediates : immediates w = 0%nat;
  enc_written :
    forall j, (j < kn)%nat ->
      written j (trace w)
      = flat_map (fun q => shard kn Sn q j X)
                 (seq 0 (pn + (if Nat.eqb (callbacks w) 0 then 0 else 1)))
}.

(** The schedule that drives an encode of [nn] stripes to its end: the
    input becomes readable, then the stripes complete one after the other,
    each of the [lanes] writes being acknowledged at once. *)
Definition encodeSchedule (lanes nn : nat) : list Event :=
  On_readable 0
  :: flat_map (fun _ => Primitive_done None (fun _ => true) :: repeat Write_done lanes)
              (seq 0 nn).

(** [w'] has read since [w]: the listeners are the same, and every read in
    between is a read of one shard on a lane that is listened to. *)
Definition reads_on (w w' : World) : Prop :=
  readers w' = readers w /\ stripeSize (ctx w') = stripeSize (ctx w)
  /\ exists new,
      trace w' = trace w ++ new
      /\ forall i n, In (Read i n) new -> In i (readers w) /\ n = stripeSize (ctx w).

(** A stripe in flight is a complete stripe: nothing is waited for. *)
Definition flying_ok (w : World) : Prop :=
  inFlight (ctx w) = true -> waiting (ctx w) = 0.

(** The stripes handed over whose processing is over: all the submissions
    in the trace but the one in flight. *)
Definition submitted (w : World) : Z :=
  Z.of_nat (count is_submission (trace w)) - (if inFlight (ctx w) then 1 else 0).

(** Nothing is in progress, and nothing is waited for. *)
Definition finished (w : World) : Prop :=
  inFlight (ctx w) = false /\ waiting (ctx w) = 0
  /\ primitive w = 0%nat /\ callbacks w = 0%nat /\ immediates w = 0%nat.

(** The stripe counter stops at the number of stripes of the object, and
    nothing is in progress once it is there. *)
Definition completes_ok (w : World) : Prop :=
  forall n, nStripe (ctx w) = Some n -> 0 < n ->
            processedStripe (ctx w) <= n
            /\ (processedStripe (ctx w) = n -> finished w).

(** ** Counting the bytes of an encode and of a repair *)

(** The stripe buffers hold a full stripe at least. *)
Definition roomy (c : DencodeContext) : Prop :=
  (Z.to_nat (data_size c) <= List.length (dataBuffer c))%nat
  /\ (Z.to_nat (parity_size c) <= List.length (parityBuffer c))%nat.

(** [(targets & (1 << i)) !== 0] *)
Definition targeted (c : DencodeContext) (i : nat) : bool :=
  negb (Js.band (targets c) (Js.shl 1 (Z.of_nat i)) =? 0).

(** The lanes to which the dispatch step of an encode or of a repair
    writes their piece of the stripe. *)
Definition dispatched_to (op : Operation) (c : DencodeContext) (i : nat) : bool :=
  (i <? List.length (ostreams c))%nat
  && match op with
     | Repairing => targeted c i
     | _ => true
     end.

(** The stripes whose dispatch step has written: those counted as
    processed, and the one whose callbacks or deferred [unref] are
    outstanding. *)
Definition stripes_dispatched (w : World) : Z :=
  processedStripe (ctx w)
  + (if Nat.eqb (callbacks w) 0 && Nat.eqb (immediates w) 0 then 0 else 1).

(** An encode or a repair with room for its stripes and one output slot
    per lane. *)
Definition dispatches (op : Operation) (w : World) : Prop :=
  sound op w /\ roomy (ctx w)
  /\ Z.of_nat (List.length (ostreams (ctx w))) = k (ctx w) + m (ctx w).

(** Lane [j] has received one shard for each stripe written, if it is
    written to at all. *)
Definition lane_balance (op : Operation) (j : nat) (w : World) : Prop :=
  Z.of_nat (List.length (written j (trace w)))
  = if dispatched_to op (ctx w) j
    then stripeSize (ctx w) * stripes_dispatched w else 0.

(** ** A decode or a repair fed with lanes of an encoded object *)

(** The shard of lane [j] in stripe [p] of the encoded object [X]: a data
    lane carries its shard of the object, parity lane [kn + i] carries
    [par p i]. *)
Definition code_shard (X : bytes) (par : nat -> nat -> bytes) (kn Sn p j : nat) : bytes :=
  if (j <? kn)%nat then shard kn Sn p j X else par p (j - kn)%nat.

(** What lane [j] carries from stripe [p] to the last of the [nn] stripes. *)
Definition code_from (X : bytes) (par : nat -> nat -> bytes) (kn Sn nn j p : nat) : bytes :=
  flat_map (fun q => code_shard X par kn Sn q j) (seq p (nn - p)).

(** The place of lane [j] in the stripe buffers. *)
Definition buf_lane (kn Sn : nat) (dbuf pbuf : bytes) (j : nat) : bytes :=
  if (j <? kn)%nat then piece Sn j dbuf else piece Sn (j - kn) pbuf.

(** The primitive does its job on stripe [p]: from stripe buffers that hold
    the shards of the source lanes it computes the shard of every target
    lane. *)
Definition rebuilds (rs : Z -> Z -> Z -> Z -> bytes -> bytes -> nat -> bytes)
           (X : bytes) (par : nat -> nat -> bytes) (kn mn Sn : nat) (src tgt : Z)
           (p : nat) : Prop :=
  forall dbuf pbuf,
    List.length dbuf = (kn * Sn)%nat -> List.length pbuf = (mn * Sn)%nat ->
    (forall j, (j < kn + mn)%nat -> Z.testbit src (Z.of_nat j) = true ->
               buf_lane kn Sn dbuf pbuf j = code_shard X par kn Sn p j) ->
    forall i, (i < kn + mn)%nat -> Z.testbit tgt (Z.of_nat i) = true ->
      firstn Sn (rs (Z.of_nat kn) (Z.of_nat mn) src tgt dbuf pbuf i)
      = code_shard X par kn Sn p i.

(** A dispatch step has an output to write to. *)
Definition writes_somewhere (op : Operation) (outs : list (option Writable)) (tgt : Z)
  : Prop :=
  match op with
  | Encoding => True
  | Decoding => live outs <> []
  | Repairing =>
      exists i, (i < List.length outs)%nat /\ Js.band tgt (Js.shl 1 (Z.of_nat i)) <> 0
  end.

(** The state of a decode or a repair of the encoded object from the lanes
    [src], [pn] stripes processed: every source lane, complete and ended,
    has been consumed up to the stripe being filled, and the lanes already
    added to the stripe have their shard in the stripe buffers. *)
Record feeding_ok (op : Operation) (X : bytes) (par : nat -> nat -> bytes)
       (kn mn Sn nn : nat) (src tgt : Z) (pn : nat) (w : World) : Prop := {
  fd_sound : sound op w;
  fd_k : k (ctx w) = Z.of_nat kn;
  fd_m : m (ctx w) = Z.of_nat mn;
  fd_S : stripeSize (ctx w) = Z.of_nat Sn;
  fd_n : nStripe (ctx w) = Some (Z.of_nat nn);
  fd_sources : sources (ctx w) = src;
  fd_targets : targets (ctx w) = tgt;
  fd_out : writes_somewhere op (ostreams (ctx w)) tgt;
  fd_p : processedStripe (ctx w) = Z.of_nat pn /\ (pn <= nn)%nat;
  fd_waiting : mask_below (Z.of_nat (kn + mn)) (waiting (ctx w))
               /\ forall j, Z.testbit (waiting (ctx w)) j = true -> Z.testbit src j = true;
  fd_lanes :
    forall j, (j < kn + mn)%nat -> Z.testbit src (Z.of_nat j) = true ->
      In j (readers w)
      /\ nth_error (istreams (ctx w)) j
         = Some (Some (mkReadable
                         (code_from X par kn Sn nn j
                            (pn + (if (pn <? nn)%nat
                                      && negb (Z.testbit (waiting (ctx w)) (Z.of_nat j))
                                   then 1 else 0))) true));
  fd_buffer :
    (pn < nn)%nat ->
    forall j, (j < kn + mn)%nat -> Z.testbit src (Z.of_nat j) = true ->
      Z.testbit (waiting (ctx w)) (Z.of_nat j) = false ->
      buf_lane kn Sn (dataBuffer (ctx w)) (parityBuffer (ctx w)) j
      = code_shard X par kn Sn pn j;
  fd_flight :
    if inFlight (ctx w)
    then (pn < nn)%nat /\ waiting (ctx w) = 0
         /\ ((primitive w = 1%nat /\ callbacks w = 0%nat /\ immediates w = 0%nat)
             \/ (primitive w = 0%nat /\ (callbacks w <> 0%nat \/ immediates w <> 0%nat)))
    else (pn < nn)%nat -> waiting (ctx w) <> 0
}.

(** The output of a decode holds the stripes that have been dispatched. *)
Definition decoded_upto (X : bytes) (kn Sn : nat) (w : World) : Prop :=
  written 0 (trace w) = firstn (Z.to_nat (stripes_dispatched w) * (kn * Sn)) X.

(** Each output of a repair holds the shards of its lane for the stripes
    that have been dispatched, and the other lanes nothing. *)
Definition repaired_upto (X : bytes) (par : nat -> nat -> bytes) (kn Sn : nat) (w : World)
  : Prop :=
  forall j,
    written j (trace w)
    = if dispatched_to Repairing (ctx w) j
      then flat_map (fun q => code_shard X par kn Sn q j)
                    (seq 0 (Z.to_nat (stripes_dispatched w)))
      else [].

(** The schedule that drives a decode or a repair of [nn] stripes over
    [lanes] lanes to its end: each lane becomes readable, then for each
    stripe the primitive completes, the writes are acknowledged (a
    [Write_done] that finds no callback outstanding does nothing) and the
    deferred call runs. *)
Definition recoverSchedule (lanes nn : nat) : list Event :=
  map On_readable (seq 0 lanes)
  ++ flat_map (fun _ => Primitive_done None (fun _ => true)
                        :: repeat Write_done lanes ++ [Immediate])
              (seq 0 nn).

(** ** The helpers of the tests ([test/utils.js]) *)

Module Utils.

(** *** [streamMe (buffer, chunkSize)] *)

(** The state of the timer: what is left to push, the chunks pushed so far,
    and whether [push (null)] has been made and the timer cleared. *)
Record Feed := mkFeed { leftover : bytes; pushed : list bytes; cleared : bool }.

Definition streamMe (buffer : bytes) : Feed := mkFeed buffer [] false.

(** One run of the callback of [setInterval]. *)
Definition tick (chunkSize : Z) (f : Feed) : Feed :=
  if cleared f then f
  else
    let len := Z.of_nat (List.length (leftover f)) in
    if 0 <? len then
      mkFeed (buf_slice (leftover f) chunkSize len)
             (pushed f ++ [buf_slice (leftover f) 0 chunkSize]) false
    else mkFeed (leftover f) (pushed f) true.

Fixpoint ticks (chunkSize : Z) (n : nat) (f : Feed) : Feed :=
  match n with
  | O => f
  | S n' => ticks chunkSize n' (tick chunkSize f)
  end.

(** *** [checkOutStream (outstream, streamId, expectedContent, callback)] *)

(** What the watched stream emits. *)
Inductive Signal :=
| Data (chunk : bytes)
| Failure (err : Error)
| End.

(** The assertions of the handlers. *)
Inductive Refusal :=
| Assert_fits       (* assert.ok (read + chunk.length <= expectedContent.length) *)
| Assert_complete.  (* assert.strictEqual (read, expectedContent.length) *)

(** The variables the handlers close over, the [once] listeners still
    installed, and the calls of [callback] so far, [None] for
    [callback (null)]. *)
Record Checker := mkChecker {
  mismatchFound : bool;
  read : nat;
  onError : bool;
  onEnd : bool;
  verdicts : list (option Error)
}.

Definition checkOutStream : Checker := mkChecker false 0 true true [].

Definition byte_value (b : Byte.byte) : Z := Z.of_N (Byte.to_N b).

Definition mismatch (streamId : Z) (offset : nat) (expected actual : Byte.byte) : Error :=
  let errHeader := ("[Stream " ++ Js.show streamId ++ "] Content mismatch (offset "
                    ++ Js.show (Z.of_nat offset) ++ ")")%string in
  let errExpected := ("Expected: " ++ Js.show (byte_value expected))%string in
  let errActual := ("Actual: " ++ Js.show (byte_value actual))%string in
  mkError (errHeader ++ " - " ++ errExpected ++ ", " ++ errActual).

(** The loop over a chunk that fits: the first position, counted in the
    stream, where it differs from the expected content. *)
Fixpoint scan (chunk expectedContent : bytes) (at_ : nat)
  : option (nat * Byte.byte * Byte.byte) :=
  match chunk with
  | [] => None
  | actual :: rest =>
      match nth_error expectedContent at_ with
      | Some expected =>
          if Byte.eqb actual expected then scan rest expectedContent (S at_)
          else Some (at_, expected, actual)
      | None => None   (* past the expected content: the assertion excludes it *)
      end
  end.

(** The handler of one signal. *)
Definition emit (streamId : Z) (expectedContent : bytes) (c : Checker) (s : Signal)
  : Checker + Refusal :=
  match s with
  | Data chunk =>
      if mismatchFound c then inl c
      else if (read c + List.length chunk <=? List.length expectedContent)%nat then
        match scan chunk expectedContent (read c) with
        | Some (offset, expected, actual) =>
            inl (mkChecker true (read c) (onError c) (onEnd c)
                           (verdicts c ++ [Some (mismatch streamId offset expected actual)]))
        | None =>
            inl (mkChecker false (read c + List.length chunk) (onError c) (onEnd c)
                           (verdicts c))
        end
      else inr Assert_fits
  | Failure err =>
      if onError c then
        if mismatchFound c
        then inl (mkChecker true (read c) false (onEnd c) (verdicts c))
        else inl (mkChecker true (read c) false (onEnd c) (verdicts c ++ [Some err]))
      else inl c
  | End =>
      if onEnd c then
        if mismatchFound c
        then inl (mkChecker true (read c) (onError c) false (verdicts c))
        else if Nat.eqb (read c) (List.length expectedContent)
             then inl (mkChecker false (read c) (onError c) false (verdicts c ++ [None]))
             else inr Assert_complete
      else inl c
  end.

(** The signals of a stream, one after the other, until a handler throws. *)
Fixpoint watch (streamId : Z) (expectedContent : bytes) (c : Checker)
         (signals : list Signal) : Checker + Refusal :=
  match signals with
  | [] => inl c
  | s :: rest =>
      match emit streamId expectedContent c s with
      | inl c' => watch streamId expectedContent c' rest
      | inr r => inr r
      end
  end.

End Utils.

(** The checker while nothing is wrong: [n] bytes read, all as expected. *)
Definition reading (n : nat) (c : Utils.Checker) : Prop :=
  Utils.mismatchFound c = false /\ Utils.read c = n
  /\ Utils.onError c = true /\ Utils.onEnd c = true /\ Utils.verdicts c = [].

(** The states of the checker: nothing reported yet; an error reported; the
    end reported; the end and then an error. *)
Definition reported (expectedContent : bytes) (P : Error -> Prop) (c : Utils.Checker) : Prop :=
  (Utils.mismatchFound c = false /\ Utils.onError c = true /\ Utils.onEnd c = true
   /\ Utils.verdicts c = [])
  \/ (Utils.mismatchFound c = true /\ exists err, Utils.verdicts c = [Some err])
  \/ (Utils.mismatchFound c = false /\ Utils.onError c = true /\ Utils.onEnd c = false
      /\ Utils.read c = List.length expectedContent /\ Utils.verdicts c = [None])
  \/ (Utils.mismatchFound c = true
      /\ exists err, Utils.verdicts c = [None; Some err] /\ P err).

(** ** The cache of Reed-Solomon contexts ([_contextCache]) *)

Module Cached.

(** What [ReedSolomon.create (k, m)] returns: a new object, told from the
    others by its rank among the contexts created. *)
Record RsContext := mkRsContext { rs_id : nat; rs_k : Z; rs_m : Z }.

(** A [Map] from strings: its entries in the order they were inserted. *)
Definition ContextCache := list (string * RsContext).

(** [Map.get] and [Map.set]. *)
Fixpoint get (key : string) (cache : ContextCache) : option RsContext :=
  match cache with
  | [] => None
  | (key', context) :: rest =>
      if String.eqb key' key then Some context else get key rest
  end.

Fixpoint set (key : string) (context : RsContext) (cache : ContextCache) : ContextCache :=
  match cache with
  | [] => [(key, context)]
  | (key', context') :: rest =>
      if String.eqb key' key then (key', context) :: rest
      else (key', context') :: set key context rest
  end.

(** [[k, m].join (',')] *)
Definition join (k m : Z) : string := (Js.show k ++ "," ++ Js.show m)%string.

(** [getECContext (k, m)], with the cache it reads and updates. Contexts are
    created here only, so the rank of a new one is the size of the cache. *)
Definition getECContext (k m : Z) (cache : ContextCache)
  : Outcome (RsContext * ContextCache) :=
  _ <- Context.getECContext k m ;;
  let key := join k m in
  match get key cache with
  | Some context => Ok (context, cache)
  | None =>
      let newContext := mkRsContext (List.length cache) k m in
      Ok (newContext, set key newContext cache)
  end.

(** A series of calls, from a given cache: what each returns or throws, and
    the cache at the end. *)
Fixpoint calls (args : list (Z * Z)) (cache : ContextCache)
  : list (Outcome RsContext) * ContextCache :=
  match args with
  | [] => ([], cache)
  | (k, m) :: rest =>
      match getECContext k m cache with
      | Ok (context, cache') =>
          let (results, final) := calls rest cache' in (Ok context :: results, final)
      | Throw e =>
          let (results, final) := calls rest cache in (Throw e :: results, final)
      end
  end.

End Cached.

(** The parameters a context may have, and the cache as [getECContext]
    keeps it: entry [i] is the [i]-th context created, under the key of its
    parameters, which are in range, and no key comes twice. *)
Definition in_range (k m : Z) : Prop := 0 < k <= MAX_K /\ 0 < m <= MAX_M.

Definition cache_ok (cache : Cached.ContextCache) : Prop :=
  (forall i key context,
      nth_error cache i = Some (key, context) ->
      Cached.rs_id context = i
      /\ in_range (Cached.rs_k context) (Cached.rs_m context)
      /\ key = Cached.join (Cached.rs_k context) (Cached.rs_m context))
  /\ NoDup (map fst cache).

(** Every pair of parameters in range. *)
Definition codes : list (Z * Z) :=
  list_prod (map Z.of_nat (seq 1 24)) (map Z.of_nat (seq 1 6)).

Definition keys_differ : bool :=
  forallb (fun p =>
             forallb (fun q =>
                        implb (String.eqb (Cached.join (fst p) (snd p))
                                          (Cached.join (fst q) (snd q)))
                              (Z.eqb (fst p) (fst q) && Z.eqb (snd p) (snd q)))
                     codes)
          codes.

(** ** Sample inputs *)

Definition aStream : option Readable := Some (mkReadable [] false).
Definition aSink : option Writable := Some writable.
Definition noJunk : nat -> Byte.byte := fun _ => Byte.xff.

(** A primitive that computes zeroes. *)
Definition noRs : Z -> Z -> Z -> Z -> bytes -> bytes -> nat -> bytes :=
  fun _ _ _ _ _ _ _ => repeat Byte.x00 8.

Definition allOk : nat -> bool := fun _ => true.

Definition sixteen (b : Byte.byte) : option Readable :=
  Some (mkReadable (repeat b 16) false).

Definition the (o : Outcome World) : World :=
  match o with
  | Ok w => w
  | Throw _ =>
      mkWorld (mkContext 0 0 0 0 0 0 [] [] 0 0 false 0 None 0 [] [] None)
              [] [] [] 0 0 0 0
  end.

(** RS(2,1), stripes of 8 bytes, 32 bytes to decode from data lane 0 and
    the parity lane: two stripes, the primitive has lane 1 to compute. *)
Definition sampleDecode : World :=
  the (decode noJunk aSink 32 [sixteen Byte.x01; None] [sixteen Byte.x03] 8).

(** The same with 16 bytes to decode: a single stripe. *)
Definition sampleDecodeLast : World :=
  the (decode noJunk aSink 16 [sixteen Byte.x01; None] [sixteen Byte.x03] 8).

Definition sampleError : Error := mkError "primitive failed".

(** Both lanes deliver a shard and the stripe goes to the primitive. *)
Definition sampleSubmitted : World :=
  the (run noJunk noRs Decoding sampleDecode [On_readable 0%nat; On_readable 2%nat]).

(** The primitive succeeds and the stripe is written: the callback of the
    write is outstanding. *)
Definition sampleWritten : World :=
  the (step noJunk noRs Decoding sampleSubmitted (Primitive_done None allOk)).

(** The single stripe of [sampleDecodeLast] at the same point. *)
Definition sampleWrittenLast : World :=
  the (run noJunk noRs Decoding sampleDecodeLast
           [On_readable 0%nat; On_readable 2%nat; Primitive_done None allOk]).

(** An object of no bytes. *)
Definition sampleEmpty : World :=
  the (decode noJunk aSink 0 [aStream; aStream] [aStream] 8).

(** An object of 23 bytes: two stripes of RS(2,1) with shards of 8 bytes, the
    second one short. *)
Definition sampleObject : bytes :=
  [Byte.x01; Byte.x02; Byte.x03; Byte.x04; Byte.x05; Byte.x06;
     Byte.x07; Byte.x08; Byte.x09; Byte.x0a; Byte.x0b; Byte.x0c;
     Byte.x0d; Byte.x0e; Byte.x0f; Byte.x10; Byte.x11; Byte.x12;
     Byte.x13; Byte.x14; Byte.x15; Byte.x16; Byte.x17].

(** A decode and a repair of one stripe of RS(2,1), driven to their end. *)
Definition sampleDecoded : World :=
  the (run noJunk noRs Decoding sampleDecodeLast
           [On_readable 0%nat; On_readable 2%nat; Primitive_done None allOk; Write_done]).

(** RS(2,1), stripes of 8 bytes, 16 bytes: lane 1 is rebuilt from lane 0 and
    the parity lane. *)
Definition sampleRepair : World :=
  the (repair noJunk 2 1 [sixteen Byte.x01; None; sixteen Byte.x03]
              [None; aSink; None] 16 8).

Definition sampleRepaired : World :=
  the (run noJunk noRs Repairing sampleRepair
           [On_readable 0%nat; On_readable 2%nat; Primitive_done None allOk;
            Write_done; Immediate]).

(** The same decode with nowhere to write. *)
Definition sampleNoOutput : World :=
  the (decode noJunk None 16 [sixteen Byte.x01; None] [sixteen Byte.x03] 8).

(** The encode of [sampleObject] as RS(2,1), driven to its end. *)
Definition sampleEncode : World :=
  the (encode noJunk (Some (mkReadable sampleObject true)) 23 [aSink; aSink] [aSink] 8).

Definition sampleEncoded : World :=
  the (run noJunk noRs Encoding sampleEncode (encodeSchedule 3 2)).

(** Exclusive or of two shards: the parity of RS(2,1). *)
Definition byte_xor (a b : Byte.byte) : Byte.byte :=
  match Byte.of_N (N.lxor (Byte.to_N a) (Byte.to_N b)) with
  | Some c => c
  | None => Byte.x00
  end.

Definition xor_shards (a b : bytes) : bytes :=
  map (fun ab => byte_xor (fst ab) (snd ab)) (combine a b).

(** A primitive for RS(2,1) with shards of 8 bytes: each lane is the
    exclusive or of the two others. *)
Definition xorRs : Z -> Z -> Z -> Z -> bytes -> bytes -> nat -> bytes :=
  fun _ _ _ _ dbuf pbuf i =>
    match i with
    | 0%nat => xor_shards (piece 8 1 dbuf) (piece 8 0 pbuf)
    | 1%nat => xor_shards (piece 8 0 dbuf) (piece 8 0 pbuf)
    | _ => xor_shards (piece 8 0 dbuf) (piece 8 1 dbuf)
    end.

(** The parity shards of [sampleObject] and the lanes of its code. *)
Definition sampleParity (p _ : nat) : bytes :=
  xor_shards (shard 2 8 p 0 sampleObject) (shard 2 8 p 1 sampleObject).

Definition sampleLane (j : nat) : option Readable :=
  Some (mkReadable (code_from sampleObject sampleParity 2 8 2 j 0) true).

(** A decode and a repair of [sampleObject] without data lane 1. *)
Definition sampleRecover : World :=
  the (decode noJunk (Some writable) (Z.of_nat (List.length sampleObject))
              [sampleLane 0; None] [sampleLane 2] 8).

Definition sampleRebuild : World :=
  the (repair noJunk 2 1 [sampleLane 0; None; sampleLane 2] [None; aSink; None]
              (Z.of_nat (List.length sampleObject)) 8).

(** [sampleObject] sent to an encode in two chunks, the first one short of
    a stripe, so that the first two reads return nothing; the end of the
    input is never signalled. *)
Definition sampleTrickle : list Event :=
  [On_readable 0%nat; Arrives 0%nat (firstn 10 sampleObject); On_readable 0%nat;
   Arrives 0%nat (skipn 10 sampleObject); On_readable 0%nat;
   Primitive_done None allOk; Write_done; Write_done; Write_done;
   Primitive_done None allOk; Write_done; Write_done; Write_done].

Definition sampleTrickleEncode : World :=
  the (encode noJunk (Some (mkReadable [] false)) 23
              (repeat (Some writable) 2) (repeat (Some writable) 1) 8).

Definition sampleTrickled : World :=
  the (run noJunk noRs Encoding sampleTrickleEncode sampleTrickle).

(** The same encode with that primitive, and a decode of the streams it
    wrote, data lane 1 lost. *)
Definition sampleXorEncode : World :=
  the (encode noJunk (Some (mkReadable [] false))
              (Z.of_nat (List.length sampleObject))
              (repeat (Some writable) 2) (repeat (Some writable) 1) 8).

Definition sampleXorEncoded : World :=
  the (run noJunk xorRs Encoding sampleXorEncode sampleTrickle).

Definition sampleKeep (j : nat) : bool := negb (Nat.eqb j 1).

Definition sampleKept (j : nat) : option Readable :=
  if sampleKeep j then Some (mkReadable (written j (trace sampleXorEncoded)) true)
  else None.

Definition sampleRegenerate : World :=
  the (repair noJunk 2 1 (map sampleKept (seq 0 3)) [None; aSink; None]
              (Z.of_nat (List.length sampleObject)) 8).

Definition sampleRestore : World :=
  the (decode noJunk (Some writable) (Z.of_nat (List.length sampleObject))
              (map sampleKept (seq 0 2)) (map sampleKept (seq 2 1)) 8).

(** The data streams [sampleTrickled] wrote, sent to a decode in chunks
    that cut through the shards; no end is signalled either. *)
Definition sampleDrip : list Event :=
  [On_readable 0%nat;
   Arrives 0%nat (firstn 5 (written 0 (trace sampleTrickled)));
   On_readable 0%nat;
   Arrives 1%nat (written 1 (trace sampleTrickled));
   On_readable 1%nat;
   Arrives 0%nat (skipn 5 (written 0 (trace sampleTrickled)));
   On_readable 0%nat;
   Primitive_done None allOk; Write_done;
   Primitive_done None allOk; Write_done].

Definition sampleDripDecode : World :=
  the (decode noJunk (Some writable) 23
              (map (fun _ => Some (mkReadable [] false)) (seq 0 2))
              [Some (mkReadable [] false)] 8).

Definition sampleDripped : World :=
  the (run noJunk noRs Decoding sampleDripDecode sampleDrip).

(** Five bytes for [streamMe], and a checker that has seen the end of its
    stream and then an error. *)
Definition sampleFive : bytes := [Byte.x01; Byte.x02; Byte.x03; Byte.x04; Byte.x05].

Definition sampleTwice : Utils.Checker :=
  Utils.mkChecker true 1 false false [None; Some sampleError].

(** The checker after a stream that differs from the three bytes expected
    in its last byte. *)
Definition sampleMismatch : Utils.Checker :=
  match Utils.watch 7 [Byte.x01; Byte.x02; Byte.x03] Utils.checkOutStream
                    [Utils.Data [Byte.x01]; Utils.Data [Byte.x02; Byte.x09]; Utils.End] with
  | inl c => c
  | inr _ => Utils.checkOutStream
  end.


(** * Properties *)

(** ** Stripe geometry *)

Lemma floor_div_Z (a b : Z) : Js.floor_div a b = a / b.
Proof. unfold Js.floor_div. symmetry. apply Zdiv_Qdiv. Qed.

Lemma ceil_div_Z (a b : Z) : Js.ceil_div a b = - ((- a) / b).
Proof.
  unfold Js.ceil_div, Qceiling. f_equal.
  rewrite Zdiv_Qdiv. apply Qfloor_comp.
  rewrite inject_Z_opp. unfold Qdiv. ring.
Qed.

Lemma ceil_div_pos (a b : Z) : 0 <= a -> 0 < b -> Js.ceil_div a b = (a + b - 1) / b.
Proof.
  intros Ha Hb. rewrite ceil_div_Z.
  assert (H1 := Z.div_mod (- a) b ltac:(lia)).
  assert (H2 := Z.mod_pos_bound (- a) b Hb).
  assert (H3 := Z.div_mod (a + b - 1) b ltac:(lia)).
  assert (H4 := Z.mod_pos_bound (a + b - 1) b Hb).
  nia.
Qed.

Lemma aligned_hint (hint : Z) : Js.ceil_div hint 8 * 8 = round_up8 hint.
Proof.
  rewrite ceil_div_Z. unfold round_up8.
  assert (H := Z.div_mod (- hint) 8 ltac:(lia)). lia.
Qed.

Lemma safeStripeSize_eq (k m hint : Z) :
  safeStripeSize k m hint = safeStripeSize_spec k m hint.
Proof.
  unfold safeStripeSize, safeStripeSize_spec, maxStripe.
  rewrite aligned_hint, !floor_div_Z. f_equal. lia.
Qed.

Lemma round_up8_ge (hint : Z) : hint <= round_up8 hint < hint + 8.
Proof.
  unfold round_up8. assert (H := Z.mod_pos_bound (- hint) 8 ltac:(lia)). lia.
Qed.

Lemma round_up8_divide (hint : Z) : (8 | round_up8 hint).
Proof.
  unfold round_up8. exists (- ((- hint) / 8)).
  assert (H := Z.div_mod (- hint) 8 ltac:(lia)). lia.
Qed.

Lemma round_up8_aligned (hint : Z) : hint mod 8 = 0 -> round_up8 hint = hint.
Proof.
  intros H. unfold round_up8.
  assert (H1 := Z.div_mod hint 8 ltac:(lia)).
  replace (- hint) with ((- (hint / 8)) * 8) by lia.
  rewrite Z.mod_mul by lia. lia.
Qed.

Lemma maxStripe_bound (k m : Z) :
  0 < k -> 0 < m -> Z.max k m * maxStripe k m <= MAX_HWM.
Proof.
  intros Hk Hm. unfold maxStripe.
  set (L := Z.max k m). assert (HL : 0 < L) by (unfold L; lia).
  assert (H1 := Z.mul_div_le MAX_HWM L HL).
  assert (H2 := Z.mul_div_le (MAX_HWM / L) 8 ltac:(lia)).
  nia.
Qed.

Lemma safeStripeSize_pos (k m hint : Z) :
  0 < k <= MAX_K -> 0 < m <= MAX_M -> 0 < hint -> 0 < safeStripeSize k m hint.
Proof.
  intros Hk Hm Hh. rewrite safeStripeSize_eq. unfold safeStripeSize_spec.
  assert (H1 := round_up8_ge hint).
  assert (H2 : 8 <= maxStripe k m).
  { unfold maxStripe, MAX_HWM, MAX_K, MAX_M in *.
    assert (Z.max k m <= 24) by lia.
    assert (349525 <= 8388608 / Z.max k m).
    { apply Z.div_le_lower_bound; lia. }
    assert (43690 <= 8388608 / Z.max k m / 8).
    { apply Z.div_le_lower_bound; lia. }
    lia. }
  lia.
Qed.

(** C8. For positive [k] and [m] and any hint, [safeStripeSize] (a total
    function) returns a multiple of 8 that keeps [max k m] shards under
    [MAX_HWM]; it is the minimum of the hint rounded up to a multiple of 8
    and the largest multiple of 8 under the ceiling; and an 8-aligned hint
    that does not exceed that ceiling is returned unchanged. *)
Theorem safeStripeSize_geometry (k m hint : Z) :
  0 < k -> 0 < m ->
  (8 | safeStripeSize k m hint)
  /\ Z.max k m * safeStripeSize k m hint <= MAX_HWM
  /\ safeStripeSize k m hint = safeStripeSize_spec k m hint
  /\ (hint mod 8 = 0 -> hint <= maxStripe k m -> safeStripeSize k m hint = hint).
Proof.
  intros Hk Hm. rewrite safeStripeSize_eq. unfold safeStripeSize_spec.
  repeat split.
  - destruct (Z.min_spec (round_up8 hint) (maxStripe k m)) as [[_ ->] | [_ ->]].
    + apply round_up8_divide.
    + unfold maxStripe. apply Z.divide_factor_l.
  - assert (H := maxStripe_bound k m Hk Hm).
    assert (0 < Z.max k m) by lia.
    assert (Z.min (round_up8 hint) (maxStripe k m) <= maxStripe k m) by lia.
    nia.
  - intros Ha Hle. rewrite round_up8_aligned by assumption. lia.
Qed.

Lemma safeStripeSize_geometry_witness :
  (8 | safeStripeSize 24 6 8192)
  /\ Z.max 24 6 * safeStripeSize 24 6 8192 <= MAX_HWM
  /\ safeStripeSize 24 6 8192 = safeStripeSize_spec 24 6 8192
  /\ (8192 mod 8 = 0 -> 8192 <= maxStripe 24 6 -> safeStripeSize 24 6 8192 = 8192).
Proof. apply (safeStripeSize_geometry 24 6 8192); lia. Defined.

Example safeStripeSize_8192 : safeStripeSize 24 6 8192 = 8192.
Proof. reflexivity. Qed.

Example safeStripeSize_8M : safeStripeSize 2 1 (1024 * 1024 * 8) = 4194304.
Proof. reflexivity. Qed.

Example safeStripeSize_7 : safeStripeSize 2 1 7 = 8.
Proof. reflexivity. Qed.

(** ** Bitfields *)
Lemma toInt32_small (z : Z) : - 2 ^ 31 <= z < 2 ^ 31 -> Js.toInt32 z = z.
Proof. intros H. unfold Js.toInt32. rewrite Z.mod_small; lia. Qed.

Lemma pow2_le_30 (n : Z) : 0 <= n <= 30 -> 0 < 2 ^ n <= 2 ^ 30.
Proof.
  intros H. split.
  - apply Z.pow_pos_nonneg; lia.
  - apply Z.pow_le_mono_r; lia.
Qed.

Lemma shl_1 (i : Z) : 0 <= i <= 30 -> Js.shl 1 i = 2 ^ i.
Proof.
  intros H. unfold Js.shl.
  rewrite (toInt32_small 1) by lia.
  rewrite Z.mod_small by lia.
  rewrite Z.shiftl_1_l.
  apply toInt32_small. assert (H1 := pow2_le_30 i H). lia.
Qed.

Lemma testbit_above (s i j : Z) : 0 <= s < 2 ^ i -> 0 <= i <= j -> Z.testbit s j = false.
Proof.
  intros Hs Hij.
  destruct (Z.eq_dec s 0) as [-> | Hne].
  - apply Z.bits_0.
  - apply Z.bits_above_log2; [lia |].
    assert (Z.log2 s < i) by (apply Z.log2_lt_pow2; lia). lia.
Qed.

Lemma land_pow2_fresh (s i : Z) : 0 <= s < 2 ^ i -> 0 <= i -> Z.land s (2 ^ i) = 0.
Proof.
  intros Hs Hi. apply Z.bits_inj'. intros n Hn.
  rewrite Z.land_spec, Z.bits_0, Z.pow2_bits_eqb by lia.
  destruct (Z.eqb_spec i n) as [<- | Hne].
  - rewrite (testbit_above s i i) by lia. reflexivity.
  - apply andb_false_r.
Qed.

Lemma lor_pow2_fresh (s i : Z) : 0 <= s < 2 ^ i -> 0 <= i -> Z.lor s (2 ^ i) = s + 2 ^ i.
Proof.
  intros Hs Hi.
  assert (H := land_pow2_fresh s i Hs Hi).
  rewrite <- Z.lxor_lor by assumption.
  symmetry. apply Z.add_nocarry_lxor. assumption.
Qed.

Lemma popcount_double (x : Z) : 0 <= x -> popcount (2 * x) = popcount x.
Proof. destruct x; intros; reflexivity. Qed.

Lemma popcount_double_succ (x : Z) : 0 <= x -> popcount (2 * x + 1) = 1 + popcount x.
Proof. destruct x; intros; try reflexivity. lia. Qed.

Lemma popcount_add_pow2 (n : nat) :
  forall s, 0 <= s < 2 ^ Z.of_nat n -> popcount (s + 2 ^ Z.of_nat n) = popcount s + 1.
Proof.
  induction n as [| n IH]; intros s Hs.
  - simpl in Hs. assert (s = 0) by lia. subst. reflexivity.
  - rewrite Nat2Z.inj_succ, Z.pow_succ_r in * by lia.
    assert (Hd := Z.div_mod s 2 ltac:(lia)).
    assert (Hm := Z.mod_pos_bound s 2 ltac:(lia)).
    assert (Hq : 0 <= s / 2 < 2 ^ Z.of_nat n) by lia.
    specialize (IH (s / 2) Hq).
    revert IH Hs Hd Hm Hq.
    generalize (s / 2) (s mod 2) (2 ^ Z.of_nat n). intros q b P IH Hs Hd Hm Hq.
    assert (Hc : b = 0 \/ b = 1) by lia.
    destruct Hc as [-> | ->].
    + replace (s + 2 * P) with (2 * (q + P)) by lia.
      replace s with (2 * q) by lia.
      rewrite !popcount_double by lia. exact IH.
    + replace (s + 2 * P) with (2 * (q + P) + 1) by lia.
      replace s with (2 * q + 1) by lia.
      rewrite !popcount_double_succ by lia. lia.
Qed.

Lemma popcount_ones (n : nat) : popcount (2 ^ Z.of_nat n - 1) = Z.of_nat n.
Proof.
  induction n as [| n IH].
  - reflexivity.
  - rewrite Nat2Z.inj_succ, Z.pow_succ_r by lia.
    assert (0 < 2 ^ Z.of_nat n) by (apply Z.pow_pos_nonneg; lia).
    replace (2 * 2 ^ Z.of_nat n - 1) with ((2 ^ Z.of_nat n - 1) + 2 ^ Z.of_nat n) by lia.
    rewrite popcount_add_pow2 by lia. lia.
Qed.

Lemma mask_below_mono (n n' s : Z) : mask_below n s -> 0 <= n <= n' -> mask_below n' s.
Proof.
  unfold mask_below. intros H Hn.
  assert (2 ^ n <= 2 ^ n') by (apply Z.pow_le_mono_r; lia). lia.
Qed.

Lemma mask_below_int32 (n s : Z) : mask_below n s -> 0 <= n <= 30 -> - 2 ^ 31 <= s < 2 ^ 31.
Proof.
  intros H Hn. apply (mask_below_mono n 30) in H; [| lia].
  unfold mask_below in H. lia.
Qed.

Lemma bor_lane (n s i : Z) :
  mask_below n s -> 0 <= n <= i -> i < 30 -> Js.bor s (Js.shl 1 i) = s + 2 ^ i.
Proof.
  intros Hs Hn Hi. unfold Js.bor.
  rewrite shl_1 by lia.
  assert (Hp := pow2_le_30 i ltac:(lia)).
  rewrite (toInt32_small s) by (apply (mask_below_int32 n); [assumption | lia]).
  rewrite (toInt32_small (2 ^ i)) by lia.
  apply lor_pow2_fresh; [| lia].
  apply (mask_below_mono n i); [assumption | lia].
Qed.

Lemma mask_below_add (n s i : Z) :
  mask_below n s -> 0 <= n <= i -> mask_below (i + 1) (s + 2 ^ i).
Proof.
  intros Hs Hn. apply (mask_below_mono n i) in Hs; [| lia].
  unfold mask_below in *. replace (i + 1) with (Z.succ i) by lia.
  rewrite Z.pow_succ_r by lia. lia.
Qed.

Lemma testbit_add_lane (n s i j : Z) :
  mask_below n s -> 0 <= n <= i -> 0 <= j ->
  Z.testbit (s + 2 ^ i) j = Z.testbit s j || (i =? j).
Proof.
  intros Hs Hn Hj.
  apply (mask_below_mono n i) in Hs; [| lia]. unfold mask_below in Hs.
  rewrite <- lor_pow2_fresh by lia.
  rewrite Z.lor_spec, Z.pow2_bits_eqb by lia. reflexivity.
Qed.

Lemma lanes_of_add (n s i : Z) (p : Z -> bool) :
  mask_below n s -> 0 <= n <= i -> lanes_of s p -> p i = true ->
  lanes_of (s + 2 ^ i) p.
Proof.
  intros Hs Hn Hl Hp j Hj. rewrite (testbit_add_lane n) by assumption.
  intros H. apply orb_true_iff in H. destruct H as [H | H].
  - apply Hl; assumption.
  - apply Z.eqb_eq in H. subst. assumption.
Qed.

Lemma popcount_add_lane (n s i : Z) :
  mask_below n s -> 0 <= n <= i -> popcount (s + 2 ^ i) = popcount s + 1.
Proof.
  intros Hs Hn. apply (mask_below_mono n i) in Hs; [| lia].
  unfold mask_below in Hs.
  assert (Hi : i = Z.of_nat (Z.to_nat i)) by lia.
  revert Hs. rewrite Hi. apply popcount_add_pow2.
Qed.

Lemma roles_add_source (i : Z) (src tgt : Z -> bool) (r : Roles) :
  roles_inv i src tgt r -> 0 <= i < 30 -> src i = true ->
  roles_inv (i + 1) src tgt
            (mkRoles (Js.bor (r_sources r) (Js.shl 1 i)) (r_targets r) (r_available r + 1)).
Proof.
  intros (Hs & Ht & Hp & Hls & Hlt) Hi Hsrc. unfold roles_inv; simpl.
  rewrite (bor_lane i) by (assumption || lia).
  split; [| split; [| split; [| split]]].
  - apply (mask_below_add i); assumption || lia.
  - apply (mask_below_mono i); assumption || lia.
  - rewrite (popcount_add_lane i) by (assumption || lia). lia.
  - apply (lanes_of_add i); assumption || lia.
  - assumption.
Qed.

Lemma roles_add_target (i : Z) (src tgt : Z -> bool) (r : Roles) :
  roles_inv i src tgt r -> 0 <= i < 30 -> tgt i = true ->
  roles_inv (i + 1) src tgt
            (mkRoles (r_sources r) (Js.bor (r_targets r) (Js.shl 1 i)) (r_available r)).
Proof.
  intros (Hs & Ht & Hp & Hls & Hlt) Hi Htgt. unfold roles_inv; simpl.
  rewrite (bor_lane i) by (assumption || lia).
  split; [| split; [| split; [| split]]].
  - apply (mask_below_mono i); assumption || lia.
  - apply (mask_below_add i); assumption || lia.
  - assumption.
  - assumption.
  - apply (lanes_of_add i); assumption || lia.
Qed.

Lemma roles_skip (i : Z) (src tgt : Z -> bool) (r : Roles) :
  roles_inv i src tgt r -> 0 <= i -> roles_inv (i + 1) src tgt r.
Proof.
  intros (Hs & Ht & Hp & Hls & Hlt) Hi.
  split; [| split; [| split; [| split]]]; try assumption;
    apply (mask_below_mono i); assumption || lia.
Qed.

Lemma roles_disjoint (n : Z) (src tgt : Z -> bool) (r : Roles) :
  roles_inv n src tgt r -> 0 <= n <= 30 ->
  (forall j, src j = true -> tgt j = true -> False) ->
  Js.band (r_sources r) (r_targets r) = 0.
Proof.
  intros (Hs & Ht & Hp & Hls & Hlt) Hn Hx. unfold Js.band.
  rewrite !toInt32_small by (eapply mask_below_int32; eassumption).
  apply Z.bits_inj'. intros j Hj.
  rewrite Z.land_spec, Z.bits_0.
  destruct (Z.testbit (r_sources r) j) eqn:E1; [| reflexivity].
  destruct (Z.testbit (r_targets r) j) eqn:E2; [| reflexivity].
  exfalso. apply (Hx j); [apply Hls | apply Hlt]; assumption.
Qed.

(** ** Arrays of lanes *)

Lemma present_spec {A : Type} (arr : list (option A)) (i : nat) :
  present arr (Z.of_nat i)
  = match nth_error arr i with Some (Some _) => true | _ => false end.
Proof.
  unfold present. destruct (Z.ltb_spec (Z.of_nat i) 0); [lia |].
  rewrite Nat2Z.id. reflexivity.
Qed.

Lemma present_app_l {A : Type} (a b : list (option A)) (i : Z) :
  0 <= i < Z.of_nat (List.length a) -> present (a ++ b) i = present a i.
Proof.
  intros H. rewrite <- (Z2Nat.id i) by lia. rewrite !present_spec.
  rewrite nth_error_app1 by lia. reflexivity.
Qed.

Lemma present_app_r {A : Type} (a b : list (option A)) (i : Z) :
  0 <= i -> present (a ++ b) (Z.of_nat (List.length a) + i) = present b i.
Proof.
  intros H. rewrite <- (Z2Nat.id i) by lia. rewrite <- Nat2Z.inj_add.
  rewrite !present_spec. rewrite nth_error_app2 by lia.
  replace (List.length a + Z.to_nat i - List.length a)%nat with (Z.to_nat i) by lia.
  reflexivity.
Qed.

Lemma count_present_nonneg {A : Type} (arr : list (option A)) : 0 <= count_present arr.
Proof. unfold count_present. lia. Qed.

Lemma count_present_le_length {A : Type} (arr : list (option A)) :
  count_present arr <= Z.of_nat (List.length arr).
Proof.
  unfold count_present. apply Nat2Z.inj_le. apply filter_length_le.
Qed.

Lemma count_present_app {A : Type} (a b : list (option A)) :
  count_present (a ++ b) = count_present a + count_present b.
Proof. unfold count_present. rewrite filter_app, length_app. lia. Qed.

Lemma count_present_firstn_le {A : Type} (arr : list (option A)) (i : nat) :
  count_present (firstn i arr) <= count_present arr.
Proof.
  rewrite <- (firstn_skipn i arr) at 2. rewrite count_present_app.
  assert (H := count_present_nonneg (skipn i arr)). lia.
Qed.

Lemma count_present_firstn_succ {A : Type} (arr : list (option A)) (i : nat) :
  (i < List.length arr)%nat ->
  count_present (firstn (S i) arr)
  = count_present (firstn i arr) + (if present arr (Z.of_nat i) then 1 else 0).
Proof.
  revert i. induction arr as [| x arr IH]; intros i H; simpl in H; [lia |].
  destruct i as [| i].
  - rewrite present_spec. simpl. destruct x; reflexivity.
  - rewrite present_spec. simpl nth_error. rewrite <- present_spec.
    specialize (IH i ltac:(lia)).
    change (firstn (S (S i)) (x :: arr)) with (x :: firstn (S i) arr).
    change (firstn (S i) (x :: arr)) with (x :: firstn i arr).
    change (x :: firstn (S i) arr) with ([x] ++ firstn (S i) arr).
    change (x :: firstn i arr) with ([x] ++ firstn i arr).
    rewrite !count_present_app. lia.
Qed.

Lemma count_present_step {A : Type} (arr : list (option A)) (i : Z) :
  0 <= i < Z.of_nat (List.length arr) ->
  count_present (firstn (Z.to_nat (i + 1)) arr)
  = count_present (firstn (Z.to_nat i) arr) + (if present arr i then 1 else 0).
Proof.
  intros H. replace (Z.to_nat (i + 1)) with (S (Z.to_nat i)) by lia.
  rewrite count_present_firstn_succ by lia. rewrite Z2Nat.id by lia. reflexivity.
Qed.

Lemma roles_inv_mono (n n' : Z) (src tgt : Z -> bool) (r : Roles) :
  roles_inv n src tgt r -> 0 <= n <= n' -> roles_inv n' src tgt r.
Proof.
  intros (Hs & Ht & Hp & Hls & Hlt) Hn.
  split; [| split; [| split; [| split]]]; try assumption;
    apply (mask_below_mono n); assumption.
Qed.

(** ** Role selection of [decode] *)

Section DecodeRoles.

Variables dataStreams parityStreams : list (option Readable).

Let K := Z.of_nat (List.length dataStreams).
Let M := Z.of_nat (List.length parityStreams).
Let src := present (dataStreams ++ parityStreams).
Let tgt := fun j => negb (present (dataStreams ++ parityStreams) j).

Hypothesis lanes_fit : K + M <= 30.

Lemma scanData_spec (fuel : nat) :
  forall i r,
    0 <= i -> i + Z.of_nat fuel = K ->
    roles_inv i src tgt r ->
    r_available r = count_present (firstn (Z.to_nat i) dataStreams) ->
    roles_inv K src tgt (Decode.scanData fuel i K dataStreams r)
    /\ r_available (Decode.scanData fuel i K dataStreams r) = count_present dataStreams.
Proof.
  induction fuel as [| fuel IH]; intros i r Hi Hfuel Hinv Hav.
  - simpl. assert (i = K) by lia. subst i. split; [assumption |].
    rewrite Hav. unfold K. rewrite Nat2Z.id, firstn_all. reflexivity.
  - assert (HiK : i < K) by lia.
    assert (Hm : 0 <= M) by (unfold M; lia).
    assert (Hstep := count_present_step dataStreams i ltac:(fold K; lia)).
    assert (Happ : src i = present dataStreams i).
    { unfold src. apply present_app_l. fold K. lia. }
    simpl. destruct (Z.ltb_spec i K); [| lia].
    destruct (present dataStreams i) eqn:Ep.
    + assert (Hinv1 := roles_add_source i src tgt r Hinv ltac:(lia) ltac:(congruence)).
      destruct (Z.eqb_spec (r_available r + 1) K) as [Heq | Hne].
      * split; [apply (roles_inv_mono (i + 1)); [assumption | lia] |].
        simpl.
        assert (H1 := count_present_firstn_le dataStreams (Z.to_nat (i + 1))).
        assert (H2 := count_present_le_length dataStreams). fold K in H2. lia.
      * apply IH; try lia; [assumption |]. simpl. lia.
    + apply IH; try lia.
      * apply roles_add_target; [assumption | lia |].
        unfold tgt. fold src. rewrite Happ. reflexivity.
      * simpl. lia.
Qed.

Lemma scanParity_spec (a0 : Z) (fuel : nat) :
  forall i r,
    0 <= i -> i + Z.of_nat fuel = M ->
    roles_inv (K + i) src tgt r ->
    r_available r < K ->
    r_available r = a0 + count_present (firstn (Z.to_nat i) parityStreams) ->
    roles_inv (K + M) src tgt (Decode.scanParity fuel i K M parityStreams r)
    /\ r_available (Decode.scanParity fuel i K M parityStreams r)
       = Z.min K (a0 + count_present parityStreams).
Proof.
  induction fuel as [| fuel IH]; intros i r Hi Hfuel Hinv Hlt Hav.
  - simpl. assert (i = M) by lia. subst i. split; [assumption |].
    revert Hav. unfold M. rewrite Nat2Z.id, firstn_all. lia.
  - assert (HiM : i < M) by lia.
    assert (Hk : 0 <= K) by (unfold K; lia).
    assert (Hstep := count_present_step parityStreams i ltac:(fold M; lia)).
    assert (Happ : src (K + i) = present parityStreams i).
    { unfold src, K. apply present_app_r. lia. }
    simpl. destruct (Z.ltb_spec i M); [| lia].
    destruct (present parityStreams i) eqn:Ep.
    + assert (Hinv1 := roles_add_source (K + i) src tgt r Hinv ltac:(lia) ltac:(congruence)).
      replace (K + i + 1) with (K + (i + 1)) in Hinv1 by lia.
      destruct (Z.eqb_spec (r_available r + 1) K) as [Heq | Hne].
      * split; [apply (roles_inv_mono (K + (i + 1))); [assumption | lia] |].
        simpl.
        assert (H1 := count_present_firstn_le parityStreams (Z.to_nat (i + 1))). lia.
      * apply IH; try lia; [assumption | simpl; lia | simpl; lia].
    + apply IH; try lia.
      apply (roles_inv_mono (K + i)); [assumption | lia].
Qed.

Lemma decode_roles_spec :
  roles_inv (K + M) src tgt (Decode.getPartRoles dataStreams parityStreams)
  /\ r_available (Decode.getPartRoles dataStreams parityStreams)
     = Z.min K (count_present (dataStreams ++ parityStreams)).
Proof.
  assert (Hk : 0 <= K) by (unfold K; lia).
  assert (Hm : 0 <= M) by (unfold M; lia).
  assert (H0 : roles_inv 0 src tgt (mkRoles 0 0 0)).
  { unfold roles_inv, mask_below, lanes_of. simpl.
    repeat split; try lia; intros j _; rewrite Z.bits_0; discriminate. }
  destruct (scanData_spec (Z.to_nat K) 0 (mkRoles 0 0 0)) as [Hinv Hav];
    try lia; try assumption; try reflexivity.
  unfold Decode.getPartRoles. fold K M.
  set (r := Decode.scanData (Z.to_nat K) 0 K dataStreams (mkRoles 0 0 0)) in *.
  rewrite count_present_app.
  assert (Hle := count_present_le_length dataStreams). fold K in Hle.
  assert (Hp := count_present_nonneg parityStreams).
  destruct (Z.ltb_spec (r_available r) K) as [Hlt | Hge].
  - apply (scanParity_spec (count_present dataStreams)); try lia.
    + replace (K + 0) with K by lia. assumption.
    + simpl. unfold count_present at 2. simpl. lia.
  - split; [apply (roles_inv_mono K); [assumption | lia] | lia].
Qed.

End DecodeRoles.


(** ** Role selection of [repair] *)

Lemma mask_of_add (i t : Z) (p : Z -> bool) :
  mask_of i p t -> 0 <= i -> p i = true -> mask_of (i + 1) p (t + 2 ^ i).
Proof.
  intros [Hm Hb] Hi Hp. split.
  - apply (mask_below_add i); [assumption | lia].
  - intros j Hj. rewrite (testbit_add_lane i) by (assumption || lia).
    destruct (Z.eqb_spec i j) as [<- | Hne].
    + rewrite Hp. apply orb_true_r.
    + rewrite orb_false_r. apply Hb. lia.
Qed.

Lemma mask_of_skip (i t : Z) (p : Z -> bool) :
  mask_of i p t -> 0 <= i -> p i = false -> mask_of (i + 1) p t.
Proof.
  intros [Hm Hb] Hi Hp. split.
  - apply (mask_below_mono i); [assumption | lia].
  - intros j Hj. destruct (Z.eq_dec j i) as [-> | Hne].
    + rewrite Hp. apply (testbit_above t i); [exact Hm | lia].
    + apply Hb. lia.
Qed.

Section RepairRoles.

Context {A B : Type}.
Variables K M : Z.
Variable istreams : list (option A).
Variable ostreams : list (option B).

Let src := present istreams.
Let any := fun _ : Z => true.

Hypothesis K_nonneg : 0 <= K.
Hypothesis lanes_fit : K + M <= 30.
Hypothesis istreams_length : K + M = Z.of_nat (List.length istreams).

Lemma scanInputs_spec (fuel : nat) :
  forall i s a,
    0 <= i -> i + Z.of_nat fuel = K + M ->
    roles_inv i src any (mkRoles s 0 a) ->
    a = Z.min K (count_present (firstn (Z.to_nat i) istreams)) ->
    roles_inv (K + M) src any
              (mkRoles (fst (Repair.scanInputs fuel i K M istreams s a)) 0
                       (snd (Repair.scanInputs fuel i K M istreams s a)))
    /\ snd (Repair.scanInputs fuel i K M istreams s a) = Z.min K (count_present istreams).
Proof.
  induction fuel as [| fuel IH]; intros i s a Hi Hfuel Hinv Hav.
  - simpl. assert (i = K + M) by lia. subst i. split; [assumption |].
    rewrite Hav, istreams_length, Nat2Z.id, firstn_all. reflexivity.
  - assert (HiM : i < K + M) by lia.
    assert (Hstep := count_present_step istreams i ltac:(lia)).
    assert (Hle := count_present_firstn_le istreams (Z.to_nat i)).
    assert (Hle1 := count_present_firstn_le istreams (Z.to_nat (i + 1))).
    simpl. destruct (Z.ltb_spec i (K + M)); [| lia].
    destruct (present istreams i) eqn:Ep.
    + destruct (Z.eqb_spec a K) as [Heq | Hne].
      * simpl. split; [apply (roles_inv_mono i); [assumption | lia] | lia].
      * apply IH; try lia.
        apply (roles_add_source i src any (mkRoles s 0 a)); [assumption | lia | exact Ep].
    + apply IH; try lia.
      apply (roles_inv_mono i); [assumption | lia].
Qed.

Lemma scanOutputs_spec (fuel : nat) :
  forall i t,
    0 <= i -> i + Z.of_nat fuel = K + M ->
    mask_of i (present ostreams) t ->
    mask_of (K + M) (present ostreams) (Repair.scanOutputs fuel i K M ostreams t).
Proof.
  induction fuel as [| fuel IH]; intros i t Hi Hfuel Hm.
  - simpl. assert (i = K + M) by lia. subst i. assumption.
  - simpl. destruct (Z.ltb_spec i (K + M)); [| lia].
    apply IH; try lia.
    destruct (present ostreams i) eqn:Ep.
    + rewrite (bor_lane i) by (try lia; apply Hm).
      apply mask_of_add; assumption.
    + apply mask_of_skip; assumption.
Qed.

Lemma repair_roles_spec :
  let r := Repair.getPartRoles K M istreams ostreams in
  mask_below (K + M) (r_sources r)
  /\ lanes_of (r_sources r) (present istreams)
  /\ popcount (r_sources r) = r_available r
  /\ r_available r = Z.min K (count_present istreams)
  /\ mask_of (K + M) (present ostreams) (r_targets r).
Proof.
  unfold Repair.getPartRoles.
  assert (H0 : roles_inv 0 src any (mkRoles 0 0 0)).
  { unfold roles_inv, mask_below, lanes_of. simpl.
    repeat split; try lia; intros j _; rewrite Z.bits_0; discriminate. }
  destruct (scanInputs_spec (Z.to_nat (K + M)) 0 0 0) as [Hinv Hav];
    try lia; try assumption.
  { simpl. unfold count_present. simpl. lia. }
  destruct (Repair.scanInputs (Z.to_nat (K + M)) 0 K M istreams 0 0) as [s a].
  simpl in *. destruct Hinv as (Hs & _ & Hp & Hl & _). simpl in *.
  repeat (split; [assumption |]).
  apply scanOutputs_spec; try lia.
  split; [unfold mask_below; simpl; lia | intros j Hj; lia].
Qed.

Lemma repair_roles_disjoint :
  let r := Repair.getPartRoles K M istreams ostreams in
  Js.band (r_sources r) (r_targets r) = 0
  <-> (forall j, 0 <= j -> Z.testbit (r_sources r) j = true -> present ostreams j = false).
Proof.
  intros r. destruct repair_roles_spec as (Hs & Hl & _ & _ & Ht & Hb). fold r in Hs, Hl, Ht, Hb.
  assert (HKM : 0 <= K + M) by lia.
  unfold Js.band.
  rewrite !toInt32_small by (eapply mask_below_int32; [eassumption | lia]).
  split.
  - intros H j Hj Hbit.
    destruct (Z.ltb_spec j (K + M)) as [Hlt | Hge].
    + rewrite <- Hb by lia.
      assert (Hz : Z.testbit (Z.land (r_sources r) (r_targets r)) j = false)
        by (rewrite H; apply Z.bits_0).
      rewrite Z.land_spec, Hbit in Hz. exact Hz.
    + rewrite (testbit_above (r_sources r) (K + M) j) in Hbit by (assumption || lia).
      discriminate.
  - intros H. apply Z.bits_inj'. intros j Hj. rewrite Z.land_spec, Z.bits_0.
    destruct (Z.testbit (r_sources r) j) eqn:E; [| reflexivity]. simpl.
    destruct (Z.ltb_spec j (K + M)) as [Hlt | Hge].
    + rewrite Hb by lia. apply H; assumption.
    + apply (testbit_above _ (K + M)); [exact Ht | lia].
Qed.

End RepairRoles.

(** ** Roles of [encode] *)

Lemma encode_sources_eq (k : Z) : 0 <= k <= 30 -> Encode.sources k = 2 ^ k - 1.
Proof. intros H. unfold Encode.sources. rewrite shl_1 by lia. reflexivity. Qed.

Lemma encode_targets_eq (k m : Z) :
  0 <= k -> 0 <= m -> k + m <= 30 -> Encode.targets k m = Z.shiftl (2 ^ m - 1) k.
Proof.
  intros Hk Hm Hkm. unfold Encode.targets, Js.shl at 1.
  rewrite shl_1 by lia.
  assert (Hpm := pow2_le_30 m ltac:(lia)).
  rewrite (toInt32_small (2 ^ m - 1)) by lia.
  rewrite Z.mod_small by lia.
  apply toInt32_small. rewrite Z.shiftl_mul_pow2 by lia.
  assert (Hpk := pow2_le_30 k ltac:(lia)).
  assert (Hpkm := pow2_le_30 (k + m) ltac:(lia)).
  rewrite Z.pow_add_r in Hpkm by lia. nia.
Qed.

Lemma encode_roles_spec (k m : Z) :
  0 <= k -> 0 <= m -> k + m <= 30 ->
  popcount (Encode.sources k) = k
  /\ Js.band (Encode.sources k) (Encode.targets k m) = 0.
Proof.
  intros Hk Hm Hkm.
  assert (Hpk := pow2_le_30 k ltac:(lia)).
  assert (Hpm := pow2_le_30 m ltac:(lia)).
  assert (Hpkm := pow2_le_30 (k + m) ltac:(lia)).
  rewrite Z.pow_add_r in Hpkm by lia.
  split.
  - rewrite encode_sources_eq by lia.
    rewrite <- (Z2Nat.id k) at 1 2 by lia. rewrite popcount_ones. lia.
  - unfold Js.band. rewrite encode_sources_eq, encode_targets_eq by lia.
    rewrite (toInt32_small (2 ^ k - 1)) by lia.
    rewrite (toInt32_small (Z.shiftl _ _))
      by (rewrite Z.shiftl_mul_pow2 by lia; nia).
    replace (2 ^ k - 1) with (Z.ones k) by (rewrite Z.ones_equiv; lia).
    apply Z.bits_inj'. intros j Hj.
    rewrite Z.land_spec, Z.bits_0, Z.testbit_ones_nonneg by lia.
    destruct (Z.ltb_spec j k) as [Hlt | Hge]; [| reflexivity].
    rewrite Z.shiftl_spec by lia. rewrite Z.testbit_neg_r by lia. reflexivity.
Qed.

(** C3 (as amended). For code parameters in range, the roles of [encode] and
    the roles [decode] computes when at least [k] lanes are available have
    exactly [k] sources and no lane that is both source and target. The
    roles [repair] computes when at least [k] inputs are available have
    exactly [k] sources as well, but its targets are the lanes with an
    output, wherever the caller put them: sources and targets are disjoint
    exactly when no output sits on a lane chosen as a source, which is the
    case when outputs are requested only on lanes without an input. *)
Theorem role_bitfields (dataStreams parityStreams istreams : list (option Readable))
        (ostreams : list (option Writable)) :
  let k := Z.of_nat (List.length dataStreams) in
  let m := Z.of_nat (List.length parityStreams) in
  0 < k <= MAX_K -> 0 < m <= MAX_M -> k + m = Z.of_nat (List.length istreams) ->
  (popcount (Encode.sources k) = k
   /\ Js.band (Encode.sources k) (Encode.targets k m) = 0)
  /\ (k <= count_present (dataStreams ++ parityStreams) ->
      let r := Decode.getPartRoles dataStreams parityStreams in
      popcount (r_sources r) = k /\ Js.band (r_sources r) (r_targets r) = 0)
  /\ (k <= count_present istreams ->
      let r := Repair.getPartRoles k m istreams ostreams in
      popcount (r_sources r) = k
      /\ (Js.band (r_sources r) (r_targets r) = 0
          <-> forall j, 0 <= j -> Z.testbit (r_sources r) j = true ->
                        present ostreams j = false)
      /\ ((forall j, present ostreams j = true -> present istreams j = false) ->
          Js.band (r_sources r) (r_targets r) = 0)).
Proof.
  intros k m Hk Hm Hlen.
  assert (Hk' : k <= 24) by (unfold MAX_K in Hk; lia).
  assert (Hm' : m <= 6) by (unfold MAX_M in Hm; lia).
  split; [apply encode_roles_spec; lia |]. split.
  - intros Hav r.
    destruct (decode_roles_spec dataStreams parityStreams ltac:(fold k m; lia))
      as [Hinv Ha].
    fold k m r in Hinv, Ha. split.
    + destruct Hinv as (_ & _ & Hp & _). lia.
    + apply (roles_disjoint (k + m) _ _ r Hinv); [lia |].
      intros j H1 H2. rewrite H1 in H2. discriminate.
  - intros Hav r.
    destruct (repair_roles_spec k m istreams ostreams) as (Hs & Hl & Hp & Ha & Ht);
      try lia.
    fold r in Hs, Hl, Hp, Ha, Ht.
    assert (Hiff := repair_roles_disjoint k m istreams ostreams
                      ltac:(lia) ltac:(lia) Hlen).
    fold r in Hiff.
    split; [lia |]. split; [exact Hiff |].
    intros Hx. apply Hiff. intros j Hj Hbit.
    destruct (present ostreams j) eqn:Eo; [| reflexivity].
    specialize (Hx j Eo). rewrite (Hl j Hj Hbit) in Hx. discriminate.
Qed.

Lemma role_bitfields_witness :
  (popcount (Encode.sources 2) = 2
   /\ Js.band (Encode.sources 2) (Encode.targets 2 1) = 0)
  /\ (2 <= count_present ([aStream; None] ++ [aStream]) ->
      let r := Decode.getPartRoles [aStream; None] [aStream] in
      popcount (r_sources r) = 2 /\ Js.band (r_sources r) (r_targets r) = 0)
  /\ (2 <= count_present [aStream; None; aStream] ->
      let r := Repair.getPartRoles 2 1 [aStream; None; aStream] [None; aSink; None] in
      popcount (r_sources r) = 2
      /\ (Js.band (r_sources r) (r_targets r) = 0
          <-> forall j, 0 <= j -> Z.testbit (r_sources r) j = true ->
                        present [None; aSink; None] j = false)
      /\ ((forall j, present [None; aSink; None] j = true ->
                      present [aStream; None; aStream] j = false) ->
          Js.band (r_sources r) (r_targets r) = 0)).
Proof.
  apply (role_bitfields [aStream; None] [aStream] [aStream; None; aStream]
                        [None; aSink; None]);
    unfold MAX_K, MAX_M; cbn; lia.
Defined.

(** C3, counterexample. A repair of RS(2,1) with every input available and
    an output requested on lane 0 proceeds, and lane 0 is both source and
    target. *)
Lemma repair_roles_overlap :
  exists w,
    repair noJunk 2 1 [aStream; aStream; aStream] [aSink; None; None] 16 8 = Ok w
    /\ inputError (ctx w) = None
    /\ ~ (popcount (sources (ctx w)) = 2
          /\ Js.band (sources (ctx w)) (targets (ctx w)) = 0).
Proof.
  eexists. split; [vm_compute; reflexivity |]. split; [reflexivity |].
  intros [_ H]. vm_compute in H. discriminate.
Qed.

(** The role assertions of [test/decode.test.js]. *)
Example roles_not_enough :
  Decode.getPartRoles [None; aStream; aStream; None] [aStream; None]
  = mkRoles (2 + 4 + 16) (1 + 8) 3.
Proof. reflexivity. Qed.

Example roles_one_data_one_parity :
  Decode.getPartRoles [aStream; None] [aStream] = mkRoles (1 + 4) 2 2.
Proof. reflexivity. Qed.

Example roles_second_data_and_parity :
  Decode.getPartRoles [None; aStream] [aStream] = mkRoles (2 + 4) 1 2.
Proof. reflexivity. Qed.

Example roles_encode_24_6 :
  (Encode.sources 24, Encode.targets 24 6) = (0xFFFFFF, 0x3F000000).
Proof. reflexivity. Qed.


(** ** Buffers and streams *)

Lemma stream_read_length (n : Z) (s s' : Readable) (chunk : bytes) :
  stream_read n s = (Some chunk, s') -> Z.of_nat (List.length chunk) <= n.
Proof.
  unfold stream_read. intros H.
  destruct (Z.leb_spec n 0); [discriminate |].
  destruct (Z.leb_spec n (Z.of_nat (List.length (buffered s)))).
  - inversion H; subst. rewrite length_firstn. lia.
  - destruct (ended s); [| discriminate].
    destruct (buffered s) eqn:E; [discriminate |].
    inversion H; subst. lia.
Qed.

Lemma buf_copy_length (src target : bytes) (off : Z) :
  List.length (fst (buf_copy src target off)) = List.length target.
Proof.
  unfold buf_copy. simpl. rewrite !length_app, !length_firstn, length_skipn. lia.
Qed.

Lemma buf_copy_fits (src target : bytes) (off : Z) :
  0 <= off -> off + Z.of_nat (List.length src) <= Z.of_nat (List.length target) ->
  snd (buf_copy src target off) = Z.of_nat (List.length src).
Proof. unfold buf_copy. simpl. intros. lia. Qed.

Lemma heap_bytes_length (junk : nat -> Byte.byte) (n : Z) :
  List.length (heap_bytes junk n) = Z.to_nat n.
Proof. unfold heap_bytes. rewrite length_map, length_seq. reflexivity. Qed.

(** Allocation succeeds exactly on sizes that are not negative, and a new
    stripe is then the context with fresh buffers. *)
Lemma allocUnsafe_ok (junk : nat -> Byte.byte) (n : Z) :
  0 <= n -> allocUnsafe junk n = Ok (heap_bytes junk n).
Proof.
  intros H. unfold allocUnsafe. destruct (Z.ltb_spec n 0); [lia | reflexivity].
Qed.

Lemma allocUnsafe_throws (junk : nat -> Byte.byte) (n : Z) :
  n < 0 -> allocUnsafe junk n = Throw RangeError.
Proof.
  intros H. unfold allocUnsafe. destruct (Z.ltb_spec n 0); [reflexivity | lia].
Qed.

Lemma newStripe_ok (junk : nat -> Byte.byte) (c : DencodeContext) :
  0 <= data_size c -> 0 <= parity_size c ->
  Context.newStripe junk c = Ok (next_stripe junk c).
Proof.
  intros Hd Hp. unfold Context.newStripe. cbv zeta.
  cbn [data_size parity_size set_waiting set_dataBuffer].
  rewrite (allocUnsafe_ok junk _ Hd). cbn [bind].
  rewrite (allocUnsafe_ok junk _ Hp). reflexivity.
Qed.

Lemma newStripe_throws (junk : nat -> Byte.byte) (c : DencodeContext) :
  data_size c < 0 \/ parity_size c < 0 ->
  Context.newStripe junk c = Throw RangeError.
Proof.
  intros H. unfold Context.newStripe. cbv zeta.
  cbn [data_size parity_size set_waiting set_dataBuffer].
  destruct (Z.lt_ge_cases (data_size c) 0) as [A | A].
  - rewrite (allocUnsafe_throws junk _ A). reflexivity.
  - rewrite (allocUnsafe_ok junk (data_size c)) by lia. cbn [bind].
    rewrite (allocUnsafe_throws junk (parity_size c)) by lia. reflexivity.
Qed.

Lemma newStripe_inv (junk : nat -> Byte.byte) (c c' : DencodeContext) :
  Context.newStripe junk c = Ok c' ->
  c' = next_stripe junk c /\ 0 <= data_size c /\ 0 <= parity_size c.
Proof.
  intros H.
  destruct (Z.lt_ge_cases (data_size c) 0) as [A | A];
    [rewrite newStripe_throws in H by (left; exact A); discriminate |].
  destruct (Z.lt_ge_cases (parity_size c) 0) as [B | B];
    [rewrite newStripe_throws in H by (right; exact B); discriminate |].
  rewrite newStripe_ok in H by lia. injection H as <-.
  split; [reflexivity | split; lia].
Qed.

Lemma geometry_sizes (c : DencodeContext) :
  geometry_ok c -> 0 <= data_size c /\ 0 <= parity_size c.
Proof. intros (A & B & C & D & E). rewrite D, E. split; nia. Qed.

(** [unref] with sizes that are not negative, which is how a context is
    built. *)
Lemma unref_next (junk : nat -> Byte.byte) (listener : nat -> World -> Outcome World)
      (w : World) :
  0 <= data_size (ctx w) -> 0 <= parity_size (ctx w) ->
  Context.unref junk listener w
  = let w1 := upd_ctx (fun c => set_processedStripe (processedStripe c + 1)
                                  (set_inFlight false c)) w in
    if is_nStripe (processedStripe (ctx w1)) (ctx w1) then
      Ok (log_all (map Emit_end (live (ostreams (ctx w1)))) w1)
    else
      Context.wake listener (live (istreams (ctx w1))) (upd_ctx (next_stripe junk) w1).
Proof.
  intros Hd Hp. unfold Context.unref. cbv zeta.
  destruct (is_nStripe _ _); [reflexivity |].
  rewrite newStripe_ok by (destruct w as [[]]; assumption).
  reflexivity.
Qed.

(** An [unref] that returns has allocated, if it had to. *)
Lemma unref_inv (junk : nat -> Byte.byte) (listener : nat -> World -> Outcome World)
      (w w' : World) :
  Context.unref junk listener w = Ok w' ->
  (let w1 := upd_ctx (fun c => set_processedStripe (processedStripe c + 1)
                                 (set_inFlight false c)) w in
   if is_nStripe (processedStripe (ctx w1)) (ctx w1) then
     Ok (log_all (map Emit_end (live (ostreams (ctx w1)))) w1)
   else
     Context.wake listener (live (istreams (ctx w1))) (upd_ctx (next_stripe junk) w1))
  = Ok w'.
Proof.
  intros H. unfold Context.unref in H. cbv zeta in *.
  destruct (is_nStripe _ _); [exact H |].
  destruct (Context.newStripe junk _) as [c |] eqn:E; [| discriminate].
  apply newStripe_inv in E. destruct E as (-> & _). exact H.
Qed.

Lemma list_set_length {A : Type} (i : nat) (v : A) (l : list A) :
  List.length (list_set i v l) = List.length l.
Proof.
  revert i. induction l as [| x l IH]; intros [| i]; simpl; try reflexivity.
  rewrite IH. reflexivity.
Qed.

Lemma nth_error_list_set {A : Type} (i j : nat) (v : A) (l : list A) :
  nth_error (list_set i v l) j
  = if Nat.eqb i j then (if Nat.ltb i (List.length l) then Some v else None)
    else nth_error l j.
Proof.
  revert i j. induction l as [| x l IH]; intros i j.
  - simpl. destruct i, j; simpl; try reflexivity.
    destruct (Nat.eqb i j); reflexivity.
  - destruct i as [| i], j as [| j]; simpl; try reflexivity.
    rewrite IH. destruct (Nat.eqb i j); [| reflexivity].
    reflexivity.
Qed.

Lemma present_nth {A : Type} (arr : list (option A)) (i : nat) :
  present arr (Z.of_nat i) = true -> exists s, nth_error arr i = Some (Some s).
Proof.
  rewrite present_spec. destruct (nth_error arr i) as [[s |] |]; try discriminate.
  intros _. exists s. reflexivity.
Qed.

Lemma present_lt {A : Type} (arr : list (option A)) (i : nat) :
  present arr (Z.of_nat i) = true -> (i < List.length arr)%nat.
Proof.
  intros H. destruct (present_nth arr i H) as [s Hs].
  apply nth_error_Some. rewrite Hs. discriminate.
Qed.

Lemma present_list_set {A : Type} (arr : list (option A)) (i : nat) (s s' : A) (j : Z) :
  nth_error arr i = Some (Some s) ->
  present (list_set i (Some s') arr) j = present arr j.
Proof.
  intros H. unfold present. destruct (j <? 0); [reflexivity |].
  rewrite nth_error_list_set.
  destruct (Nat.eqb_spec i (Z.to_nat j)) as [<- | Hne]; [| reflexivity].
  assert (Hlt : (i < List.length arr)%nat) by (apply nth_error_Some; rewrite H; discriminate).
  apply Nat.ltb_lt in Hlt. rewrite Hlt, H. reflexivity.
Qed.


(** ** Handlers keep the operation sound *)

Ltac break_match :=
  match goal with
  | H : context [match ?x with _ => _ end] |- _ =>
      lazymatch x with
      | context [match _ with _ => _ end] => fail
      | _ => destruct x eqn:?
      end
  | |- context [match ?x with _ => _ end] =>
      lazymatch x with
      | context [match _ with _ => _ end] => fail
      | _ => destruct x eqn:?
      end
  end.

Ltac ok_inv :=
  repeat match goal with
         | H : Ok _ = Ok _ |- _ => inversion H; subst; clear H
         | H : Throw _ = Ok _ |- _ => discriminate H
         | H : Ok _ = Throw _ |- _ => discriminate H
         | H : Throw _ = Throw _ |- _ => inversion H; subst; clear H
         | H : (_, _) = (_, _) |- _ => inversion H; subst; clear H
         | H : Some _ = Some _ |- _ => inversion H; subst; clear H
         end.

Lemma fillStripeBuffers_sound (op : Operation) (i : nat) (w : World) :
  op <> Encoding -> sound op w ->
  present (istreams (ctx w)) (Z.of_nat i) = true ->
  exists filled w1,
    fillStripeBuffers i w = Ok (filled, w1)
    /\ sound op w1
    /\ waiting (ctx w1) = waiting (ctx w)
    /\ inFlight (ctx w1) = inFlight (ctx w)
    /\ readers w1 = readers w.
Proof.
  intros Hop (Hg & Hr & Ho & Hb & Hf) Hp.
  destruct (present_nth _ _ Hp) as [s Hs].
  assert (Hlt := present_lt _ _ Hp).
  assert (Hb' : Z.of_nat (List.length (istreams (ctx w))) = k (ctx w) + m (ctx w)
                /\ List.length (dataBuffer (ctx w)) = Z.to_nat (data_size (ctx w))
                /\ List.length (parityBuffer (ctx w)) = Z.to_nat (parity_size (ctx w)))
    by (destruct op; [congruence | exact Hb | exact Hb]).
  destruct Hb' as (Hlen & Hd & Hpar).
  destruct Hg as (HS & Hk & Hm & Hds & Hps).
  unfold fillStripeBuffers. rewrite Hs.
  destruct (stream_read (stripeSize (ctx w)) s) as [[chunk |] s'] eqn:Er.
  - assert (Hc := stream_read_length _ _ _ _ Er).
    destruct (Z.ltb_spec (Z.of_nat i) (k (ctx w))) as [Hik | Hik].
    + destruct (buf_copy chunk (dataBuffer (ctx w)) (Z.of_nat i * stripeSize (ctx w)))
        as [buf copied] eqn:Ec.
      assert (Hfit : copied = Z.of_nat (List.length chunk)).
      { change copied with (snd (buf, copied)). rewrite <- Ec.
        apply buf_copy_fits; [nia |]. rewrite Hd, Hds. nia. }
      assert (Hbl : List.length buf = List.length (dataBuffer (ctx w))).
      { change buf with (fst (buf, copied)). rewrite <- Ec. apply buf_copy_length. }
      rewrite Hfit, Z.eqb_refl. eexists _, _. split; [reflexivity |].
      split; [| simpl; auto].
      split; [simpl; repeat split; assumption |].
      split; [intros j Hj; simpl; erewrite present_list_set by eassumption; apply Hr, Hj |].
      split; [destruct op; try congruence; exact Ho |].
      split; [| exact Hf].
      destruct op; try congruence; simpl; rewrite list_set_length; repeat split; congruence.
    + destruct (buf_copy chunk (parityBuffer (ctx w))
                         ((Z.of_nat i - k (ctx w)) * stripeSize (ctx w)))
        as [buf copied] eqn:Ec.
      assert (Hfit : copied = Z.of_nat (List.length chunk)).
      { change copied with (snd (buf, copied)). rewrite <- Ec.
        apply buf_copy_fits; [nia |]. rewrite Hpar, Hps. nia. }
      assert (Hbl : List.length buf = List.length (parityBuffer (ctx w))).
      { change buf with (fst (buf, copied)). rewrite <- Ec. apply buf_copy_length. }
      rewrite Hfit, Z.eqb_refl. eexists _, _. split; [reflexivity |].
      split; [| simpl; auto].
      split; [simpl; repeat split; assumption |].
      split; [intros j Hj; simpl; erewrite present_list_set by eassumption; apply Hr, Hj |].
      split; [destruct op; try congruence; exact Ho |].
      split; [| exact Hf].
      destruct op; try congruence; simpl; rewrite list_set_length; repeat split; congruence.
  - eexists _, _. split; [reflexivity |].
    split; [| simpl; auto].
    split; [simpl; repeat split; assumption |].
    split; [intros j Hj; simpl; erewrite present_list_set by eassumption; apply Hr, Hj |].
    split; [destruct op; try congruence; exact Ho |].
    split; [| exact Hf].
    destruct op; try congruence; simpl; rewrite list_set_length; repeat split; congruence.
Qed.

Lemma flight_submit (w : World) :
  flight_ok w -> inFlight (ctx w) = false ->
  flight_ok (set_primitive (S (primitive w)) (upd_ctx (set_inFlight true) w)).
Proof.
  intros (J1 & J2 & J3 & J4 & J5) Hf. destruct (J2 Hf) as (P & C & I).
  unfold flight_ok. simpl. rewrite P, C, I.
  repeat split; try lia; try discriminate; intros; congruence.
Qed.

Lemma decodeBufferStep_sound (op : Operation) (i : nat) (w : World) :
  op <> Encoding -> sound op w ->
  present (istreams (ctx w)) (Z.of_nat i) = true ->
  exists w', decodeBufferStep i w = Ok w' /\ sound op w'.
Proof.
  intros Hop Hs Hp. unfold decodeBufferStep, Context.wait.
  destruct (inFlight (ctx w)) eqn:Ef; [eauto |].
  destruct (Js.band (waiting (ctx w)) (Js.shl 1 (Z.of_nat i)) =? 0); [eauto |].
  destruct (fillStripeBuffers_sound op i w Hop Hs Hp)
    as (filled & w1 & -> & Hs1 & Hw1 & Hf1 & Hr1).
  simpl. destruct filled; simpl; [| eauto].
  unfold Context.readyForEncoding, Context.ref, Context.encode, Context.addedToStripe.
  simpl.
  destruct (Js.band (waiting (ctx w1)) (Js.bnot (Js.shl 1 (Z.of_nat i))) =? 0) eqn:Ew.
  - simpl.
    destruct Hs1 as (Hg & Hr & Ho & Hb & Hfl).
    assert (Hfl' := flight_submit w1 Hfl ltac:(congruence)).
    destruct (targets (ctx w1) =? 0); eexists; (split; [reflexivity |]);
      (split; [exact Hg |]); (split; [exact Hr |]);
      (split; [destruct op; try congruence; exact Ho |]);
      (split; [destruct op; try congruence; exact Hb | exact Hfl']).
  - eexists. split; [reflexivity |].
    destruct Hs1 as (Hg & Hr & Ho & Hb & Hfl).
    split; [exact Hg |]. split; [exact Hr |].
    split; [destruct op; try congruence; exact Ho |].
    split; [destruct op; try congruence; exact Hb | exact Hfl].
Qed.

Lemma toInt32_range (z : Z) : - 2 ^ 31 <= Js.toInt32 z < 2 ^ 31.
Proof.
  unfold Js.toInt32.
  assert (H := Z.mod_pos_bound (z + 2 ^ 31) (2 ^ 32) ltac:(lia)). lia.
Qed.

Lemma band_bnot_self (s : Z) : Js.band s (Js.bnot s) = 0.
Proof.
  unfold Js.band, Js.bnot.
  assert (H := toInt32_range s).
  rewrite (toInt32_small (Z.lnot _)) by (unfold Z.lnot; lia).
  apply Z.land_lnot_diag.
Qed.

Lemma band_0_l (x : Z) : Js.band 0 x = 0.
Proof. unfold Js.band. rewrite (toInt32_small 0) by lia. apply Z.land_0_l. Qed.

Lemma encodeBufferStep_sound (i : nat) (w : World) :
  sound Encoding w ->
  present (istreams (ctx w)) (Z.of_nat i) = true ->
  exists w', encodeBufferStep i w = Ok w' /\ sound Encoding w'.
Proof.
  intros Hs0 Hp. unfold encodeBufferStep, Context.wait.
  destruct (inFlight (ctx w)) eqn:Ef; [eauto |].
  destruct Hs0 as (Hg & Hr & Ho & Hb & Hfl).
  destruct (present_nth _ _ Hp) as [s Hs]. rewrite Hs.
  set (toRead := if is_nStripe (processedStripe (ctx w) + 1) (ctx w)
                 then size (ctx w) - processedStripe (ctx w) * data_size (ctx w)
                 else data_size (ctx w)).
  destruct (stream_read toRead s) as [[dataBytes |] s'] eqn:Er.
  - unfold Context.ref, Context.addedToStripe, Context.encode.
    simpl in Hb.
    assert (Hfl' := flight_submit w Hfl Ef).
    destruct (Z.of_nat (List.length dataBytes) <? data_size (ctx w));
      simpl; rewrite Hb; simpl;
      (destruct (targets (ctx w) =? 0); eexists; (split; [reflexivity |]);
       (split; [exact Hg |]);
       (split; [intros j Hj; simpl; erewrite present_list_set by eassumption;
                apply Hr, Hj |]);
       (split; [exact Ho |]);
       (split; [simpl; rewrite Hb; apply band_0_l | exact Hfl'])).
  - eexists. split; [reflexivity |].
    split; [exact Hg |].
    split; [intros j Hj; simpl; erewrite present_list_set by eassumption; apply Hr, Hj |].
    split; [exact Ho |]. split; [exact Hb | exact Hfl].
Qed.

Lemma listener_sound (op : Operation) (i : nat) (w : World) :
  sound op w -> exists w', listener op i w = Ok w' /\ sound op w'.
Proof.
  intros Hs. unfold listener.
  destruct (existsb (Nat.eqb i) (readers w)) eqn:Ee; [| eauto].
  apply existsb_exists in Ee. destruct Ee as (j & Hj & Hij).
  apply Nat.eqb_eq in Hij. subst j.
  assert (Hp : present (istreams (ctx w)) (Z.of_nat i) = true)
    by (destruct Hs as (_ & Hr & _); apply Hr, Hj).
  destruct op.
  - apply encodeBufferStep_sound; assumption.
  - apply decodeBufferStep_sound; [discriminate | assumption | assumption].
  - apply decodeBufferStep_sound; [discriminate | assumption | assumption].
Qed.

Lemma wake_total (I : World -> Prop) (listen : nat -> World -> Outcome World) :
  (forall i w, I w -> I (log (Emit_readable i) w)) ->
  (forall i w, I w -> exists w', listen i w = Ok w' /\ I w') ->
  forall lanes w, I w -> exists w', Context.wake listen lanes w = Ok w' /\ I w'.
Proof.
  intros Hlog Hl. induction lanes as [| i lanes IH]; intros w Hw; simpl.
  - eauto.
  - destruct (Hl i _ (Hlog i w Hw)) as (w1 & -> & H1). simpl. apply IH, H1.
Qed.

Lemma sound_log (op : Operation) (es : list Effect) (w : World) :
  sound op w -> sound op (log_all es w).
Proof. intros H. exact H. Qed.

Lemma error_sound (op : Operation) (err : Error) (w : World) :
  sound op w -> sound op (Context.error err w).
Proof.
  intros H. unfold Context.error. destruct (inputError (ctx w)); exact H.
Qed.

Lemma unref_sound (junk : nat -> Byte.byte) (op : Operation) (w : World) :
  geometry_ok (ctx w) -> readers_ok w -> outputs_ok op (ctx w) ->
  buffers_ok op (ctx w) ->
  primitive w = 0%nat -> callbacks w = 0%nat -> immediates w = 0%nat ->
  exists w', unref junk op w = Ok w' /\ sound op w'.
Proof.
  intros Hg Hr Ho Hb Hp Hc Hi. unfold unref.
  rewrite unref_next by apply (geometry_sizes _ Hg). cbv zeta.
  assert (Hfl : forall w0, inFlight (ctx w0) = false -> primitive w0 = primitive w ->
                           callbacks w0 = callbacks w -> immediates w0 = immediates w ->
                           flight_ok w0).
  { intros w0 H1 H2 H3 H4. unfold flight_ok. rewrite H1, H2, H3, H4, Hp, Hc, Hi.
    repeat split; try lia; discriminate. }
  match goal with |- context [if ?b then _ else _] => destruct b end.
  - eexists. split; [reflexivity |].
    split; [exact Hg |]. split; [exact Hr |]. split; [destruct op; exact Ho |].
    split; [destruct op; exact Hb | apply Hfl; reflexivity].
  - apply (wake_total (sound op)).
    + intros i w0 H. exact H.
    + intros i w0 H. apply listener_sound, H.
    + split; [exact Hg |]. split; [exact Hr |]. split; [destruct op; exact Ho |].
      split; [| apply Hfl; reflexivity].
      destruct op; simpl in *.
      * apply band_bnot_self.
      * rewrite !heap_bytes_length. tauto.
      * rewrite !heap_bytes_length. tauto.
Qed.

(** *** Dispatch steps *)

Lemma writes_only_refl (w : World) : writes_only w w.
Proof. repeat split. Qed.

Lemma writes_only_trans (w1 w2 w3 : World) :
  writes_only w1 w2 -> writes_only w2 w3 -> writes_only w1 w3.
Proof.
  intros (A1 & A2 & A3 & A4 & A5) (B1 & B2 & B3 & B4 & B5).
  repeat split; congruence.
Qed.

Lemma write_one_spec (bump : Z) (i : nat) (chunk : bytes) (okv : bool) (w : World) :
  let w' := write_one bump i chunk okv w in
  writes_only w w'
  /\ nPending w' - Z.of_nat (callbacks w')
     = nPending w - Z.of_nat (callbacks w) + bump - 2.
Proof.
  unfold write_one. destruct okv; simpl; (split; [repeat split |]); lia.
Qed.

Lemma decodeWrites_spec (chunk : bytes) (okf : nat -> bool) (lanes : list nat) :
  forall w,
    let w' := fold_left (fun w' i => write_one 1 i chunk (okf i) w') lanes w in
    writes_only w w'
    /\ nPending w' - Z.of_nat (callbacks w')
       = nPending w - Z.of_nat (callbacks w) - Z.of_nat (List.length lanes).
Proof.
  induction lanes as [| i lanes IH]; intros w; simpl.
  - split; [apply writes_only_refl | lia].
  - destruct (write_one_spec 1 i chunk (okf i) w) as [H1 H2].
    destruct (IH (write_one 1 i chunk (okf i) w)) as [H3 H4].
    split; [eapply writes_only_trans; eassumption | lia].
Qed.

Lemma encodeWrites_spec (okf : nat -> bool) (lanes : list nat) :
  forall w,
    (forall i, In i lanes -> present (ostreams (ctx w)) (Z.of_nat i) = true) ->
    exists w',
      encodeWrites lanes okf w = Ok w'
      /\ writes_only w w'
      /\ nPending w' - Z.of_nat (callbacks w')
         = nPending w - Z.of_nat (callbacks w) - Z.of_nat (List.length lanes).
Proof.
  induction lanes as [| i lanes IH]; intros w Hp; simpl.
  - exists w. split; [reflexivity |]. split; [apply writes_only_refl | lia].
  - destruct (present_nth _ _ (Hp i (or_introl eq_refl))) as [s ->].
    destruct (write_one_spec 1 i (lane_slice (ctx w) i) (okf i) w) as [H1 H2].
    destruct (IH (write_one 1 i (lane_slice (ctx w) i) (okf i) w)) as (w' & E & H3 & H4).
    { intros j Hj. destruct H1 as (-> & _). apply Hp. right. exact Hj. }
    exists w'. split; [exact E |].
    split; [eapply writes_only_trans; eassumption | lia].
Qed.

Lemma repairWrites_spec (okf : nat -> bool) (lanes : list nat) :
  forall w,
    (forall i, In i lanes ->
               Js.band (targets (ctx w)) (Js.shl 1 (Z.of_nat i)) <> 0 ->
               present (ostreams (ctx w)) (Z.of_nat i) = true) ->
    exists w',
      repairWrites lanes okf w = Ok w'
      /\ writes_only w w'
      /\ nPending w' - Z.of_nat (callbacks w') = nPending w - Z.of_nat (callbacks w).
Proof.
  induction lanes as [| i lanes IH]; intros w Hp; simpl.
  - exists w. split; [reflexivity |]. split; [apply writes_only_refl | lia].
  - destruct (Z.eqb_spec (Js.band (targets (ctx w)) (Js.shl 1 (Z.of_nat i))) 0) as [E0 | E0].
    + apply IH. intros j Hj. apply Hp. right. exact Hj.
    + destruct (present_nth _ _ (Hp i (or_introl eq_refl) E0)) as [s ->].
      destruct (write_one_spec 2 i (lane_slice (ctx w) i) (okf i) w) as [H1 H2].
      destruct (IH (write_one 2 i (lane_slice (ctx w) i) (okf i) w)) as (w' & E & H3 & H4).
      { intros j Hj. destruct H1 as (-> & _). apply Hp. right. exact Hj. }
      exists w'. split; [exact E |].
      split; [eapply writes_only_trans; eassumption | lia].
Qed.

Lemma flushing_sound (op : Operation) (w w' : World) :
  geometry_ok (ctx w) -> readers_ok w -> outputs_ok op (ctx w) ->
  buffers_ok op (ctx w) -> inFlight (ctx w) = true ->
  primitive w = 0%nat -> immediates w = 0%nat ->
  writes_only w w' -> nPending w' = Z.of_nat (callbacks w') ->
  sound op w'.
Proof.
  intros Hg Hr Ho Hb Hf Hp Hi (Ec & Er & _ & Ep & Ei) Hn.
  unfold sound. rewrite Ec.
  split; [exact Hg |]. split; [intros i Hin; rewrite Ec; apply Hr; congruence |].
  split; [exact Ho |]. split; [exact Hb |].
  unfold flight_ok. rewrite Ec, Ep, Ei, Hp, Hi, Hf.
  repeat split; try assumption; try lia; try discriminate.
Qed.


(** *** The primitive *)

Lemma buffers_only_refl (c : DencodeContext) : buffers_only c c.
Proof. destruct c. repeat split. Qed.

Lemma buffers_only_trans (c1 c2 c3 : DencodeContext) :
  buffers_only c1 c2 -> buffers_only c2 c3 -> buffers_only c1 c3.
Proof.
  intros (E1 & A1 & B1) (E2 & A2 & B2).
  split; [| split; congruence].
  rewrite E2 at 1. rewrite E1 at 1. destruct c1; reflexivity.
Qed.

Lemma store_shard_spec (i : nat) (shard : bytes) (c : DencodeContext) :
  buffers_only c (store_shard i shard c).
Proof.
  unfold store_shard. destruct (Z.of_nat i <? k c); destruct c; simpl;
    (split; [reflexivity |]); split; try reflexivity; apply buf_copy_length.
Qed.

Section Primitive.

Variable rs : Z -> Z -> Z -> Z -> bytes -> bytes -> nat -> bytes.

Lemma primitive_result_spec (c : DencodeContext) :
  buffers_only c (primitive_result rs c).
Proof.
  unfold primitive_result.
  generalize (rs (k c) (m c) (sources c) (targets c) (dataBuffer c) (parityBuffer c)).
  intros shard.
  generalize (seq 0 (Z.to_nat (k c + m c))). intros lanes.
  assert (H : forall c0, buffers_only c c0 ->
                         buffers_only c
                           (fold_left (fun c' i => if Z.testbit (targets c) (Z.of_nat i)
                                                   then store_shard i (shard i) c' else c')
                                      lanes c0)).
  { induction lanes as [| i lanes IH]; intros c0 H0; simpl; [exact H0 |].
    apply IH. destruct (Z.testbit (targets c) (Z.of_nat i)); [| exact H0].
    eapply buffers_only_trans; [exact H0 | apply store_shard_spec]. }
  apply H, buffers_only_refl.
Qed.

End Primitive.

Lemma buffers_only_geometry (c c' : DencodeContext) :
  buffers_only c c' -> geometry_ok c -> geometry_ok c'.
Proof. intros (E & _) H. rewrite E. exact H. Qed.

Lemma buffers_only_outputs (op : Operation) (c c' : DencodeContext) :
  buffers_only c c' -> outputs_ok op c -> outputs_ok op c'.
Proof. intros (E & _) H. rewrite E. destruct op; exact H. Qed.

Lemma buffers_only_buffers (op : Operation) (c c' : DencodeContext) :
  buffers_only c c' -> buffers_ok op c -> buffers_ok op c'.
Proof.
  intros (E & L1 & L2) H. destruct op; simpl in *.
  - rewrite E. exact H.
  - rewrite L1, L2. rewrite E. simpl. exact H.
  - rewrite L1, L2. rewrite E. simpl. exact H.
Qed.

Lemma present_list_set_same {A : Type} (arr : list (option A)) (i : nat)
      (x y : option A) (j : Z) :
  nth_error arr i = Some x ->
  (match y with Some _ => true | None => false end)
  = (match x with Some _ => true | None => false end) ->
  present (list_set i y arr) j = present arr j.
Proof.
  intros H Hxy. unfold present. destruct (j <? 0); [reflexivity |].
  rewrite nth_error_list_set.
  destruct (Nat.eqb_spec i (Z.to_nat j)) as [<- | Hne]; [| reflexivity].
  assert (Hlt : (i < List.length arr)%nat) by (apply nth_error_Some; rewrite H; discriminate).
  apply Nat.ltb_lt in Hlt. rewrite Hlt, H.
  destruct x, y; simpl in Hxy; congruence.
Qed.

Lemma map_lane_sound (op : Operation) (f : option Readable -> option Readable)
      (i : nat) (w : World) :
  (forall s, (match f s with Some _ => true | None => false end)
             = (match s with Some _ => true | None => false end)) ->
  sound op w -> sound op (map_lane f i w).
Proof.
  intros Hf Hs. unfold map_lane.
  destruct (nth_error (istreams (ctx w)) i) as [s |] eqn:E; [| exact Hs].
  destruct Hs as (Hg & Hr & Ho & Hb & Hfl).
  split; [exact Hg |].
  split; [intros j Hj; simpl; erewrite present_list_set_same by (try eassumption; apply Hf);
          apply Hr, Hj |].
  split; [destruct op; exact Ho |]. split; [| exact Hfl].
  destruct op; simpl in *; [exact Hb | |]; rewrite list_set_length; exact Hb.
Qed.


Section Soundness.

Variable junk : nat -> Byte.byte.
Variable rs : Z -> Z -> Z -> Z -> bytes -> bytes -> nat -> bytes.

Lemma dispatcher_sound (op : Operation) (err : option Error) (okf : nat -> bool)
      (w : World) :
  geometry_ok (ctx w) -> readers_ok w -> outputs_ok op (ctx w) ->
  buffers_ok op (ctx w) -> inFlight (ctx w) = true ->
  primitive w = 0%nat -> callbacks w = 0%nat -> immediates w = 0%nat ->
  exists w', dispatcher junk op err okf w = Ok w' /\ sound op w'.
Proof.
  intros Hg Hr Ho Hb Hf Hp Hc Hi.
  assert (Herr : forall e, exists w', unref junk op (Context.error e w) = Ok w' /\ sound op w').
  { intros e. apply unref_sound; unfold Context.error;
      destruct (inputError (ctx w)); assumption. }
  destruct op; simpl; destruct err as [e |]; try apply Herr.
  - (* encode *)
    unfold encodeDispatchStep.
    set (n := List.length (ostreams (ctx w))).
    destruct (encodeWrites_spec okf (seq 0 n) (set_nPending (Z.of_nat n) w))
      as (w' & E & Hw & Hn).
    { intros i Hin. apply in_seq in Hin. apply Ho. fold n. lia. }
    exists w'. split; [exact E |].
    apply (flushing_sound Encoding (set_nPending (Z.of_nat n) w)); try assumption.
    simpl in Hn. rewrite length_seq, Hc in Hn. lia.
  - (* decode *)
    unfold decodeDispatchStep. eexists. split; [reflexivity |].
    match goal with
    | |- sound _ (fold_left _ ?lanes (set_nPending ?n w)) =>
        destruct (decodeWrites_spec
                    (if is_nStripe (processedStripe (ctx w) + 1) (ctx w)
                     then buf_slice (dataBuffer (ctx w)) 0
                            (size (ctx w)
                             - processedStripe (ctx w) * stripeSize (ctx w) * k (ctx w))
                     else dataBuffer (ctx w))
                    okf lanes (set_nPending n w)) as [Hw Hn]
    end.
    eapply (flushing_sound Decoding); [.. | exact Hw |]; try assumption.
    simpl in Hn. rewrite Hc in Hn. lia.
  - (* repair *)
    unfold repairDispatchStep.
    destruct (repairWrites_spec okf (seq 0 (List.length (ostreams (ctx w))))
                                (set_nPending 1 w)) as (w' & E & Hw & Hn).
    { intros i Hin. apply in_seq in Hin. apply Ho. lia. }
    rewrite E. simpl. eexists. split; [reflexivity |].
    apply (flushing_sound Repairing (set_nPending 1 w)); try assumption.
    change (nPending w' - 1 = Z.of_nat (callbacks w')).
    change (nPending w' - Z.of_nat (callbacks w') = 1 - Z.of_nat (callbacks w)) in Hn.
    rewrite Hc in Hn. lia.
Qed.

Lemma step_sound (op : Operation) (w : World) (e : Event) :
  sound op w -> exists w', step junk rs op w e = Ok w' /\ sound op w'.
Proof.
  intros Hs. destruct e as [i | i chunk | i | i err | err okf | |]; simpl.
  - apply listener_sound, Hs.
  - eexists. split; [reflexivity |]. apply map_lane_sound; [| exact Hs].
    intros [r |]; simpl; [destruct (ended r) |]; reflexivity.
  - eexists. split; [reflexivity |]. apply map_lane_sound; [| exact Hs].
    intros [r |]; reflexivity.
  - destruct (existsb (Nat.eqb i) (errorListeners w)); [| eauto].
    eexists. split; [reflexivity |]. apply error_sound. exact Hs.
  - destruct (primitive w) as [| n] eqn:Ep; [eauto |].
    destruct Hs as (Hg & Hr & Ho & Hb & J1 & J2 & J3 & J4 & J5).
    assert (n = 0%nat) by lia. subst n. destruct (J3 Ep) as [Hc Hi].
    assert (Hf : inFlight (ctx w) = true).
    { destruct (inFlight (ctx w)); [reflexivity |].
      destruct (J2 eq_refl) as (H & _). congruence. }
    assert (Hd : forall err', exists w',
                 dispatcher junk op err' okf (set_primitive 0 w) = Ok w' /\ sound op w')
      by (intros err'; apply dispatcher_sound; solve [assumption | reflexivity]).
    destruct (targets (ctx w) =? 0); [apply Hd |].
    destruct err as [err |]; [apply Hd |].
    assert (Hbo := primitive_result_spec rs (ctx w)).
    apply dispatcher_sound; try assumption; try reflexivity.
    + eapply buffers_only_geometry; eassumption.
    + intros i Hin. destruct Hbo as (E & _).
      change (present (istreams (primitive_result rs (ctx w))) (Z.of_nat i) = true).
      rewrite E. apply Hr, Hin.
    + eapply buffers_only_outputs; eassumption.
    + eapply buffers_only_buffers; eassumption.
    + destruct Hbo as (E & _).
      change (inFlight (primitive_result rs (ctx w)) = true).
      rewrite E. exact Hf.
  - destruct (callbacks w) as [| n] eqn:Ec; [eauto |].
    destruct Hs as (Hg & Hr & Ho & Hb & J1 & J2 & J3 & J4 & J5).
    destruct (J4 ltac:(lia)) as [Hn Hi].
    assert (Hp : primitive w = 0%nat).
    { destruct (primitive w) as [| [| p]] eqn:Ep; [reflexivity | | lia].
      destruct (J3 eq_refl). lia. }
    assert (Hf : inFlight (ctx w) = true).
    { destruct (inFlight (ctx w)); [reflexivity |].
      destruct (J2 eq_refl) as (_ & H & _). lia. }
    simpl. destruct (Z.eqb_spec (nPending w - 1) 0) as [Ez | Ez].
    + assert (n = 0%nat) by lia. subst n.
      destruct op; try (apply unref_sound; solve [assumption | reflexivity]).
      eexists. split; [reflexivity |].
      split; [exact Hg |]. split; [exact Hr |]. split; [exact Ho |].
      split; [exact Hb |]. unfold flight_ok. simpl. rewrite Hp, Hi, Hf.
      repeat split; try lia; discriminate.
    + eexists. split; [reflexivity |].
      split; [exact Hg |]. split; [exact Hr |]. split; [exact Ho |].
      split; [exact Hb |]. unfold flight_ok. simpl. rewrite Hp, Hi, Hf.
      repeat split; try lia; discriminate.
  - destruct (immediates w) as [| n] eqn:Ei; [eauto |].
    destruct Hs as (Hg & Hr & Ho & Hb & J1 & J2 & J3 & J4 & J5).
    assert (Hp : primitive w = 0%nat).
    { destruct (primitive w) as [| [| p]] eqn:Ep; [reflexivity | | lia].
      destruct (J3 eq_refl). lia. }
    assert (Hc : callbacks w = 0%nat).
    { destruct (callbacks w) eqn:Ec; [reflexivity |].
      destruct (J4 ltac:(lia)). lia. }
    apply unref_sound; solve [assumption | reflexivity | simpl; lia].
Qed.

Lemma run_sound (op : Operation) (events : list Event) :
  forall w, sound op w -> exists w', run junk rs op w events = Ok w' /\ sound op w'.
Proof.
  induction events as [| e events IH]; intros w Hs; simpl.
  - eauto.
  - destruct (step_sound op w e Hs) as (w1 & -> & H1). simpl. apply IH, H1.
Qed.

End Soundness.


(** ** Starting an operation *)

Lemma safeStripeSize_nonneg (k m hint : Z) :
  0 < k -> 0 < m -> 0 <= hint -> 0 <= safeStripeSize k m hint.
Proof.
  intros Hk Hm Hh. rewrite safeStripeSize_eq. unfold safeStripeSize_spec.
  assert (H1 := round_up8_ge hint).
  assert (H2 : 0 <= maxStripe k m).
  { unfold maxStripe, MAX_HWM.
    assert (0 <= 8388608 / Z.max k m) by (apply Z.div_pos; lia).
    assert (0 <= 8388608 / Z.max k m / 8) by (apply Z.div_pos; lia). lia. }
  lia.
Qed.

Lemma getECContext_ok (k m : Z) :
  Context.getECContext k m = Ok tt <-> (0 < k <= MAX_K /\ 0 < m <= MAX_M).
Proof.
  unfold Context.getECContext.
  destruct (Z.ltb_spec 0 k) as [A | A], (Z.leb_spec k MAX_K) as [B | B],
    (Z.ltb_spec 0 m) as [C | C], (Z.leb_spec m MAX_M) as [D | D];
    simpl; split; intros H; try discriminate; try reflexivity; lia.
Qed.

Lemma create_ok (junk : nat -> Byte.byte) (k m : Z)
      (ins : list (option Readable)) (outs : list (option Writable))
      (size src tgt hint : Z) (c : DencodeContext) :
  Context.create junk k m ins outs size src tgt hint = Ok c ->
  (0 < k <= MAX_K /\ 0 < m <= MAX_M)
  /\ c = next_stripe junk
           (mkContext k m (safeStripeSize k m hint) size
                      (safeStripeSize k m hint * k) (safeStripeSize k m hint * m)
                      ins outs src tgt false 0
                      (if k * safeStripeSize k m hint =? 0 then None
                       else Some (Js.ceil_div size (k * safeStripeSize k m hint)))
                      0 [] [] None).
Proof.
  unfold Context.create. destruct (Context.getECContext k m) as [[] | e] eqn:E; cbn [bind].
  - intros H. cbv zeta in H. apply newStripe_inv in H. destruct H as (-> & _).
    split; [apply getECContext_ok, E | reflexivity].
  - discriminate.
Qed.

(** The constructor on parameters in range: it returns when the stripe size
    is not negative, and the allocation of the first stripe throws when it
    is. *)
Lemma create_next (junk : nat -> Byte.byte) (k m : Z)
      (ins : list (option Readable)) (outs : list (option Writable))
      (size src tgt hint : Z) :
  0 < k <= MAX_K -> 0 < m <= MAX_M -> 0 <= safeStripeSize k m hint ->
  Context.create junk k m ins outs size src tgt hint
  = Ok (next_stripe junk
          (mkContext k m (safeStripeSize k m hint) size
                     (safeStripeSize k m hint * k) (safeStripeSize k m hint * m)
                     ins outs src tgt false 0
                     (if k * safeStripeSize k m hint =? 0 then None
                      else Some (Js.ceil_div size (k * safeStripeSize k m hint)))
                     0 [] [] None)).
Proof.
  intros Hk Hm HS. unfold Context.create.
  rewrite (proj2 (getECContext_ok k m) (conj Hk Hm)). cbn [bind]. cbv zeta.
  apply newStripe_ok; cbn [data_size parity_size]; nia.
Qed.

Lemma create_negative (junk : nat -> Byte.byte) (k m : Z)
      (ins : list (option Readable)) (outs : list (option Writable))
      (size src tgt hint : Z) :
  0 < k <= MAX_K -> 0 < m <= MAX_M -> safeStripeSize k m hint < 0 ->
  Context.create junk k m ins outs size src tgt hint = Throw RangeError.
Proof.
  intros Hk Hm HS. unfold Context.create.
  rewrite (proj2 (getECContext_ok k m) (conj Hk Hm)). cbn [bind]. cbv zeta.
  apply newStripe_throws. left. cbn [data_size]. nia.
Qed.

Lemma flight_ok_idle (w : World) :
  primitive w = 0%nat -> callbacks w = 0%nat -> immediates w = 0%nat -> flight_ok w.
Proof.
  intros H1 H2 H3. unfold flight_ok. rewrite H1, H2, H3.
  repeat split; try lia; try discriminate.
Qed.

Lemma attach_spec (lanes : list nat) :
  forall w w',
    attach lanes w = Ok w' ->
    ctx w' = ctx w /\ primitive w' = primitive w /\ callbacks w' = callbacks w
    /\ immediates w' = immediates w
    /\ (forall i, In i (readers w') ->
                  In i (readers w) \/ present (istreams (ctx w)) (Z.of_nat i) = true).
Proof.
  induction lanes as [| i lanes IH]; intros w w' H; simpl in H.
  - inversion H; subst. repeat split; auto.
  - destruct (Js.band (sources (ctx w)) (Js.shl 1 (Z.of_nat i)) =? 0).
    + destruct (IH _ _ H) as (A & B & C & D & F).
      destruct (present (istreams (ctx w)) (Z.of_nat i)); repeat split; assumption.
    + destruct (nth_error (istreams (ctx w)) i) as [[s |] |] eqn:E; try discriminate.
      destruct (IH _ _ H) as (A & B & C & D & F). simpl in *.
      repeat split; try assumption.
      intros j Hj. destruct (F j Hj) as [Hin | Hp]; [| right; exact Hp].
      apply in_app_or in Hin. destruct Hin as [Hin | [<- | []]]; [left; exact Hin |].
      right. rewrite present_spec, E. reflexivity.
Qed.

Lemma land_lane (t i : Z) :
  0 <= i -> Z.land t (2 ^ i) = if Z.testbit t i then 2 ^ i else 0.
Proof.
  intros Hi. apply Z.bits_inj'. intros j Hj.
  rewrite Z.land_spec, Z.pow2_bits_eqb by lia.
  destruct (Z.eqb_spec i j) as [<- | Hne].
  - destruct (Z.testbit t i); simpl.
    + rewrite Z.pow2_bits_true by lia. reflexivity.
    + rewrite Z.bits_0. reflexivity.
  - rewrite andb_false_r. destruct (Z.testbit t i).
    + rewrite Z.pow2_bits_false by lia. reflexivity.
    + rewrite Z.bits_0. reflexivity.
Qed.

Lemma band_lane (n t i : Z) :
  mask_below n t -> 0 <= n <= 30 -> 0 <= i < 30 ->
  Js.band t (Js.shl 1 i) = if Z.testbit t i then 2 ^ i else 0.
Proof.
  intros Ht Hn Hi. unfold Js.band. rewrite shl_1 by lia.
  assert (Hp := pow2_le_30 i ltac:(lia)).
  rewrite (toInt32_small t) by (eapply mask_below_int32; eassumption).
  rewrite (toInt32_small (2 ^ i)) by lia.
  apply land_lane. lia.
Qed.

Section Start.

Variable junk : nat -> Byte.byte.

Lemma started_sound (op : Operation) (w : World) :
  started junk op w -> sound op w.
Proof.
  destruct op; simpl.
  - intros (instream & size & douts & pouts & hint & Hh & Hp & H).
    unfold encode in H.
    match type of H with bind ?cr _ = _ => destruct cr as [c |] eqn:Ec end;
      simpl in H; [| discriminate].
    destruct instream as [s |]; [| discriminate]. inversion H; subst; clear H.
    apply create_ok in Ec. destruct Ec as ((Hk & Hm) & ->).
    split; [| split; [| split; [| split]]].
    + unfold geometry_ok. simpl.
      assert (H := safeStripeSize_nonneg _ _ hint (proj1 Hk) (proj1 Hm) Hh).
      repeat split; lia.
    + intros i [<- | []]. reflexivity.
    + exact Hp.
    + simpl. apply band_bnot_self.
    + apply flight_ok_idle; reflexivity.
  - intros (ostream & size & ds & ps & hint & Hh & H).
    unfold decode in H.
    match type of H with bind ?cr _ = _ => destruct cr as [c |] eqn:Ec end;
      simpl in H; [| discriminate].
    apply create_ok in Ec. destruct Ec as ((Hk & Hm) & Ec).
    assert (Hbase : forall w0, ctx w0 = c -> geometry_ok (ctx w0)
                               /\ outputs_ok Decoding (ctx w0)
                               /\ buffers_ok Decoding (ctx w0)).
    { intros w0 ->. rewrite Ec. split; [| split; [exact I |]].
      - unfold geometry_ok. simpl.
        assert (H0 := safeStripeSize_nonneg _ _ hint (proj1 Hk) (proj1 Hm) Hh).
        repeat split; lia.
      - simpl. rewrite !heap_bytes_length, length_app. repeat split. lia. }
    destruct (r_available (Decode.getPartRoles ds ps) <? Z.of_nat (List.length ds)).
    + inversion H; subst; clear H.
      match goal with
      | |- sound _ (Context.error ?e ?w0) =>
          apply error_sound; destruct (Hbase w0 eq_refl) as (A & B & C)
      end.
      split; [exact A |]. split; [intros i [] |]. split; [exact B |].
      split; [exact C | apply flight_ok_idle; reflexivity].
    + apply attach_spec in H. destruct H as (A & B & C & D & F).
      destruct (Hbase w A) as (G1 & G2 & G3).
      split; [exact G1 |]. split; [| split; [exact G2 | split; [exact G3 |]]].
      * intros i Hi. rewrite A. destruct (F i Hi) as [[] | Hp]. exact Hp.
      * apply flight_ok_idle; [rewrite B | rewrite C | rewrite D]; reflexivity.
  - intros (k & m & ist & ost & size & hint & Hh & H).
    unfold repair in H.
    destruct (Z.eqb_spec (k + m) (Z.of_nat (List.length ist))) as [Hli |];
      simpl in H; [| discriminate].
    destruct (Z.eqb_spec (k + m) (Z.of_nat (List.length ost))) as [Hlo |];
      simpl in H; [| discriminate].
    match type of H with bind ?cr _ = _ => destruct cr as [c |] eqn:Ec end;
      simpl in H; [| discriminate].
    apply create_ok in Ec. destruct Ec as ((Hk & Hm) & Ec).
    unfold MAX_K, MAX_M in Hk, Hm.
    destruct (repair_roles_spec k m ist ost ltac:(lia) ltac:(lia) Hli)
      as (_ & _ & _ & _ & Ht & Hbits).
    assert (Hbase : forall w0, ctx w0 = c -> geometry_ok (ctx w0)
                               /\ outputs_ok Repairing (ctx w0)
                               /\ buffers_ok Repairing (ctx w0)).
    { intros w0 ->. rewrite Ec. split; [| split].
      - unfold geometry_ok. simpl.
        assert (H0 := safeStripeSize_nonneg _ _ hint (proj1 Hk) (proj1 Hm) Hh).
        repeat split; lia.
      - simpl. intros i Hi Hb.
        rewrite (band_lane (k + m)) in Hb by (assumption || lia).
        rewrite <- Hbits by lia.
        destruct (Z.testbit _ _); [reflexivity | congruence].
      - simpl. rewrite !heap_bytes_length. repeat split. lia. }
    destruct (r_available (Repair.getPartRoles k m ist ost) <? k).
    + inversion H; subst; clear H.
      match goal with
      | |- sound _ (Context.error ?e ?w0) =>
          apply error_sound; destruct (Hbase w0 eq_refl) as (A & B & C)
      end.
      split; [exact A |]. split; [intros i [] |]. split; [exact B |].
      split; [exact C | apply flight_ok_idle; reflexivity].
    + apply attach_spec in H. destruct H as (A & B & C & D & F).
      destruct (Hbase w A) as (G1 & G2 & G3).
      split; [exact G1 |]. split; [| split; [exact G2 | split; [exact G3 |]]].
      * intros i Hi. rewrite A. destruct (F i Hi) as [[] | Hp]. exact Hp.
      * apply flight_ok_idle; [rewrite B | rewrite C | rewrite D]; reflexivity.
Qed.

End Start.


(** ** What handlers leave in the trace *)

Lemma same_frame_refl (c : DencodeContext) : same_frame c c.
Proof. unfold same_frame. repeat split. Qed.

Lemma same_frame_trans (c1 c2 c3 : DencodeContext) :
  same_frame c1 c2 -> same_frame c2 c3 -> same_frame c1 c3.
Proof.
  unfold same_frame.
  intros (A1 & A2 & A3 & A4 & A5 & A6 & A7 & A8 & A9 & A10 & A11)
         (B1 & B2 & B3 & B4 & B5 & B6 & B7 & B8 & B9 & B10 & B11).
  repeat split; try congruence.
Qed.

Lemma continues_refl (w : World) : continues w [] w.
Proof.
  unfold continues. rewrite app_nil_r.
  repeat split.
Qed.

Lemma continues_trans (w1 w2 w3 : World) (n1 n2 : list Effect) :
  continues w1 n1 w2 -> continues w2 n2 w3 -> continues w1 (n1 ++ n2) w3.
Proof.
  intros (T1 & F1 & P1 & E1) (T2 & F2 & P2 & E2).
  unfold continues. rewrite T2, T1, app_assoc.
  split; [reflexivity |]. split; [eapply same_frame_trans; eassumption |].
  split; congruence.
Qed.

Lemma continues_log (es : list Effect) (w : World) : continues w es (log_all es w).
Proof.
  unfold continues. simpl. repeat split.
Qed.

Lemma continues_then_advances (w1 w2 w3 : World) (n1 n2 : list Effect) :
  continues w1 n1 w2 -> advances w2 n2 w3 -> advances w1 (n1 ++ n2) w3.
Proof.
  intros (T1 & F1 & P1 & E1) (T2 & F2 & P2 & E2).
  unfold advances. rewrite T2, T1, app_assoc.
  split; [reflexivity |]. split; [eapply same_frame_trans; eassumption |].
  split; congruence.
Qed.

Lemma advances_then_continues (w1 w2 w3 : World) (n1 n2 : list Effect) :
  advances w1 n1 w2 -> continues w2 n2 w3 -> advances w1 (n1 ++ n2) w3.
Proof.
  intros (T1 & F1 & P1 & E1) (T2 & F2 & P2 & E2).
  unfold advances. rewrite T2, T1, app_assoc.
  split; [reflexivity |]. split; [eapply same_frame_trans; eassumption |].
  split; congruence.
Qed.

Lemma same_frame_read (c : DencodeContext) (i : nat) (s s' : Readable) :
  nth_error (istreams c) i = Some (Some s) ->
  same_frame c (set_istreams (list_set i (Some s') (istreams c)) c).
Proof.
  intros H. unfold same_frame. simpl. repeat split.
  intros j. eapply present_list_set. eassumption.
Qed.

Lemma fillStripeBuffers_continues (i : nat) (w w1 : World) (filled : bool) :
  fillStripeBuffers i w = Ok (filled, w1) ->
  continues w [Read i (stripeSize (ctx w))] w1
  /\ primitive w1 = primitive w.
Proof.
  unfold fillStripeBuffers. intros H.
  destruct (nth_error (istreams (ctx w)) i) as [[s |] |] eqn:Es; try discriminate.
  destruct (stream_read (stripeSize (ctx w)) s) as [[chunk |] s'].
  - destruct (Z.of_nat i <? k (ctx w)).
    + destruct (buf_copy chunk (dataBuffer (ctx w)) _) as [buf copied].
      destruct (copied =? Z.of_nat (List.length chunk)); [| discriminate].
      inversion H; subst; clear H. split; [| reflexivity].
      unfold continues. simpl. repeat split.
      apply (same_frame_read (ctx w) i s s' Es).
    + destruct (buf_copy chunk (parityBuffer (ctx w)) _) as [buf copied].
      destruct (copied =? Z.of_nat (List.length chunk)); [| discriminate].
      inversion H; subst; clear H. split; [| reflexivity].
      unfold continues. simpl. repeat split.
      apply (same_frame_read (ctx w) i s s' Es).
  - inversion H; subst; clear H. split; [| reflexivity].
    unfold continues. simpl. repeat split.
    apply (same_frame_read (ctx w) i s s' Es).
Qed.

Lemma submit_continues (w w' : World) :
  (w1 <- Context.ref w ;; Context.encode w1) = Ok w' ->
  exists e, continues w [e] w' /\ is_submission e = true.
Proof.
  unfold Context.ref, Context.encode. intros H.
  destruct (waiting (ctx w) =? 0); simpl in H; [| discriminate].
  destruct (targets (ctx w) =? 0); inversion H; subst; clear H;
    eexists; (split; [unfold continues; simpl; repeat split | reflexivity]).
Qed.

Lemma addedToStripe_continues (mask : Z) (w : World) :
  continues w [] (Context.addedToStripe mask w).
Proof.
  unfold continues, Context.addedToStripe. simpl. rewrite app_nil_r.
  repeat split. 
Qed.

Lemma decodeBufferStep_continues (i : nat) (w w' : World) :
  decodeBufferStep i w = Ok w' ->
  exists new, continues w new w' /\ forallb is_fill new = true.
Proof.
  unfold decodeBufferStep. intros H.
  destruct (Context.wait w); [inversion H; subst; exists []; split;
                              [apply continues_refl | reflexivity] |].
  destruct (Js.band (waiting (ctx w)) (Js.shl 1 (Z.of_nat i)) =? 0);
    [inversion H; subst; exists []; split; [apply continues_refl | reflexivity] |].
  destruct (fillStripeBuffers i w) as [[filled w1] |] eqn:Ef; simpl in H; [| discriminate].
  apply fillStripeBuffers_continues in Ef. destruct Ef as [Hc _].
  destruct filled; simpl in H.
  - assert (Ha := addedToStripe_continues (Js.shl 1 (Z.of_nat i)) w1).
    destruct (Context.readyForEncoding _).
    + apply submit_continues in H. destruct H as (e & He & Hs).
      eexists. split.
      * eapply continues_trans; [exact Hc |].
        eapply continues_trans; [exact Ha | exact He].
      * simpl. unfold is_fill. rewrite Hs, orb_true_r. reflexivity.
    + inversion H; subst. eexists. split.
      * eapply continues_trans; [exact Hc | exact Ha].
      * reflexivity.
  - inversion H; subst. eexists. split; [exact Hc | reflexivity].
Qed.

Lemma encodeBufferStep_continues (i : nat) (w w' : World) :
  encodeBufferStep i w = Ok w' ->
  exists new, continues w new w' /\ forallb is_fill new = true.
Proof.
  unfold encodeBufferStep. intros H.
  destruct (Context.wait w); [inversion H; subst; exists []; split;
                              [apply continues_refl | reflexivity] |].
  destruct (nth_error (istreams (ctx w)) i) as [[s |] |] eqn:Es; try discriminate.
  match type of H with
  | context [stream_read ?n s] => destruct (stream_read n s) as [[dataBytes |] s']
  end.
  - match type of H with
    | (w3 <- Context.ref (Context.addedToStripe ?mask ?w2) ;; _) = _ =>
        assert (Hc : continues w [Read i (if is_nStripe (processedStripe (ctx w) + 1) (ctx w)
                                          then size (ctx w)
                                               - processedStripe (ctx w) * data_size (ctx w)
                                          else data_size (ctx w))] w2);
        [| assert (Ha := addedToStripe_continues mask w2)]
    end.
    { destruct (Z.of_nat (List.length dataBytes) <? data_size (ctx w));
        unfold continues; simpl; repeat split;
        apply (same_frame_read (ctx w) i s s' Es). }
    apply submit_continues in H. destruct H as (e & He & Hs).
    eexists. split.
    + eapply continues_trans; [exact Hc |].
      eapply continues_trans; [exact Ha | exact He].
    + simpl. unfold is_fill. rewrite Hs, orb_true_r. reflexivity.
  - inversion H; subst. eexists.
    split; [unfold continues; simpl; repeat split;
            apply (same_frame_read (ctx w) i s s' Es) | reflexivity].
Qed.

Lemma listener_continues (op : Operation) (i : nat) (w w' : World) :
  listener op i w = Ok w' ->
  exists new, continues w new w' /\ forallb is_fill new = true.
Proof.
  unfold listener. intros H.
  destruct (existsb (Nat.eqb i) (readers w)).
  - destruct op; [apply (encodeBufferStep_continues i) | |];
      try apply (decodeBufferStep_continues i); exact H.
  - inversion H; subst. exists []. split; [apply continues_refl | reflexivity].
Qed.

Lemma is_fill_not_wake (new : list Effect) :
  forallb is_fill new = true ->
  filter is_wake new = [] /\ forallb is_refill new = true.
Proof.
  induction new as [| e new IH]; simpl; intros H; [split; reflexivity |].
  apply andb_true_iff in H. destruct H as [He Hn]. destruct (IH Hn) as [IH1 IH2].
  unfold is_refill. rewrite He, orb_true_r. simpl.
  destruct e; simpl in *; try discriminate; split; assumption.
Qed.

Lemma wake_continues (op : Operation) (lanes : list nat) :
  forall w w',
    Context.wake (listener op) lanes w = Ok w' ->
    exists new,
      continues w new w'
      /\ filter is_wake new = map Emit_readable lanes
      /\ forallb is_refill new = true.
Proof.
  induction lanes as [| i lanes IH]; intros w w' H; simpl in H.
  - inversion H; subst. exists []. split; [apply continues_refl |]. split; reflexivity.
  - destruct (listener op i (log (Emit_readable i) w)) as [w1 |] eqn:El;
      simpl in H; [| discriminate].
    apply listener_continues in El. destruct El as (n1 & C1 & F1).
    destruct (IH _ _ H) as (n2 & C2 & W2 & F2).
    destruct (is_fill_not_wake n1 F1) as [W1 R1].
    exists ([Emit_readable i] ++ n1 ++ n2). split; [| split].
    + eapply continues_trans; [apply (continues_log [Emit_readable i]) |].
      eapply continues_trans; eassumption.
    + simpl. rewrite filter_app, W1, W2. reflexivity.
    + simpl. rewrite forallb_app, R1, F2. reflexivity.
Qed.


Lemma filter_none {A : Type} (P Q : A -> bool) (l : list A) :
  (forall x, P x = true -> Q x = false) ->
  forallb P l = true -> filter Q l = [].
Proof.
  intros H. induction l as [| x l IH]; simpl; intros Hl; [reflexivity |].
  apply andb_true_iff in Hl. destruct Hl as [Hx Hl].
  rewrite (H x Hx). apply IH, Hl.
Qed.

Lemma refill_quiet (new : list Effect) :
  forallb is_refill new = true ->
  filter is_end new = [] /\ filter is_error new = [] /\ filter is_write new = [].
Proof.
  intros H. repeat split; apply (filter_none is_refill); try assumption;
    intros [] Hx; try reflexivity; discriminate.
Qed.

Lemma fill_quiet (new : list Effect) :
  forallb is_fill new = true ->
  filter is_end new = [] /\ filter is_error new = [] /\ filter is_write new = [].
Proof.
  intros H. apply refill_quiet. apply is_fill_not_wake. exact H.
Qed.

Lemma write_quiet (new : list Effect) :
  forallb is_write new = true ->
  filter is_end new = [] /\ filter is_error new = [] /\ filter is_wake new = [].
Proof.
  intros H. repeat split; apply (filter_none is_write); try assumption;
    intros [] Hx; try reflexivity; discriminate.
Qed.

Lemma error_spec (err : Error) (w : World) :
  match inputError (ctx w) with
  | Some _ => Context.error err w = w
  | None =>
      trace (Context.error err w)
      = trace w ++ map (fun i => Emit_error i err) (live (ostreams (ctx w)))
      /\ same_frame (ctx w) (ctx (Context.error err w))
      /\ processedStripe (ctx (Context.error err w)) = processedStripe (ctx w)
      /\ inputError (ctx (Context.error err w)) = Some err
  end.
Proof.
  unfold Context.error. destruct (inputError (ctx w)); [reflexivity |].
  simpl. repeat split.
Qed.

Section Traces.

Variable junk : nat -> Byte.byte.
Variable rs : Z -> Z -> Z -> Z -> bytes -> bytes -> nat -> bytes.

Lemma unref_advances (op : Operation) (w w' : World) :
  unref junk op w = Ok w' ->
  exists new,
    advances w new w'
    /\ if is_nStripe (processedStripe (ctx w) + 1) (ctx w)
       then new = map Emit_end (live (ostreams (ctx w)))
            /\ inFlight (ctx w') = false
       else filter is_wake new = map Emit_readable (live (istreams (ctx w)))
            /\ forallb is_refill new = true.
Proof.
  unfold unref. intros H. apply unref_inv in H. cbv zeta in H.
  change (is_nStripe
            (processedStripe
               (ctx (upd_ctx (fun c => set_processedStripe (processedStripe c + 1)
                                         (set_inFlight false c)) w)))
            (ctx (upd_ctx (fun c => set_processedStripe (processedStripe c + 1)
                                      (set_inFlight false c)) w)))
    with (is_nStripe (processedStripe (ctx w) + 1) (ctx w)) in H.
  destruct (is_nStripe (processedStripe (ctx w) + 1) (ctx w)).
  - inversion H; subst; clear H. eexists.
    split; [| split; reflexivity].
    unfold advances. simpl. repeat split.
  - apply wake_continues in H. destruct H as (new & Hc & Hw & Hf).
    exists ([] ++ new). split; [| split; assumption].
    eapply advances_then_continues; [| exact Hc].
    unfold advances. simpl. rewrite app_nil_r. repeat split.
Qed.

Lemma write_one_continues (bump : Z) (i : nat) (chunk : bytes) (okv : bool) (w : World) :
  continues w [Write i chunk] (write_one bump i chunk okv w).
Proof. unfold write_one, continues. destruct okv; simpl; repeat split. Qed.

Lemma decodeWrites_continues (chunk : bytes) (okf : nat -> bool) (lanes : list nat) :
  forall w,
    continues w (map (fun i => Write i chunk) lanes)
              (fold_left (fun w' i => write_one 1 i chunk (okf i) w') lanes w).
Proof.
  induction lanes as [| i lanes IH]; intros w; simpl.
  - apply continues_refl.
  - change (Write i chunk :: map (fun i0 => Write i0 chunk) lanes)
      with ([Write i chunk] ++ map (fun i0 => Write i0 chunk) lanes).
    eapply continues_trans; [apply write_one_continues | apply IH].
Qed.

Lemma encodeWrites_continues (okf : nat -> bool) (lanes : list nat) :
  forall w w',
    encodeWrites lanes okf w = Ok w' ->
    exists new, continues w new w' /\ forallb is_write new = true.
Proof.
  induction lanes as [| i lanes IH]; intros w w' H; simpl in H.
  - inversion H; subst. exists []. split; [apply continues_refl | reflexivity].
  - destruct (nth_error (ostreams (ctx w)) i) as [[s |] |]; try discriminate.
    destruct (IH _ _ H) as (new & Hc & Hf).
    eexists. split.
    + eapply continues_trans; [apply write_one_continues | exact Hc].
    + simpl. exact Hf.
Qed.

Lemma repairWrites_continues (okf : nat -> bool) (lanes : list nat) :
  forall w w',
    repairWrites lanes okf w = Ok w' ->
    exists new, continues w new w' /\ forallb is_write new = true.
Proof.
  induction lanes as [| i lanes IH]; intros w w' H; simpl in H.
  - inversion H; subst. exists []. split; [apply continues_refl | reflexivity].
  - destruct (Js.band (targets (ctx w)) (Js.shl 1 (Z.of_nat i)) =? 0);
      [apply IH, H |].
    destruct (nth_error (ostreams (ctx w)) i) as [[s |] |]; try discriminate.
    destruct (IH _ _ H) as (new & Hc & Hf).
    eexists. split.
    + eapply continues_trans; [apply write_one_continues | exact Hc].
    + simpl. exact Hf.
Qed.

(** A successful primitive: the stripe is written, nothing else happens. *)
Lemma dispatch_success (op : Operation) (okf : nat -> bool) (w w' : World) :
  dispatcher junk op None okf w = Ok w' ->
  exists new, continues w new w' /\ forallb is_write new = true.
Proof.
  destruct op; simpl.
  - unfold encodeDispatchStep. intros H.
    apply encodeWrites_continues in H. destruct H as (new & Hc & Hf).
    exists ([] ++ new). split; [| exact Hf].
    eapply continues_trans; [| exact Hc].
    unfold continues. simpl. rewrite app_nil_r. repeat split.
  - unfold decodeDispatchStep. intros H. inversion H; subst; clear H.
    eexists. split.
    + eapply continues_trans; [| apply decodeWrites_continues].
      instantiate (1 := []).
      unfold continues. simpl. rewrite app_nil_r. repeat split.
    + simpl. apply forallb_forall. intros e He.
      apply in_map_iff in He. destruct He as (i & <- & _). reflexivity.
  - unfold repairDispatchStep. intros H.
    destruct (repairWrites _ _ _) as [w1 |] eqn:E; simpl in H; [| discriminate].
    inversion H; subst; clear H.
    apply repairWrites_continues in E. destruct E as (new & Hc & Hf).
    exists (([] ++ new) ++ []). split; [| rewrite app_nil_r; exact Hf].
    eapply continues_trans; [eapply continues_trans; [| exact Hc] |];
      unfold continues; simpl; rewrite app_nil_r; repeat split.
Qed.

(** A failed primitive: the error is recorded, then the stripe is released
    as if it had been processed. *)
Lemma dispatch_failure (op : Operation) (err : Error) (okf : nat -> bool) (w : World) :
  dispatcher junk op (Some err) okf w = unref junk op (Context.error err w).
Proof. destruct op; reflexivity. Qed.

Lemma primitive_result_continues (w : World) :
  continues w [] (upd_ctx (primitive_result rs) w).
Proof.
  destruct (primitive_result_spec rs (ctx w)) as (E & _).
  unfold continues. simpl. rewrite app_nil_r.
  split; [reflexivity |]. rewrite E. simpl. repeat split.
Qed.

Lemma map_lane_continues (f : option Readable -> option Readable) (i : nat) (w : World) :
  (forall s, (match f s with Some _ => true | None => false end)
             = (match s with Some _ => true | None => false end)) ->
  continues w [] (map_lane f i w).
Proof.
  intros Hf. unfold map_lane.
  destruct (nth_error (istreams (ctx w)) i) as [s |] eqn:E; [| apply continues_refl].
  unfold continues. simpl. rewrite app_nil_r. repeat split.
  intros j. eapply present_list_set_same; [eassumption | apply Hf].
Qed.

End Traces.

(** ** End-of-stream and errors reach the outputs once *)


Lemma signals_continue (w w' : World) (new : list Effect) :
  continues w new w' ->
  filter is_end new = [] -> filter is_error new = [] ->
  ends_ok w /\ errors_ok w -> ends_ok w' /\ errors_ok w'.
Proof.
  intros (T & F & P & E) He Hr [[Hp Hends] Herr].
  assert (Ho : ostreams (ctx w') = ostreams (ctx w)) by apply F.
  assert (Hn : nStripe (ctx w') = nStripe (ctx w)) by apply F.
  unfold ends_ok, errors_ok. rewrite T, !filter_app, He, Hr, !app_nil_r, P, E, Ho, Hn.
  split; [split |]; assumption.
Qed.

Lemma signals_advance (w w' : World) (new : list Effect) :
  advances w new w' ->
  (if is_nStripe (processedStripe (ctx w) + 1) (ctx w)
   then new = map Emit_end (live (ostreams (ctx w)))
   else filter is_end new = []) ->
  filter is_error new = [] ->
  ends_ok w /\ errors_ok w -> ends_ok w' /\ errors_ok w'.
Proof.
  intros (T & F & P & E) He Hr [[Hp Hends] Herr].
  assert (Ho : ostreams (ctx w') = ostreams (ctx w)) by apply F.
  assert (Hn : nStripe (ctx w') = nStripe (ctx w)) by apply F.
  unfold ends_ok, errors_ok. rewrite T, !filter_app, Hr, !app_nil_r, P, E, Ho, Hn.
  split; [split; [lia |] | assumption].
  unfold is_nStripe in He. destruct (nStripe (ctx w)) as [n |] eqn:En.
  - destruct (Z.eqb_spec (processedStripe (ctx w) + 1) n) as [Heq | Hne].
    + subst new. destruct Hends as [H0 | (_ & n' & Hn' & Hle)].
      * rewrite H0. simpl. right. split.
        -- clear. induction (live (ostreams (ctx w))) as [| i l IH]; simpl;
             [reflexivity | rewrite IH at 1; reflexivity].
        -- exists n. split; [reflexivity | lia].
      * inversion Hn'; subst n'. lia.
    + rewrite He, app_nil_r. destruct Hends as [H0 | (H1 & n' & Hn' & Hle)].
      * left. exact H0.
      * right. split; [exact H1 |]. exists n'. split; [exact Hn' | lia].
  - rewrite He, app_nil_r. destruct Hends as [H0 | (H1 & n' & Hn' & Hle)].
    + left. exact H0.
    + discriminate.
Qed.

Lemma signal_error (err : Error) (w : World) :
  ends_ok w /\ errors_ok w ->
  ends_ok (Context.error err w) /\ errors_ok (Context.error err w).
Proof.
  intros [He Hr]. assert (H := error_spec err w).
  destruct (inputError (ctx w)) eqn:Ei.
  - rewrite H. split; assumption.
  - destruct H as (T & F & P & E).
    assert (Ho : ostreams (ctx (Context.error err w)) = ostreams (ctx w)) by apply F.
    assert (Hn : nStripe (ctx (Context.error err w)) = nStripe (ctx w)) by apply F.
    unfold ends_ok, errors_ok in *. rewrite T, !filter_app, P, E, Ho, Hn.
    rewrite Ei in Hr. rewrite Hr. simpl.
    assert (H1 : filter is_end (map (fun i => Emit_error i err) (live (ostreams (ctx w)))) = []).
    { clear. induction (live (ostreams (ctx w))); simpl; auto. }
    assert (H2 : filter is_error (map (fun i => Emit_error i err) (live (ostreams (ctx w))))
                 = map (fun i => Emit_error i err) (live (ostreams (ctx w)))).
    { clear. induction (live (ostreams (ctx w))) as [| i l IH]; simpl;
        [reflexivity | rewrite IH; reflexivity]. }
    rewrite H1, H2, app_nil_r. split; [exact He | reflexivity].
Qed.

Lemma signals_ext (w w' : World) :
  ctx w' = ctx w -> trace w' = trace w ->
  ends_ok w /\ errors_ok w -> ends_ok w' /\ errors_ok w'.
Proof.
  intros Hc Ht H. unfold ends_ok, errors_ok in *. rewrite Hc, Ht. exact H.
Qed.

Section Relating.

Variable junk : nat -> Byte.byte.
Variable rs : Z -> Z -> Z -> Z -> bytes -> bytes -> nat -> bytes.

(** Every handler is made of four moves: bookkeeping that touches neither
    the context nor the trace, a continuation that signals neither end nor
    error, the release of a stripe by [unref], and the recording of an
    error. A relation closed under the four holds along every run. *)
Variable R : World -> World -> Prop.

Hypothesis R_refl : forall w, R w w.
Hypothesis R_trans : forall a b c, R a b -> R b c -> R a c.
Hypothesis R_ext : forall w w', ctx w' = ctx w -> trace w' = trace w -> R w w'.
Hypothesis R_continues :
  forall w new w',
    continues w new w' -> filter is_end new = [] -> filter is_error new = [] -> R w w'.
Hypothesis R_advances :
  forall w new w',
    advances w new w' ->
    (if is_nStripe (processedStripe (ctx w) + 1) (ctx w)
     then new = map Emit_end (live (ostreams (ctx w)))
     else filter is_end new = []) ->
    filter is_error new = [] ->
    R w w'.
Hypothesis R_error : forall err w, R w (Context.error err w).

Lemma unref_relates (op : Operation) (w w' : World) :
  unref junk op w = Ok w' -> R w w'.
Proof.
  intros H. apply unref_advances in H. destruct H as (new & Ha & Hn).
  destruct (is_nStripe (processedStripe (ctx w) + 1) (ctx w)) eqn:E.
  - destruct Hn as [-> _]. eapply R_advances; [exact Ha | rewrite E; reflexivity |].
    clear. induction (live (ostreams (ctx w))); simpl; auto.
  - destruct Hn as [_ Hf]. destruct (refill_quiet new Hf) as (Q1 & Q2 & _).
    eapply R_advances; [exact Ha | rewrite E; exact Q1 | exact Q2].
Qed.

Lemma dispatch_relates (op : Operation) (err : option Error) (okf : nat -> bool)
      (w w' : World) :
  dispatcher junk op err okf w = Ok w' -> R w w'.
Proof.
  intros H. destruct err as [err |].
  - rewrite dispatch_failure in H.
    eapply R_trans; [apply (R_error err) | eapply unref_relates; exact H].
  - apply dispatch_success in H. destruct H as (new & Hc & Hf).
    destruct (write_quiet new Hf) as (Q1 & Q2 & _).
    eapply R_continues; eassumption.
Qed.

Lemma step_relates (op : Operation) (w w' : World) (e : Event) :
  step junk rs op w e = Ok w' -> R w w'.
Proof.
  intros H. destruct e as [i | i chunk | i | i err | err okf | |]; simpl in H.
  - apply listener_continues in H. destruct H as (new & Hc & Hf).
    destruct (fill_quiet new Hf) as (Q1 & Q2 & _).
    eapply R_continues; eassumption.
  - inversion H; subst. eapply R_continues;
      [apply map_lane_continues | reflexivity | reflexivity].
    intros [r |]; simpl; [destruct (ended r) |]; reflexivity.
  - inversion H; subst. eapply R_continues;
      [apply map_lane_continues | reflexivity | reflexivity].
    intros [r |]; reflexivity.
  - destruct (existsb (Nat.eqb i) (errorListeners w)); inversion H; subst;
      [| apply R_refl].
    eapply R_trans; [| apply R_error]. apply R_ext; reflexivity.
  - destruct (primitive w) as [| n]; [inversion H; subst; apply R_refl |].
    assert (H1 : R w (set_primitive n w)) by (apply R_ext; reflexivity).
    destruct (targets (ctx w) =? 0);
      [eapply R_trans; [exact H1 | eapply dispatch_relates; exact H] |].
    destruct err as [err |];
      [eapply R_trans; [exact H1 | eapply dispatch_relates; exact H] |].
    eapply R_trans; [exact H1 |].
    eapply R_trans; [| eapply dispatch_relates; exact H].
    eapply R_continues;
      [apply (primitive_result_continues rs) | reflexivity | reflexivity].
  - destruct (callbacks w) as [| n]; [inversion H; subst; apply R_refl |].
    assert (H1 : R w (set_nPending (nPending w - 1) (set_callbacks n w)))
      by (apply R_ext; reflexivity).
    destruct (nPending w - 1 =? 0).
    + destruct op;
        try (eapply R_trans; [exact H1 | eapply unref_relates; exact H]).
      inversion H; subst. apply R_ext; reflexivity.
    + inversion H; subst. exact H1.
  - destruct (immediates w) as [| n]; [inversion H; subst; apply R_refl |].
    eapply R_trans; [| eapply unref_relates; exact H].
    apply R_ext; reflexivity.
Qed.

Lemma run_relates (op : Operation) (events : list Event) :
  forall w w', run junk rs op w events = Ok w' -> R w w'.
Proof.
  induction events as [| e events IH]; intros w w' H; simpl in H.
  - inversion H; subst. apply R_refl.
  - destruct (step junk rs op w e) as [w1 |] eqn:E; simpl in H; [| discriminate].
    eapply R_trans; [eapply step_relates; exact E | apply IH, H].
Qed.

End Relating.

Section Signals.

Variable junk : nat -> Byte.byte.
Variable rs : Z -> Z -> Z -> Z -> bytes -> bytes -> nat -> bytes.

Lemma signals_run (op : Operation) (events : list Event) (w w' : World) :
  run junk rs op w events = Ok w' ->
  ends_ok w /\ errors_ok w -> ends_ok w' /\ errors_ok w'.
Proof.
  apply (run_relates junk rs
           (fun a b => ends_ok a /\ errors_ok a -> ends_ok b /\ errors_ok b)).
  - auto.
  - auto.
  - intros a b Hc Ht. apply signals_ext; assumption.
  - intros a new b. apply signals_continue.
  - intros a new b. apply signals_advance.
  - intros err a. apply signal_error.
Qed.

(** Once an error is retained, it stays. *)
Lemma error_sticks (op : Operation) (events : list Event) (w w' : World) (err : Error) :
  run junk rs op w events = Ok w' ->
  inputError (ctx w) = Some err -> inputError (ctx w') = Some err.
Proof.
  apply (run_relates junk rs
           (fun a b => inputError (ctx a) = Some err -> inputError (ctx b) = Some err)).
  - auto.
  - auto.
  - intros a b Hc _. rewrite Hc. auto.
  - intros a new b (_ & _ & _ & E) _ _. rewrite E. auto.
  - intros a new b (_ & _ & _ & E) _ _. rewrite E. auto.
  - intros e a H. assert (Hs := error_spec e a). rewrite H in Hs. rewrite Hs. exact H.
Qed.

(** The stripe counter only grows. *)
Lemma processed_grows (op : Operation) (events : list Event) (w w' : World) :
  run junk rs op w events = Ok w' ->
  processedStripe (ctx w) <= processedStripe (ctx w').
Proof.
  apply (run_relates junk rs
           (fun a b => processedStripe (ctx a) <= processedStripe (ctx b))).
  - intros; lia.
  - intros; lia.
  - intros a b Hc _. rewrite Hc. lia.
  - intros a new b (_ & _ & P & _) _ _. lia.
  - intros a new b (_ & _ & P & _) _ _. lia.
  - intros e a. assert (Hs := error_spec e a).
    destruct (inputError (ctx a)); [rewrite Hs; lia | lia].
Qed.

End Signals.


(** ** Counting signals per lane *)

Lemma count_app (p : Effect -> bool) (a b : list Effect) :
  count p (a ++ b) = (count p a + count p b)%nat.
Proof. unfold count. rewrite filter_app, length_app. reflexivity. Qed.

Lemma count_filter (p q : Effect -> bool) (t : list Effect) :
  (forall e, p e = true -> q e = true) ->
  count p (filter q t) = count p t.
Proof.
  intros H. unfold count. induction t as [| e t IH]; simpl; [reflexivity |].
  destruct (q e) eqn:Eq; simpl.
  - destruct (p e); simpl; rewrite IH; reflexivity.
  - destruct (p e) eqn:Ep; [rewrite (H e Ep) in Eq; discriminate | exact IH].
Qed.

Lemma count_live_from {A : Type} (mk : nat -> Effect) (p : Effect -> bool) (lane : nat)
      (arr : list (option A)) :
  (forall i, p (mk i) = Nat.eqb i lane) ->
  forall i,
    count p (map mk (live_from i arr))
    = if (i <=? lane)%nat && present arr (Z.of_nat (lane - i)) then 1%nat else 0%nat.
Proof.
  intros Hp. induction arr as [| x arr IH]; intros i.
  - simpl. rewrite present_spec. destruct (lane - i)%nat; simpl; rewrite andb_false_r; reflexivity.
  - assert (Hrest : forall j, (i < j)%nat ->
               present (x :: arr) (Z.of_nat (j - i)) = present arr (Z.of_nat (j - S i))).
    { intros j Hj. rewrite !present_spec.
      replace (j - i)%nat with (S (j - S i)) by lia. reflexivity. }
    assert (Htail : count p (map mk (live_from (S i) arr))
                    = if (i <? lane)%nat && present (x :: arr) (Z.of_nat (lane - i))
                      then 1%nat else 0%nat).
    { rewrite IH. destruct (Nat.ltb_spec i lane) as [Hlt | Hge].
      - rewrite (Hrest lane Hlt).
        destruct (Nat.leb_spec (S i) lane); [reflexivity | lia].
      - destruct (Nat.leb_spec (S i) lane); [lia | reflexivity]. }
    destruct x as [a |]; simpl live_from.
    + change (count p (map mk (i :: live_from (S i) arr)))
        with (count p ([mk i] ++ map mk (live_from (S i) arr))).
      rewrite count_app, Htail. unfold count at 1. simpl. rewrite Hp.
      destruct (Nat.eqb_spec i lane) as [-> | Hne].
      * rewrite Nat.ltb_irrefl, Nat.leb_refl, Nat.sub_diag. reflexivity.
      * simpl. destruct (Nat.ltb_spec i lane), (Nat.leb_spec i lane);
          try reflexivity; lia.
    + rewrite Htail.
      destruct (Nat.ltb_spec i lane), (Nat.leb_spec i lane); try reflexivity; try lia.
      assert (i = lane) by lia. subst. rewrite Nat.sub_diag. reflexivity.
Qed.

Lemma count_live {A : Type} (mk : nat -> Effect) (p : Effect -> bool) (lane : nat)
      (arr : list (option A)) :
  (forall i, p (mk i) = Nat.eqb i lane) ->
  count p (map mk (live arr))
  = if present arr (Z.of_nat lane) then 1%nat else 0%nat.
Proof.
  intros Hp. unfold live. rewrite (count_live_from mk p lane arr Hp 0).
  rewrite Nat.sub_0_r. reflexivity.
Qed.

Lemma count_ends_live {A : Type} (arr : list (option A)) (lane : nat) :
  count (is_end_on lane) (map Emit_end (live arr))
  = if present arr (Z.of_nat lane) then 1%nat else 0%nat.
Proof. apply count_live. reflexivity. Qed.

Lemma count_wakes_live {A : Type} (arr : list (option A)) (lane : nat) :
  count (is_wake_on lane) (map Emit_readable (live arr))
  = if present arr (Z.of_nat lane) then 1%nat else 0%nat.
Proof. apply count_live. reflexivity. Qed.

Lemma count_errors_live {A : Type} (arr : list (option A)) (lane : nat) (err : Error) :
  count (is_error_on lane) (map (fun i => Emit_error i err) (live arr))
  = if present arr (Z.of_nat lane) then 1%nat else 0%nat.
Proof. apply count_live. reflexivity. Qed.


(** ** The state an operation starts in *)

Lemma attach_trace (lanes : list nat) :
  forall w w',
    attach lanes w = Ok w' ->
    exists new, trace w' = trace w ++ new /\ forallb is_setup new = true.
Proof.
  induction lanes as [| i lanes IH]; intros w w' H; simpl in H.
  - inversion H; subst. exists []. rewrite app_nil_r. split; reflexivity.
  - destruct (Js.band (sources (ctx w)) (Js.shl 1 (Z.of_nat i)) =? 0).
    + destruct (present (istreams (ctx w)) (Z.of_nat i)).
      * destruct (IH _ _ H) as (new & T & F). exists (Resume i :: new).
        rewrite T. simpl. rewrite <- app_assoc. split; [reflexivity | exact F].
      * apply IH, H.
    + destruct (nth_error (istreams (ctx w)) i) as [[s |] |]; try discriminate.
      destruct (IH _ _ H) as (new & T & F). exists (Pause i :: new).
      rewrite T. simpl. rewrite <- app_assoc. split; [reflexivity | exact F].
Qed.

Lemma attach_dead (lanes : list nat) :
  forall w w', attach lanes w = Ok w' -> inputError (ctx w') = inputError (ctx w).
Proof.
  intros w w' H. apply attach_spec in H. destruct H as (-> & _). reflexivity.
Qed.

Lemma create_fresh (junk : nat -> Byte.byte) (k m : Z)
      (ins : list (option Readable)) (outs : list (option Writable))
      (size src tgt hint : Z) (c : DencodeContext) :
  Context.create junk k m ins outs size src tgt hint = Ok c ->
  fresh c /\ inputError c = None /\ istreams c = ins /\ ostreams c = outs
  /\ sources c = src /\ targets c = tgt
  /\ stripeSize c = safeStripeSize k m hint.
Proof.
  intros H. apply create_ok in H. destruct H as ((Hk & Hm) & ->).
  unfold fresh. simpl. repeat split; lia.
Qed.

Section StartShape.

Variable junk : nat -> Byte.byte.

Lemma started_shape (op : Operation) (w : World) :
  started junk op w ->
  fresh (ctx w)
  /\ primitive w = 0%nat /\ callbacks w = 0%nat /\ immediates w = 0%nat
  /\ ((inputError (ctx w) = None /\ forallb is_setup (trace w) = true)
      \/ (exists err, inputError (ctx w) = Some err
                      /\ trace w = map (fun i => Emit_error i err) (live (ostreams (ctx w)))
                      /\ readers w = [] /\ errorListeners w = [])).
Proof.
  assert (Herr : forall c e,
             fresh c -> inputError c = None ->
             let w0 := Context.error e (mkWorld c [] [] [] 0 0 0 0) in
             fresh (ctx w0)
             /\ primitive w0 = 0%nat /\ callbacks w0 = 0%nat /\ immediates w0 = 0%nat
             /\ ((inputError (ctx w0) = None /\ forallb is_setup (trace w0) = true)
                 \/ (exists err, inputError (ctx w0) = Some err
                                 /\ trace w0 = map (fun i => Emit_error i err)
                                                   (live (ostreams (ctx w0)))
                                 /\ readers w0 = [] /\ errorListeners w0 = []))).
  { intros c e Hf Hn. unfold Context.error. simpl. rewrite Hn. simpl.
    split; [exact Hf |]. repeat split. right. exists e. repeat split. }
  assert (Hatt : forall c lanes w',
             fresh c -> inputError c = None ->
             attach lanes (mkWorld c [] [] [] 0 0 0 0) = Ok w' ->
             fresh (ctx w')
             /\ primitive w' = 0%nat /\ callbacks w' = 0%nat /\ immediates w' = 0%nat
             /\ ((inputError (ctx w') = None /\ forallb is_setup (trace w') = true)
                 \/ (exists err, inputError (ctx w') = Some err
                                 /\ trace w' = map (fun i => Emit_error i err)
                                                   (live (ostreams (ctx w')))
                                 /\ readers w' = [] /\ errorListeners w' = []))).
  { intros c lanes w' Hf Hn H.
    destruct (attach_trace _ _ _ H) as (new & T & F).
    destruct (attach_spec _ _ _ H) as (A & B & C & D & _). simpl in *.
    rewrite A, B, C, D, T. split; [exact Hf |]. repeat split.
    left. split; [exact Hn | exact F]. }
  destruct op; simpl.
  - intros (instream & size & douts & pouts & hint & Hh & Hp & H).
    unfold encode in H.
    match type of H with bind ?cr _ = _ => destruct cr as [c |] eqn:Ec end;
      simpl in H; [| discriminate].
    destruct instream as [s |]; [| discriminate]. inversion H; subst; clear H.
    apply create_fresh in Ec. destruct Ec as (Hf & Hn & _). simpl.
    split; [exact Hf |]. repeat split. left. split; [exact Hn | reflexivity].
  - intros (ostream & size & ds & ps & hint & Hh & H).
    unfold decode in H.
    match type of H with bind ?cr _ = _ => destruct cr as [c |] eqn:Ec end;
      simpl in H; [| discriminate].
    apply create_fresh in Ec. destruct Ec as (Hf & Hn & _).
    destruct (r_available (Decode.getPartRoles ds ps) <? Z.of_nat (List.length ds)).
    + inversion H; subst; clear H. apply Herr; assumption.
    + eapply Hatt; eassumption.
  - intros (k & m & ist & ost & size & hint & Hh & H).
    unfold repair in H.
    destruct (negb (k + m =? Z.of_nat (List.length ist))); [discriminate |].
    destruct (negb (k + m =? Z.of_nat (List.length ost))); [discriminate |].
    match type of H with bind ?cr _ = _ => destruct cr as [c |] eqn:Ec end;
      simpl in H; [| discriminate].
    apply create_fresh in Ec. destruct Ec as (Hf & Hn & _).
    destruct (r_available (Repair.getPartRoles k m ist ost) <? k).
    + inversion H; subst; clear H. apply Herr; assumption.
    + eapply Hatt; eassumption.
Qed.

Lemma setup_quiet (t : list Effect) :
  forallb is_setup t = true ->
  filter is_end t = [] /\ filter is_error t = [] /\ filter is_submission t = []
  /\ filter is_read t = [].
Proof.
  intros H. repeat split; apply (filter_none is_setup); try assumption;
    intros [] Hx; try reflexivity; discriminate.
Qed.

Lemma started_signals (op : Operation) (w : World) :
  started junk op w -> ends_ok w /\ errors_ok w.
Proof.
  intros H. destruct (started_shape op w H) as (Hf & _ & _ & _ & Ht).
  destruct Hf as (Hp & _). unfold ends_ok, errors_ok. rewrite Hp.
  destruct Ht as [[Hn Hs] | (err & He & Ht & _)].
  - destruct (setup_quiet _ Hs) as (Q1 & Q2 & _). rewrite Q1, Q2, Hn.
    split; [split; [lia | left; reflexivity] | reflexivity].
  - rewrite He, Ht. split; [split; [lia | left] |].
    + clear. induction (live (ostreams (ctx w))); simpl; auto.
    + clear. induction (live (ostreams (ctx w))) as [| i l IH]; simpl;
        [reflexivity | rewrite IH; reflexivity].
Qed.

End StartShape.


(** ** One stripe in flight *)

Section Claims.

Variable junk : nat -> Byte.byte.
Variable rs : Z -> Z -> Z -> Z -> bytes -> bytes -> nat -> bytes.

Lemma frame_run (op : Operation) (events : list Event) (w w' : World) :
  run junk rs op w events = Ok w' -> same_frame (ctx w) (ctx w').
Proof.
  apply (run_relates junk rs (fun a b => same_frame (ctx a) (ctx b))).
  - intros a. apply same_frame_refl.
  - intros a b c. apply same_frame_trans.
  - intros a b Hc _. rewrite Hc. apply same_frame_refl.
  - intros a new b (_ & F & _) _ _. exact F.
  - intros a new b (_ & F & _) _ _. exact F.
  - intros e a. assert (Hs := error_spec e a).
    destruct (inputError (ctx a)); [rewrite Hs; apply same_frame_refl | apply Hs].
Qed.

(** C9. Whatever the callbacks an operation started on well-formed
    arguments receives, no handler throws (in particular the assertion of
    [ref] never fires), at most one stripe is with the primitive, a stripe is
    with the primitive only while the context is in flight, and while it is
    in flight every buffer-filling step returns at once, changing nothing. *)
Theorem one_stripe_in_flight (op : Operation) (w0 : World) (events : list Event) :
  started junk op w0 ->
  exists w,
    run junk rs op w0 events = Ok w
    /\ run junk rs op w0 events <> Throw Assert_waiting
    /\ (primitive w <= 1)%nat
    /\ (primitive w = 1%nat -> inFlight (ctx w) = true)
    /\ (inFlight (ctx w) = true ->
        forall i, encodeBufferStep i w = Ok w /\ decodeBufferStep i w = Ok w).
Proof.
  intros Hs. apply (started_sound junk) in Hs.
  destruct (run_sound junk rs op events w0 Hs) as (w & E & Hw).
  exists w. split; [exact E |]. split; [rewrite E; discriminate |].
  destruct Hw as (_ & _ & _ & _ & J1 & J2 & _).
  split; [exact J1 |]. split.
  - intros Hp. destruct (inFlight (ctx w)); [reflexivity |].
    destruct (J2 eq_refl) as (H & _). congruence.
  - intros Hf i. unfold encodeBufferStep, decodeBufferStep, Context.wait.
    rewrite Hf. split; reflexivity.
Qed.

(** ** Errors *)

Lemma error_twice (e1 e2 : Error) (w : World) :
  Context.error e2 (Context.error e1 w) = Context.error e1 w.
Proof.
  unfold Context.error. destruct (inputError (ctx w)) eqn:E.
  - rewrite E. reflexivity.
  - reflexivity.
Qed.

Lemma error_again (e1 : Error) (later : list Error) (w : World) :
  fold_left (fun w' e => Context.error e w') later (Context.error e1 w)
  = Context.error e1 w.
Proof.
  induction later as [| e2 later IH]; simpl; [reflexivity |].
  rewrite error_twice. exact IH.
Qed.

(** C4. In every state an operation reaches, each live output lane has
    received exactly one 'error' event if an error is retained and none
    otherwise. A call of [error] retains its argument only if no error was
    retained before; any number of further calls changes nothing; and the
    retained error stays whatever happens next. *)
Theorem error_first_wins (op : Operation) (w0 w : World) (events : list Event) :
  started junk op w0 ->
  run junk rs op w0 events = Ok w ->
  (forall lane,
      count (is_error_on lane) (trace w)
      = match inputError (ctx w) with
        | None => 0%nat
        | Some _ => if present (ostreams (ctx w)) (Z.of_nat lane) then 1%nat else 0%nat
        end)
  /\ (forall err later,
         let w1 := Context.error err w in
         inputError (ctx w1)
         = Some (match inputError (ctx w) with Some first => first | None => err end)
         /\ (forall lane,
                count (is_error_on lane) (trace w1)
                = if present (ostreams (ctx w)) (Z.of_nat lane) then 1%nat else 0%nat)
         /\ fold_left (fun w' e => Context.error e w') later w1 = w1
         /\ (forall more w',
                run junk rs op w1 more = Ok w' ->
                inputError (ctx w') = inputError (ctx w1)
                /\ forall lane,
                    count (is_error_on lane) (trace w')
                    = count (is_error_on lane) (trace w1))).
Proof.
  intros Hs Hr.
  assert (Hsig : ends_ok w /\ errors_ok w)
    by (eapply signals_run; [exact Hr | apply (started_signals junk op), Hs]).
  assert (Hcount : forall x,
             errors_ok x ->
             forall lane,
               count (is_error_on lane) (trace x)
               = match inputError (ctx x) with
                 | None => 0%nat
                 | Some _ => if present (ostreams (ctx x)) (Z.of_nat lane)
                             then 1%nat else 0%nat
                 end).
  { intros x Hx lane.
    rewrite <- (count_filter (is_error_on lane) is_error)
      by (intros []; simpl; try discriminate; reflexivity).
    rewrite Hx. destruct (inputError (ctx x)); [apply count_errors_live | reflexivity]. }
  split; [apply Hcount, Hsig |].
  intros err later w1.
  assert (Hsig1 : ends_ok w1 /\ errors_ok w1) by (apply signal_error, Hsig).
  assert (He1 : inputError (ctx w1)
                = Some (match inputError (ctx w) with Some first => first | None => err end)).
  { unfold w1, Context.error. destruct (inputError (ctx w)) eqn:E; simpl; [exact E | reflexivity]. }
  assert (Ho1 : ostreams (ctx w1) = ostreams (ctx w)).
  { unfold w1, Context.error. destruct (inputError (ctx w)); reflexivity. }
  split; [exact He1 |]. split.
  - intros lane. rewrite (Hcount w1 (proj2 Hsig1)), He1, Ho1. reflexivity.
  - split; [apply error_again |].
    intros more w' Hr'.
    assert (He' : inputError (ctx w') = inputError (ctx w1)).
    { rewrite He1. eapply error_sticks; [exact Hr' | exact He1]. }
    split; [exact He' |]. intros lane.
    assert (Hsig' : ends_ok w' /\ errors_ok w')
      by (eapply signals_run; [exact Hr' | exact Hsig1]).
    assert (Ho' : ostreams (ctx w') = ostreams (ctx w1))
      by (apply (frame_run op more w1 w' Hr')).
    rewrite (Hcount w' (proj2 Hsig')), (Hcount w1 (proj2 Hsig1)), He', Ho'. reflexivity.
Qed.

End Claims.


(** ** An empty object *)

Lemma stream_read_empty (n : Z) (s : Readable) :
  buffered s = [] -> stream_read n s = (None, s).
Proof.
  intros H. unfold stream_read. rewrite H. simpl.
  destruct (n <=? 0); [reflexivity |].
  destruct (ended s); reflexivity.
Qed.

Lemma empty_list_set (l : list (option Readable)) (i : nat) (s : Readable) :
  buffered s = [] ->
  (forall j r, nth_error l j = Some (Some r) -> buffered r = []) ->
  forall j r, nth_error (list_set i (Some s) l) j = Some (Some r) -> buffered r = [].
Proof.
  intros Hs Hl j r. rewrite nth_error_list_set.
  destruct (Nat.eqb i j).
  - destruct (Nat.ltb i (List.length l)); [| discriminate].
    intros H. inversion H; subst. exact Hs.
  - apply Hl.
Qed.

Section Empty.

Variable junk : nat -> Byte.byte.
Variable rs : Z -> Z -> Z -> Z -> bytes -> bytes -> nat -> bytes.

Lemma idle_listener (op : Operation) (i : nat) (w w' : World) :
  listener op i w = Ok w' -> idle w -> idle w'.
Proof.
  unfold listener. intros H (Hf & Hp & Hc & Hi & Hz & He & Hs).
  destruct (existsb (Nat.eqb i) (readers w));
    [| inversion H; subst; repeat split; assumption].
  assert (Hfill : forall n s,
             nth_error (istreams (ctx w)) i = Some (Some s) ->
             idle (log (Read i n)
                       (upd_ctx (set_istreams (list_set i (Some s) (istreams (ctx w)))) w))).
  { intros n s Es. unfold idle. simpl.
    rewrite filter_app, Hs. simpl.
    repeat split; try assumption.
    apply empty_list_set; [eapply He; exact Es | exact He]. }
  destruct op.
  - unfold encodeBufferStep, Context.wait in H. rewrite Hf in H.
    destruct (nth_error (istreams (ctx w)) i) as [[s |] |] eqn:Es; try discriminate.
    rewrite (stream_read_empty _ s (He _ _ Es)) in H.
    inversion H; subst. apply Hfill. reflexivity.
  - unfold decodeBufferStep, Context.wait in H. rewrite Hf in H.
    destruct (Js.band _ _ =? 0); [inversion H; subst; repeat split; assumption |].
    unfold fillStripeBuffers in H.
    destruct (nth_error (istreams (ctx w)) i) as [[s |] |] eqn:Es; try discriminate.
    rewrite (stream_read_empty _ s (He _ _ Es)) in H. simpl in H.
    inversion H; subst. apply Hfill. reflexivity.
  - unfold decodeBufferStep, Context.wait in H. rewrite Hf in H.
    destruct (Js.band _ _ =? 0); [inversion H; subst; repeat split; assumption |].
    unfold fillStripeBuffers in H.
    destruct (nth_error (istreams (ctx w)) i) as [[s |] |] eqn:Es; try discriminate.
    rewrite (stream_read_empty _ s (He _ _ Es)) in H. simpl in H.
    inversion H; subst. apply Hfill. reflexivity.
Qed.

Lemma idle_map_lane (f : option Readable -> option Readable) (i : nat) (w : World) :
  (forall s r, f s = Some r -> exists r0, s = Some r0 /\ (buffered r0 = [] -> buffered r = [])) ->
  idle w -> idle (map_lane f i w).
Proof.
  intros Hfn (Hf & Hp & Hc & Hi & Hz & He & Hs). unfold map_lane.
  destruct (nth_error (istreams (ctx w)) i) as [s |] eqn:Es;
    [| repeat split; assumption].
  unfold idle. simpl. repeat split; try assumption.
  intros j r. rewrite nth_error_list_set.
  destruct (Nat.eqb i j).
  - destruct (Nat.ltb i _); [| discriminate]. intros H. inversion H as [H1].
    destruct (Hfn _ _ H1) as (r0 & -> & Hr). apply Hr. eapply He. exact Es.
  - apply He.
Qed.

Lemma idle_step (op : Operation) (w w' : World) (e : Event) :
  no_bytes e = true -> step junk rs op w e = Ok w' -> idle w -> idle w'.
Proof.
  intros Hn H Hi. destruct e as [i | i chunk | i | i err | err okf | |]; simpl in H.
  - eapply idle_listener; eassumption.
  - destruct chunk; [| discriminate]. inversion H; subst.
    apply idle_map_lane; [| exact Hi].
    intros [r0 |] r; simpl; [| discriminate].
    destruct (ended r0); intros E; inversion E; subst;
      (eexists; split; [reflexivity |]); auto.
    simpl. rewrite app_nil_r. auto.
  - inversion H; subst. apply idle_map_lane; [| exact Hi].
    intros [r0 |] r; simpl; [| discriminate].
    intros E; inversion E; subst; (eexists; split; [reflexivity |]); auto.
  - destruct (existsb (Nat.eqb i) (errorListeners w)); inversion H; subst; [| exact Hi].
    destruct Hi as (Hf & Hp & Hc & Him & Hz & He & Hs).
    unfold Context.error. simpl. destruct (inputError (ctx w)).
    + repeat split; assumption.
    + unfold idle. simpl. rewrite filter_app, Hs. simpl.
      repeat split; try assumption.
      clear. induction (live (ostreams (ctx w))); simpl; auto.
  - destruct Hi as (Hf & Hp & Hc & Him & Hz & He & Hs). rewrite Hp in H.
    inversion H; subst. repeat split; assumption.
  - destruct Hi as (Hf & Hp & Hc & Him & Hz & He & Hs). rewrite Hc in H.
    inversion H; subst. repeat split; assumption.
  - destruct Hi as (Hf & Hp & Hc & Him & Hz & He & Hs). rewrite Him in H.
    inversion H; subst. repeat split; assumption.
Qed.

Lemma idle_run (op : Operation) (events : list Event) :
  forall w w',
    Forall (fun e => no_bytes e = true) events ->
    run junk rs op w events = Ok w' -> idle w -> idle w'.
Proof.
  induction events as [| e events IH]; intros w w' Hn H Hi; simpl in H.
  - inversion H; subst. exact Hi.
  - inversion Hn as [| e' es He Hes]; subst.
    destruct (step junk rs op w e) as [w1 |] eqn:E; simpl in H; [| discriminate].
    eapply IH; [exact Hes | exact H |]. eapply idle_step; eassumption.
Qed.

(** C10. For an object of size 0 the number of stripes is 0 (for a positive
    stripe size), and whatever callbacks the operation receives, no handler
    throws and no 'end' ever reaches an output; when moreover no byte is
    buffered on or arrives at any input lane, no stripe is handed to the
    primitive and the stripe counter stays at 0. *)
Theorem empty_object_never_ends (op : Operation) (w0 : World) (events : list Event) :
  started junk op w0 -> size (ctx w0) = 0 ->
  (0 < stripeSize (ctx w0) -> nStripe (ctx w0) = Some 0)
  /\ exists w,
      run junk rs op w0 events = Ok w
      /\ count is_end (trace w) = 0%nat
      /\ (Forall (fun e => no_bytes e = true) events ->
          (forall i s, nth_error (istreams (ctx w0)) i = Some (Some s) -> buffered s = []) ->
          count is_submission (trace w) = 0%nat /\ processedStripe (ctx w) = 0).
Proof.
  intros Hs Hz.
  destruct (started_shape junk op w0 Hs) as (Hf & Hp & Hc & Hi & Ht).
  destruct Hf as (Hp0 & Hfl & _ & Hk & _ & _ & Hn).
  assert (Hn0 : nStripe (ctx w0) = None \/ nStripe (ctx w0) = Some 0).
  { rewrite Hn, Hz. destruct (k (ctx w0) * stripeSize (ctx w0) =? 0); [left; reflexivity |].
    right. rewrite ceil_div_Z. reflexivity. }
  split.
  - intros HS. rewrite Hn, Hz.
    destruct (Z.eqb_spec (k (ctx w0) * stripeSize (ctx w0)) 0) as [E | E]; [nia |].
    rewrite ceil_div_Z. reflexivity.
  - destruct (run_sound junk rs op events w0 (started_sound junk op w0 Hs)) as (w & E & _).
    exists w. split; [exact E |].
    assert (Hsig : ends_ok w /\ errors_ok w)
      by (eapply signals_run; [exact E | apply (started_signals junk op), Hs]).
    assert (Hfr := frame_run junk rs op events w0 w E).
    assert (Hns : nStripe (ctx w) = nStripe (ctx w0)) by apply Hfr.
    split.
    + destruct Hsig as [[_ [H0 | (_ & n & Hn' & Hle)]] _].
      * unfold count. rewrite H0. reflexivity.
      * rewrite Hns in Hn'. destruct Hn0 as [Hx | Hx]; rewrite Hx in Hn';
          [discriminate | inversion Hn'; lia].
    + intros Hnb Hempty.
      assert (Hidle : idle w0).
      { unfold idle. repeat split; try assumption.
        destruct Ht as [[_ Hset] | (err & _ & -> & _)].
        - apply (setup_quiet _ Hset).
        - clear. induction (live (ostreams (ctx w0))); simpl; auto. }
      destruct (idle_run op events w0 w Hnb E Hidle) as (_ & _ & _ & _ & Hpz & _ & Hsub).
      unfold count. rewrite Hsub. split; [reflexivity | exact Hpz].
Qed.

End Empty.


(** ** Releasing a stripe *)

Section Release.

Variable junk : nat -> Byte.byte.
Variable rs : Z -> Z -> Z -> Z -> bytes -> bytes -> nat -> bytes.

Lemma released_unref (op : Operation) (w : World) :
  released op w ->
  exists w' new,
    unref junk op w = Ok w'
    /\ advances w new w'
    /\ filter is_error new = [] /\ filter is_write new = []
    /\ if is_nStripe (processedStripe (ctx w) + 1) (ctx w)
       then new = map Emit_end (live (ostreams (ctx w)))
            /\ inFlight (ctx w') = false
       else filter is_wake new = map Emit_readable (live (istreams (ctx w)))
            /\ filter is_end new = [].
Proof.
  intros (Hg & Hr & Ho & Hb & Hp & Hc & Hi).
  destruct (unref_sound junk op w Hg Hr Ho Hb Hp Hc Hi) as (w' & E & _).
  destruct (unref_advances junk op w w' E) as (new & Ha & Hn).
  exists w', new. split; [exact E |]. split; [exact Ha |].
  destruct (is_nStripe (processedStripe (ctx w) + 1) (ctx w)).
  - destruct Hn as [-> Hf].
    split; [clear; induction (live (ostreams (ctx w))); simpl; auto |].
    split; [clear; induction (live (ostreams (ctx w))); simpl; auto |].
    split; [reflexivity | exact Hf].
  - destruct Hn as [Hw Hf]. destruct (refill_quiet new Hf) as (Q1 & Q2 & Q3).
    repeat split; assumption.
Qed.

Lemma count_wake_filter (lane : nat) (new : list Effect) :
  count (is_wake_on lane) new = count (is_wake_on lane) (filter is_wake new).
Proof.
  symmetry. apply count_filter. intros []; simpl; try discriminate; reflexivity.
Qed.

Lemma count_end_filter (lane : nat) (new : list Effect) :
  count (is_end_on lane) new = count (is_end_on lane) (filter is_end new).
Proof.
  symmetry. apply count_filter. intros []; simpl; try discriminate; reflexivity.
Qed.

Lemma is_nStripe_spec (x : Z) (c : DencodeContext) :
  is_nStripe x c = true <-> nStripe c = Some x.
Proof.
  unfold is_nStripe. destruct (nStripe c) as [n |].
  - destruct (Z.eqb_spec x n) as [-> | N].
    + split; reflexivity.
    + split; [discriminate | intros H; congruence].
  - split; discriminate.
Qed.

(** C6. When the primitive has completed and no write or drain callback of
    the stripe is outstanding, [unref] returns; it clears the in-flight flag
    and increments [processedStripe]. If the counter then is the number of
    stripes of the object ([nStripe]), it emits 'end' exactly once on every
    live output and wakes no input. If it is not, it allocates fresh stripe
    buffers with [waiting] reset to [sources] and emits 'readable' exactly
    once on every live input lane, and no 'end'. This is the state in which
    the last write callback of the encoder and the decoder, and the deferred
    call of the repair, run it. *)
Theorem unref_completes_stripe (op : Operation) (w : World) :
  released op w ->
  let p := processedStripe (ctx w) + 1 in
  let w1 := upd_ctx (fun c => set_processedStripe (processedStripe c + 1)
                                (set_inFlight false c)) w in
  (exists w' new,
      unref junk op w = Ok w'
      /\ trace w' = trace w ++ new
      /\ processedStripe (ctx w') = p
      /\ inFlight (ctx w1) = false /\ processedStripe (ctx w1) = p
      /\ (nStripe (ctx w) = Some p ->
          w' = log_all (map Emit_end (live (ostreams (ctx w)))) w1
          /\ (forall lane,
                 count (is_end_on lane) new
                 = if present (ostreams (ctx w)) (Z.of_nat lane) then 1%nat else 0%nat)
          /\ count is_wake new = 0%nat)
      /\ (nStripe (ctx w) <> Some p ->
          exists c2,
            Context.newStripe junk (ctx w1) = Ok c2
            /\ unref junk op w
               = Context.wake (listener op) (live (istreams (ctx w)))
                              (upd_ctx (fun _ => c2) w1)
            /\ inFlight c2 = false
            /\ processedStripe c2 = p
            /\ waiting c2 = sources (ctx w)
            /\ dataBuffer c2 = heap_bytes junk (data_size (ctx w))
            /\ parityBuffer c2 = heap_bytes junk (parity_size (ctx w))
            /\ (forall lane,
                   count (is_wake_on lane) new
                   = if present (istreams (ctx w)) (Z.of_nat lane) then 1%nat else 0%nat)
            /\ count is_end new = 0%nat))
  /\ (forall w0,
         sound op w0 -> op <> Repairing -> callbacks w0 = 1%nat ->
         set_nPending (nPending w0 - 1) (set_callbacks 0 w0) = w ->
         step junk rs op w0 Write_done = unref junk op w)
  /\ (forall w0,
         sound op w0 -> immediates w0 = 1%nat -> set_immediates 0 w0 = w ->
         step junk rs op w0 Immediate = unref junk op w).
Proof.
  intros Hrel p w1. split; [| split].
  - destruct (released_unref op w Hrel) as (w' & new & E & (T & F & P & _) & _ & _ & Hn).
    exists w', new. split; [exact E |]. split; [exact T |]. split; [exact P |].
    split; [reflexivity |]. split; [reflexivity |].
    assert (Hsz : 0 <= data_size (ctx w) /\ 0 <= parity_size (ctx w))
      by (apply geometry_sizes, Hrel).
    assert (Hnew : Context.newStripe junk (ctx w1) = Ok (next_stripe junk (ctx w1)))
      by (apply newStripe_ok; apply Hsz).
    assert (Hdef : unref junk op w
                   = if is_nStripe p (ctx w)
                     then Ok (log_all (map Emit_end (live (ostreams (ctx w)))) w1)
                     else Context.wake (listener op) (live (istreams (ctx w)))
                                       (upd_ctx (fun _ => next_stripe junk (ctx w1)) w1)).
    { unfold unref. rewrite unref_next by apply Hsz. reflexivity. }
    fold p in Hn.
    destruct (is_nStripe p (ctx w)) eqn:En.
    + apply is_nStripe_spec in En. split; [| intros N; contradiction].
      intros _. destruct Hn as [-> _]. rewrite Hdef in E. inversion E; subst w'.
      split; [reflexivity |]. split; [intros lane; apply count_ends_live |].
      unfold count. clear. induction (live (ostreams (ctx w))); simpl; auto.
    + split.
      { intros N. apply is_nStripe_spec in N. congruence. }
      intros _. destruct Hn as [Hw He].
      exists (next_stripe junk (ctx w1)).
      split; [exact Hnew |]. split; [exact Hdef |].
      repeat split.
      * intros lane. rewrite count_wake_filter, Hw. apply count_wakes_live.
      * unfold count. rewrite He. reflexivity.
  - intros w0 (_ & _ & _ & _ & _ & _ & _ & J4 & _) Hop Hc Hw. simpl. rewrite Hc.
    destruct (J4 ltac:(lia)) as [Hn _]. rewrite Hc in Hn.
    simpl. replace (nPending w0 - 1 =? 0) with true by (symmetry; apply Z.eqb_eq; lia).
    rewrite Hw. destruct op; try reflexivity. congruence.
  - intros w0 _ Hi Hw. simpl. rewrite Hi, Hw. reflexivity.
Qed.


End Release.


(** ** Not enough lanes *)

Section Insufficient.

Variable junk : nat -> Byte.byte.
Variable rs : Z -> Z -> Z -> Z -> bytes -> bytes -> nat -> bytes.

Lemma dead_step (op : Operation) (w : World) (e : Event) :
  readers w = [] -> errorListeners w = [] ->
  primitive w = 0%nat -> callbacks w = 0%nat -> immediates w = 0%nat ->
  exists w',
    step junk rs op w e = Ok w'
    /\ trace w' = trace w /\ inputError (ctx w') = inputError (ctx w)
    /\ readers w' = [] /\ errorListeners w' = []
    /\ primitive w' = 0%nat /\ callbacks w' = 0%nat /\ immediates w' = 0%nat.
Proof.
  intros Hr He Hp Hc Hi.
  destruct e as [i | i chunk | i | i err | err okf | |]; simpl.
  - unfold listener. rewrite Hr. simpl. exists w. repeat split; assumption.
  - eexists. split; [reflexivity |]. unfold map_lane.
    destruct (nth_error (istreams (ctx w)) i); simpl; repeat split; assumption.
  - eexists. split; [reflexivity |]. unfold map_lane.
    destruct (nth_error (istreams (ctx w)) i); simpl; repeat split; assumption.
  - rewrite He. simpl. exists w. repeat split; assumption.
  - rewrite Hp. exists w. repeat split; assumption.
  - rewrite Hc. exists w. repeat split; assumption.
  - rewrite Hi. exists w. repeat split; assumption.
Qed.

Lemma dead_run (op : Operation) (events : list Event) :
  forall w,
    readers w = [] -> errorListeners w = [] ->
    primitive w = 0%nat -> callbacks w = 0%nat -> immediates w = 0%nat ->
    exists w',
      run junk rs op w events = Ok w'
      /\ trace w' = trace w /\ inputError (ctx w') = inputError (ctx w).
Proof.
  induction events as [| e events IH]; intros w Hr He Hp Hc Hi; simpl.
  - exists w. repeat split.
  - destruct (dead_step op w e Hr He Hp Hc Hi)
      as (w1 & -> & T & E & Hr1 & He1 & Hp1 & Hc1 & Hi1).
    simpl. destruct (IH w1 Hr1 He1 Hp1 Hc1 Hi1) as (w' & R & T' & E').
    exists w'. split; [exact R |]. split; congruence.
Qed.

Lemma count_read_errors (err : Error) (lanes : list nat) :
  count is_read (map (fun i => Emit_error i err) lanes) = 0%nat.
Proof. unfold count. induction lanes; simpl; auto. Qed.

(** The counts of lanes are rendered in decimal. *)
Lemma show_decimal (n : nat) :
  (n <= 30)%nat -> Js.show (Z.of_nat n) = decimal n.
Proof.
  intros H.
  do 31 (destruct n as [| n]; [vm_compute; reflexivity |]).
  lia.
Qed.

Lemma not_enough_message (available k : Z) :
  0 <= available <= 30 -> 0 <= k <= 30 ->
  message (not_enough available k)
  = ("Not enough parts for decoding: " ++ decimal (Z.to_nat available)
     ++ " < " ++ decimal (Z.to_nat k))%string.
Proof.
  intros Ha Hk. unfold not_enough. cbn [message].
  rewrite <- (Z2Nat.id available) at 1 by lia.
  rewrite <- (Z2Nat.id k) at 1 by lia.
  rewrite !show_decimal by lia. reflexivity.
Qed.

(** The stripe size is negative exactly for the hints from [-8] down. *)
Lemma safeStripeSize_sign (k m hint : Z) :
  0 < k <= MAX_K -> 0 < m <= MAX_M ->
  (0 <= safeStripeSize k m hint <-> -8 < hint).
Proof.
  intros Hk Hm.
  rewrite safeStripeSize_eq by lia.
  unfold safeStripeSize_spec, round_up8, maxStripe, MAX_HWM, MAX_K, MAX_M in *.
  assert (Hmax : 0 <= 8 * (8388608 / Z.max k m / 8)).
  { apply Z.mul_nonneg_nonneg; [lia |]. apply Z.div_pos; [| lia].
    apply Z.div_pos; lia. }
  assert (Hmod := Z.mod_pos_bound (- hint) 8 ltac:(lia)).
  assert (Hdm := Z.div_mod (- hint) 8 ltac:(lia)).
  split; intros H.
  - apply Z.min_glb_iff in H. destruct H as [H _]. nia.
  - apply Z.min_glb; [| exact Hmax].
    destruct (Z.le_gt_cases 0 hint) as [A | A]; [lia |].
    assert (- hint < 8) by lia.
    rewrite Z.mod_small by lia. lia.
Qed.

(** C2 (as amended). A decode or a repair with valid code parameters, a
    stripe size hint above [-8] and fewer than [k] available input lanes
    returns a context whose terminal error reads
    "Not enough parts for decoding: <available> < <k>", both counts in
    decimal, the first being the exact count of available lanes; no listener
    is installed, so that nothing has been read when it returns and nothing
    is read whatever happens afterwards. *)
Theorem insufficient_shards
        (ostream : option Writable) (dataStreams parityStreams : list (option Readable))
        (k m : Z) (istreams : list (option Readable)) (ostreams : list (option Writable))
        (size hint : Z) (events : list Event) :
  let kd := Z.of_nat (List.length dataStreams) in
  let md := Z.of_nat (List.length parityStreams) in
  let available := count_present (dataStreams ++ parityStreams) in
  let available' := count_present istreams in
  0 < kd <= MAX_K -> 0 < md <= MAX_M -> available < kd ->
  0 < k <= MAX_K -> 0 < m <= MAX_M ->
  k + m = Z.of_nat (List.length istreams) ->
  k + m = Z.of_nat (List.length ostreams) ->
  available' < k ->
  -8 < hint ->
  (exists w0 w err,
      decode junk ostream size dataStreams parityStreams hint = Ok w0
      /\ inputError (ctx w0) = Some err
      /\ message err
         = ("Not enough parts for decoding: " ++ decimal (Z.to_nat available)
            ++ " < " ++ decimal (List.length dataStreams))%string
      /\ count is_read (trace w0) = 0%nat
      /\ run junk rs Decoding w0 events = Ok w
      /\ count is_read (trace w) = 0%nat
      /\ inputError (ctx w) = inputError (ctx w0))
  /\ (exists w0 w err,
         repair junk k m istreams ostreams size hint = Ok w0
         /\ inputError (ctx w0) = Some err
         /\ message err
            = ("Not enough parts for decoding: " ++ decimal (Z.to_nat available')
               ++ " < " ++ decimal (Z.to_nat k))%string
         /\ count is_read (trace w0) = 0%nat
         /\ run junk rs Repairing w0 events = Ok w
         /\ count is_read (trace w) = 0%nat
         /\ inputError (ctx w) = inputError (ctx w0)).
Proof.
  intros kd md available available' Hkd Hmd Hav Hk Hm Hli Hlo Hav' Hh.
  assert (Ha0 : 0 <= available) by (unfold available, count_present; lia).
  assert (Ha0' : 0 <= available') by (unfold available', count_present; lia).
  split.
  - unfold decode. fold kd md.
    rewrite create_next
      by (try assumption; apply (safeStripeSize_sign kd md hint Hkd Hmd), Hh).
    cbn [bind].
    destruct (decode_roles_spec dataStreams parityStreams) as [_ Ha].
    { fold kd md. unfold MAX_K, MAX_M in *. lia. }
    fold kd available in Ha. rewrite Z.min_r in Ha by lia. rewrite Ha.
    destruct (Z.ltb_spec available kd); [| lia].
    eexists.
    match goal with
    | |- exists w err, Ok ?w0 = Ok _ /\ _ =>
        destruct (dead_run Decoding events w0) as (w & R & T & E);
        try reflexivity; exists w, (not_enough available kd)
    end.
    split; [reflexivity |]. split; [reflexivity |].
    split.
    { rewrite not_enough_message by (unfold MAX_K in *; lia).
      unfold kd. rewrite Nat2Z.id. reflexivity. }
    split; [apply count_read_errors |]. split; [exact R |].
    split; [rewrite T; apply count_read_errors | exact E].
  - unfold repair.
    destruct (Z.eqb_spec (k + m) (Z.of_nat (List.length istreams))); [| contradiction].
    destruct (Z.eqb_spec (k + m) (Z.of_nat (List.length ostreams))); [| contradiction].
    cbn [negb].
    rewrite create_next
      by (try assumption; apply (safeStripeSize_sign k m hint Hk Hm), Hh).
    cbn [bind].
    destruct (repair_roles_spec k m istreams ostreams) as (_ & _ & _ & Ha & _);
      try assumption; try (unfold MAX_K, MAX_M in *; lia).
    fold available' in Ha. rewrite Z.min_r in Ha by lia. rewrite Ha.
    destruct (Z.ltb_spec available' k); [| lia].
    eexists.
    match goal with
    | |- exists w err, Ok ?w0 = Ok _ /\ _ =>
        destruct (dead_run Repairing events w0) as (w & R & T & E);
        try reflexivity; exists w, (not_enough available' k)
    end.
    split; [reflexivity |]. split; [reflexivity |].
    split; [apply not_enough_message; unfold MAX_K in *; lia |].
    split; [apply count_read_errors |]. split; [exact R |].
    split; [rewrite T; apply count_read_errors | exact E].
Qed.

End Insufficient.

(** The scenario of [test/decode.test.js]: 3 of 6 lanes. *)
Example not_enough_valid_parts :
  option_map message
    (inputError (ctx (the (decode noJunk aSink 4096
                                  [None; aStream; aStream; None] [aStream; None] 1024))))
  = Some "Not enough parts for decoding: 3 < 4"%string.
Proof. vm_compute. reflexivity. Qed.


(** ** The properties at work on RS(2,1) *)

Lemma sampleDecode_started : started noJunk Decoding sampleDecode.
Proof.
  exists aSink, 32, [sixteen Byte.x01; None], [sixteen Byte.x03], 8.
  split; [lia | vm_compute; reflexivity].
Qed.

Lemma sampleEmpty_started : started noJunk Decoding sampleEmpty.
Proof.
  exists aSink, 0, [aStream; aStream], [aStream], 8.
  split; [lia | vm_compute; reflexivity].
Qed.

Lemma sampleSubmitted_sound : sound Decoding sampleSubmitted.
Proof.
  destruct (run_sound noJunk noRs Decoding [On_readable 0%nat; On_readable 2%nat]
                      sampleDecode (started_sound _ _ _ sampleDecode_started))
    as (w & E & H).
  replace sampleSubmitted with w; [exact H |].
  unfold sampleSubmitted. rewrite E. reflexivity.
Qed.

Lemma sampleWritten_sound : sound Decoding sampleWritten.
Proof.
  destruct (step_sound noJunk noRs Decoding sampleSubmitted (Primitive_done None allOk)
                       sampleSubmitted_sound) as (w & E & H).
  replace sampleWritten with w; [exact H |].
  unfold sampleWritten. rewrite E. reflexivity.
Qed.

Lemma one_stripe_in_flight_witness :
  exists w,
    run noJunk noRs Decoding sampleDecode
        [On_readable 0%nat; On_readable 2%nat; Primitive_done None allOk] = Ok w
    /\ run noJunk noRs Decoding sampleDecode
           [On_readable 0%nat; On_readable 2%nat; Primitive_done None allOk]
       <> Throw Assert_waiting
    /\ (primitive w <= 1)%nat
    /\ (primitive w = 1%nat -> inFlight (ctx w) = true)
    /\ (inFlight (ctx w) = true ->
        forall i, encodeBufferStep i w = Ok w /\ decodeBufferStep i w = Ok w).
Proof.
  apply (one_stripe_in_flight noJunk noRs Decoding sampleDecode).
  exists aSink, 32, [sixteen Byte.x01; None], [sixteen Byte.x03], 8.
  split; [lia | vm_compute; reflexivity].
Defined.

Lemma error_first_wins_witness :
  count (is_error_on 0)
        (trace (the (run noJunk noRs Decoding sampleDecode
                         [On_error 0%nat sampleError;
                          On_error 2%nat (mkError "second failure")])))
  = 1%nat.
Proof.
  rewrite (proj1 (error_first_wins noJunk noRs Decoding sampleDecode
                    (the (run noJunk noRs Decoding sampleDecode
                              [On_error 0%nat sampleError;
                               On_error 2%nat (mkError "second failure")]))
                    [On_error 0%nat sampleError;
                     On_error 2%nat (mkError "second failure")]
                    sampleDecode_started ltac:(vm_compute; reflexivity)) 0%nat).
  vm_compute. reflexivity.
Defined.

Lemma empty_object_never_ends_witness :
  (0 < stripeSize (ctx sampleEmpty) -> nStripe (ctx sampleEmpty) = Some 0)
  /\ exists w,
      run noJunk noRs Decoding sampleEmpty [On_readable 0%nat; Ends 0%nat; On_readable 0%nat]
      = Ok w
      /\ count is_end (trace w) = 0%nat
      /\ (Forall (fun e => no_bytes e = true)
                 [On_readable 0%nat; Ends 0%nat; On_readable 0%nat] ->
          (forall i s, nth_error (istreams (ctx sampleEmpty)) i = Some (Some s) ->
                       buffered s = []) ->
          count is_submission (trace w) = 0%nat /\ processedStripe (ctx w) = 0).
Proof.
  apply (empty_object_never_ends noJunk noRs Decoding sampleEmpty).
  - exists aSink, 0, [aStream; aStream], [aStream], 8.
    split; [lia | vm_compute; reflexivity].
  - reflexivity.
Defined.

Lemma callback_released (op : Operation) (w : World) (n : Z) :
  sound op w -> primitive w = 0%nat -> immediates w = 0%nat ->
  released op (set_nPending n (set_callbacks 0 w)).
Proof.
  intros (A & B & C & D & _) Hp Hi.
  destruct w; simpl in *.
  split; [exact A |]. split; [exact B |]. split; [exact C |]. split; [exact D |].
  split; [exact Hp |]. split; [reflexivity | exact Hi].
Qed.

Lemma sampleDecodeLast_started : started noJunk Decoding sampleDecodeLast.
Proof.
  exists aSink, 16, [sixteen Byte.x01; None], [sixteen Byte.x03], 8.
  split; [lia | vm_compute; reflexivity].
Qed.

Lemma sampleWrittenLast_sound : sound Decoding sampleWrittenLast.
Proof.
  destruct (run_sound noJunk noRs Decoding
                      [On_readable 0%nat; On_readable 2%nat; Primitive_done None allOk]
                      sampleDecodeLast (started_sound _ _ _ sampleDecodeLast_started))
    as (w & E & H).
  replace sampleWrittenLast with w; [exact H |].
  unfold sampleWrittenLast. rewrite E. reflexivity.
Qed.

(** The last stripe of a decode, and a stripe that is not the last. *)
Lemma unref_completes_stripe_witness :
  (exists w',
      nStripe (ctx sampleWrittenLast) = Some (processedStripe (ctx sampleWrittenLast) + 1)
      /\ step noJunk noRs Decoding sampleWrittenLast Write_done = Ok w'
      /\ processedStripe (ctx w') = 1
      /\ trace w' = trace sampleWrittenLast ++ [Emit_end 0])
  /\ (exists w',
         nStripe (ctx sampleWritten) <> Some (processedStripe (ctx sampleWritten) + 1)
         /\ step noJunk noRs Decoding sampleWritten Write_done = Ok w'
         /\ processedStripe (ctx w') = 1
         /\ count is_end (trace w') = 0%nat).
Proof.
  split.
  - assert (Hs := sampleWrittenLast_sound).
    assert (Hp : primitive sampleWrittenLast = 0%nat) by (vm_compute; reflexivity).
    assert (Hi : immediates sampleWrittenLast = 0%nat) by (vm_compute; reflexivity).
    assert (Hc : callbacks sampleWrittenLast = 1%nat) by (vm_compute; reflexivity).
    assert (Hn : processedStripe (ctx sampleWrittenLast) = 0) by (vm_compute; reflexivity).
    assert (Hl : nStripe (ctx sampleWrittenLast) = Some 1) by (vm_compute; reflexivity).
    assert (Ho : live (ostreams (ctx sampleWrittenLast)) = [0%nat])
      by (vm_compute; reflexivity).
    assert (Hrel := callback_released Decoding sampleWrittenLast
                                      (nPending sampleWrittenLast - 1) Hs Hp Hi).
    revert Hs Hc Hn Hl Ho Hrel.
    generalize sampleWrittenLast. intros x Hs Hc Hn Hl Ho Hrel.
    destruct (unref_completes_stripe noJunk noRs Decoding _ Hrel)
      as ((w' & new & E & _ & P & _ & _ & Hend & _) & Hw & _).
    assert (Hlast : nStripe (ctx x) = Some (processedStripe (ctx x) + 1))
      by (rewrite Hl, Hn; reflexivity).
    exists w'. split; [exact Hlast |].
    split; [rewrite <- E; apply Hw; [exact Hs | discriminate | exact Hc | reflexivity] |].
    split; [rewrite P; clear - Hn; destruct x; simpl in *; lia |].
    destruct Hend as (-> & _); [exact Hlast |].
    cbn [trace log_all upd_ctx set_nPending set_callbacks ctx ostreams
         set_processedStripe set_inFlight] in *.
    clear - Ho. destruct x as [[] ? ? ? ? ? ? ?]. cbn in *. rewrite Ho. reflexivity.
  - assert (Hs := sampleWritten_sound).
    assert (Hp : primitive sampleWritten = 0%nat) by (vm_compute; reflexivity).
    assert (Hi : immediates sampleWritten = 0%nat) by (vm_compute; reflexivity).
    assert (Hc : callbacks sampleWritten = 1%nat) by (vm_compute; reflexivity).
    assert (Hn : processedStripe (ctx sampleWritten) = 0) by (vm_compute; reflexivity).
    assert (Hl : nStripe (ctx sampleWritten) = Some 2) by (vm_compute; reflexivity).
    assert (He : count is_end (trace sampleWritten) = 0%nat) by (vm_compute; reflexivity).
    assert (Hrel := callback_released Decoding sampleWritten (nPending sampleWritten - 1)
                                      Hs Hp Hi).
    revert Hs Hc Hn Hl He Hrel.
    generalize sampleWritten. intros x Hs Hc Hn Hl He Hrel.
    destruct (unref_completes_stripe noJunk noRs Decoding _ Hrel)
      as ((w' & new & E & T & P & _ & _ & _ & Hnext) & Hw & _).
    assert (Hmore : nStripe (ctx x) <> Some (processedStripe (ctx x) + 1))
      by (rewrite Hl, Hn; discriminate).
    exists w'. split; [exact Hmore |].
    split; [rewrite <- E; apply Hw; [exact Hs | discriminate | exact Hc | reflexivity] |].
    split; [rewrite P; clear - Hn; destruct x; simpl in *; lia |].
    destruct Hnext as (c2 & _ & _ & _ & _ & _ & _ & _ & _ & Hno); [exact Hmore |].
    rewrite T, count_app, Hno. cbn [trace set_nPending set_callbacks]. rewrite He.
    reflexivity.
Defined.


Lemma insufficient_shards_witness :
  exists w0 w err,
    decode noJunk aSink 4096 [None; aStream; aStream; None] [aStream; None] 1024 = Ok w0
    /\ inputError (ctx w0) = Some err
    /\ message err = "Not enough parts for decoding: 3 < 4"%string
    /\ count is_read (trace w0) = 0%nat
    /\ run noJunk noRs Decoding w0 [On_readable 1%nat; Arrives 1%nat [Byte.x01]] = Ok w
    /\ count is_read (trace w) = 0%nat
    /\ inputError (ctx w) = inputError (ctx w0).
Proof.
  apply (insufficient_shards noJunk noRs aSink
           [None; aStream; aStream; None] [aStream; None]
           2 1 [aStream; None; None] [None; aSink; None] 4096 1024
           [On_readable 1%nat; Arrives 1%nat [Byte.x01]]);
    unfold MAX_K, MAX_M; cbn; lia.
Defined.

(** C2, counterexample. With a stripe size hint of [-8] the constructor of
    the context throws a [RangeError] before the count of available lanes is
    looked at: the call fails, but not with the error of the claim, and no
    context is returned to carry it. *)
Lemma negative_hint_masks_shortage :
  count_present ([None; aStream; aStream; None] ++ [aStream; None]) < 4
  /\ decode noJunk aSink 4096 [None; aStream; aStream; None] [aStream; None] (-8)
     = Throw RangeError
  /\ count_present [aStream; None; None] < 2
  /\ repair noJunk 2 1 [aStream; None; None] [None; aSink; None] 4096 (-8)
     = Throw RangeError.
Proof.
  split; [vm_compute; reflexivity |]. split; [vm_compute; reflexivity |].
  split; [vm_compute; reflexivity |]. vm_compute. reflexivity.
Qed.



(** ** The bytes a decode writes *)

Section Decoded.

Variable junk : nat -> Byte.byte.
Variable rs : Z -> Z -> Z -> Z -> bytes -> bytes -> nat -> bytes.

Lemma same_callbacks_refl (w : World) : same_callbacks w w.
Proof. repeat split. Qed.

Lemma same_callbacks_trans (a b c : World) :
  same_callbacks a b -> same_callbacks b c -> same_callbacks a c.
Proof.
  unfold same_callbacks. intros (A1 & A2 & A3) (B1 & B2 & B3).
  repeat split; congruence.
Qed.

Lemma submit_callbacks (w w' : World) :
  (w1 <- Context.ref w ;; Context.encode w1) = Ok w' -> same_callbacks w w'.
Proof.
  unfold Context.ref, Context.encode. intros H.
  destruct (waiting (ctx w) =? 0); simpl in H; [| discriminate].
  destruct (targets (ctx w) =? 0); inversion H; subst; repeat split.
Qed.

Lemma fillStripeBuffers_callbacks (i : nat) (w w1 : World) (filled : bool) :
  fillStripeBuffers i w = Ok (filled, w1) -> same_callbacks w w1.
Proof.
  unfold fillStripeBuffers. intros H.
  destruct (nth_error (istreams (ctx w)) i) as [[s |] |]; try discriminate.
  destruct (stream_read (stripeSize (ctx w)) s) as [[chunk |] s'].
  - destruct (Z.of_nat i <? k (ctx w)).
    + destruct (buf_copy chunk (dataBuffer (ctx w)) _) as [buf copied].
      destruct (copied =? Z.of_nat (List.length chunk)); [| discriminate].
      inversion H; subst. repeat split.
    + destruct (buf_copy chunk (parityBuffer (ctx w)) _) as [buf copied].
      destruct (copied =? Z.of_nat (List.length chunk)); [| discriminate].
      inversion H; subst. repeat split.
  - inversion H; subst. repeat split.
Qed.

Lemma decodeBufferStep_callbacks (i : nat) (w w' : World) :
  decodeBufferStep i w = Ok w' -> same_callbacks w w'.
Proof.
  unfold decodeBufferStep. intros H.
  destruct (Context.wait w); [inversion H; subst; apply same_callbacks_refl |].
  destruct (Js.band (waiting (ctx w)) (Js.shl 1 (Z.of_nat i)) =? 0);
    [inversion H; subst; apply same_callbacks_refl |].
  destruct (fillStripeBuffers i w) as [[filled w1] |] eqn:Ef; simpl in H; [| discriminate].
  apply fillStripeBuffers_callbacks in Ef.
  destruct filled; simpl in H.
  - destruct (Context.readyForEncoding _).
    + apply submit_callbacks in H.
      eapply same_callbacks_trans; [exact Ef |].
      eapply same_callbacks_trans; [| exact H]. repeat split.
    + inversion H; subst.
      eapply same_callbacks_trans; [exact Ef |]. repeat split.
  - inversion H; subst. exact Ef.
Qed.

Lemma encodeBufferStep_callbacks (i : nat) (w w' : World) :
  encodeBufferStep i w = Ok w' -> same_callbacks w w'.
Proof.
  unfold encodeBufferStep. intros H.
  destruct (Context.wait w); [inversion H; subst; apply same_callbacks_refl |].
  destruct (nth_error (istreams (ctx w)) i) as [[s |] |]; try discriminate.
  match type of H with
  | context [stream_read ?n s] => destruct (stream_read n s) as [[dataBytes |] s']
  end.
  - apply submit_callbacks in H.
    eapply same_callbacks_trans; [| exact H].
    destruct (Z.of_nat (List.length dataBytes) <? data_size (ctx w)); repeat split.
  - inversion H; subst. repeat split.
Qed.

Lemma listener_callbacks (op : Operation) (i : nat) (w w' : World) :
  listener op i w = Ok w' -> same_callbacks w w'.
Proof.
  unfold listener. intros H.
  destruct (existsb (Nat.eqb i) (readers w)).
  - destruct op; [apply (encodeBufferStep_callbacks i) | |];
      try apply (decodeBufferStep_callbacks i); exact H.
  - inversion H; subst. apply same_callbacks_refl.
Qed.

Lemma wake_callbacks (op : Operation) (lanes : list nat) :
  forall w w', Context.wake (listener op) lanes w = Ok w' -> same_callbacks w w'.
Proof.
  induction lanes as [| i lanes IH]; intros w w' H; simpl in H.
  - inversion H; subst. apply same_callbacks_refl.
  - destruct (listener op i (log (Emit_readable i) w)) as [w1 |] eqn:El;
      simpl in H; [| discriminate].
    apply listener_callbacks in El.
    eapply same_callbacks_trans; [| apply IH, H].
    eapply same_callbacks_trans; [| exact El]. repeat split.
Qed.

Lemma unref_callbacks (op : Operation) (w w' : World) :
  unref junk op w = Ok w' -> same_callbacks w w'.
Proof.
  unfold unref. intros H. apply unref_inv in H. cbv zeta in H.
  match type of H with context [if ?b then _ else _] => destruct b end.
  - inversion H; subst. repeat split.
  - apply wake_callbacks in H.
    eapply same_callbacks_trans; [| exact H]. repeat split.
Qed.

(** What is written to a lane, piece by piece. *)
Lemma written_app (lane : nat) (t new : list Effect) :
  written lane (t ++ new) = written lane t ++ written lane new.
Proof. unfold written. apply flat_map_app. Qed.

Lemma written_quiet (lane : nat) (new : list Effect) :
  filter is_write new = [] -> written lane new = [].
Proof.
  induction new as [| e new IH]; simpl; intros H; [reflexivity |].
  destruct e; simpl in *; try discriminate; apply IH, H.
Qed.

Lemma written_ends (lane : nat) (lanes : list nat) :
  written lane (map Emit_end lanes) = [].
Proof. induction lanes; simpl; auto. Qed.

Lemma written_errors (lane : nat) (err : Error) (lanes : list nat) :
  written lane (map (fun i => Emit_error i err) lanes) = [].
Proof. induction lanes; simpl; auto. Qed.

Lemma buf_slice_head (buf : bytes) (n : Z) :
  0 <= n <= Z.of_nat (List.length buf) ->
  Z.of_nat (List.length (buf_slice buf 0 n)) = n.
Proof.
  intros H. unfold buf_slice, buf_clamp.
  destruct (Z.ltb_spec 0 0) as [A | A]; [lia |].
  destruct (Z.ltb_spec n 0) as [B | B]; [lia |].
  rewrite Z.min_l by lia. rewrite Z.min_l by lia. simpl.
  rewrite length_firstn. lia.
Qed.


Lemma written_setup (lane : nat) (t : list Effect) :
  forallb is_setup t = true -> written lane t = [].
Proof.
  induction t as [| e t IH]; simpl; intros H; [reflexivity |].
  apply andb_true_iff in H. destruct H as [He Ht].
  destruct e; simpl in *; try discriminate; apply IH, Ht.
Qed.

Lemma map_lane_bookkeeping (f : option Readable -> option Readable) (i : nat) (w : World) :
  trace (map_lane f i w) = trace w
  /\ processedStripe (ctx (map_lane f i w)) = processedStripe (ctx w)
  /\ same_callbacks w (map_lane f i w).
Proof.
  unfold map_lane. destruct (nth_error (istreams (ctx w)) i); repeat split.
Qed.

Lemma error_bookkeeping (err : Error) (w : World) :
  written 0 (trace (Context.error err w)) = written 0 (trace w)
  /\ processedStripe (ctx (Context.error err w)) = processedStripe (ctx w)
  /\ same_callbacks w (Context.error err w).
Proof.
  unfold Context.error. destruct (inputError (ctx w)); [repeat split |].
  simpl. rewrite written_app, written_errors, app_nil_r. repeat split.
Qed.

Section Stripes.

Variables kk S sz n : Z.
Hypothesis HkS : 0 < kk * S.
Hypothesis Hsz : 0 <= sz.
Hypothesis Hn : n = Js.ceil_div sz (kk * S).

Lemma last_stripe_bytes : 0 <= n /\ (0 < n -> 0 < sz - (n - 1) * kk * S <= kk * S).
Proof.
  rewrite ceil_div_pos in Hn by lia.
  assert (H1 := Z.div_mod (sz + kk * S - 1) (kk * S) ltac:(lia)).
  assert (H2 := Z.mod_pos_bound (sz + kk * S - 1) (kk * S) HkS).
  rewrite <- Hn in H1.
  split; [| intros _]; nia.
Qed.

Lemma decoded_bytes_next (p : Z) :
  0 <= p ->
  decoded_bytes kk S sz n (p + 1)
  = decoded_bytes kk S sz n p
    + (if p + 1 =? n then sz - (n - 1) * kk * S else kk * S).
Proof.
  intros Hp. unfold decoded_bytes.
  destruct (Z.ltb_spec (p + 1) n) as [A | A], (Z.ltb_spec p n) as [B | B],
    (Z.eqb_spec (p + 1) n) as [C | C]; try lia.
Qed.

(** The dispatch step of stripe [processedStripe] after a success. *)
Lemma dispatch_decoded (w : World) (okf : nat -> bool) :
  decodes kk S sz n w -> primitive w = 1%nat ->
  exists chunk w',
    step junk rs Decoding w (Primitive_done None okf) = Ok w'
    /\ trace w' = trace w ++ [Write 0 chunk]
    /\ Z.of_nat (List.length chunk)
       = (if processedStripe (ctx w) + 1 =? n then sz - (n - 1) * kk * S else kk * S)
    /\ processedStripe (ctx w') = processedStripe (ctx w)
    /\ callbacks w = 0%nat /\ callbacks w' <> 0%nat /\ immediates w' = 0%nat.
Proof.
  intros (Hs & Ek & ES & Esz & En & Eo & Hp0 & Hi) Hp.
  destruct Hs as (Hg & _ & _ & Hb & Hf).
  destruct Hf as (_ & _ & J3 & _). destruct (J3 Hp) as [Hc _].
  destruct Hg as (G1 & G2 & _ & G4 & _).
  destruct Hb as (_ & Hd & _). simpl in Hd.
  assert (Hx : exists wx,
             step junk rs Decoding w (Primitive_done None okf)
             = decodeDispatchStep junk None okf wx
             /\ buffers_only (ctx w) (ctx wx) /\ trace wx = trace w
             /\ callbacks wx = callbacks w /\ immediates wx = immediates w).
  { simpl. rewrite Hp. destruct (targets (ctx w) =? 0).
    - exists (set_primitive 0 w). split; [reflexivity |].
      split; [apply buffers_only_refl | repeat split].
    - exists (upd_ctx (primitive_result rs) (set_primitive 0 w)). split; [reflexivity |].
      split; [apply (primitive_result_spec rs) | repeat split]. }
  destruct Hx as (wx & -> & (E & L1 & _) & Tx & Cx & Ix).
  unfold decodeDispatchStep.
  assert (Eo' : ostreams (ctx wx) = [Some writable]) by (rewrite E; exact Eo).
  assert (En' : nStripe (ctx wx) = Some n) by (rewrite E; exact En).
  assert (Ep' : processedStripe (ctx wx) = processedStripe (ctx w)) by (rewrite E; reflexivity).
  assert (ES' : stripeSize (ctx wx) = S) by (rewrite E; exact ES).
  assert (Ek' : k (ctx wx) = kk) by (rewrite E; exact Ek).
  assert (Esz' : size (ctx wx) = sz) by (rewrite E; exact Esz).
  assert (Hlen : Z.of_nat (List.length (dataBuffer (ctx wx))) = kk * S).
  { rewrite L1, Hd, G4, Ek, ES. rewrite Z2Nat.id by lia. lia. }
  rewrite Eo'. simpl.
  eexists. eexists. split; [reflexivity |].
  unfold write_one. 
  split; [destruct (okf 0%nat); simpl; rewrite Tx; reflexivity |].
  split.
  - unfold is_nStripe. rewrite En', Ep', ES', Ek', Esz'.
    destruct (Z.eqb_spec (processedStripe (ctx w) + 1) n) as [A | A]; [| exact Hlen].
    destruct last_stripe_bytes as [_ Hl]. specialize (Hl ltac:(lia)).
    rewrite buf_slice_head; [| rewrite Hlen]; nia.
  - split; [destruct (okf 0%nat); simpl; exact Ep' |].
    split; [exact Hc |].
    split; destruct (okf 0%nat); simpl; try discriminate; rewrite Ix; exact Hi.
Qed.

Lemma step_decodes (w w' : World) (e : Event) :
  decodes kk S sz n w -> primitive_succeeds e = true ->
  step junk rs Decoding w e = Ok w' ->
  decodes kk S sz n w'
  /\ Z.of_nat (List.length (written 0 (trace w')))
     - decoded_bytes kk S sz n (stripes_written w')
     = Z.of_nat (List.length (written 0 (trace w)))
       - decoded_bytes kk S sz n (stripes_written w).
Proof.
  intros Hd He H.
  assert (Hrun : run junk rs Decoding w [e] = Ok w') by (simpl; rewrite H; reflexivity).
  assert (Hfr := frame_run junk rs Decoding [e] w w' Hrun).
  assert (Hgr := processed_grows junk rs Decoding [e] w w' Hrun).
  destruct Hd as (Hs & Ek & ES & Esz & En & Eo & Hp0 & Hi).
  assert (Hs' : sound Decoding w').
  { destruct (step_sound junk rs Decoding w e Hs) as (x & Ex & Hx). congruence. }
  destruct Hfr as (F1 & _ & F3 & F4 & _ & _ & _ & _ & F9 & F10 & _).
  assert (Hmain : immediates w' = 0%nat
                  /\ Z.of_nat (List.length (written 0 (trace w')))
                     - decoded_bytes kk S sz n (stripes_written w')
                     = Z.of_nat (List.length (written 0 (trace w)))
                       - decoded_bytes kk S sz n (stripes_written w)).
  { destruct e as [i | i chunk | i | i err | err okf | |]; simpl in H.
    - destruct (listener_continues Decoding i w w' H) as (new & (T & _ & P & _) & Fn).
      destruct (listener_callbacks _ _ _ _ H) as (C & I & _).
      destruct (fill_quiet new Fn) as (_ & _ & Q).
      unfold stripes_written. rewrite T, written_app, (written_quiet 0 new Q), app_nil_r, P, C.
      split; [congruence | reflexivity].
    - inversion H; subst w'.
      destruct (map_lane_bookkeeping (push_chunk chunk) i w) as (T & P & C & I & _).
      unfold stripes_written. rewrite T, P, C. split; [congruence | reflexivity].
    - inversion H; subst w'.
      destruct (map_lane_bookkeeping push_end i w) as (T & P & C & I & _).
      unfold stripes_written. rewrite T, P, C. split; [congruence | reflexivity].
    - destruct (existsb (Nat.eqb i) (errorListeners w)); inversion H; subst w';
        [| split; [exact Hi | reflexivity]].
      match goal with
      | |- context [Context.error err ?x] =>
          destruct (error_bookkeeping err x) as (T & P & C & I & _)
      end.
      unfold stripes_written. rewrite T, P, C. split; [rewrite I; exact Hi | reflexivity].
    - destruct err as [err |]; [discriminate |].
      destruct (primitive w) as [| p0] eqn:Ep.
      + inversion H; subst w'. split; [exact Hi | reflexivity].
      + assert (p0 = 0%nat)
          by (destruct Hs as (_ & _ & _ & _ & J1 & _); rewrite Ep in J1; lia).
        subst p0.
        destruct (dispatch_decoded w okf) as (chunk & x & Ex & T & L & P & C & C' & I).
        { repeat (split; [assumption |]). assumption. }
        { exact Ep. }
        simpl in Ex. rewrite Ep in Ex. rewrite Ex in H. inversion H; subst x.
        split; [exact I |].
        unfold stripes_written. rewrite T, written_app, P, C. simpl.
        destruct (callbacks w') eqn:Ec; [congruence |]. simpl.
        rewrite length_app, app_nil_r, Nat2Z.inj_add, L.
        rewrite Z.add_0_r, decoded_bytes_next by exact Hp0. lia.
    - destruct (callbacks w) as [| c0] eqn:Ec.
      + inversion H; subst w'. split; [exact Hi | reflexivity].
      + destruct Hs as (_ & _ & _ & _ & _ & _ & _ & J4 & _).
        destruct J4 as [Jn _]; [rewrite Ec; discriminate |].
        simpl in H.
        destruct c0 as [| c1].
        * replace (nPending w - 1 =? 0) with true in H
            by (symmetry; apply Z.eqb_eq; rewrite Jn, Ec; reflexivity).
          destruct (unref_advances junk Decoding _ _ H) as (new & (T & _ & P & _) & Hnew).
          destruct (unref_callbacks _ _ _ H) as (C & I & _).
          simpl in T, P, C, I.
          assert (Q : written 0 new = []).
          { destruct (is_nStripe _ _).
            - destruct Hnew as [-> _]. apply written_ends.
            - destruct Hnew as [_ Hr]. apply written_quiet, (refill_quiet new Hr). }
          unfold stripes_written. rewrite T, written_app, Q, app_nil_r, P, C, Ec. simpl.
          split; [congruence | rewrite Z.add_0_r; reflexivity].
        * replace (nPending w - 1 =? 0) with false in H
            by (symmetry; apply Z.eqb_neq; rewrite Jn, Ec; lia).
          inversion H; subst w'. unfold stripes_written. simpl. rewrite Ec.
          split; [exact Hi | reflexivity].
    - rewrite Hi in H. inversion H; subst w'. split; [exact Hi | reflexivity]. }
  destruct Hmain as [Hi' Hlen].
  split; [| exact Hlen].
  split; [exact Hs' |]. split; [congruence |]. split; [congruence |].
  split; [congruence |]. split; [congruence |]. split; [congruence |].
  split; [lia | exact Hi'].
Qed.

Lemma run_decodes (events : list Event) :
  forall w w',
    decodes kk S sz n w ->
    Forall (fun e => primitive_succeeds e = true) events ->
    run junk rs Decoding w events = Ok w' ->
    decodes kk S sz n w'
    /\ Z.of_nat (List.length (written 0 (trace w')))
       - decoded_bytes kk S sz n (stripes_written w')
       = Z.of_nat (List.length (written 0 (trace w)))
         - decoded_bytes kk S sz n (stripes_written w).
Proof.
  induction events as [| e events IH]; intros w w' Hd Hf H; simpl in H.
  - inversion H; subst w'. split; [exact Hd | reflexivity].
  - destruct (step junk rs Decoding w e) as [w1 |] eqn:E; simpl in H; [| discriminate].
    apply Forall_cons_iff in Hf. destruct Hf as [He Hf'].
    destruct (step_decodes w w1 e Hd He E) as [Hd1 L1].
    destruct (IH w1 w' Hd1 Hf' H) as [Hd' L'].
    split; [exact Hd' | lia].
Qed.

End Stripes.


Lemma decode_decodes (ostream : Writable) (sz : Z)
      (dataStreams parityStreams : list (option Readable)) (hint : Z) (w0 : World) :
  0 < hint ->
  decode junk (Some ostream) sz dataStreams parityStreams hint = Ok w0 ->
  let kk := Z.of_nat (List.length dataStreams) in
  let S := safeStripeSize kk (Z.of_nat (List.length parityStreams)) hint in
  0 < kk * S
  /\ decodes kk S sz (Js.ceil_div sz (kk * S)) w0
  /\ written 0 (trace w0) = [] /\ stripes_written w0 = 0.
Proof.
  intros Hh H kk S.
  assert (Hst : started junk Decoding w0).
  { exists (Some ostream), sz, dataStreams, parityStreams, hint.
    split; [lia | exact H]. }
  assert (Hs := started_sound junk Decoding w0 Hst).
  destruct (started_shape junk Decoding w0 Hst) as (Hf & _ & Hc & Hi & Ht).
  unfold decode in H.
  destruct (Context.create _ _ _ _ _ _ _ _ _) as [c |] eqn:Ec; simpl in H; [| discriminate].
  destruct (create_ok _ _ _ _ _ _ _ _ _ _ Ec) as [[Hk Hm] Hcc].
  fold kk in Hk, Hcc. fold S in Hcc.
  assert (Hfields : k (ctx w0) = kk /\ stripeSize (ctx w0) = S /\ size (ctx w0) = sz
                    /\ ostreams (ctx w0) = [Some ostream]).
  { destruct (_ <? _).
    - inversion H; subst w0. unfold Context.error. simpl. rewrite Hcc. simpl.
      repeat split.
    - apply attach_spec in H. destruct H as (E & _). rewrite E. simpl. rewrite Hcc.
      repeat split. }
  destruct Hfields as (Ek & ES & Esz & Eo).
  assert (HS : 0 < S) by (apply safeStripeSize_pos; assumption).
  assert (HkS : 0 < kk * S) by nia.
  destruct Hf as (Hp & _ & _ & _ & _ & _ & Hn).
  rewrite Ek, ES, Esz in Hn.
  destruct (Z.eqb_spec (kk * S) 0) as [A | _]; [lia |].
  split; [exact HkS |]. split.
  - split; [exact Hs |]. split; [exact Ek |]. split; [exact ES |]. split; [exact Esz |].
    split; [exact Hn |]. split; [destruct ostream; exact Eo |].
    split; [lia | exact Hi].
  - split.
    + destruct Ht as [[_ Hq] | (err & _ & Hq & _)];
        [apply written_setup, Hq | rewrite Hq; apply written_errors].
    + unfold stripes_written. rewrite Hp, Hc. reflexivity.
Qed.

(** C7. A decode to its output, started with a positive stripe size hint on
    an object of [sz] bytes, whose primitive never reports a failure: in
    every state it reaches, the stripe size is [S] and the number of stripes
    is [n = ceil (sz / (k * S))]; when the primitive completes stripe
    [processedStripe], one chunk is written to the output, of [k * S] bytes
    unless this is stripe [n - 1], for which it has
    [sz - (n - 1) * k * S] bytes; the bytes written so far are the sum of
    these over the stripes written; and once [n] stripes are processed the
    output has received [sz] bytes. *)
Theorem decode_writes_size (ostream : Writable) (sz : Z)
        (dataStreams parityStreams : list (option Readable)) (hint : Z)
        (events : list Event) (w0 w : World) :
  0 < hint -> 0 <= sz ->
  decode junk (Some ostream) sz dataStreams parityStreams hint = Ok w0 ->
  Forall (fun e => primitive_succeeds e = true) events ->
  run junk rs Decoding w0 events = Ok w ->
  let kk := Z.of_nat (List.length dataStreams) in
  let S := safeStripeSize kk (Z.of_nat (List.length parityStreams)) hint in
  let n := Js.ceil_div sz (kk * S) in
  let p := processedStripe (ctx w) in
  stripeSize (ctx w) = S /\ nStripe (ctx w) = Some n
  /\ (primitive w = 1%nat ->
      forall okf, exists chunk w',
        step junk rs Decoding w (Primitive_done None okf) = Ok w'
        /\ trace w' = trace w ++ [Write 0 chunk]
        /\ Z.of_nat (List.length chunk)
           = (if p + 1 =? n then sz - (n - 1) * kk * S else kk * S))
  /\ Z.of_nat (List.length (written 0 (trace w)))
     = decoded_bytes kk S sz n (stripes_written w)
  /\ (stripes_written w < n ->
      Z.of_nat (List.length (written 0 (trace w))) = stripes_written w * kk * S)
  /\ (p = n -> callbacks w = 0%nat ->
      Z.of_nat (List.length (written 0 (trace w))) = sz).
Proof.
  intros Hh Hsz Hd Hf Hr kk S n p.
  destruct (decode_decodes ostream sz dataStreams parityStreams hint w0 Hh Hd)
    as (HkS & Hd0 & Hw0 & Hq0).
  fold kk in HkS, Hd0. fold S in HkS, Hd0. fold n in Hd0.
  destruct (run_decodes kk S sz n HkS Hsz eq_refl events w0 w Hd0 Hf Hr) as [Hdw Hlen].
  rewrite Hw0, Hq0 in Hlen. simpl in Hlen.
  assert (Hz : decoded_bytes kk S sz n 0 = 0).
  { unfold decoded_bytes.
    destruct (last_stripe_bytes kk S sz n HkS Hsz eq_refl) as [Hn0 _].
    destruct (Z.ltb_spec 0 n) as [A | A]; [lia |].
    assert (n = 0) by lia.
    assert (E : n = (sz + kk * S - 1) / (kk * S)) by (apply ceil_div_pos; lia).
    assert (sz + kk * S - 1 < kk * S).
    { destruct (Z.lt_ge_cases (sz + kk * S - 1) (kk * S)) as [B | B]; [exact B |].
      assert (1 <= (sz + kk * S - 1) / (kk * S))
        by (apply Z.div_le_lower_bound; lia).
      lia. }
    nia. }
  rewrite Hz in Hlen.
  assert (Hsum : Z.of_nat (List.length (written 0 (trace w)))
                 = decoded_bytes kk S sz n (stripes_written w)) by lia.
  destruct Hdw as (Hs & Ek & ES & Esz & En & Eo & Hp0 & Hi).
  split; [exact ES |]. split; [exact En |]. split; [| split; [exact Hsum | split]].
  - intros Hp okf.
    destruct (dispatch_decoded kk S sz n HkS Hsz eq_refl w okf) as
      (chunk & w' & E & T & L & _); [| exact Hp |].
    { repeat (split; [assumption |]). assumption. }
    exists chunk, w'. split; [exact E |]. split; [exact T | exact L].
  - intros Hlt. rewrite Hsum. unfold decoded_bytes.
    destruct (Z.ltb_spec (stripes_written w) n); [reflexivity | lia].
  - intros Hpn Hc. rewrite Hsum. unfold stripes_written, decoded_bytes.
    rewrite Hc. simpl. fold p. rewrite Hpn, Z.add_0_r.
    destruct (Z.ltb_spec n n); lia.
Qed.

End Decoded.

Lemma decode_writes_size_witness :
  Z.of_nat (List.length
              (written 0 (trace (the (run noJunk noRs Decoding sampleDecode
                                          [On_readable 0%nat; On_readable 2%nat;
                                           Primitive_done None allOk; Write_done;
                                           Primitive_done None allOk; Write_done])))))
  = 32.
Proof.
  destruct (decode_writes_size noJunk noRs writable 32
              [sixteen Byte.x01; None] [sixteen Byte.x03] 8
              [On_readable 0%nat; On_readable 2%nat;
               Primitive_done None allOk; Write_done;
               Primitive_done None allOk; Write_done]
              sampleDecode
              (the (run noJunk noRs Decoding sampleDecode
                        [On_readable 0%nat; On_readable 2%nat;
                         Primitive_done None allOk; Write_done;
                         Primitive_done None allOk; Write_done])))
    as (_ & _ & _ & _ & _ & H).
  - lia.
  - lia.
  - vm_compute. reflexivity.
  - repeat constructor.
  - vm_compute. reflexivity.
  - apply H; vm_compute; reflexivity.
Defined.


(** ** Stripes, shards and lanes *)

Lemma firstn_add {A : Type} (a b : nat) (l : list A) :
  firstn (a + b) l = firstn a l ++ firstn b (skipn a l).
Proof.
  revert l. induction a as [| a IH]; intros l; simpl; [reflexivity |].
  destruct l as [| x l]; simpl; [rewrite firstn_nil; reflexivity |].
  rewrite IH. reflexivity.
Qed.

Lemma piece_length (c p : nat) (X : bytes) :
  List.length (piece c p X) = Nat.min c (List.length X - p * c).
Proof. unfold piece. rewrite length_firstn, length_skipn. reflexivity. Qed.

Lemma stripe_length (c p : nat) (X : bytes) : List.length (stripe c p X) = c.
Proof.
  unfold stripe. rewrite length_app, repeat_length.
  assert (H := piece_length c p X). lia.
Qed.

Lemma shard_length (kn Sn p j : nat) (X : bytes) :
  (j < kn)%nat -> List.length (shard kn Sn p j X) = Sn.
Proof.
  intros H. unfold shard. rewrite piece_length, stripe_length. nia.
Qed.

Lemma stripe_full (c p : nat) (X : bytes) :
  ((p + 1) * c <= List.length X)%nat -> stripe c p X = piece c p X.
Proof.
  intros H. unfold stripe. rewrite piece_length.
  replace (c - Nat.min c (List.length X - p * c))%nat with 0%nat by nia.
  apply app_nil_r.
Qed.

Lemma firstn_pieces (c p : nat) (X : bytes) :
  firstn ((p + 1) * c) X = firstn (p * c) X ++ piece c p X.
Proof.
  replace ((p + 1) * c)%nat with (p * c + c)%nat by lia. apply firstn_add.
Qed.

Lemma stripe_head (c p : nat) (X : bytes) :
  firstn (List.length (piece c p X)) (stripe c p X) = piece c p X.
Proof.
  unfold stripe.
  rewrite <- (Nat.add_0_r (List.length (piece c p X))) at 1.
  rewrite firstn_app_2. simpl. apply app_nil_r.
Qed.

Lemma shard_nth (kn Sn p j t : nat) (X : bytes) :
  (t < Sn)%nat ->
  nth_error (shard kn Sn p j X) t = nth_error (stripe (kn * Sn) p X) (j * Sn + t).
Proof.
  intros H. unfold shard, piece. rewrite nth_error_firstn, nth_error_skipn.
  destruct (Nat.ltb_spec t Sn); [reflexivity | lia].
Qed.

Lemma lane_from_next (kn Sn nn j p : nat) (X : bytes) :
  (p < nn)%nat ->
  lane_from kn Sn nn j p X = shard kn Sn p j X ++ lane_from kn Sn nn j (p + 1) X.
Proof.
  intros H. unfold lane_from.
  replace (nn - p)%nat with (S (nn - (p + 1))) by lia. simpl.
  replace (S p) with (p + 1)%nat by lia. reflexivity.
Qed.

Lemma lane_from_end (kn Sn nn j p : nat) (X : bytes) :
  (nn <= p)%nat -> lane_from kn Sn nn j p X = [].
Proof.
  intros H. unfold lane_from. replace (nn - p)%nat with 0%nat by lia. reflexivity.
Qed.

Lemma lanes_upto (kn Sn nn j : nat) (X : bytes) :
  flat_map (fun q => shard kn Sn q j X) (seq 0 nn) = lane_from kn Sn nn j 0 X.
Proof. unfold lane_from. rewrite Nat.sub_0_r. reflexivity. Qed.

(** A buffer is its shards. *)
Lemma buffer_ext (kn Sn : nat) (a b : bytes) :
  List.length a = (kn * Sn)%nat -> List.length b = (kn * Sn)%nat ->
  (forall j t, (j < kn)%nat -> (t < Sn)%nat ->
               nth_error a (j * Sn + t) = nth_error b (j * Sn + t)) ->
  a = b.
Proof.
  intros Ha Hb H. apply nth_error_ext. intros i.
  destruct (Nat.lt_ge_cases i (kn * Sn)) as [Hi | Hi].
  - assert (HS : (0 < Sn)%nat) by nia.
    assert (E := Nat.div_mod_eq i Sn).
    assert (M := Nat.mod_upper_bound i Sn ltac:(lia)).
    replace i with (i / Sn * Sn + i mod Sn)%nat by lia.
    apply H; [| exact M].
    apply Nat.Div0.div_lt_upper_bound; lia.
  - rewrite (proj2 (nth_error_None a i)) by lia.
    rewrite (proj2 (nth_error_None b i)) by lia. reflexivity.
Qed.

(** [src.copy (target, off)] byte by byte, when [src] fits. *)
Lemma buf_copy_nth (src target : bytes) (off : nat) (i : nat) :
  (off + List.length src <= List.length target)%nat ->
  buf_copy src target (Z.of_nat off)
  = (firstn off target ++ src ++ skipn (off + List.length src) target,
     Z.of_nat (List.length src))
  /\ nth_error (fst (buf_copy src target (Z.of_nat off))) i
     = if (off <=? i)%nat && (i <? off + List.length src)%nat
       then nth_error src (i - off) else nth_error target i.
Proof.
  intros H. unfold buf_copy. rewrite Nat2Z.id.
  replace (Nat.min (List.length src) (List.length target - off)) with (List.length src) by lia.
  rewrite firstn_all. split; [reflexivity |]. simpl.
  destruct (Nat.leb_spec off i) as [A | A]; simpl.
  - rewrite nth_error_app2 by (rewrite length_firstn; lia).
    rewrite length_firstn. replace (Nat.min off (List.length target)) with off by lia.
    destruct (Nat.ltb_spec i (off + List.length src)) as [B | B].
    + apply nth_error_app1. lia.
    + rewrite nth_error_app2 by lia. rewrite nth_error_skipn. f_equal. lia.
  - rewrite nth_error_app1 by (rewrite length_firstn; lia).
    rewrite nth_error_firstn. destruct (Nat.ltb_spec i off); [reflexivity | lia].
Qed.

Lemma written_write (j i : nat) (chunk : bytes) (t : list Effect) :
  written j (Write i chunk :: t) = (if Nat.eqb i j then chunk else []) ++ written j t.
Proof. reflexivity. Qed.

(** What a lane receives from a dispatch step that writes every lane. *)
Lemma written_lanes (f : nat -> bytes) (j : nat) (len : nat) :
  forall a,
    written j (map (fun i => Write i (f i)) (seq a len))
    = if (a <=? j)%nat && (j <? a + len)%nat then f j else [].
Proof.
  induction len as [| len IH]; intros a.
  - destruct (Nat.leb_spec a j), (Nat.ltb_spec j (a + 0)); simpl; try reflexivity; lia.
  - change (seq a (S len)) with (a :: seq (S a) len).
    change (map (fun i => Write i (f i)) (a :: seq (S a) len))
      with (Write a (f a) :: map (fun i => Write i (f i)) (seq (S a) len)).
    rewrite written_write, IH.
    destruct (Nat.eqb_spec a j) as [E | E];
      destruct (Nat.leb_spec (S a) j), (Nat.leb_spec a j),
        (Nat.ltb_spec j (S a + len)), (Nat.ltb_spec j (a + S len));
      subst; simpl; rewrite ?app_nil_r; try reflexivity; lia.
Qed.


(** ** Clearing a lane of the waiting mask *)

Lemma mask_below_bits (n t : Z) :
  0 <= n -> 0 <= t -> (forall j, n <= j -> Z.testbit t j = false) -> mask_below n t.
Proof.
  intros Hn Ht H. split; [exact Ht |].
  destruct (Z.eq_dec t 0) as [-> | Hne]; [apply Z.pow_pos_nonneg; lia |].
  apply Z.log2_lt_pow2; [lia |].
  destruct (Z.lt_ge_cases (Z.log2 t) n) as [A | A]; [exact A |].
  assert (B := Z.bit_log2 t ltac:(lia)). rewrite (H _ A) in B. discriminate.
Qed.

Lemma mask_zero (n t : Z) :
  mask_below n t -> 0 <= n ->
  (forall j, 0 <= j < n -> Z.testbit t j = false) -> t = 0.
Proof.
  intros Hm Hn H. apply Z.bits_inj_0. intros j.
  destruct (Z.lt_ge_cases j 0) as [A | A]; [apply Z.testbit_neg_r, A |].
  destruct (Z.lt_ge_cases j n) as [B | B]; [apply H; lia |].
  apply (testbit_above t n j); [exact Hm | lia].
Qed.

Lemma clear_lane (n t i : Z) :
  mask_below n t -> 0 <= n <= 30 -> 0 <= i < 30 ->
  Js.band t (Js.bnot (Js.shl 1 i)) = Z.ldiff t (2 ^ i)
  /\ mask_below n (Z.ldiff t (2 ^ i))
  /\ forall j, Z.testbit (Z.ldiff t (2 ^ i)) j = Z.testbit t j && negb (i =? j).
Proof.
  intros [Ht0 Ht] Hn Hi.
  assert (Hp : 2 ^ n <= 2 ^ 30) by (apply Z.pow_le_mono_r; lia).
  assert (Hq : 0 < 2 ^ i < 2 ^ 30)
    by (split; [apply Z.pow_pos_nonneg; lia | apply Z.pow_lt_mono_r; lia]).
  assert (Hbits : forall j, Z.testbit (Z.ldiff t (2 ^ i)) j = Z.testbit t j && negb (i =? j)).
  { intros j. rewrite Z.ldiff_spec, Z.pow2_bits_eqb by lia. reflexivity. }
  split; [| split; [| exact Hbits]].
  - unfold Js.band, Js.bnot. rewrite shl_1 by lia.
    rewrite (toInt32_small (2 ^ i)) by lia.
    rewrite (toInt32_small t) by lia.
    rewrite toInt32_small by (unfold Z.lnot; lia).
    symmetry. apply Z.ldiff_land.
  - apply mask_below_bits; [lia | apply Z.ldiff_nonneg; lia |].
    intros j Hj. rewrite Hbits.
    rewrite (testbit_above t n j) by (split; lia || assumption). reflexivity.
Qed.

Lemma stream_read_chunk (n : Z) (a b : bytes) (e : bool) :
  0 < n -> Z.of_nat (List.length a) = n ->
  stream_read n (mkReadable (a ++ b) e) = (Some a, mkReadable b e).
Proof.
  intros Hn Ha. unfold stream_read. simpl.
  destruct (Z.leb_spec n 0); [lia |].
  destruct (Z.leb_spec n (Z.of_nat (List.length (a ++ b))));
    [| rewrite length_app in *; lia].
  replace (Z.to_nat n) with (List.length a + 0)%nat by lia.
  rewrite firstn_app_2. simpl. rewrite app_nil_r.
  rewrite Nat.add_0_r, skipn_app, skipn_all, Nat.sub_diag. reflexivity.
Qed.

(** What is fed stays what the object begins with, event after event. *)
Lemma carries_feed (L : bytes) (lane : nat) (s : Readable) (e : Event) :
  carries L (feed lane s e) -> carries L s.
Proof.
  intros (rest & E & Hend).
  destruct e as [i | i chunk | i | i err | err okf | |]; simpl in *;
    try (exists rest; split; assumption).
  - destruct (Nat.eqb i lane); [| exists rest; split; assumption].
    destruct (ended s) eqn:Ee; [exists rest; split; assumption |].
    simpl in *. exists (chunk ++ rest). rewrite app_assoc.
    split; [exact E | intros A; congruence].
  - destruct (Nat.eqb i lane); [| exists rest; split; assumption].
    simpl in *. exists rest. split; [exact E | intros _; apply Hend; reflexivity].
Qed.

Lemma carries_fed (L : bytes) (lane : nat) (events : list Event) :
  forall s, carries L (fed lane events s) -> carries L s.
Proof.
  induction events as [| e events IH]; intros s H; [exact H |].
  apply (carries_feed L lane s e), IH. exact H.
Qed.

Lemma fed_app (lane : nat) (a b : list Event) (s : Readable) :
  fed lane (a ++ b) s = fed lane b (fed lane a s).
Proof. apply fold_left_app. Qed.

Lemma carries_length (L : bytes) (s : Readable) :
  carries L s -> (List.length (buffered s) <= List.length L)%nat.
Proof. intros (rest & -> & _). rewrite length_app. lia. Qed.

(** A stream that has delivered as many bytes as the object has holds the
    object. *)
Lemma carries_all (L : bytes) (s : Readable) :
  carries L s -> (List.length L <= List.length (buffered s))%nat -> buffered s = L.
Proof.
  intros (rest & E & _) H. rewrite E in H. rewrite length_app in H.
  destruct rest; [rewrite app_nil_r in E; congruence | simpl in H; lia].
Qed.

Lemma carries_ended (L : bytes) (s : Readable) :
  carries L s -> ended s = true -> buffered s = L.
Proof.
  intros (rest & E & Hend) He. rewrite (Hend He), app_nil_r in E. congruence.
Qed.

(** What has been delivered is the object as far as it goes. *)
Lemma carries_firstn (L : bytes) (s : Readable) (a n : nat) :
  carries L s -> (a + n <= List.length (buffered s))%nat ->
  firstn n (skipn a (buffered s)) = firstn n (skipn a L).
Proof.
  intros (rest & -> & _) H.
  rewrite skipn_app.
  replace (a - List.length (buffered s))%nat with 0%nat by lia.
  cbn [skipn]. rewrite firstn_app.
  replace (n - List.length (skipn a (buffered s)))%nat with 0%nat
    by (rewrite length_skipn; lia).
  cbn [firstn]. rewrite app_nil_r. reflexivity.
Qed.

Section Lanes.

Variable X : bytes.
Variables kn Sn nn : nat.

Lemma lane_length (j p : nat) :
  (j < kn)%nat -> List.length (lane_from kn Sn nn j p X) = ((nn - p) * Sn)%nat.
Proof.
  intros Hj. unfold lane_from. generalize (nn - p)%nat as r. intros r. revert p.
  induction r as [| r IH]; intros p; [reflexivity |].
  cbn [seq flat_map]. rewrite length_app, shard_length, IH by exact Hj. lia.
Qed.

Lemma lane_skipn (j p : nat) :
  (j < kn)%nat -> (p <= nn)%nat ->
  skipn (p * Sn) (lane_from kn Sn nn j 0 X) = lane_from kn Sn nn j p X.
Proof.
  intros Hj. induction p as [| p IH]; intros Hp; [reflexivity |].
  replace (S p * Sn)%nat with (Sn + p * Sn)%nat by lia.
  rewrite <- skipn_skipn, IH by lia.
  rewrite (lane_from_next kn Sn nn j p X) by lia.
  rewrite skipn_app, shard_length, Nat.sub_diag by exact Hj.
  rewrite skipn_all2 by (rewrite shard_length by exact Hj; lia).
  replace (p + 1)%nat with (S p) by lia. reflexivity.
Qed.

Lemma lane_shard (j p : nat) :
  (j < kn)%nat -> (p < nn)%nat ->
  firstn Sn (skipn (p * Sn) (lane_from kn Sn nn j 0 X)) = shard kn Sn p j X.
Proof.
  intros Hj Hp. rewrite lane_skipn by (try exact Hj; lia).
  rewrite (lane_from_next kn Sn nn j p X) by exact Hp.
  rewrite firstn_app, shard_length, Nat.sub_diag by exact Hj.
  rewrite firstn_all2 by (rewrite shard_length by exact Hj; lia).
  cbn [firstn]. apply app_nil_r.
Qed.

(** What the decoder reads on lane [j] for stripe [pn]: the shard once all
    its bytes have arrived, nothing before. *)
Lemma decode_read (pn j : nat) (s : Readable) :
  (0 < Sn)%nat -> (j < kn)%nat -> carries (lane_from kn Sn nn j 0 X) s ->
  (pn * Sn <= List.length (buffered s))%nat ->
  let r := mkReadable (skipn (pn * Sn) (buffered s)) (ended s) in
  if ((pn + 1) * Sn <=? List.length (buffered s))%nat
  then stream_read (Z.of_nat Sn) r
       = (Some (shard kn Sn pn j X),
          mkReadable (skipn ((pn + 1) * Sn) (buffered s)) (ended s))
  else stream_read (Z.of_nat Sn) r = (None, r).
Proof.
  intros HSn Hj Hc Ha r.
  assert (HG := carries_length _ s Hc). rewrite lane_length in HG by exact Hj.
  unfold stream_read. cbn [buffered ended r]. rewrite length_skipn.
  destruct (Z.leb_spec (Z.of_nat Sn) 0) as [A | _]; [lia |].
  destruct (Nat.leb_spec ((pn + 1) * Sn) (List.length (buffered s))) as [B | B].
  - destruct (Z.leb_spec (Z.of_nat Sn) (Z.of_nat (List.length (buffered s) - pn * Sn)));
      [| lia].
    rewrite Nat2Z.id. f_equal.
    + f_equal. rewrite (carries_firstn _ s _ _ Hc) by lia.
      apply lane_shard; [exact Hj | nia].
    + f_equal. rewrite skipn_skipn. f_equal. lia.
  - destruct (Z.leb_spec (Z.of_nat Sn) (Z.of_nat (List.length (buffered s) - pn * Sn)));
      [lia |].
    destruct (ended s) eqn:Ee; [| reflexivity].
    destruct (skipn (pn * Sn) (buffered s)) eqn:Es; [reflexivity |].
    exfalso. assert (Hall := carries_ended _ s Hc Ee).
    assert (Hl : List.length (buffered s)
                 = List.length (lane_from kn Sn nn j 0 X)) by (rewrite Hall; reflexivity).
    rewrite lane_length in Hl by exact Hj.
    assert (Hs : List.length (skipn (pn * Sn) (buffered s)) <> 0%nat)
      by (rewrite Es; discriminate).
    rewrite length_skipn in Hs.
    assert (Hnp : (nn - 0 <= pn)%nat) by nia.
    assert ((nn - 0) * Sn <= pn * Sn)%nat by (apply Nat.mul_le_mono_r; exact Hnp).
    lia.
Qed.

End Lanes.

Section Decoding.

Variable junk : nat -> Byte.byte.
Variable rs : Z -> Z -> Z -> Z -> bytes -> bytes -> nat -> bytes.
Variable X : bytes.
Variables kn mn Sn nn : nat.
Hypothesis Hkn : (0 < kn)%nat.
Hypothesis Hkm : (kn + mn <= 30)%nat.
Hypothesis HSn : (0 < Sn)%nat.
Hypothesis Hst : stripes_of (kn * Sn) nn X.

Lemma decodeBufferStep_decoding (i pn : nat) (g : nat -> Readable) (w w' : World) :
  decoding_ok X kn mn Sn nn pn g w ->
  In i (readers w) ->
  decodeBufferStep i w = Ok w' ->
  decoding_ok X kn mn Sn nn pn g w'
  /\ (forall j, Z.testbit (waiting (ctx w)) j = false ->
                Z.testbit (waiting (ctx w')) j = false)
  /\ ((i < kn)%nat -> (pn < nn)%nat ->
      ((pn + 1) * Sn <= List.length (buffered (g i)))%nat ->
      Z.testbit (waiting (ctx w')) (Z.of_nat i) = false).
Proof.
  intros Hd Hi H.
  assert (Hpres : present (istreams (ctx w)) (Z.of_nat i) = true).
  { destruct (dec_sound _ _ _ _ _ _ _ _ Hd) as (_ & Hr & _). apply Hr, Hi. }
  assert (Hs' : sound Decoding w').
  { destruct (decodeBufferStep_sound Decoding i w ltac:(discriminate)
                                     (dec_sound _ _ _ _ _ _ _ _ Hd) Hpres)
      as (x & Ex & Hx).
    congruence. }
  destruct Hd as [Hsnd Ek Em ES Esz En Eo Et [Hsm Hsb] [Ep Hpn] Hwm Hfed Hl Hb Hf Himm Hw].
  assert (Hilt : (i < kn + mn)%nat).
  { apply present_lt in Hpres.
    destruct Hsnd as (_ & _ & _ & (Hlen & _) & _). lia. }
  assert (Hbl := band_lane (Z.of_nat kn) (waiting (ctx w)) (Z.of_nat i) Hwm
                           ltac:(lia) ltac:(lia)).
  assert (Hlenbuf : List.length (dataBuffer (ctx w)) = (kn * Sn)%nat).
  { destruct Hsnd as ((_ & _ & _ & G4 & _) & _ & _ & (_ & Hlen & _) & _).
    rewrite Hlen, G4, ES, Ek. lia. }
  assert (Hfl : inFlight (ctx w) = false -> primitive w = 0%nat /\ callbacks w = 0%nat).
  { destruct Hsnd as (_ & _ & _ & _ & _ & J2 & _). intros F. destruct (J2 F) as (A & B & _).
    split; assumption. }
  unfold decodeBufferStep, Context.wait in H.
  destruct (inFlight (ctx w)) eqn:Ef.
  { (* a stripe is in flight *)
    inversion H; subst w'. destruct Hf as (Hlt & Hw0 & Hph).
    split; [| split; [auto |]].
    - constructor; try assumption; try (split; assumption).
      rewrite Ef. repeat split; assumption.
    - intros _ _ _. rewrite Hw0. apply Z.bits_0. }
  rewrite Hbl in H.
  destruct (Z.testbit (waiting (ctx w)) (Z.of_nat i)) eqn:Eb.
  2:{ (* the lane has been added already, or is not a source *)
      simpl in H. inversion H; subst w'.
      split; [| split; [auto |]].
      - constructor; try assumption; try (split; assumption).
        rewrite Ef. exact Hf.
      - intros _ _ _. exact Eb. }
  assert (Hik : (i < kn)%nat).
  { destruct (Nat.lt_ge_cases i kn) as [A | A]; [exact A |].
    rewrite (testbit_above (waiting (ctx w)) (Z.of_nat kn) (Z.of_nat i)) in Eb
      by (try exact Hwm; lia).
    discriminate. }
  assert (Hpow : (2 ^ Z.of_nat i =? 0) = false)
    by (apply Z.eqb_neq; assert (0 < 2 ^ Z.of_nat i) by (apply Z.pow_pos_nonneg; lia); lia).
  rewrite Hpow in H.
  destruct (Hl i Hik) as (_ & Hlane & Htk).
  unfold taken in Hlane, Htk. rewrite Eb, andb_false_r, Nat.add_0_r in Hlane, Htk.
  assert (HG := carries_length _ _ (Hfed i Hik)). rewrite lane_length in HG by exact Hik.
  set (r := mkReadable (skipn (pn * Sn) (buffered (g i))) (ended (g i))) in *.
  unfold fillStripeBuffers in H. rewrite Hlane, ES in H.
  assert (Hquiet : stream_read (Z.of_nat Sn) r = (None, r) ->
                   decoding_ok X kn mn Sn nn pn g w'
                   /\ (forall j, Z.testbit (waiting (ctx w)) j = false ->
                                 Z.testbit (waiting (ctx w')) j = false)).
  { (* nothing can be read on the lane *)
    intros Hread. rewrite Hread in H. simpl in H. inversion H; subst w'.
    split; [| auto].
    constructor; simpl; try assumption; try (split; assumption).
    - intros j Hj. destruct (Hl j Hj) as (Hr & Hlj & Htj).
      split; [exact Hr |]. split; [| exact Htj].
      rewrite nth_error_list_set.
      destruct (Nat.eqb_spec i j) as [<- | Hne]; [| exact Hlj].
      assert (Hlt : (i <? List.length (istreams (ctx w)))%nat = true)
        by (apply Nat.ltb_lt, nth_error_Some; rewrite Hlane; discriminate).
      rewrite Hlt. unfold taken. rewrite Eb, andb_false_r, Nat.add_0_r. reflexivity.
    - rewrite Ef. exact Hf.
    - rewrite written_app. simpl. rewrite app_nil_r. exact Hw. }
  destruct (Nat.lt_ge_cases pn nn) as [Hlt | Hge].
  2:{ destruct Hquiet as [A B];
        [apply stream_read_empty; unfold r; simpl; apply skipn_all2; nia |].
      split; [exact A |]. split; [exact B | intros; lia]. }
  assert (Hread := decode_read X kn Sn nn pn i (g i) HSn Hik (Hfed i Hik) Htk). cbv zeta in Hread.
  fold r in Hread.
  destruct (Nat.leb_spec ((pn + 1) * Sn) (List.length (buffered (g i)))) as [Hav | Hav].
  2:{ destruct (Hquiet Hread) as [A B].
      split; [exact A |]. split; [exact B | intros; lia]. }
  clear Hquiet.
  (* the lane delivers its shard of the stripe *)
  rewrite Hread in H.
  rewrite Ek in H.
  destruct (Z.ltb_spec (Z.of_nat i) (Z.of_nat kn)) as [_ | A]; [| lia].
  replace (Z.of_nat i * Z.of_nat Sn) with (Z.of_nat (i * Sn)) in H by lia.
  assert (Hfit : (i * Sn + List.length (shard kn Sn pn i X)
                  <= List.length (dataBuffer (ctx w)))%nat)
    by (rewrite shard_length, Hlenbuf by exact Hik; nia).
  destruct (buf_copy_nth (shard kn Sn pn i X) (dataBuffer (ctx w)) (i * Sn) 0 Hfit)
    as [Hcopy _].
  assert (Hnth := fun t => proj2 (buf_copy_nth (shard kn Sn pn i X) (dataBuffer (ctx w))
                                               (i * Sn) t Hfit)).
  rewrite Hcopy in H, Hnth. simpl fst in Hnth.
  rewrite Z.eqb_refl in H. simpl in H.
  destruct (clear_lane (Z.of_nat kn) (waiting (ctx w)) (Z.of_nat i) Hwm ltac:(lia) ltac:(lia))
    as (Hclr & Hmask & Hbits).
  set (buf := firstn (i * Sn) (dataBuffer (ctx w)) ++ shard kn Sn pn i X
              ++ skipn (i * Sn + List.length (shard kn Sn pn i X)) (dataBuffer (ctx w))) in *.
  set (wt := Z.ldiff (waiting (ctx w)) (2 ^ Z.of_nat i)) in *.
  match type of H with
  | context [Context.addedToStripe ?mask ?x] =>
      replace (Context.addedToStripe mask x) with (upd_ctx (set_waiting wt) x) in H
        by (unfold Context.addedToStripe, upd_ctx; simpl; rewrite Hclr; reflexivity)
  end.
  unfold Context.readyForEncoding in H. simpl in H.
  assert (Hlanes : forall ist' : list (option Readable),
             ist' = list_set i (Some (mkReadable (skipn ((pn + 1) * Sn) (buffered (g i)))
                                                 (ended (g i))))
                             (istreams (ctx w)) ->
             forall j, (j < kn)%nat ->
               In j (readers w)
               /\ nth_error ist' j
                  = Some (Some (mkReadable
                                  (skipn (taken pn nn wt j * Sn) (buffered (g j)))
                                  (ended (g j))))
               /\ (taken pn nn wt j * Sn <= List.length (buffered (g j)))%nat).
  { intros ist' -> j Hj. destruct (Hl j Hj) as (Hr & Hlj & Htj).
    split; [exact Hr |].
    rewrite nth_error_list_set. unfold taken in *. unfold wt. rewrite Hbits.
    destruct (Nat.eqb_spec i j) as [<- | Hne].
    - assert (Hlt' : (i <? List.length (istreams (ctx w)))%nat = true)
        by (apply Nat.ltb_lt, nth_error_Some; rewrite Hlane; discriminate).
      rewrite Hlt', Z.eqb_refl, andb_false_r.
      destruct (Nat.ltb_spec pn nn); [| lia]. simpl.
      split; [reflexivity | exact Hav].
    - destruct (Z.eqb_spec (Z.of_nat i) (Z.of_nat j)); [lia |].
      rewrite andb_true_r. split; [exact Hlj | exact Htj]. }
  assert (Hbuf : forall j t, (j < kn)%nat -> (t < Sn)%nat ->
                             Z.testbit wt (Z.of_nat j) = false ->
                             nth_error buf (j * Sn + t)
                             = nth_error (stripe (kn * Sn) pn X) (j * Sn + t)).
  { intros j t Hj Ht Hbit. rewrite Hnth, shard_length by exact Hik.
    unfold wt in Hbit. rewrite Hbits in Hbit.
    destruct (Nat.eq_dec i j) as [<- | Hne].
    - destruct (Nat.leb_spec (i * Sn) (i * Sn + t)); [| lia].
      destruct (Nat.ltb_spec (i * Sn + t) (i * Sn + Sn)); [| lia]. simpl.
      replace (i * Sn + t - i * Sn)%nat with t by lia.
      apply shard_nth, Ht.
    - destruct (Z.eqb_spec (Z.of_nat i) (Z.of_nat j)); [lia |].
      rewrite andb_true_r in Hbit.
      replace ((i * Sn <=? j * Sn + t)%nat && (j * Sn + t <? i * Sn + Sn)%nat) with false.
      + apply Hb; assumption.
      + symmetry. apply andb_false_iff.
        destruct (Nat.lt_ge_cases j i);
          [left; apply Nat.leb_gt; nia | right; apply Nat.ltb_ge; nia]. }
  assert (Hmono : forall j, Z.testbit (waiting (ctx w)) j = false -> Z.testbit wt j = false).
  { intros j Hj. unfold wt. rewrite Hbits, Hj. reflexivity. }
  assert (Hcl : Z.testbit wt (Z.of_nat i) = false).
  { unfold wt. rewrite Hbits, Z.eqb_refl. apply andb_false_r. }
  destruct (Hfl eq_refl) as [Hp0 Hc0].
  destruct (Z.eqb_spec wt 0) as [Hz | Hnz].
  - (* the stripe is complete: it is handed over *)
    unfold Context.ref, Context.encode in H. simpl in H.
    rewrite Hz in H. simpl in H. rewrite Et in H. simpl in H.
    inversion H; subst w'. simpl.
    split; [| split].
    + constructor; simpl; try assumption; try (split; assumption).
      * rewrite <- Hz. exact Hmask.
      * rewrite <- Hz. apply Hlanes. reflexivity.
      * intros _. rewrite <- Hz. exact Hbuf.
      * split; [exact Hlt |]. split; [reflexivity |]. left. rewrite Hp0. split; [reflexivity | exact Hc0].
      * rewrite !written_app. simpl. rewrite !app_nil_r. exact Hw.
    + intros j _. apply Z.bits_0.
    + intros _ _ _. apply Z.bits_0.
  - inversion H; subst w'. simpl. fold wt.
    split; [| split; [exact Hmono | intros _ _ _; exact Hcl]].
    constructor; simpl; fold wt; try assumption; try (split; assumption).
    + apply Hlanes. reflexivity.
    + intros _. exact Hbuf.
    + rewrite Ef. intros _. exact Hnz.
    + rewrite written_app. simpl. rewrite app_nil_r. exact Hw.
Qed.

Lemma listener_decoding (i pn : nat) (g : nat -> Readable) (w w' : World) :
  decoding_ok X kn mn Sn nn pn g w ->
  listener Decoding i w = Ok w' ->
  decoding_ok X kn mn Sn nn pn g w'
  /\ same_callbacks w w'
  /\ (forall j, Z.testbit (waiting (ctx w)) j = false ->
                Z.testbit (waiting (ctx w')) j = false)
  /\ ((i < kn)%nat -> (pn < nn)%nat ->
      ((pn + 1) * Sn <= List.length (buffered (g i)))%nat ->
      Z.testbit (waiting (ctx w')) (Z.of_nat i) = false).
Proof.
  intros Hd H.
  assert (Hc := listener_callbacks Decoding i w w' H).
  unfold listener in H.
  destruct (existsb (Nat.eqb i) (readers w)) eqn:Ee.
  - apply existsb_exists in Ee. destruct Ee as (j & Hj & Hij).
    apply Nat.eqb_eq in Hij. subst j.
    destruct (decodeBufferStep_decoding i pn g w w' Hd Hj H) as (A & B & C).
    split; [exact A |]. split; [exact Hc |]. split; assumption.
  - inversion H; subst w'.
    split; [exact Hd |]. split; [exact Hc |]. split; [auto |].
    intros Hi _ _. exfalso.
    destruct (dec_lanes _ _ _ _ _ _ _ _ Hd i Hi) as [Hr _].
    assert (existsb (Nat.eqb i) (readers w) = true)
      by (apply existsb_exists; exists i; split; [exact Hr | apply Nat.eqb_refl]).
    congruence.
Qed.

(** Effects that are not writes leave the state of the decode as it is. *)
Lemma log_decoding (es : list Effect) (pn : nat) (g : nat -> Readable) (w : World) :
  written 0 es = [] ->
  decoding_ok X kn mn Sn nn pn g w -> decoding_ok X kn mn Sn nn pn g (log_all es w).
Proof.
  intros He [Hsnd Ek Em ES Esz En Eo Et Hsrc Hp Hwm Hfed Hl Hb Hf Himm Hw].
  constructor; simpl; try assumption.
  rewrite written_app, He, app_nil_r. exact Hw.
Qed.

Lemma wake_decoding (lanes : list nat) (pn : nat) (g : nat -> Readable) :
  forall w w',
    decoding_ok X kn mn Sn nn pn g w ->
    Context.wake (listener Decoding) lanes w = Ok w' ->
    decoding_ok X kn mn Sn nn pn g w'
    /\ same_callbacks w w'
    /\ (forall j, Z.testbit (waiting (ctx w)) j = false ->
                  Z.testbit (waiting (ctx w')) j = false)
    /\ (forall i, In i lanes -> (i < kn)%nat -> (pn < nn)%nat ->
                  ((pn + 1) * Sn <= List.length (buffered (g i)))%nat ->
                  Z.testbit (waiting (ctx w')) (Z.of_nat i) = false).
Proof.
  induction lanes as [| i lanes IH]; intros w w' Hd H; simpl in H.
  - inversion H; subst w'.
    split; [exact Hd |]. split; [apply same_callbacks_refl |].
    split; [auto | intros i []].
  - destruct (listener Decoding i (log (Emit_readable i) w)) as [w1 |] eqn:El;
      simpl in H; [| discriminate].
    destruct (listener_decoding i pn g _ w1
                                (log_decoding [Emit_readable i] pn g w eq_refl Hd) El)
      as (D1 & C1 & M1 & P1).
    destruct (IH w1 w' D1 H) as (D2 & C2 & M2 & P2).
    split; [exact D2 |].
    split; [eapply same_callbacks_trans; [| exact C2];
            eapply same_callbacks_trans; [| exact C1]; repeat split |].
    split; [intros j Hj; apply M2, M1, Hj |].
    intros j [<- | Hj] Hjk Hlt Hav; [apply M2, P1; assumption | apply P2; assumption].
Qed.

Lemma In_live_from {A : Type} (arr : list (option A)) :
  forall i j, In (i + j)%nat (live_from i arr) <-> present arr (Z.of_nat j) = true.
Proof.
  induction arr as [| x arr IH]; intros i j.
  - simpl. rewrite present_spec. destruct j; simpl; split; intros H; (contradiction || discriminate).
  - rewrite present_spec. destruct j as [| j].
    + simpl. rewrite Nat.add_0_r. destruct x as [a |]; simpl.
      * split; [reflexivity | left; reflexivity].
      * split; [| discriminate]. intros H. exfalso.
        assert (Hge : forall l a0 b, In b (@live_from A a0 l) -> (a0 <= b)%nat).
        { clear. induction l as [| y l IHl]; intros a0 b Hb; simpl in Hb; [contradiction |].
          destruct y; [destruct Hb as [<- | Hb]; [lia |] |];
            apply IHl in Hb; lia. }
        apply Hge in H. lia.
    + replace (i + S j)%nat with (S i + j)%nat by lia.
      change (nth_error (x :: arr) (S j)) with (nth_error arr j).
      rewrite <- present_spec, <- (IH (S i) j).
      destruct x as [a |]; simpl; [| reflexivity].
      split; [intros [H | H]; [lia | exact H] | intros H; right; exact H].
Qed.

Lemma In_live {A : Type} (arr : list (option A)) (j : nat) :
  In j (live arr) <-> present arr (Z.of_nat j) = true.
Proof. apply (In_live_from arr 0 j). Qed.

Lemma buf_slice_firstn (buf : bytes) (n : Z) :
  0 <= n <= Z.of_nat (List.length buf) -> buf_slice buf 0 n = firstn (Z.to_nat n) buf.
Proof.
  intros H. unfold buf_slice, buf_clamp.
  destruct (Z.ltb_spec 0 0) as [A | A]; [lia |].
  destruct (Z.ltb_spec n 0) as [B | B]; [lia |].
  rewrite Z.min_l by lia. rewrite Z.min_l by lia. reflexivity.
Qed.

(** With every lane added, the data buffer is the stripe. *)
Lemma decoding_buffer (pn : nat) (g : nat -> Readable) (w : World) :
  decoding_ok X kn mn Sn nn pn g w -> (pn < nn)%nat -> waiting (ctx w) = 0 ->
  dataBuffer (ctx w) = stripe (kn * Sn) pn X.
Proof.
  intros [Hsnd Ek Em ES Esz En Eo Et Hsrc Hp Hwm Hfed Hl Hb Hf Himm Hw] Hlt Hw0.
  apply (buffer_ext kn Sn).
  - destruct Hsnd as ((_ & _ & _ & G4 & _) & _ & _ & (_ & Hlen & _) & _).
    rewrite Hlen, G4, ES, Ek. lia.
  - apply stripe_length.
  - intros j t Hj Ht. apply Hb; try assumption. rewrite Hw0. apply Z.bits_0.
Qed.

(** The chunk a dispatch step writes is the stripe of the object, without
    the padding. *)
Lemma decoding_chunk (pn : nat) :
  (pn < nn)%nat ->
  (if Z.of_nat pn + 1 =? Z.of_nat nn
   then buf_slice (stripe (kn * Sn) pn X) 0
                  (Z.of_nat (List.length X) - Z.of_nat pn * Z.of_nat Sn * Z.of_nat kn)
   else stripe (kn * Sn) pn X)
  = piece (kn * Sn) pn X.
Proof.
  intros Hlt. destruct Hst as [Hle Hgt]. specialize (Hgt pn Hlt).
  destruct (Z.eqb_spec (Z.of_nat pn + 1) (Z.of_nat nn)) as [E | E].
  - assert (Hpl : List.length (piece (kn * Sn) pn X) = (List.length X - pn * (kn * Sn))%nat)
      by (rewrite piece_length; nia).
    rewrite buf_slice_firstn by (rewrite stripe_length; nia).
    replace (Z.to_nat (Z.of_nat (List.length X) - Z.of_nat pn * Z.of_nat Sn * Z.of_nat kn))
      with (List.length (piece (kn * Sn) pn X)) by (rewrite Hpl; nia).
    apply stripe_head.
  - apply stripe_full.
    assert (Hn := proj2 Hst (pn + 1)%nat ltac:(lia)). lia.
Qed.

Lemma dispatch_decoding (pn : nat) (g : nat -> Readable) (w : World)
      (err : option Error) (okf : nat -> bool) :
  decoding_ok X kn mn Sn nn pn g w -> primitive w = 1%nat ->
  let w' := write_one 1 0 (piece (kn * Sn) pn X) (okf 0%nat)
                      (set_nPending 1 (set_primitive 0 w)) in
  step junk rs Decoding w (Primitive_done err okf) = Ok w'
  /\ decoding_ok X kn mn Sn nn pn g w'.
Proof.
  intros Hd Hp w'.
  assert (Hfl : inFlight (ctx w) = true /\ waiting (ctx w) = 0 /\ (pn < nn)%nat
                /\ callbacks w = 0%nat).
  { destruct (dec_sound _ _ _ _ _ _ _ _ Hd) as (_ & _ & _ & _ & _ & J2 & J3 & _).
    assert (Hf := dec_flight _ _ _ _ _ _ _ _ Hd).
    destruct (inFlight (ctx w)).
    - destruct Hf as (A & B & _). destruct (J3 Hp) as [C _]. repeat split; assumption.
    - destruct (J2 eq_refl) as (A & _). congruence. }
  destruct Hfl as (Ef & Hw0 & Hlt & Hc0).
  assert (Hbuf := decoding_buffer pn g w Hd Hlt Hw0).
  assert (Hstep : step junk rs Decoding w (Primitive_done err okf) = Ok w').
  { destruct Hd as [Hsnd Ek Em ES Esz En Eo Et Hsrc [Ep Hpn] Hwm Hfed Hl Hb Hf Himm Hw].
    simpl. rewrite Hp, Et. simpl. unfold decodeDispatchStep. simpl.
    rewrite Eo. simpl. unfold is_nStripe. rewrite En, Ep, Esz, ES, Ek, Hbuf.
    rewrite (decoding_chunk pn Hlt). reflexivity. }
  split; [exact Hstep |].
  assert (Hs' : sound Decoding w').
  { destruct (step_sound junk rs Decoding w (Primitive_done err okf)
                         (dec_sound _ _ _ _ _ _ _ _ Hd)) as (x & Ex & Hx).
    congruence. }
  destruct Hd as [Hsnd Ek Em ES Esz En Eo Et Hsrc [Ep Hpn] Hwm Hfed Hl Hb Hf Himm Hw].
  unfold w', write_one.
  destruct (okf 0%nat); constructor; simpl; try assumption; try (split; assumption);
    try (fold w' in Hs'; unfold w', write_one in Hs'; exact Hs');
    try (rewrite Ef; split; [exact Hlt |]; split; [exact Hw0 |]; right;
         split; [reflexivity | rewrite Hc0; discriminate]);
    rewrite written_app, Hw, Hc0; simpl; rewrite app_nil_r, Nat.add_0_r;
    symmetry; apply firstn_pieces.
Qed.

Lemma newStripe_sound (w : World) :
  sound Decoding w ->
  primitive w = 0%nat -> callbacks w = 0%nat -> immediates w = 0%nat ->
  sound Decoding
        (upd_ctx (next_stripe junk)
           (upd_ctx (fun c => set_processedStripe (processedStripe c + 1)
                                (set_inFlight false c)) w)).
Proof.
  intros (Hg & Hr & Ho & (Hb1 & Hb2 & Hb3) & _) Hp Hc Hi.
  split; [exact Hg |]. split; [exact Hr |]. split; [exact I |].
  split; [| apply flight_ok_idle; assumption].
  simpl. rewrite !heap_bytes_length. simpl. repeat split. exact Hb1.
Qed.

Lemma unref_decoding (pn : nat) (g : nat -> Readable) (w w' : World) :
  decoding_ok X kn mn Sn nn pn g w -> callbacks w = 1%nat ->
  step junk rs Decoding w Write_done = Ok w' ->
  decoding_ok X kn mn Sn nn (pn + 1) g w'
  /\ callbacks w' = 0%nat
  /\ ((pn + 1 < nn)%nat ->
      (forall j, (j < kn)%nat -> ((pn + 2) * Sn <= List.length (buffered (g j)))%nat) ->
      inFlight (ctx w') = true /\ primitive w' = 1%nat).
Proof.
  intros Hd Hc H.
  assert (Hs' : sound Decoding w').
  { destruct (step_sound junk rs Decoding w Write_done (dec_sound _ _ _ _ _ _ _ _ Hd))
      as (x & Ex & Hx).
    congruence. }
  destruct Hd as [Hsnd Ek Em ES Esz En Eo Et [Hsm Hsb] [Ep Hpn] Hwm Hfed Hl Hb Hf Himm Hw].
  assert (Hn : nPending w = 1).
  { destruct Hsnd as (_ & _ & _ & _ & _ & _ & _ & J4 & _).
    destruct J4 as [A _]; [rewrite Hc; discriminate | rewrite A, Hc; reflexivity]. }
  assert (Hfl : inFlight (ctx w) = true /\ waiting (ctx w) = 0 /\ (pn < nn)%nat
                /\ primitive w = 0%nat).
  { destruct Hsnd as (_ & _ & _ & _ & _ & J2 & _).
    destruct (inFlight (ctx w)).
    - destruct Hf as (A & B & [[C D] | [C D]]); [congruence |]. repeat split; assumption.
    - destruct (J2 eq_refl) as (_ & A & _). congruence. }
  destruct Hfl as (Ef & Hw0 & Hlt & Hp0).
  simpl in H. rewrite Hc in H. simpl in H. rewrite Hn in H. simpl in H.
  unfold unref in H. apply unref_inv in H. cbv zeta in H. unfold is_nStripe in H. simpl in H.
  rewrite En, Ep in H.
  assert (Hlanes0 : forall wt j, (j < kn)%nat ->
             (pn + 1 < nn -> Z.testbit wt (Z.of_nat j) = true)%nat ->
             In j (readers w)
             /\ nth_error (istreams (ctx w)) j
                = Some (Some (mkReadable
                                (skipn (taken (pn + 1) nn wt j * Sn) (buffered (g j)))
                                (ended (g j))))
             /\ (taken (pn + 1) nn wt j * Sn <= List.length (buffered (g j)))%nat).
  { intros wt j Hj Hbit. destruct (Hl j Hj) as (Hr & Hlj & Htj). split; [exact Hr |].
    assert (Et' : taken (pn + 1) nn wt j = taken pn nn (waiting (ctx w)) j).
    { unfold taken. rewrite Hw0, Z.bits_0.
      destruct (Nat.ltb_spec pn nn); [| lia]. simpl.
      destruct (Nat.ltb_spec (pn + 1) nn) as [A | A]; simpl.
      - rewrite (Hbit A). simpl. lia.
      - lia. }
    rewrite Et'. split; [exact Hlj | exact Htj]. }
  destruct (Z.eqb_spec (Z.of_nat pn + 1) (Z.of_nat nn)) as [E | E].
  - (* the last stripe *)
    inversion H; subst w'. simpl.
    split; [| split; [reflexivity | intros; lia]].
    constructor; simpl; try assumption; try (split; assumption).
    + split; lia.
    + intros j Hj. apply Hlanes0; [exact Hj | intros; lia].
    + intros; lia.
    + intros; lia.
    + rewrite written_app, written_ends, app_nil_r, Hw, Hc. simpl.
      rewrite Nat.add_0_r. reflexivity.
  - (* the next stripe: every lane is woken *)
    match type of H with
    | Context.wake _ _ ?x = _ => set (w2 := x) in *
    end.
    assert (D2 : decoding_ok X kn mn Sn nn (pn + 1) g w2).
    { unfold w2. constructor; simpl; try assumption; try (split; assumption).
      - apply (newStripe_sound (set_nPending 0 (set_callbacks 0 w)));
          [| exact Hp0 | reflexivity | exact Himm].
        destruct Hsnd as (Hg & Hr & Ho & Hbb & _).
        split; [exact Hg |]. split; [exact Hr |]. split; [exact Ho |].
        split; [exact Hbb |].
        apply flight_ok_idle; [exact Hp0 | reflexivity | exact Himm].
      - split; lia.
      - intros j Hj. apply Hlanes0; [exact Hj | intros _; apply Hsb, Hj].
      - intros _ j t Hj _. rewrite (Hsb j Hj). discriminate.
      - intros _ Hz. assert (A := Hsb 0%nat Hkn). rewrite Hz, Z.bits_0 in A. discriminate.
      - rewrite Hw, Hc. simpl. rewrite Nat.add_0_r. reflexivity. }
    destruct (wake_decoding _ (pn + 1) g w2 w' D2 H) as (D' & C' & _ & P').
    assert (Hc' : callbacks w' = 0%nat) by (destruct C' as (A & _); rewrite A; reflexivity).
    split; [exact D' |]. split; [exact Hc' |].
    intros Hlt' Hav.
    assert (Hz : waiting (ctx w') = 0).
    { apply (mask_zero (Z.of_nat kn)); [apply (dec_waiting _ _ _ _ _ _ _ _ D') | lia |].
      intros j Hj. replace j with (Z.of_nat (Z.to_nat j)) by lia.
      apply P'; [| lia | exact Hlt' |].
      - apply In_live. unfold w2. simpl. rewrite present_spec.
        destruct (Hl (Z.to_nat j) ltac:(lia)) as (_ & -> & _). reflexivity.
      - replace (pn + 1 + 1)%nat with (pn + 2)%nat by lia. apply Hav. lia. }
    assert (F' := dec_flight _ _ _ _ _ _ _ _ D').
    destruct (inFlight (ctx w')).
    + destruct F' as (_ & _ & [[A B] | [A B]]); [split; [reflexivity | exact A] | congruence].
    + exfalso. apply (F' Hlt'), Hz.
Qed.

(** A chunk, or the end, reaches a lane. *)
Lemma feed_decoding (e : Event) (pn : nat) (g : nat -> Readable) (w w' : World) :
  decoding_ok X kn mn Sn nn pn g w ->
  (forall j, (j < kn)%nat -> carries (lane_from kn Sn nn j 0 X) (feed j (g j) e)) ->
  match e with Arrives _ _ | Ends _ => True | _ => False end ->
  step junk rs Decoding w e = Ok w' ->
  decoding_ok X kn mn Sn nn pn (fun j => feed j (g j) e) w'.
Proof.
  intros Hd Hc' Hev H.
  assert (Hs' : sound Decoding w').
  { destruct (step_sound junk rs Decoding w e (dec_sound _ _ _ _ _ _ _ _ Hd))
      as (x & Ex & Hx).
    congruence. }
  destruct Hd as [Hsnd Ek Em ES Esz En Eo Et Hsrc Hp Hwm Hfed Hl Hb Hfl Himm Hw].
  assert (Hsame : forall f i,
             step junk rs Decoding w e = Ok (map_lane f i w) ->
             (forall j, (j < kn)%nat ->
                nth_error (istreams (ctx w)) j
                = Some (Some (mkReadable
                                (skipn (taken pn nn (waiting (ctx w)) j * Sn) (buffered (g j)))
                                (ended (g j)))) ->
                (taken pn nn (waiting (ctx w)) j * Sn <= List.length (buffered (g j)))%nat ->
                nth_error (istreams (ctx (map_lane f i w))) j
                = Some (Some (mkReadable
                                (skipn (taken pn nn (waiting (ctx w)) j * Sn)
                                       (buffered (feed j (g j) e)))
                                (ended (feed j (g j) e))))
                   /\ (taken pn nn (waiting (ctx w)) j * Sn
                       <= List.length (buffered (feed j (g j) e)))%nat) ->
             decoding_ok X kn mn Sn nn pn (fun j => feed j (g j) e) (map_lane f i w)).
  { intros f i Hstep Hlane.
    assert (Hs2 : sound Decoding (map_lane f i w)) by congruence.
    assert (Hrest : readers (map_lane f i w) = readers w
                    /\ trace (map_lane f i w) = trace w
                    /\ callbacks (map_lane f i w) = callbacks w
                    /\ primitive (map_lane f i w) = primitive w
                    /\ immediates (map_lane f i w) = immediates w
                    /\ k (ctx (map_lane f i w)) = k (ctx w)
                    /\ m (ctx (map_lane f i w)) = m (ctx w)
                    /\ stripeSize (ctx (map_lane f i w)) = stripeSize (ctx w)
                    /\ size (ctx (map_lane f i w)) = size (ctx w)
                    /\ nStripe (ctx (map_lane f i w)) = nStripe (ctx w)
                    /\ ostreams (ctx (map_lane f i w)) = ostreams (ctx w)
                    /\ targets (ctx (map_lane f i w)) = targets (ctx w)
                    /\ sources (ctx (map_lane f i w)) = sources (ctx w)
                    /\ processedStripe (ctx (map_lane f i w)) = processedStripe (ctx w)
                    /\ waiting (ctx (map_lane f i w)) = waiting (ctx w)
                    /\ dataBuffer (ctx (map_lane f i w)) = dataBuffer (ctx w)
                    /\ inFlight (ctx (map_lane f i w)) = inFlight (ctx w)).
    { unfold map_lane. destruct (nth_error (istreams (ctx w)) i);
        repeat split; reflexivity. }
    destruct Hrest as (R1 & R2 & R3 & R4 & R5 & R6 & R7 & R8 & R9 & R10 & R11 & R12
                       & R13 & R14 & R15 & R16 & R17).
    constructor; rewrite ?R1, ?R2, ?R3, ?R4, ?R5, ?R6, ?R7, ?R8, ?R9, ?R10, ?R11, ?R12,
                 ?R13, ?R14, ?R15, ?R16, ?R17; try assumption.
    intros j Hj. destruct (Hl j Hj) as (Hr & Hlj & Htj).
    split; [exact Hr |]. apply Hlane; assumption. }
  destruct e as [i | i chunk | i | i err | err okf | |]; try contradiction;
    unfold step in H; inversion H; subst w'; apply Hsame; try reflexivity;
    intros j Hj Hlj Htj; unfold map_lane; cbn [feed];
    (destruct (Nat.eqb_spec i j) as [<- | Hne];
     [rewrite Hlj; cbn [ctx upd_ctx set_istreams istreams]; rewrite nth_error_list_set,
        Nat.eqb_refl;
      assert (Hlt : (i <? List.length (istreams (ctx w)))%nat = true)
        by (apply Nat.ltb_lt, nth_error_Some; rewrite Hlj; discriminate);
      rewrite Hlt
     | destruct (nth_error (istreams (ctx w)) i);
       [cbn [ctx upd_ctx set_istreams istreams]; rewrite nth_error_list_set;
        destruct (Nat.eqb_spec i j); [contradiction |] |];
       split; assumption]).
  - (* a chunk *)
    cbn [push_chunk ended buffered].
    destruct (ended (g i)) eqn:Ee; [rewrite Ee; split; [reflexivity | exact Htj] |].
    cbn [buffered ended]. rewrite length_app. split; [| lia].
    rewrite skipn_app.
    replace (taken pn nn (waiting (ctx w)) i * Sn - List.length (buffered (g i)))%nat
      with 0%nat by lia.
    reflexivity.
  - (* the end *)
    cbn [push_end ended buffered]. split; [reflexivity | exact Htj].
Qed.

Lemma error_decoding (err : Error) (pn : nat) (g : nat -> Readable) (w : World) :
  decoding_ok X kn mn Sn nn pn g w -> decoding_ok X kn mn Sn nn pn g (Context.error err w).
Proof.
  intros Hd. unfold Context.error. destruct (inputError (ctx w)); [exact Hd |].
  apply log_decoding; [apply written_errors |].
  destruct Hd as [Hsnd Ek Em ES Esz En Eo Et Hsrc Hp Hwm Hfed Hl Hb Hfl Himm Hw].
  constructor; simpl; assumption.
Qed.

(** Whatever happens while the data lanes carry their shards, the decode
    stays on the object. *)
Lemma step_decoding (pn : nat) (g : nat -> Readable) (w w' : World) (e : Event) :
  decoding_ok X kn mn Sn nn pn g w ->
  (forall j, (j < kn)%nat -> carries (lane_from kn Sn nn j 0 X) (feed j (g j) e)) ->
  step junk rs Decoding w e = Ok w' ->
  decoding_ok X kn mn Sn nn pn (fun j => feed j (g j) e) w'
  \/ decoding_ok X kn mn Sn nn (pn + 1) (fun j => feed j (g j) e) w'.
Proof.
  intros Hd Hc' H.
  assert (Heta : forall q x, decoding_ok X kn mn Sn nn q g x ->
                             decoding_ok X kn mn Sn nn q (fun j => g j) x)
    by (intros q x D; exact D).
  destruct e as [i | i chunk | i | i err | err okf | |].
  - left. apply Heta. simpl in H. apply (listener_decoding i pn g w w' Hd H).
  - left. apply (feed_decoding (Arrives i chunk) pn g w w' Hd Hc' I H).
  - left. apply (feed_decoding (Ends i) pn g w w' Hd Hc' I H).
  - left. apply Heta. simpl in H.
    destruct (existsb (Nat.eqb i) (errorListeners w)); inversion H; subst w'; [| exact Hd].
    apply error_decoding.
    destruct Hd as [Hsnd Ek Em ES Esz En Eo Et Hsrc Hp Hwm Hfed Hl Hb Hfl Himm Hw].
    constructor; simpl; assumption.
  - left. apply Heta. destruct (primitive w) as [| p0] eqn:Ep.
    + simpl in H. rewrite Ep in H. inversion H; subst w'. exact Hd.
    + assert (p0 = 0%nat).
      { destruct (dec_sound _ _ _ _ _ _ _ _ Hd) as (_ & _ & _ & _ & J1 & _).
        rewrite Ep in J1. lia. }
      subst p0.
      destruct (dispatch_decoding pn g w err okf Hd Ep) as [E D]. congruence.
  - destruct (callbacks w) as [| [| c1]] eqn:Ec.
    + left. apply Heta. simpl in H. rewrite Ec in H. inversion H; subst w'. exact Hd.
    + right. apply Heta. apply (unref_decoding pn g w w' Hd Ec H).
    + left. apply Heta.
      assert (Hs' : sound Decoding w').
      { destruct (step_sound junk rs Decoding w Write_done (dec_sound _ _ _ _ _ _ _ _ Hd))
          as (x & Ex & Hx).
        congruence. }
      destruct Hd as [Hsnd Ek Em ES Esz En Eo Et Hsrc Hp Hwm Hfed Hl Hb Hfl Himm Hw].
      assert (Hn : nPending w = Z.of_nat (S (S c1))).
      { destruct Hsnd as (_ & _ & _ & _ & _ & _ & _ & J4 & _).
        destruct J4 as [A _]; [rewrite Ec; discriminate | rewrite A, Ec; reflexivity]. }
      simpl in H. rewrite Ec in H. simpl in H.
      replace (nPending w - 1 =? 0) with false in H
        by (symmetry; apply Z.eqb_neq; lia).
      inversion H; subst w'.
      constructor; simpl; try assumption.
      * destruct (inFlight (ctx w)); [| exact Hfl].
        destruct Hfl as (A & B & [[C D] | [C D]]); [congruence |].
        split; [exact A |]. split; [exact B |]. right. split; [exact C | discriminate].
      * rewrite Hw, Ec. reflexivity.
  - left. apply Heta. simpl in H. rewrite (dec_immediates _ _ _ _ _ _ _ _ Hd) in H.
    inversion H; subst w'. exact Hd.
Qed.

Lemma run_decoding (events : list Event) :
  forall pn g w w',
    decoding_ok X kn mn Sn nn pn g w ->
    (forall j, (j < kn)%nat -> carries (lane_from kn Sn nn j 0 X) (fed j events (g j))) ->
    run junk rs Decoding w events = Ok w' ->
    exists pn', decoding_ok X kn mn Sn nn pn' (fun j => fed j events (g j)) w'.
Proof.
  induction events as [| e events IH]; intros pn g w w' Hd Hc H; simpl in H.
  - inversion H; subst w'. exists pn. exact Hd.
  - destruct (step junk rs Decoding w e) as [w1 |] eqn:E; simpl in H; [| discriminate].
    assert (Hc1 : forall j, (j < kn)%nat ->
                            carries (lane_from kn Sn nn j 0 X) (feed j (g j) e))
      by (intros j Hj; apply (carries_fed _ j events), (Hc j Hj)).
    destruct (step_decoding pn g w w1 e Hd Hc1 E) as [D | D];
      apply (IH _ (fun j => feed j (g j) e) w1 w' D Hc H).
Qed.

(** What the output holds is a prefix of the object, and the whole of it
    once every stripe is processed. *)
Lemma decoding_output (pn : nat) (g : nat -> Readable) (w : World) :
  decoding_ok X kn mn Sn nn pn g w ->
  (exists rest, X = written 0 (trace w) ++ rest)
  /\ (processedStripe (ctx w) = Z.of_nat nn -> written 0 (trace w) = X).
Proof.
  intros Hd.
  assert (Hw := dec_written _ _ _ _ _ _ _ _ Hd).
  split.
  - rewrite Hw. eexists. symmetry. apply firstn_skipn.
  - intros Hp. destruct (dec_p _ _ _ _ _ _ _ _ Hd) as [Ep _].
    assert (pn = nn) by lia. subst pn.
    assert (Hf := dec_flight _ _ _ _ _ _ _ _ Hd).
    destruct (dec_sound _ _ _ _ _ _ _ _ Hd) as (_ & _ & _ & _ & _ & J2 & _).
    destruct (inFlight (ctx w)); [destruct Hf; lia |].
    destruct (J2 eq_refl) as (_ & Hc & _).
    rewrite Hw, Hc. simpl. rewrite Nat.add_0_r.
    apply firstn_all2. apply Hst.
Qed.

End Decoding.


(** ** Starting the decode of an encoded object *)

Lemma run_app (junk : nat -> Byte.byte)
      (rs : Z -> Z -> Z -> Z -> bytes -> bytes -> nat -> bytes)
      (op : Operation) (a b : list Event) :
  forall w, run junk rs op w (a ++ b) = (w1 <- run junk rs op w a ;; run junk rs op w1 b).
Proof.
  induction a as [| e a IH]; intros w; simpl; [reflexivity |].
  destruct (step junk rs op w e) as [w1 |]; simpl; [apply IH | reflexivity].
Qed.

(** With every data lane present the data lanes are the sources and nothing
    is to be computed. *)
Lemma scanData_all (dataStreams : list (option Readable)) (fuel : nat) :
  forall i,
    0 <= i -> i + Z.of_nat fuel = Z.of_nat (List.length dataStreams) ->
    (0 < fuel)%nat -> Z.of_nat (List.length dataStreams) < 30 ->
    (forall j, 0 <= j < Z.of_nat (List.length dataStreams) -> present dataStreams j = true) ->
    Decode.scanData fuel i (Z.of_nat (List.length dataStreams)) dataStreams
                    (mkRoles (2 ^ i - 1) 0 i)
    = mkRoles (2 ^ Z.of_nat (List.length dataStreams) - 1) 0
              (Z.of_nat (List.length dataStreams)).
Proof.
  induction fuel as [| fuel IH]; intros i Hi Hf Hpos Hlt Hp; [lia |].
  simpl. destruct (Z.ltb_spec i (Z.of_nat (List.length dataStreams))); [| lia].
  rewrite Hp by lia.
  assert (Hm : mask_below i (2 ^ i - 1)).
  { unfold mask_below. assert (0 < 2 ^ i) by (apply Z.pow_pos_nonneg; lia). lia. }
  rewrite (bor_lane i (2 ^ i - 1) i Hm) by lia.
  replace (2 ^ i - 1 + 2 ^ i) with (2 ^ (i + 1) - 1)
    by (replace (i + 1) with (Z.succ i) by lia; rewrite Z.pow_succ_r by lia; lia).
  destruct (Z.eqb_spec (i + 1) (Z.of_nat (List.length dataStreams))) as [E | E].
  - rewrite E. reflexivity.
  - apply IH; try lia. exact Hp.
Qed.

Lemma decode_roles_all (dataStreams parityStreams : list (option Readable)) :
  (0 < List.length dataStreams < 30)%nat ->
  (forall j, 0 <= j < Z.of_nat (List.length dataStreams) -> present dataStreams j = true) ->
  Decode.getPartRoles dataStreams parityStreams
  = mkRoles (2 ^ Z.of_nat (List.length dataStreams) - 1) 0
            (Z.of_nat (List.length dataStreams)).
Proof.
  intros Hl Hp. unfold Decode.getPartRoles.
  change (mkRoles 0 0 0) with (mkRoles (2 ^ 0 - 1) 0 0).
  rewrite scanData_all; try lia; [| exact Hp]. simpl.
  rewrite Z.ltb_irrefl. reflexivity.
Qed.

Lemma ones_bits (n j : Z) : 0 <= j < n -> Z.testbit (2 ^ n - 1) j = true.
Proof.
  intros H. replace (2 ^ n - 1) with (Z.ones n) by (rewrite Z.ones_equiv; lia).
  apply Z.ones_spec_low, H.
Qed.

(** The listeners [attach] installs. *)
Lemma attach_readers (lanes : list nat) :
  forall w,
    (forall i, In i lanes ->
               Js.band (sources (ctx w)) (Js.shl 1 (Z.of_nat i)) <> 0 ->
               present (istreams (ctx w)) (Z.of_nat i) = true) ->
    exists w',
      attach lanes w = Ok w'
      /\ (forall i, In i (readers w) -> In i (readers w'))
      /\ (forall i, In i lanes ->
                    Js.band (sources (ctx w)) (Js.shl 1 (Z.of_nat i)) <> 0 ->
                    In i (readers w')).
Proof.
  induction lanes as [| i lanes IH]; intros w Hp; simpl.
  - exists w. split; [reflexivity |]. split; [auto | intros i []].
  - destruct (Z.eqb_spec (Js.band (sources (ctx w)) (Js.shl 1 (Z.of_nat i))) 0) as [E | E].
    + match goal with
      | |- exists w', attach lanes ?x = _ /\ _ =>
          destruct (IH x) as (w' & A & B & C)
      end.
      { intros j Hj. destruct (present (istreams (ctx w)) (Z.of_nat i)); simpl;
          apply Hp; right; exact Hj. }
      exists w'. split; [exact A |]. split.
      * intros j Hj. apply B.
        destruct (present (istreams (ctx w)) (Z.of_nat i)); exact Hj.
      * intros j [<- | Hj] Hne; [contradiction |].
        destruct (present (istreams (ctx w)) (Z.of_nat i)); apply C; assumption.
    + destruct (present_nth _ _ (Hp i (or_introl eq_refl) E)) as [s ->].
      match goal with
      | |- exists w', attach lanes ?x = _ /\ _ =>
          destruct (IH x) as (w' & A & B & C)
      end.
      { intros j Hj. apply Hp. right. exact Hj. }
      exists w'. split; [exact A |]. split.
      * intros j Hj. apply B. simpl. apply in_or_app. left. exact Hj.
      * intros j [<- | Hj] Hne; [| apply C; assumption].
        apply B. simpl. apply in_or_app. right. left. reflexivity.
Qed.

Lemma stripes_of_ceil (c : nat) (X : bytes) :
  (0 < c)%nat ->
  0 <= Js.ceil_div (Z.of_nat (List.length X)) (Z.of_nat c)
  /\ stripes_of c (Z.to_nat (Js.ceil_div (Z.of_nat (List.length X)) (Z.of_nat c))) X.
Proof.
  intros Hc. rewrite ceil_div_pos by lia.
  set (len := Z.of_nat (List.length X)). set (cz := Z.of_nat c).
  assert (H1 := Z.div_mod (len + cz - 1) cz ltac:(lia)).
  assert (H2 := Z.mod_pos_bound (len + cz - 1) cz ltac:(lia)).
  assert (H0 : 0 <= (len + cz - 1) / cz) by (apply Z.div_pos; lia).
  split; [exact H0 |]. split.
  - apply Nat2Z.inj_le. rewrite Nat2Z.inj_mul, Z2Nat.id by exact H0. fold len cz. nia.
  - intros p Hp. apply Nat2Z.inj_lt. rewrite Nat2Z.inj_mul. fold len cz.
    assert (Z.of_nat p < (len + cz - 1) / cz) by lia. nia.
Qed.

Section DecodeStart.

Variable junk : nat -> Byte.byte.
Variable rs : Z -> Z -> Z -> Z -> bytes -> bytes -> nat -> bytes.
Variable X : bytes.

Lemma decode_returns (dataStreams parityStreams : list (option Readable)) (hint : Z)
      (kn mn : nat) :
  (0 < kn <= 24)%nat -> (0 < mn <= 6)%nat -> 0 < hint ->
  List.length dataStreams = kn -> List.length parityStreams = mn ->
  (forall j, (j < kn)%nat -> exists s, nth_error dataStreams j = Some (Some s)) ->
  exists w0,
    decode junk (Some writable) (Z.of_nat (List.length X)) dataStreams parityStreams hint
    = Ok w0.
Proof.
  intros Hk Hm Hh Hld Hlp Hlanes.
  assert (HS : 0 < safeStripeSize (Z.of_nat kn) (Z.of_nat mn) hint)
    by (apply safeStripeSize_pos; unfold MAX_K, MAX_M; lia).
  assert (Hpres : forall j, 0 <= j < Z.of_nat (List.length dataStreams) ->
                            present dataStreams j = true).
  { intros j Hj. replace j with (Z.of_nat (Z.to_nat j)) by lia.
    destruct (Hlanes (Z.to_nat j) ltac:(lia)) as (s & Es).
    rewrite present_spec, Es. reflexivity. }
  assert (Hroles := decode_roles_all dataStreams parityStreams ltac:(lia) Hpres).
  rewrite Hld in Hroles.
  assert (Hm2 : mask_below (Z.of_nat kn) (2 ^ Z.of_nat kn - 1)).
  { unfold mask_below. assert (0 < 2 ^ Z.of_nat kn) by (apply Z.pow_pos_nonneg; lia). lia. }
  assert (Hband : forall i, (i < kn + mn)%nat ->
                            Js.band (2 ^ Z.of_nat kn - 1) (Js.shl 1 (Z.of_nat i)) <> 0 ->
                            (i < kn)%nat).
  { intros i Hi Hne.
    rewrite (band_lane (Z.of_nat kn) _ (Z.of_nat i) Hm2) in Hne by lia.
    destruct (Nat.lt_ge_cases i kn) as [A | A]; [exact A |].
    rewrite (testbit_above _ (Z.of_nat kn) (Z.of_nat i)) in Hne by (try exact Hm2; lia).
    contradiction. }
  unfold decode. rewrite Hroles, Hld, Hlp.
  rewrite create_next by (unfold MAX_K, MAX_M; lia).
  simpl. rewrite Z.ltb_irrefl.
  match goal with
  | |- exists w0, attach ?l ?x = _ => destruct (attach_readers l x) as (w0 & A & _)
  end; [| exists w0; exact A].
  intros i Hi Hne. simpl in *. apply in_seq in Hi.
  rewrite length_app, Hld, Hlp in Hi.
  rewrite present_spec, nth_error_app1 by (apply Hband in Hne; lia).
  destruct (Hlanes i (Hband i ltac:(lia) Hne)) as (s & ->). reflexivity.
Qed.

Lemma decode_start (dataStreams parityStreams : list (option Readable)) (hint : Z)
      (kn mn : nat) (g : nat -> Readable) :
  (0 < kn <= 24)%nat -> (0 < mn <= 6)%nat -> 0 < hint ->
  List.length dataStreams = kn -> List.length parityStreams = mn ->
  let Sn := Z.to_nat (safeStripeSize (Z.of_nat kn) (Z.of_nat mn) hint) in
  let nn := Z.to_nat (Js.ceil_div (Z.of_nat (List.length X)) (Z.of_nat (kn * Sn))) in
  (forall j, (j < kn)%nat -> nth_error dataStreams j = Some (Some (g j))) ->
  (forall j, (j < kn)%nat -> carries (lane_from kn Sn nn j 0 X) (g j)) ->
  (0 < Sn)%nat /\ stripes_of (kn * Sn) nn X
  /\ exists w0,
      decode junk (Some writable) (Z.of_nat (List.length X)) dataStreams parityStreams hint
      = Ok w0
      /\ decoding_ok X kn mn Sn nn 0 g w0 /\ callbacks w0 = 0%nat.
Proof.
  intros Hk Hm Hh Hld Hlp Sn nn Hlanes Hfed.
  assert (HS : 0 < safeStripeSize (Z.of_nat kn) (Z.of_nat mn) hint)
    by (apply safeStripeSize_pos; unfold MAX_K, MAX_M; lia).
  assert (HSn : (0 < Sn)%nat) by (unfold Sn; lia).
  assert (ESn : Z.of_nat Sn = safeStripeSize (Z.of_nat kn) (Z.of_nat mn) hint)
    by (unfold Sn; lia).
  destruct (stripes_of_ceil (kn * Sn) X ltac:(nia)) as [Hn0 Hst]. fold nn in Hst.
  assert (Enn : Z.of_nat nn = Js.ceil_div (Z.of_nat (List.length X)) (Z.of_nat (kn * Sn)))
    by (unfold nn; lia).
  split; [exact HSn |]. split; [exact Hst |].
  assert (Hpres : forall j, 0 <= j < Z.of_nat (List.length dataStreams) ->
                            present dataStreams j = true).
  { intros j Hj. replace j with (Z.of_nat (Z.to_nat j)) by lia.
    rewrite present_spec, Hlanes by lia. reflexivity. }
  assert (Hroles := decode_roles_all dataStreams parityStreams ltac:(lia) Hpres).
  rewrite Hld in Hroles.
  assert (Hm2 : mask_below (Z.of_nat kn) (2 ^ Z.of_nat kn - 1)).
  { unfold mask_below. assert (0 < 2 ^ Z.of_nat kn) by (apply Z.pow_pos_nonneg; lia). lia. }
  assert (Hband : forall i, (i < kn + mn)%nat ->
                            Js.band (2 ^ Z.of_nat kn - 1) (Js.shl 1 (Z.of_nat i)) <> 0 ->
                            (i < kn)%nat).
  { intros i Hi Hne.
    rewrite (band_lane (Z.of_nat kn) _ (Z.of_nat i) Hm2) in Hne by lia.
    destruct (Nat.lt_ge_cases i kn) as [A | A]; [exact A |].
    rewrite (testbit_above _ (Z.of_nat kn) (Z.of_nat i)) in Hne by (try exact Hm2; lia).
    contradiction. }
  assert (Hdec : exists w0,
             decode junk (Some writable) (Z.of_nat (List.length X))
                    dataStreams parityStreams hint = Ok w0).
  { unfold decode. rewrite Hroles, Hld, Hlp.
    rewrite create_next by (unfold MAX_K, MAX_M; lia).
    simpl. rewrite Z.ltb_irrefl.
    match goal with
    | |- exists w0, attach ?l ?x = _ => destruct (attach_readers l x) as (w0 & A & _)
    end; [| exists w0; exact A].
    intros i Hi Hne. simpl in *. apply in_seq in Hi.
    rewrite length_app, Hld, Hlp in Hi.
    rewrite present_spec, nth_error_app1 by (apply Hband in Hne; lia).
    rewrite Hlanes by (apply Hband; [lia | exact Hne]). reflexivity. }
  destruct Hdec as (w0 & Hdec). exists w0. split; [exact Hdec |].
  assert (Hsnd : sound Decoding w0).
  { apply (started_sound junk). exists (Some writable), (Z.of_nat (List.length X)),
      dataStreams, parityStreams, hint. split; [lia | exact Hdec]. }
  unfold decode in Hdec. rewrite Hroles, Hld, Hlp in Hdec.
  rewrite create_next in Hdec by (unfold MAX_K, MAX_M; lia).
  simpl in Hdec. rewrite Z.ltb_irrefl in Hdec.
  match type of Hdec with
  | attach ?l ?x = _ =>
      destruct (attach_readers l x) as (w1 & A & _ & Hread);
      [| destruct (attach_spec l x w0 Hdec) as (Ectx & Ep & Ec & Ei & _);
         destruct (attach_trace l x w0 Hdec) as (new & Et & Hnew)]
  end.
  { intros i Hi Hne. simpl in *. apply in_seq in Hi.
    rewrite length_app, Hld, Hlp in Hi.
    rewrite present_spec, nth_error_app1 by (apply Hband in Hne; lia).
    rewrite Hlanes by (apply Hband; [lia | exact Hne]). reflexivity. }
  rewrite Hdec in A. inversion A; subst w1. clear A.
  simpl in Ectx, Ep, Ec, Ei, Et, Hread.
  assert (Hzero : (Z.of_nat kn * Z.of_nat Sn =? 0) = false) by (apply Z.eqb_neq; nia).
  split; [| exact Ec].
  constructor; rewrite ?Ectx; simpl; try reflexivity; try assumption.
  - symmetry. exact ESn.
  - rewrite <- ESn, Hzero, Enn. do 2 f_equal. lia.
  - split; [exact Hm2 | intros j Hj; apply ones_bits; lia].
  - split; [reflexivity | lia].
  - intros j Hj.
    assert (Hbit : Z.testbit (2 ^ Z.of_nat kn - 1) (Z.of_nat j) = true)
      by (apply ones_bits; lia).
    split.
    + apply Hread; [apply in_seq; rewrite length_app; lia |].
      rewrite (band_lane (Z.of_nat kn) _ (Z.of_nat j) Hm2), Hbit by lia.
      assert (0 < 2 ^ Z.of_nat j) by (apply Z.pow_pos_nonneg; lia). lia.
    + unfold taken. rewrite Hbit. simpl negb. rewrite andb_false_r, nth_error_app1 by lia.
      rewrite (Hlanes j Hj). cbn [Nat.add Nat.mul skipn].
      split; [destruct (g j); reflexivity | lia].
  - intros _ j t Hj _ Hbit.
    rewrite ones_bits in Hbit by lia. discriminate.
  - intros _ Hz. assert (Hbit := ones_bits (Z.of_nat kn) 0 ltac:(lia)).
    rewrite Hz in Hbit. rewrite Z.bits_0 in Hbit. discriminate.
  - rewrite Et, Ec. simpl. apply written_setup, Hnew.
Qed.

End DecodeStart.

(** ** A decode driven to its end *)

Lemma quiet_fed (lane : nat) (events : list Event) (s : Readable) :
  Forall quiet events -> fed lane events s = s.
Proof.
  induction events as [| e events IH]; intros H; [reflexivity |].
  apply Forall_cons_iff in H. destruct H as [He H].
  cbn [fed fold_left]. fold (fed lane events (feed lane s e)).
  destruct e; try contradiction; cbn [feed]; apply IH, H.
Qed.

Lemma quiet_repeat (e : Event) (n : nat) : quiet e -> Forall quiet (repeat e n).
Proof.
  intros H. apply Forall_forall. intros x Hx. apply repeat_spec in Hx. subst x. exact H.
Qed.

Lemma fed_arrivals (rest : nat -> bytes) (j : nat) (n : nat) :
  forall a s,
    fed j (arrivals rest a n) s
    = if (a <=? j)%nat && (j <? a + n)%nat then feed j s (Arrives j (rest j)) else s.
Proof.
  induction n as [| n IH]; intros a s.
  - unfold arrivals, fed. cbn [seq map fold_left].
    destruct (Nat.leb_spec a j), (Nat.ltb_spec j (a + 0)); try reflexivity. lia.
  - unfold arrivals. cbn [seq map fed fold_left].
    fold (fed j (map (fun i => Arrives i (rest i)) (seq (S a) n))
              (feed j s (Arrives a (rest a)))).
    fold (arrivals rest (S a) n). rewrite IH.
    destruct (Nat.eq_dec a j) as [-> | Hne].
    + destruct (Nat.leb_spec (S j) j); [lia |].
      destruct (Nat.leb_spec j j); [| lia].
      destruct (Nat.ltb_spec j (j + S n)); [| lia]. reflexivity.
    + replace (feed j s (Arrives a (rest a))) with s
        by (cbn [feed]; destruct (Nat.eqb_spec a j); [contradiction | reflexivity]).
      destruct (Nat.leb_spec (S a) j), (Nat.leb_spec a j),
        (Nat.ltb_spec j (S a + n)), (Nat.ltb_spec j (a + S n)); try reflexivity; lia.
Qed.

Lemma run_arrivals (junk : nat -> Byte.byte)
      (rs : Z -> Z -> Z -> Z -> bytes -> bytes -> nat -> bytes)
      (op : Operation) (rest : nat -> bytes) (n : nat) :
  forall a w, exists w', run junk rs op w (arrivals rest a n) = Ok w'.
Proof.
  induction n as [| n IH]; intros a w; [exists w; reflexivity |].
  unfold arrivals. cbn [seq map run step bind]. apply IH.
Qed.

(** Once what is left of [L] has arrived, the stream has delivered [L]. *)
Lemma carries_rest (L : bytes) (s : Readable) :
  carries L s ->
  let s' := feed 0 s (Arrives 0 (skipn (List.length (buffered s)) L)) in
  carries L s' /\ buffered s' = L.
Proof.
  intros (rest & E & Hend). cbn [feed Nat.eqb].
  assert (Er : skipn (List.length (buffered s)) L = rest).
  { rewrite E, skipn_app, skipn_all, Nat.sub_diag. reflexivity. }
  rewrite Er. destruct (ended s) eqn:Ee.
  - rewrite (Hend eq_refl), app_nil_r in E.
    split; [| symmetry; exact E].
    exists []. rewrite app_nil_r. split; [exact E | reflexivity].
  - cbn [buffered ended]. split; [| symmetry; exact E].
    exists []. rewrite app_nil_r. split; [exact E | reflexivity].
Qed.

Lemma feed_lane (j : nat) (s : Readable) (chunk : bytes) :
  feed j s (Arrives j chunk) = feed 0 s (Arrives 0 chunk).
Proof. cbn [feed]. rewrite Nat.eqb_refl. reflexivity. Qed.

Section DecodeCompletes.

Variable junk : nat -> Byte.byte.
Variable rs : Z -> Z -> Z -> Z -> bytes -> bytes -> nat -> bytes.
Variable X : bytes.
Variables kn mn Sn nn : nat.
Hypothesis Hkn : (0 < kn)%nat.
Hypothesis Hkm : (kn + mn <= 30)%nat.
Hypothesis HSn : (0 < Sn)%nat.
Hypothesis Hst : stripes_of (kn * Sn) nn X.

(** Each lane in turn becomes readable. *)
Lemma sweep_decoding (lanes : list nat) (pn : nat) (g : nat -> Readable) :
  forall w,
    decoding_ok X kn mn Sn nn pn g w ->
    exists w',
      run junk rs Decoding w (map On_readable lanes) = Ok w'
      /\ decoding_ok X kn mn Sn nn pn g w'
      /\ same_callbacks w w'
      /\ (forall j, Z.testbit (waiting (ctx w)) j = false ->
                    Z.testbit (waiting (ctx w')) j = false)
      /\ (forall i, In i lanes -> (i < kn)%nat -> (pn < nn)%nat ->
                    ((pn + 1) * Sn <= List.length (buffered (g i)))%nat ->
                    Z.testbit (waiting (ctx w')) (Z.of_nat i) = false).
Proof.
  induction lanes as [| i lanes IH]; intros w Hd; simpl.
  - exists w. split; [reflexivity |]. split; [exact Hd |].
    split; [apply same_callbacks_refl |]. split; [auto | intros i []].
  - destruct (listener_sound Decoding i w (dec_sound _ _ _ _ _ _ _ _ Hd)) as (w1 & E & _).
    rewrite E. simpl.
    destruct (listener_decoding X kn mn Sn nn Hkn Hkm HSn i pn g w w1 Hd E)
      as (D1 & C1 & M1 & P1).
    destruct (IH w1 D1) as (w' & R & D2 & C2 & M2 & P2).
    exists w'. split; [exact R |]. split; [exact D2 |].
    split; [eapply same_callbacks_trans; eassumption |].
    split; [intros j Hj; apply M2, M1, Hj |].
    intros j [<- | Hj] Hjk Hlt Hav; [apply M2, P1; assumption | apply P2; assumption].
Qed.

(** The write callbacks of a stripe arrive; the last one releases the
    stripe. *)
Lemma drain_decoding (g : nat -> Readable) (c : nat) :
  forall pn w,
    decoding_ok X kn mn Sn nn pn g w -> callbacks w = c -> (0 < c)%nat ->
    exists w',
      run junk rs Decoding w (repeat Write_done c) = Ok w'
      /\ decoding_ok X kn mn Sn nn (pn + 1) g w'
      /\ callbacks w' = 0%nat
      /\ ((pn + 1 < nn)%nat ->
          (forall j, (j < kn)%nat -> ((pn + 2) * Sn <= List.length (buffered (g j)))%nat) ->
          inFlight (ctx w') = true /\ primitive w' = 1%nat).
Proof.
  induction c as [| c IH]; intros pn w Hd Hc Hpos; [lia |].
  destruct c as [| c].
  - cbn [repeat run].
    destruct (step_sound junk rs Decoding w Write_done (dec_sound _ _ _ _ _ _ _ _ Hd))
      as (w' & E & _).
    rewrite E. cbn [bind]. exists w'. split; [reflexivity |].
    apply (unref_decoding junk rs X kn mn Sn nn Hkn Hkm HSn pn g w w' Hd Hc E).
  - assert (Hn : nPending w = Z.of_nat (S (S c))).
    { destruct (dec_sound _ _ _ _ _ _ _ _ Hd) as (_ & _ & _ & _ & _ & _ & _ & J4 & _).
      destruct J4 as [A _]; [rewrite Hc; discriminate | rewrite A, Hc; reflexivity]. }
    assert (E : step junk rs Decoding w Write_done
                = Ok (set_nPending (nPending w - 1) (set_callbacks (S c) w))).
    { unfold step. rewrite Hc. cbn [nPending set_nPending set_callbacks].
      replace (nPending w - 1 =? 0) with false by (symmetry; apply Z.eqb_neq; lia).
      reflexivity. }
    change (repeat Write_done (S (S c))) with (Write_done :: repeat Write_done (S c)).
    cbn [run]. rewrite E. cbn [bind].
    apply IH; [| reflexivity | lia].
    destruct (step_decoding junk rs X kn mn Sn nn Hkn Hkm HSn Hst pn g w _ Write_done Hd
                            (dec_fed _ _ _ _ _ _ _ _ Hd) E) as [D | D]; [exact D |].
    exfalso. destruct (dec_p _ _ _ _ _ _ _ _ D) as [A _].
    destruct (dec_p _ _ _ _ _ _ _ _ Hd) as [B _].
    cbn [ctx set_nPending set_callbacks] in A. lia.
Qed.

(** With every lane delivered, one stripe after the other completes and is
    written. *)
Lemma cycles_decoding (g : nat -> Readable) (r : nat) :
  (forall j, (j < kn)%nat -> (nn * Sn <= List.length (buffered (g j)))%nat) ->
  forall a pn w,
    decoding_ok X kn mn Sn nn pn g w -> (pn + r = nn)%nat ->
    callbacks w = 0%nat ->
    ((0 < r)%nat -> primitive w = 1%nat) ->
    exists w',
      run junk rs Decoding w
          (flat_map (fun _ => [Primitive_done None (fun _ => true); Write_done]) (seq a r))
      = Ok w'
      /\ decoding_ok X kn mn Sn nn nn g w'.
Proof.
  intros Hall.
  induction r as [| r IH]; intros a pn w Hd Hr Hc Hp.
  - exists w. split; [reflexivity |].
    assert (E : pn = nn) by lia. revert Hd. rewrite E. auto.
  - cbn [seq flat_map app run].
    destruct (dispatch_decoding junk rs X kn mn Sn nn Hkn Hkm HSn Hst pn g w None
                                (fun _ => true) Hd (Hp ltac:(lia))) as [E1 D1].
    rewrite E1. cbn [bind].
    match type of D1 with
    | decoding_ok _ _ _ _ _ _ _ ?x => set (w1 := x) in *
    end.
    assert (Hc1 : callbacks w1 = 1%nat) by (unfold w1; simpl; rewrite Hc; reflexivity).
    destruct (step_sound junk rs Decoding w1 Write_done (dec_sound _ _ _ _ _ _ _ _ D1))
      as (w2 & E2 & _).
    rewrite E2. cbn [bind].
    destruct (unref_decoding junk rs X kn mn Sn nn Hkn Hkm HSn pn g w1 w2 D1 Hc1 E2)
      as (D2 & C2 & P2).
    apply (IH (S a) (pn + 1)%nat w2 D2); [lia | exact C2 |].
    intros Hr'. apply P2; [lia |].
    intros j Hj. specialize (Hall j Hj).
    assert ((pn + 2) * Sn <= nn * Sn)%nat by (apply Nat.mul_le_mono_r; lia). lia.
Qed.

Lemma cycles_quiet (a r : nat) :
  Forall quiet
         (flat_map (fun _ => [Primitive_done None (fun _ => true); Write_done]) (seq a r)).
Proof.
  apply Forall_flat_map, Forall_forall. intros x _. repeat constructor.
Qed.

(** Once every data lane has been delivered, the decode can be driven to its
    end from wherever it stands: the lanes are read if the stripe is still
    being filled, the outstanding callback runs if the stripe has been
    written, and then the stripes complete one after the other. No end of a
    lane is needed. *)
Lemma decoding_drive (pn : nat) (g : nat -> Readable) (w : World) :
  decoding_ok X kn mn Sn nn pn g w ->
  (forall j, (j < kn)%nat -> (nn * Sn <= List.length (buffered (g j)))%nat) ->
  exists more w',
    run junk rs Decoding w more = Ok w'
    /\ Forall quiet more
    /\ decoding_ok X kn mn Sn nn nn g w'.
Proof.
  intros Hd Hall.
  destruct (dec_p _ _ _ _ _ _ _ _ Hd) as [Ep Hpn].
  destruct (Nat.eq_dec pn nn) as [-> | Hne].
  { exists [], w. split; [reflexivity |]. split; [constructor | exact Hd]. }
  assert (Hlt : (pn < nn)%nat) by lia.
  assert (Hav : forall q j, (q <= nn)%nat -> (j < kn)%nat ->
                            (q * Sn <= List.length (buffered (g j)))%nat).
  { intros q j Hq Hj. specialize (Hall j Hj).
    assert (q * Sn <= nn * Sn)%nat by (apply Nat.mul_le_mono_r; exact Hq). lia. }
  assert (Hflying : forall w1,
             decoding_ok X kn mn Sn nn pn g w1 -> primitive w1 = 1%nat ->
             exists more w',
               run junk rs Decoding w1 more = Ok w'
               /\ Forall quiet more
               /\ decoding_ok X kn mn Sn nn nn g w').
  { intros w1 D1 P1.
    assert (C1 : callbacks w1 = 0%nat).
    { destruct (dec_sound _ _ _ _ _ _ _ _ D1) as (_ & _ & _ & _ & _ & _ & J3 & _).
      apply (J3 P1). }
    destruct (cycles_decoding g (nn - pn) Hall 0%nat pn w1 D1 ltac:(lia) C1 (fun _ => P1))
      as (w' & R & D').
    eexists _, w'. split; [exact R |]. split; [apply cycles_quiet | exact D']. }
  assert (Hwritten : forall w1,
             decoding_ok X kn mn Sn nn pn g w1 -> callbacks w1 <> 0%nat ->
             exists more w',
               run junk rs Decoding w1 more = Ok w'
               /\ Forall quiet more
               /\ decoding_ok X kn mn Sn nn nn g w').
  { intros w1 D1 C1.
    destruct (drain_decoding g (callbacks w1) pn w1 D1 eq_refl ltac:(lia))
      as (w2 & R2 & D2 & C2 & P2).
    destruct (cycles_decoding g (nn - (pn + 1)) Hall 0%nat (pn + 1)%nat w2 D2 ltac:(lia) C2)
      as (w' & R & D').
    { intros Hr. apply P2; [lia |]. intros j Hj. apply Hav; [lia | exact Hj]. }
    eexists (repeat Write_done (callbacks w1) ++ _), w'.
    split; [rewrite run_app, R2; cbn [bind]; exact R |].
    split; [apply Forall_app; split; [apply quiet_repeat; exact I | apply cycles_quiet]
           | exact D']. }
  assert (Hf := dec_flight _ _ _ _ _ _ _ _ Hd).
  destruct (inFlight (ctx w)) eqn:Ef.
  - destruct Hf as (_ & _ & [[P1 C1] | [P0 Cn]]).
    + apply (Hflying w Hd P1).
    + apply (Hwritten w Hd Cn).
  - destruct (sweep_decoding (seq 0 kn) pn g w Hd) as (w1 & R1 & D1 & C1 & _ & P1).
    assert (Hz : waiting (ctx w1) = 0).
    { apply (mask_zero (Z.of_nat kn)); [apply (dec_waiting _ _ _ _ _ _ _ _ D1) | lia |].
      intros j Hj. replace j with (Z.of_nat (Z.to_nat j)) by lia.
      apply P1; [apply in_seq; lia | lia | exact Hlt |].
      apply Hav; lia. }
    assert (F := dec_flight _ _ _ _ _ _ _ _ D1).
    assert (Hc0 : callbacks w = 0%nat).
    { destruct (dec_sound _ _ _ _ _ _ _ _ Hd) as (_ & _ & _ & _ & _ & J2 & _).
      apply (J2 Ef). }
    destruct (inFlight (ctx w1)) eqn:Ef1; [| exfalso; apply (F Hlt), Hz].
    destruct F as (_ & _ & [[A B] | [A B]]);
      [| destruct C1 as (C & _); rewrite C in B; congruence].
    destruct (Hflying w1 D1 A) as (more & w' & R & Q & D').
    exists (map On_readable (seq 0 kn) ++ more), w'.
    split; [rewrite run_app, R1; cbn [bind]; exact R |].
    split; [| exact D'].
    apply Forall_app. split; [| exact Q].
    apply Forall_forall. intros e He. apply in_map_iff in He.
    destruct He as (x & <- & _). exact I.
Qed.

(** From wherever a decode stands: what is left of each data lane arrives,
    and the decode is driven to its end. *)
Lemma decoding_live (pn : nat) (g : nat -> Readable) (w : World) :
  decoding_ok X kn mn Sn nn pn g w ->
  exists more w',
    run junk rs Decoding w more = Ok w'
    /\ (forall j, (j < kn)%nat ->
                  carries (lane_from kn Sn nn j 0 X) (fed j more (g j)))
    /\ decoding_ok X kn mn Sn nn nn (fun j => fed j more (g j)) w'.
Proof.
  intros Hd.
  set (rest := fun j => skipn (List.length (buffered (g j))) (lane_from kn Sn nn j 0 X)).
  set (arr := arrivals rest 0 kn).
  assert (Hg1 : forall j, (j < kn)%nat ->
              carries (lane_from kn Sn nn j 0 X) (fed j arr (g j))
              /\ buffered (fed j arr (g j)) = lane_from kn Sn nn j 0 X).
  { intros j Hj. unfold arr. rewrite fed_arrivals.
    destruct (Nat.leb_spec 0 j); [| lia]. destruct (Nat.ltb_spec j (0 + kn)); [| lia].
    cbn [andb]. rewrite feed_lane.
    apply carries_rest, (dec_fed _ _ _ _ _ _ _ _ Hd j Hj). }
  destruct (run_arrivals junk rs Decoding rest kn 0%nat w) as (w1 & R1). fold arr in R1.
  destruct (run_decoding junk rs X kn mn Sn nn Hkn Hkm HSn Hst arr pn g w w1 Hd
                         (fun j Hj => proj1 (Hg1 j Hj)) R1) as (p1 & D1).
  destruct (decoding_drive p1 (fun j => fed j arr (g j)) w1 D1) as (more & w' & R & Q & D').
  { intros j Hj. rewrite (proj2 (Hg1 j Hj)).
    rewrite lane_length by exact Hj. lia. }
  exists (arr ++ more), w'.
  split; [rewrite run_app, R1; cbn [bind]; exact R |].
  assert (Efed : forall j, fed j (arr ++ more) (g j) = fed j arr (g j)).
  { intros j. rewrite fed_app. apply quiet_fed, Q. }
  split.
  - intros j Hj. rewrite Efed. apply Hg1, Hj.
  - destruct D' as [Hsnd Ek Em ES Esz En Eo Et Hsrc Hp Hwm Hfed Hl Hb Hfl Himm Hw].
    constructor; try assumption.
    + intros j Hj. rewrite Efed. apply Hfed, Hj.
    + intros j Hj. rewrite Efed. apply Hl, Hj.
Qed.

End DecodeCompletes.


(** ** The encoder on an object that arrives in chunks *)

(** A short read is copied and the rest of the buffer zeroed. *)
Lemma buf_fill0_copy (d buf : bytes) :
  (List.length d <= List.length buf)%nat ->
  buf_fill0 (fst (buf_copy d buf 0)) (Z.of_nat (List.length d))
  = d ++ repeat Byte.x00 (List.length buf - List.length d).
Proof.
  intros H.
  destruct (buf_copy_nth d buf 0 0 ltac:(lia)) as [E _]. simpl in E. rewrite E. simpl.
  unfold buf_fill0. rewrite Nat2Z.id.
  rewrite <- (Nat.add_0_r (List.length d)) at 1.
  rewrite firstn_app_2. simpl. rewrite app_nil_r.
  rewrite length_app, length_skipn. f_equal. f_equal. lia.
Qed.

(** [buffer.slice (j * S, (j + 1) * S)] is the shard of lane [j]. *)
Lemma buf_slice_piece (buf : bytes) (Sn j : nat) :
  ((j + 1) * Sn <= List.length buf)%nat ->
  buf_slice buf (Z.of_nat j * Z.of_nat Sn) ((Z.of_nat j + 1) * Z.of_nat Sn)
  = piece Sn j buf.
Proof.
  intros H. unfold buf_slice, buf_clamp, piece.
  destruct (Z.ltb_spec (Z.of_nat j * Z.of_nat Sn) 0) as [A | A]; [lia |].
  destruct (Z.ltb_spec ((Z.of_nat j + 1) * Z.of_nat Sn) 0) as [B | B]; [lia |].
  rewrite !Z.min_l by lia.
  replace (Z.to_nat (Z.of_nat j * Z.of_nat Sn)) with (j * Sn)%nat by lia.
  replace (Z.to_nat ((Z.of_nat j + 1) * Z.of_nat Sn)) with (j * Sn + Sn)%nat by lia.
  symmetry. apply firstn_skipn_comm.
Qed.

(** The primitive of an encode computes parity shards only. *)
Lemma primitive_result_data
      (rs : Z -> Z -> Z -> Z -> bytes -> bytes -> nat -> bytes) (c : DencodeContext) :
  (forall i, Z.of_nat i < k c -> Z.testbit (targets c) (Z.of_nat i) = false) ->
  dataBuffer (primitive_result rs c) = dataBuffer c.
Proof.
  intros Ht. unfold primitive_result.
  generalize (rs (k c) (m c) (sources c) (targets c) (dataBuffer c) (parityBuffer c)).
  intros shard0.
  generalize (seq 0 (Z.to_nat (k c + m c))). intros lanes.
  assert (H : forall c0, k c0 = k c -> dataBuffer c0 = dataBuffer c ->
                         let c1 := fold_left
                                     (fun c' i => if Z.testbit (targets c) (Z.of_nat i)
                                                  then store_shard i (shard0 i) c' else c')
                                     lanes c0 in
                         dataBuffer c1 = dataBuffer c).
  { induction lanes as [| i lanes IH]; intros c0 Hk Hd; simpl; [exact Hd |].
    apply IH.
    - destruct (Z.testbit (targets c) (Z.of_nat i)); [| exact Hk].
      unfold store_shard. destruct (Z.of_nat i <? k c0); destruct c0; exact Hk.
    - destruct (Z.testbit (targets c) (Z.of_nat i)) eqn:Eb; [| exact Hd].
      unfold store_shard. destruct (Z.ltb_spec (Z.of_nat i) (k c0)) as [A | A].
      + rewrite Ht in Eb by lia. discriminate.
      + destruct c0; exact Hd. }
  apply H; reflexivity.
Qed.

(** The writes of the dispatch step of the encoder, lane by lane. *)
Lemma encodeWrites_trace (okf : nat -> bool) (lanes : list nat) :
  forall w w',
    encodeWrites lanes okf w = Ok w' ->
    trace w' = trace w ++ map (fun i => Write i (lane_slice (ctx w) i)) lanes
    /\ writes_only w w'
    /\ (callbacks w + List.length lanes <= callbacks w')%nat
    /\ ((forall i, okf i = true) ->
        callbacks w' = (callbacks w + List.length lanes)%nat).
Proof.
  induction lanes as [| i lanes IH]; intros w w' H; simpl in H.
  - inversion H; subst w'. simpl. rewrite app_nil_r, Nat.add_0_r.
    split; [reflexivity |]. split; [apply writes_only_refl |]. split; [lia | reflexivity].
  - destruct (nth_error (ostreams (ctx w)) i) as [[s |] |]; try discriminate.
    apply IH in H. destruct H as (T & C & L & A).
    destruct (write_one_spec 1 i (lane_slice (ctx w) i) (okf i) w) as [W _].
    assert (C' := writes_only_trans _ _ _ W C).
    unfold write_one in *.
    destruct (okf i) eqn:Eo; simpl in *.
    + split; [rewrite T, <- app_assoc; reflexivity |]. split; [exact C' |].
      split; [lia |]. intros Hall. rewrite (A Hall). lia.
    + split; [rewrite T, <- app_assoc; reflexivity |]. split; [exact C' |].
      split; [lia |]. intros Hall. rewrite Hall in Eo. discriminate.
Qed.

Lemma targets_bits (kn mn : nat) :
  (0 < mn)%nat -> (kn + mn <= 30)%nat ->
  Encode.targets (Z.of_nat kn) (Z.of_nat mn) <> 0
  /\ forall j, (j < kn)%nat ->
               Z.testbit (Encode.targets (Z.of_nat kn) (Z.of_nat mn)) (Z.of_nat j) = false.
Proof.
  intros Hm Hkm. rewrite encode_targets_eq by lia. split.
  - rewrite Z.shiftl_mul_pow2 by lia.
    assert (2 ^ 1 <= 2 ^ Z.of_nat mn) by (apply Z.pow_le_mono_r; lia).
    assert (0 < 2 ^ Z.of_nat kn) by (apply Z.pow_pos_nonneg; lia).
    nia.
  - intros j Hj. apply Z.shiftl_spec_low. lia.
Qed.

Section Encoding.

Variable junk : nat -> Byte.byte.
Variable rs : Z -> Z -> Z -> Z -> bytes -> bytes -> nat -> bytes.
Variable X : bytes.
Variables kn mn Sn nn : nat.
Hypothesis Hkn : (0 < kn)%nat.
Hypothesis Hmn : (0 < mn)%nat.
Hypothesis Hkm : (kn + mn <= 30)%nat.
Hypothesis HSn : (0 < Sn)%nat.
Hypothesis Hst : stripes_of (kn * Sn) nn X.

(** What the encoder reads for stripe [pn]: the stripe once all its bytes
    have arrived, nothing before. *)
Lemma encode_read (pn : nat) (g : Readable) :
  (pn < nn)%nat -> carries X g ->
  (pn * (kn * Sn) <= List.length (buffered g))%nat ->
  let toRead := if Z.of_nat pn + 1 =? Z.of_nat nn
                then Z.of_nat (List.length X) - Z.of_nat pn * Z.of_nat (kn * Sn)
                else Z.of_nat (kn * Sn) in
  let s := mkReadable (skipn (pn * (kn * Sn)) (buffered g)) (ended g) in
  if (Nat.min ((pn + 1) * (kn * Sn)) (List.length X) <=? List.length (buffered g))%nat
  then stream_read toRead s
       = (Some (piece (kn * Sn) pn X),
          mkReadable (skipn ((pn + 1) * (kn * Sn)) (buffered g)) (ended g))
  else stream_read toRead s = (None, s).
Proof.
  intros Hlt Hc Ha toRead s. destruct Hst as [Hle Hgt].
  assert (Hp := Hgt pn Hlt).
  assert (Hc0 : (0 < kn * Sn)%nat) by nia.
  assert (HG := carries_length X g Hc).
  set (M := Nat.min ((pn + 1) * (kn * Sn)) (List.length X)).
  assert (Et : toRead = Z.of_nat M - Z.of_nat (pn * (kn * Sn))).
  { unfold toRead, M. destruct (Z.eqb_spec (Z.of_nat pn + 1) (Z.of_nat nn)) as [E | E].
    - assert (nn = (pn + 1)%nat) by lia. subst nn. rewrite Nat.min_r by lia. lia.
    - assert (Hn := Hgt (pn + 1)%nat ltac:(lia)). rewrite Nat.min_l by lia. lia. }
  assert (HM : (pn * (kn * Sn) < M)%nat) by (unfold M; lia).
  unfold stream_read. cbn [buffered ended s]. rewrite Et, length_skipn.
  destruct (Z.leb_spec (Z.of_nat M - Z.of_nat (pn * (kn * Sn))) 0) as [A | _]; [lia |].
  destruct (Nat.leb_spec M (List.length (buffered g))) as [B | B].
  - destruct (Z.leb_spec (Z.of_nat M - Z.of_nat (pn * (kn * Sn)))
                         (Z.of_nat (List.length (buffered g) - pn * (kn * Sn))));
      [| lia].
    replace (Z.to_nat (Z.of_nat M - Z.of_nat (pn * (kn * Sn))))
      with (M - pn * (kn * Sn))%nat by lia.
    f_equal.
    + f_equal. rewrite (carries_firstn X g _ _ Hc) by lia.
      unfold piece. unfold M.
      destruct (Nat.le_ge_cases ((pn + 1) * (kn * Sn)) (List.length X)) as [C | C].
      * rewrite Nat.min_l by exact C. f_equal. lia.
      * rewrite Nat.min_r by exact C.
        rewrite !firstn_all2 by (rewrite length_skipn; lia). reflexivity.
    + f_equal. rewrite skipn_skipn.
      replace (M - pn * (kn * Sn) + pn * (kn * Sn))%nat with M by lia.
      unfold M.
      destruct (Nat.le_ge_cases ((pn + 1) * (kn * Sn)) (List.length X)) as [C | C].
      * rewrite Nat.min_l by exact C. reflexivity.
      * rewrite Nat.min_r by exact C. rewrite !skipn_all2 by lia. reflexivity.
  - destruct (Z.leb_spec (Z.of_nat M - Z.of_nat (pn * (kn * Sn)))
                         (Z.of_nat (List.length (buffered g) - pn * (kn * Sn))));
      [lia |].
    destruct (ended g) eqn:Ee; [| reflexivity].
    exfalso. rewrite (carries_ended X g Hc Ee) in B. unfold M in B. lia.
Qed.

Lemma encodeBufferStep_encoding (pn : nat) (g : Readable) (w w' : World) :
  encoding_ok X kn mn Sn nn pn g w ->
  encodeBufferStep 0 w = Ok w' ->
  encoding_ok X kn mn Sn nn pn g w'
  /\ (inFlight (ctx w) = false -> (pn < nn)%nat ->
      (Nat.min ((pn + 1) * (kn * Sn)) (List.length X) <= List.length (buffered g))%nat ->
      inFlight (ctx w') = true /\ primitive w' = 1%nat).
Proof.
  intros He H.
  assert (Hs' : sound Encoding w').
  { destruct (encodeBufferStep_sound 0 w (enc_sound _ _ _ _ _ _ _ _ He)) as (x & Ex & Hx);
      [| congruence].
    rewrite present_spec, (enc_in _ _ _ _ _ _ _ _ He). reflexivity. }
  destruct He as [Hsnd Ek Em ES Esz En Eo [Et0 Etb] [Ep Hpn] Hfed Ein Htk Er Hf Himm Hw].
  assert (Eds : data_size (ctx w) = Z.of_nat (kn * Sn)).
  { destruct Hsnd as ((_ & _ & _ & G4 & _) & _). rewrite G4, ES, Ek. lia. }
  assert (Hfl : inFlight (ctx w) = false -> primitive w = 0%nat /\ callbacks w = 0%nat).
  { destruct Hsnd as (_ & _ & _ & _ & _ & J2 & _). intros F. destruct (J2 F) as (A & B & _).
    split; assumption. }
  assert (HG := carries_length X (g) Hfed).
  unfold encodeBufferStep, Context.wait in H.
  destruct (inFlight (ctx w)) eqn:Ef.
  { inversion H; subst w'. split; [| discriminate].
    constructor; try assumption; try (split; assumption).
    - rewrite Ef. exact Ein.
    - rewrite Ef. exact Htk.
    - rewrite Ef. exact Hf. }
  rewrite Nat.add_0_r in Ein, Htk.
  rewrite Ein in H. simpl nth_error in H.
  unfold is_nStripe in H. rewrite En, Ep, Esz, Eds in H.
  destruct (Nat.lt_ge_cases pn nn) as [Hlt | Hge].
  2:{ rewrite stream_read_empty in H
        by (simpl; apply skipn_all2; destruct Hst as [Hle _];
            replace pn with nn by lia; lia).
      simpl in H. inversion H; subst w'.
      split; [| intros; lia].
      constructor; simpl; try assumption; try (split; assumption).
      - rewrite Ef, Nat.add_0_r. reflexivity.
      - rewrite Ef, Nat.add_0_r. exact Htk.
      - rewrite Ef. exact Hf.
      - intros j Hj. rewrite written_app. simpl. rewrite app_nil_r. apply Hw, Hj. }
  assert (Hpa : (pn * (kn * Sn) <= List.length (buffered g))%nat).
  { destruct Hst as [_ Hgt]. specialize (Hgt pn Hlt). lia. }
  assert (Hread := encode_read pn g Hlt Hfed Hpa). cbv zeta in Hread.
  destruct (Nat.leb_spec (Nat.min ((pn + 1) * (kn * Sn)) (List.length X))
                         (List.length (buffered g))) as [Hav | Hav].
  2:{ (* the bytes of the stripe have not all arrived *)
      rewrite Hread in H. cbn [ended buffered] in H.
      inversion H; subst w'.
      split; [| intros _ _ C; lia].
      constructor; simpl; try assumption; try (split; assumption).
      - rewrite Ef, Nat.add_0_r. reflexivity.
      - rewrite Ef, Nat.add_0_r. exact Htk.
      - rewrite Ef. exact Hf.
      - intros j Hj. rewrite written_app. simpl. rewrite app_nil_r. apply Hw, Hj. }
  rewrite Hread in H.
  destruct (Hfl eq_refl) as [Hp0 Hc0].
  assert (Hlenbuf := Hf Hlt).
  match type of H with
  | context [if ?b then upd_ctx (set_dataBuffer ?A) ?w1
             else upd_ctx (set_dataBuffer ?B) ?w1] =>
      replace (if b then upd_ctx (set_dataBuffer A) w1 else upd_ctx (set_dataBuffer B) w1)
        with (upd_ctx (set_dataBuffer (stripe (kn * Sn) pn X)) w1) in H
  end.
  2:{ assert (Hpl := piece_length (kn * Sn) pn X).
      destruct (Z.ltb_spec (Z.of_nat (List.length (piece (kn * Sn) pn X)))
                           (Z.of_nat (kn * Sn))) as [A | A].
      - rewrite buf_fill0_copy by lia. rewrite Hlenbuf. reflexivity.
      - unfold stripe. replace (kn * Sn - List.length (piece (kn * Sn) pn X))%nat
          with 0%nat by lia.
        simpl. rewrite app_nil_r. reflexivity. }
  unfold Context.ref, Context.addedToStripe, Context.encode in H. simpl in H.
  assert (Hb : Js.band (waiting (ctx w)) (Js.bnot (sources (ctx w))) = 0)
    by (destruct Hsnd as (_ & _ & _ & Hb & _); exact Hb).
  rewrite Hb in H. simpl in H.
  destruct (Z.eqb_spec (targets (ctx w)) 0) as [A | _]; [contradiction |].
  inversion H; subst w'. simpl.
  split; [| intros _ _ _; rewrite Hp0; split; reflexivity].
  constructor; simpl; try assumption; try (split; assumption).
  - split; [exact Hlt |]. split; [reflexivity |]. left. rewrite Hp0. split; [reflexivity | exact Hc0].
  - intros j Hj. rewrite !written_app. simpl. rewrite !app_nil_r. apply Hw, Hj.
Qed.

Lemma listener_encoding (i pn : nat) (g : Readable) (w w' : World) :
  encoding_ok X kn mn Sn nn pn g w ->
  listener Encoding i w = Ok w' ->
  encoding_ok X kn mn Sn nn pn g w'
  /\ same_callbacks w w'
  /\ (i = 0%nat -> inFlight (ctx w) = false -> (pn < nn)%nat ->
      (Nat.min ((pn + 1) * (kn * Sn)) (List.length X) <= List.length (buffered g))%nat ->
      inFlight (ctx w') = true /\ primitive w' = 1%nat).
Proof.
  intros He H.
  assert (Hc := listener_callbacks Encoding i w w' H).
  unfold listener in H. rewrite (enc_readers _ _ _ _ _ _ _ _ He) in H. simpl in H.
  destruct (Nat.eqb_spec i 0) as [-> | Hne]; simpl in H.
  - destruct (encodeBufferStep_encoding pn g w w' He H) as [A B].
    split; [exact A |]. split; [exact Hc |]. intros _. exact B.
  - inversion H; subst w'. split; [exact He |]. split; [exact Hc |]. intros; lia.
Qed.

Lemma log_encoding (es : list Effect) (pn : nat) (g : Readable) (w : World) :
  (forall j, written j es = []) ->
  encoding_ok X kn mn Sn nn pn g w -> encoding_ok X kn mn Sn nn pn g (log_all es w).
Proof.
  intros Hq [Hsnd Ek Em ES Esz En Eo Et Hp Hfed Ein Htk Er Hf Himm Hw].
  constructor; simpl; try assumption.
  intros j Hj. rewrite written_app, Hq, app_nil_r. apply Hw, Hj.
Qed.

Lemma dispatch_encoding (pn : nat) (g : Readable) (w : World) (okf : nat -> bool) :
  encoding_ok X kn mn Sn nn pn g w -> primitive w = 1%nat ->
  exists w',
    step junk rs Encoding w (Primitive_done None okf) = Ok w'
    /\ encoding_ok X kn mn Sn nn pn g w'
    /\ (0 < callbacks w')%nat
    /\ ((forall i, okf i = true) -> callbacks w' = (kn + mn)%nat).
Proof.
  intros He Hp.
  destruct (step_sound junk rs Encoding w (Primitive_done None okf)
                       (enc_sound _ _ _ _ _ _ _ _ He)) as (w' & H & Hs').
  exists w'. split; [exact H |].
  destruct He as [Hsnd Ek Em ES Esz En Eo [Et0 Etb] [Ep Hpn] Hfed Ein Htk Er Hf Himm Hw].
  assert (Hfl : inFlight (ctx w) = true /\ callbacks w = 0%nat).
  { destruct Hsnd as (_ & _ & _ & _ & _ & J2 & J3 & _).
    destruct (J3 Hp) as [C _]. split; [| exact C].
    destruct (inFlight (ctx w)); [reflexivity |].
    destruct (J2 eq_refl) as (A & _). congruence. }
  destruct Hfl as [Ef Hc0]. rewrite Ef in Hf, Ein, Htk. destruct Hf as (Hlt & Hbuf & _).
  unfold step in H. rewrite Hp in H. cbv zeta in H.
  destruct (Z.eqb_spec (targets (ctx w)) 0) as [A | _]; [contradiction |].
  unfold dispatcher, encodeDispatchStep in H.
  apply encodeWrites_trace in H. destruct H as (T & (C & Cr & _ & Cp & Ci) & L & A).
  cbn [ctx trace callbacks readers primitive immediates
       set_nPending upd_ctx set_primitive] in T, C, Cr, Cp, Ci, L, A.
  destruct (primitive_result_spec rs (ctx w)) as (E & _ & _).
  assert (Hdata : dataBuffer (primitive_result rs (ctx w)) = stripe (kn * Sn) pn X).
  { rewrite primitive_result_data; [exact Hbuf |].
    intros i Hi. apply Etb. lia. }
  assert (Hfields : k (primitive_result rs (ctx w)) = Z.of_nat kn
                    /\ stripeSize (primitive_result rs (ctx w)) = Z.of_nat Sn
                    /\ List.length (ostreams (primitive_result rs (ctx w))) = (kn + mn)%nat).
  { rewrite E. simpl. repeat split; assumption. }
  destruct Hfields as (Ek' & ES' & Eo').
  rewrite Eo' in T, L, A. rewrite length_seq in L, A.
  split; [| split; [lia |]].
  - constructor; rewrite ?C, ?Cr, ?Cp, ?Ci; try rewrite E; simpl; try assumption;
      try (split; assumption).
    + rewrite Ef. exact Ein.
    + rewrite Ef. exact Htk.
    + rewrite Ef, Hdata. split; [exact Hlt |]. split; [reflexivity |]. right.
      split; [reflexivity | lia].
    + intros j Hj. rewrite T, written_app, (Hw j Hj), Hc0, written_lanes. simpl.
      destruct (Nat.ltb_spec j (kn + mn)); [| lia].
      destruct (callbacks w') eqn:Ec; [lia |]. simpl.
      rewrite Nat.add_0_r.
      replace (pn + 1)%nat with (S pn) by lia.
      rewrite seq_S, flat_map_app. simpl. rewrite app_nil_r. f_equal.
      unfold lane_slice. rewrite Ek', ES', Hdata.
      destruct (Z.ltb_spec (Z.of_nat j) (Z.of_nat kn)); [| lia].
      rewrite buf_slice_piece by (rewrite stripe_length; nia).
      reflexivity.
  - intros Hall. rewrite (A Hall), Hc0. reflexivity.
Qed.

Lemma newStripe_encoding_sound (w : World) :
  sound Encoding w ->
  primitive w = 0%nat -> callbacks w = 0%nat -> immediates w = 0%nat ->
  sound Encoding
        (upd_ctx (next_stripe junk)
           (upd_ctx (fun c => set_processedStripe (processedStripe c + 1)
                                (set_inFlight false c)) w)).
Proof.
  intros (Hg & Hr & Ho & Hb & _) Hp Hc Hi.
  split; [exact Hg |]. split; [exact Hr |]. split; [exact Ho |].
  split; [simpl; apply band_bnot_self | apply flight_ok_idle; assumption].
Qed.

Lemma unref_encoding (pn : nat) (g : Readable) (w w' : World) :
  encoding_ok X kn mn Sn nn pn g w -> callbacks w = 1%nat ->
  step junk rs Encoding w Write_done = Ok w' ->
  encoding_ok X kn mn Sn nn (pn + 1) g w'
  /\ callbacks w' = 0%nat
  /\ ((pn + 1 < nn)%nat ->
      (Nat.min ((pn + 2) * (kn * Sn)) (List.length X) <= List.length (buffered g))%nat ->
      inFlight (ctx w') = true /\ primitive w' = 1%nat).
Proof.
  intros He Hc H.
  assert (Hs' : sound Encoding w').
  { destruct (step_sound junk rs Encoding w Write_done (enc_sound _ _ _ _ _ _ _ _ He))
      as (x & Ex & Hx).
    congruence. }
  destruct He as [Hsnd Ek Em ES Esz En Eo [Et0 Etb] [Ep Hpn] Hfed Ein Htk Er Hf Himm Hw].
  assert (Hn : nPending w = 1).
  { destruct Hsnd as (_ & _ & _ & _ & _ & _ & _ & J4 & _).
    destruct J4 as [A _]; [rewrite Hc; discriminate | rewrite A, Hc; reflexivity]. }
  assert (Hfl : inFlight (ctx w) = true /\ (pn < nn)%nat /\ primitive w = 0%nat).
  { destruct Hsnd as (_ & _ & _ & _ & _ & J2 & _).
    destruct (inFlight (ctx w)).
    - destruct Hf as (A & B & [[C D] | [C D]]); [congruence |]. repeat split; assumption.
    - destruct (J2 eq_refl) as (_ & A & _). congruence. }
  destruct Hfl as (Ef & Hlt & Hp0). rewrite Ef in Ein, Htk.
  simpl in H. rewrite Hc in H. simpl in H. rewrite Hn in H. simpl in H.
  unfold unref in H. apply unref_inv in H. cbv zeta in H.
  unfold is_nStripe in H. simpl in H.
  rewrite En, Ep in H.
  assert (Hwr : forall j, (j < kn)%nat ->
             written j (trace w)
             = flat_map (fun q => shard kn Sn q j X) (seq 0 (pn + 1 + 0))).
  { intros j Hj. rewrite (Hw j Hj), Hc. simpl. rewrite Nat.add_0_r. reflexivity. }
  destruct (Z.eqb_spec (Z.of_nat pn + 1) (Z.of_nat nn)) as [E | E].
  - inversion H; subst w'. simpl.
    split; [| split; [reflexivity | intros; lia]].
    constructor; simpl; try assumption; try (split; assumption).
    + split; lia.
    + rewrite Nat.add_0_r. exact Ein.
    + rewrite Nat.add_0_r. exact Htk.
    + intros; lia.
    + intros j Hj. rewrite written_app, written_ends, app_nil_r. apply Hwr, Hj.
  - rewrite Ein in H. simpl in H.
    match type of H with
    | (w1 <- listener Encoding 0 ?x ;; Ok w1) = _ => set (w2 := x) in *
    end.
    assert (D2 : encoding_ok X kn mn Sn nn (pn + 1) g w2).
    { unfold w2. apply (log_encoding [Emit_readable 0]); [reflexivity |].
      constructor; simpl; try assumption; try (split; assumption).
      - apply (newStripe_encoding_sound (set_nPending 0 (set_callbacks 0 w)));
          [| exact Hp0 | reflexivity | exact Himm].
        destruct Hsnd as (Hg & Hr & Ho & Hbb & _).
        split; [exact Hg |]. split; [exact Hr |]. split; [exact Ho |].
        split; [exact Hbb |].
        apply flight_ok_idle; [exact Hp0 | reflexivity | exact Himm].
      - split; lia.
      - rewrite Nat.add_0_r. exact Ein.
      - rewrite Nat.add_0_r. exact Htk.
      - intros _. rewrite heap_bytes_length.
        destruct Hsnd as ((_ & _ & _ & G4 & _) & _). rewrite G4, ES, Ek. lia. }
    destruct (listener Encoding 0 w2) as [w3 |] eqn:El; simpl in H; [| discriminate].
    inversion H; subst w3.
    destruct (listener_encoding 0 (pn + 1) g w2 w' D2 El) as (D' & C' & P').
    split; [exact D' |].
    split; [destruct C' as (A & _); rewrite A; reflexivity |].
    intros Hlt' Hav. apply P'; [reflexivity | reflexivity | exact Hlt' |].
    replace (pn + 1 + 1)%nat with (pn + 2)%nat by lia. exact Hav.
Qed.

(** A chunk, or the end, reaches the input. *)
Lemma feed_encoding (e : Event) (pn : nat) (g : Readable) (w w' : World) :
  encoding_ok X kn mn Sn nn pn g w ->
  carries X (feed 0 g e) ->
  match e with Arrives _ _ | Ends _ => True | _ => False end ->
  step junk rs Encoding w e = Ok w' ->
  encoding_ok X kn mn Sn nn pn (feed 0 g e) w'.
Proof.
  intros He Hc' Hev H.
  destruct He as [Hsnd Ek Em ES Esz En Eo Et Hp Hfed Ein Htk Er Hf Himm Hw].
  set (c0 := ((pn + (if inFlight (ctx w) then 1 else 0)) * (kn * Sn))%nat) in *.
  set (r := mkReadable (skipn c0 (buffered g)) (ended g)) in *.
  assert (HG := carries_length X g Hfed).
  assert (Hsame : forall f i,
             step junk rs Encoding w e = Ok (map_lane f i w) ->
             (if Nat.eqb i 0 then f (Some r) else Some r)
             = Some (mkReadable (skipn c0 (buffered (feed 0 g e))) (ended (feed 0 g e))) ->
             (List.length (buffered g) <= List.length (buffered (feed 0 g e)))%nat ->
             encoding_ok X kn mn Sn nn pn (feed 0 g e) (map_lane f i w)).
  { intros f i Hstep Hlane Hmore.
    assert (Hs2 : sound Encoding (map_lane f i w)).
    { destruct (step_sound junk rs Encoding w e Hsnd) as (x & Ex & Hx). congruence. }
    assert (Hist : istreams (ctx (map_lane f i w))
                   = [if Nat.eqb i 0 then f (Some r) else Some r]).
    { unfold map_lane. rewrite Ein. destruct i as [| [| i]]; cbn; try reflexivity;
        rewrite Ein; reflexivity. }
    assert (Hrest : readers (map_lane f i w) = readers w
                    /\ trace (map_lane f i w) = trace w
                    /\ callbacks (map_lane f i w) = callbacks w
                    /\ primitive (map_lane f i w) = primitive w
                    /\ immediates (map_lane f i w) = immediates w
                    /\ k (ctx (map_lane f i w)) = k (ctx w)
                    /\ m (ctx (map_lane f i w)) = m (ctx w)
                    /\ stripeSize (ctx (map_lane f i w)) = stripeSize (ctx w)
                    /\ size (ctx (map_lane f i w)) = size (ctx w)
                    /\ nStripe (ctx (map_lane f i w)) = nStripe (ctx w)
                    /\ ostreams (ctx (map_lane f i w)) = ostreams (ctx w)
                    /\ targets (ctx (map_lane f i w)) = targets (ctx w)
                    /\ processedStripe (ctx (map_lane f i w)) = processedStripe (ctx w)
                    /\ dataBuffer (ctx (map_lane f i w)) = dataBuffer (ctx w)
                    /\ inFlight (ctx (map_lane f i w)) = inFlight (ctx w)).
    { unfold map_lane. destruct (nth_error (istreams (ctx w)) i);
        repeat split; reflexivity. }
    destruct Hrest as (R1 & R2 & R3 & R4 & R5 & R6 & R7 & R8 & R9 & R10 & R11 & R12
                       & R13 & R14 & R15).
    constructor; rewrite ?R1, ?R2, ?R3, ?R4, ?R5, ?R6, ?R7, ?R8, ?R9, ?R10, ?R11, ?R12,
                 ?R13, ?R14, ?R15; try assumption.
    - rewrite Hist, Hlane. reflexivity.
    - fold c0. fold c0 in Htk. lia. }
  destruct e as [i | i chunk | i | i err | err okf | |]; try contradiction;
    unfold step in H; inversion H; subst w'; apply Hsame; try reflexivity;
    cbn [feed Nat.eqb]; (destruct i as [| i]; cbn [Nat.eqb]).
  - (* a chunk *)
    unfold r. cbn [push_chunk ended buffered].
    destruct (ended g) eqn:Ee; [rewrite Ee; reflexivity |].
    cbn [buffered ended]. do 2 f_equal.
    destruct (Nat.le_gt_cases c0 (List.length (buffered g))) as [A | A].
    + rewrite skipn_app. replace (c0 - List.length (buffered g))%nat with 0%nat by lia.
      reflexivity.
    + assert (Hall : buffered g = X).
      { apply carries_all; [exact Hfed |]. fold c0 in Htk. lia. }
      destruct Hc' as (rest & E & _). cbn [feed Nat.eqb] in E. rewrite Ee in E.
      cbn [buffered] in E.
      rewrite Hall in E. rewrite <- app_assoc in E.
      rewrite <- (app_nil_r X) in E at 1. apply app_inv_head in E.
      symmetry in E. apply app_eq_nil in E. destruct E as [-> _].
      rewrite !app_nil_r. reflexivity.
  - reflexivity.
  - destruct (ended g); [lia |]. cbn [buffered]. rewrite length_app. lia.
  - lia.
  - (* the end *)
    reflexivity.
  - reflexivity.
  - cbn [buffered]. lia.
  - lia.
Qed.

Lemma error_encoding (err : Error) (pn : nat) (g : Readable) (w : World) :
  encoding_ok X kn mn Sn nn pn g w -> encoding_ok X kn mn Sn nn pn g (Context.error err w).
Proof.
  intros He. unfold Context.error. destruct (inputError (ctx w)); [exact He |].
  apply log_encoding; [intros j; apply written_errors |].
  destruct He as [Hsnd Ek Em ES Esz En Eo Et Hp Hfed Ein Htk Er Hfl Himm Hw].
  constructor; simpl; assumption.
Qed.

(** Whatever happens while the primitive succeeds and the input carries the
    object, the encode stays on the object. *)
Lemma step_encoding (pn : nat) (g : Readable) (w w' : World) (e : Event) :
  encoding_ok X kn mn Sn nn pn g w ->
  carries X (feed 0 g e) ->
  primitive_succeeds e = true ->
  step junk rs Encoding w e = Ok w' ->
  encoding_ok X kn mn Sn nn pn (feed 0 g e) w'
  \/ encoding_ok X kn mn Sn nn (pn + 1) (feed 0 g e) w'.
Proof.
  intros He Hc' Hok H.
  destruct e as [i | i chunk | i | i err | err okf | |].
  - left. change (listener Encoding i w = Ok w') in H.
    apply (listener_encoding i pn g w w' He H).
  - left. apply (feed_encoding (Arrives i chunk) pn g w w' He Hc' I H).
  - left. apply (feed_encoding (Ends i) pn g w w' He Hc' I H).
  - left. unfold step in H. cbn [feed].
    destruct (existsb (Nat.eqb i) (errorListeners w)); inversion H; subst w'; [| exact He].
    apply error_encoding.
    destruct He as [Hsnd Ek Em ES Esz En Eo Et Hp Hfed Ein Htk Er Hfl Himm Hw].
    constructor; assumption.
  - left. cbn [feed]. destruct err as [err |]; [discriminate |].
    destruct (primitive w) as [| p0] eqn:Ep.
    + unfold step in H. rewrite Ep in H. inversion H; subst w'. exact He.
    + assert (p0 = 0%nat).
      { destruct (enc_sound _ _ _ _ _ _ _ _ He) as (_ & _ & _ & _ & J1 & _).
        rewrite Ep in J1. lia. }
      subst p0.
      destruct (dispatch_encoding pn g w okf He Ep) as (x & E & D & _). congruence.
  - cbn [feed]. destruct (callbacks w) as [| [| c1]] eqn:Ec.
    + left. unfold step in H. rewrite Ec in H. inversion H; subst w'. exact He.
    + right. apply (unref_encoding pn g w w' He Ec H).
    + left.
      assert (Hs' : sound Encoding w').
      { destruct (step_sound junk rs Encoding w Write_done (enc_sound _ _ _ _ _ _ _ _ He))
          as (x & Ex & Hx).
        congruence. }
      destruct He as [Hsnd Ek Em ES Esz En Eo Et Hp Hfed Ein Htk Er Hfl Himm Hw].
      assert (Hn : nPending w = Z.of_nat (S (S c1))).
      { destruct Hsnd as (_ & _ & _ & _ & _ & _ & _ & J4 & _).
        destruct J4 as [A _]; [rewrite Ec; discriminate | rewrite A, Ec; reflexivity]. }
      unfold step in H. rewrite Ec in H. cbn [nPending set_nPending set_callbacks] in H.
      replace (nPending w - 1 =? 0) with false in H
        by (symmetry; apply Z.eqb_neq; lia).
      inversion H; subst w'.
      constructor; try assumption.
      * destruct (inFlight (ctx w)) eqn:Ef; cbn [ctx set_nPending set_callbacks];
          rewrite Ef; [| exact Hfl].
        destruct Hfl as (A & B & [[C D] | [C D]]); [congruence |].
        split; [exact A |]. split; [exact B |]. right. split; [exact C | discriminate].
      * intros j Hj. cbn [trace callbacks set_nPending set_callbacks].
        rewrite (Hw j Hj), Ec. reflexivity.
  - left. cbn [feed]. unfold step in H. rewrite (enc_immediates _ _ _ _ _ _ _ _ He) in H.
    inversion H; subst w'. exact He.
Qed.

Lemma run_encoding (events : list Event) :
  forall pn g w w',
    encoding_ok X kn mn Sn nn pn g w ->
    carries X (fed 0 events g) ->
    Forall (fun e => primitive_succeeds e = true) events ->
    run junk rs Encoding w events = Ok w' ->
    exists pn', encoding_ok X kn mn Sn nn pn' (fed 0 events g) w'.
Proof.
  induction events as [| e events IH]; intros pn g w w' He Hc Hf H; simpl in H.
  - inversion H; subst w'. exists pn. exact He.
  - destruct (step junk rs Encoding w e) as [w1 |] eqn:E; simpl in H; [| discriminate].
    apply Forall_cons_iff in Hf. destruct Hf as [Hok Hf'].
    cbn [fed fold_left] in Hc |- *. fold (fed 0 events (feed 0 g e)) in Hc |- *.
    assert (Hc1 : carries X (feed 0 g e)) by (apply (carries_fed X 0 events), Hc).
    destruct (step_encoding pn g w w1 e He Hc1 Hok E) as [D | D]; eapply IH; eassumption.
Qed.

(** Once every stripe is processed each data lane has received its shards. *)
Lemma encoding_output (pn : nat) (g : Readable) (w : World) :
  encoding_ok X kn mn Sn nn pn g w ->
  processedStripe (ctx w) = Z.of_nat nn ->
  forall j, (j < kn)%nat -> written j (trace w) = lane_from kn Sn nn j 0 X.
Proof.
  intros He Hp j Hj.
  destruct (enc_p _ _ _ _ _ _ _ _ He) as [Ep _].
  assert (E : pn = nn) by lia.
  assert (Hf := enc_flight _ _ _ _ _ _ _ _ He).
  destruct (enc_sound _ _ _ _ _ _ _ _ He) as (_ & _ & _ & _ & _ & J2 & _).
  destruct (inFlight (ctx w)); [destruct Hf; lia |].
  destruct (J2 eq_refl) as (_ & Hc & _).
  rewrite (enc_written _ _ _ _ _ _ _ _ He j Hj), Hc, E. simpl.
  rewrite Nat.add_0_r. apply lanes_upto.
Qed.

(** The write callbacks of a stripe arrive one after the other; the last
    one releases the stripe. *)
Lemma drain_encoding (c : nat) :
  forall pn g w,
    encoding_ok X kn mn Sn nn pn g w -> callbacks w = c -> (0 < c)%nat ->
    exists w',
      run junk rs Encoding w (repeat Write_done c) = Ok w'
      /\ encoding_ok X kn mn Sn nn (pn + 1) g w'
      /\ callbacks w' = 0%nat
      /\ ((pn + 1 < nn)%nat ->
          (Nat.min ((pn + 2) * (kn * Sn)) (List.length X) <= List.length (buffered g))%nat ->
          inFlight (ctx w') = true /\ primitive w' = 1%nat).
Proof.
  induction c as [| c IH]; intros pn g w He Hc Hpos; [lia |].
  destruct c as [| c].
  - cbn [repeat run].
    destruct (step_sound junk rs Encoding w Write_done (enc_sound _ _ _ _ _ _ _ _ He))
      as (w' & E & _).
    rewrite E. cbn [bind]. exists w'. split; [reflexivity |].
    apply (unref_encoding pn g w w' He Hc E).
  - assert (Hn : nPending w = Z.of_nat (S (S c))).
    { destruct (enc_sound _ _ _ _ _ _ _ _ He) as (_ & _ & _ & _ & _ & _ & _ & J4 & _).
      destruct J4 as [A _]; [rewrite Hc; discriminate | rewrite A, Hc; reflexivity]. }
    assert (E : step junk rs Encoding w Write_done
                = Ok (set_nPending (nPending w - 1) (set_callbacks (S c) w))).
    { unfold step. rewrite Hc. cbn [nPending set_nPending set_callbacks].
      replace (nPending w - 1 =? 0) with false by (symmetry; apply Z.eqb_neq; lia).
      reflexivity. }
    change (repeat Write_done (S (S c))) with (Write_done :: repeat Write_done (S c)).
    cbn [run]. rewrite E. cbn [bind].
    apply IH; [| reflexivity | lia].
    destruct (step_encoding pn g w _ Write_done He (enc_fed _ _ _ _ _ _ _ _ He) eq_refl E)
      as [D | D]; [exact D |].
    exfalso. destruct (enc_p _ _ _ _ _ _ _ _ D) as [A _].
    destruct (enc_p _ _ _ _ _ _ _ _ He) as [B _].
    cbn [ctx set_nPending set_callbacks] in A. lia.
Qed.

(** With the whole object delivered, stripe after stripe completes. *)
Lemma cycles_encoding (r : nat) :
  forall a pn g w,
    encoding_ok X kn mn Sn nn pn g w -> (pn + r = nn)%nat ->
    (List.length X <= List.length (buffered g))%nat ->
    ((0 < r)%nat -> primitive w = 1%nat) ->
    exists w',
      run junk rs Encoding w
          (flat_map (fun _ => Primitive_done None (fun _ => true)
                              :: repeat Write_done (kn + mn)) (seq a r))
      = Ok w'
      /\ encoding_ok X kn mn Sn nn nn g w'.
Proof.
  induction r as [| r IH]; intros a pn g w He Hr Hall Hp.
  - exists w. split; [reflexivity |].
    assert (E : pn = nn) by lia. revert He. rewrite E. auto.
  - cbn [seq flat_map]. rewrite <- app_comm_cons. cbn [run].
    destruct (dispatch_encoding pn g w (fun _ => true) He (Hp ltac:(lia)))
      as (w1 & E1 & D1 & _ & C1).
    rewrite E1. cbn [bind]. rewrite run_app.
    specialize (C1 (fun _ => eq_refl)).
    destruct (drain_encoding (kn + mn) pn g w1 D1 C1 ltac:(lia)) as (w2 & R2 & D2 & C2 & P2).
    rewrite R2. cbn [bind].
    apply (IH (S a) (pn + 1)%nat g w2 D2); [lia | exact Hall |].
    intros Hr'. apply P2; lia.
Qed.

Lemma cycles_succeed (lanes : nat) (a r : nat) :
  Forall (fun e => primitive_succeeds e = true)
         (flat_map (fun _ => Primitive_done None (fun _ => true)
                             :: repeat Write_done lanes) (seq a r)).
Proof.
  apply Forall_flat_map, Forall_forall. intros x _.
  constructor; [reflexivity |].
  apply Forall_forall. intros e He'. apply repeat_spec in He'. subst e. reflexivity.
Qed.

Lemma cycles_quiet_encoding (lanes : nat) (a r : nat) :
  Forall quiet
         (flat_map (fun _ => Primitive_done None (fun _ => true)
                             :: repeat Write_done lanes) (seq a r)).
Proof.
  apply Forall_flat_map, Forall_forall. intros x _.
  constructor; [exact I | apply quiet_repeat; exact I].
Qed.

(** Once the whole object has been delivered, the encode can be driven to
    its end from wherever it stands: by letting the input be read if no
    stripe is in flight, or the outstanding callbacks run if a stripe has
    been written, and then the stripes complete one after the other. No
    end of the input is needed. *)
Lemma encoding_drive (pn : nat) (g : Readable) (w : World) :
  encoding_ok X kn mn Sn nn pn g w ->
  (List.length X <= List.length (buffered g))%nat ->
  exists more w',
    run junk rs Encoding w more = Ok w'
    /\ Forall (fun e => primitive_succeeds e = true) more
    /\ Forall quiet more
    /\ encoding_ok X kn mn Sn nn nn g w'.
Proof.
  intros He Hall.
  destruct (enc_p _ _ _ _ _ _ _ _ He) as [Ep Hpn].
  destruct (Nat.eq_dec pn nn) as [-> | Hne].
  { exists [], w. split; [reflexivity |]. split; [constructor |].
    split; [constructor | exact He]. }
  assert (Hlt : (pn < nn)%nat) by lia.
  assert (Hsucc : forall c, Forall (fun e => primitive_succeeds e = true)
                                   (repeat Write_done c)).
  { intros c. apply Forall_forall. intros e He'. apply repeat_spec in He'. subst e.
    reflexivity. }
  assert (Hflying : forall w1,
             encoding_ok X kn mn Sn nn pn g w1 -> primitive w1 = 1%nat ->
             exists more w',
               run junk rs Encoding w1 more = Ok w'
               /\ Forall (fun e => primitive_succeeds e = true) more
               /\ Forall quiet more
               /\ encoding_ok X kn mn Sn nn nn g w').
  { intros w1 D1 P1.
    destruct (cycles_encoding (nn - pn) 0%nat pn g w1 D1 ltac:(lia) Hall (fun _ => P1))
      as (w' & R & D').
    eexists _, w'. split; [exact R |]. split; [apply cycles_succeed |].
    split; [apply cycles_quiet_encoding | exact D']. }
  destruct (inFlight (ctx w)) eqn:Ef.
  - assert (Hf := enc_flight _ _ _ _ _ _ _ _ He). rewrite Ef in Hf.
    destruct Hf as (_ & _ & [[P1 C1] | [P0 Cn]]).
    + apply (Hflying w He P1).
    + destruct (drain_encoding (callbacks w) pn g w He eq_refl ltac:(lia))
        as (w1 & R1 & D1 & C1 & Q1).
      destruct (cycles_encoding (nn - (pn + 1)) 0%nat (pn + 1)%nat g w1 D1 ltac:(lia) Hall)
        as (w' & R & D').
      { intros Hr. apply Q1; lia. }
      eexists (repeat Write_done (callbacks w) ++ _), w'.
      split; [rewrite run_app, R1; cbn [bind]; exact R |].
      split; [apply Forall_app; split; [apply Hsucc | apply cycles_succeed] |].
      split; [| exact D'].
      apply Forall_app. split; [apply quiet_repeat; exact I | apply cycles_quiet_encoding].
  - destruct (listener_sound Encoding 0 w (enc_sound _ _ _ _ _ _ _ _ He)) as (w1 & E1 & _).
    destruct (listener_encoding 0 pn g w w1 He E1) as (D1 & _ & P1).
    destruct (P1 eq_refl Ef Hlt ltac:(lia)) as [_ Q1].
    destruct (Hflying w1 D1 Q1) as (more & w' & R & F & G & D').
    exists (On_readable 0 :: more), w'.
    split; [cbn [run]; change (step junk rs Encoding w (On_readable 0))
                         with (listener Encoding 0 w); rewrite E1; exact R |].
    split; [constructor; [reflexivity | exact F] |].
    split; [constructor; [exact I | exact G] | exact D'].
Qed.

(** From wherever an encode stands: what is left of the object arrives, and
    the encode is driven to its end. *)
Lemma encoding_live (pn : nat) (g : Readable) (w : World) :
  encoding_ok X kn mn Sn nn pn g w ->
  exists more w',
    run junk rs Encoding w more = Ok w'
    /\ Forall (fun e => primitive_succeeds e = true) more
    /\ carries X (fed 0 more g)
    /\ encoding_ok X kn mn Sn nn nn (fed 0 more g) w'.
Proof.
  intros He.
  set (a := Arrives 0 (skipn (List.length (buffered g)) X)).
  destruct (carries_rest X g (enc_fed _ _ _ _ _ _ _ _ He)) as [Hc1 Hb1].
  fold a in Hc1, Hb1.
  destruct (step_sound junk rs Encoding w a (enc_sound _ _ _ _ _ _ _ _ He)) as (w1 & E1 & _).
  assert (D1 : encoding_ok X kn mn Sn nn pn (feed 0 g a) w1).
  { destruct (step_encoding pn g w w1 a He Hc1 eq_refl E1) as [D | D]; [exact D |].
    exfalso. destruct (enc_p _ _ _ _ _ _ _ _ D) as [A _].
    destruct (enc_p _ _ _ _ _ _ _ _ He) as [B _].
    unfold a, step in E1. inversion E1; subst w1.
    assert (Ep : processedStripe (ctx (map_lane (push_chunk (skipn (List.length (buffered g)) X))
                                                0 w))
                 = processedStripe (ctx w))
      by (unfold map_lane; destruct (nth_error (istreams (ctx w)) 0); reflexivity).
    lia. }
  destruct (encoding_drive pn (feed 0 g a) w1 D1 ltac:(rewrite Hb1; lia))
    as (more & w' & R & F & Q & D').
  exists (a :: more), w'.
  assert (Efed : fed 0 (a :: more) g = feed 0 g a).
  { cbn [fed fold_left]. apply (quiet_fed 0 more), Q. }
  split; [cbn [run]; rewrite E1; cbn [bind]; exact R |].
  split; [constructor; [reflexivity | exact F] |].
  rewrite Efed. split; [exact Hc1 | exact D'].
Qed.

End Encoding.


(** ** Encoding, then decoding *)

Section RoundTrip.

Variable junk : nat -> Byte.byte.
Variable rs : Z -> Z -> Z -> Z -> bytes -> bytes -> nat -> bytes.
Variable X : bytes.

Lemma encode_start (input : Readable) (douts pouts : list (option Writable))
      (hint : Z) (kn mn : nat) :
  (0 < kn <= 24)%nat -> (0 < mn <= 6)%nat -> 0 < hint ->
  List.length douts = kn -> List.length pouts = mn ->
  (forall i, (i < List.length (douts ++ pouts))%nat ->
             present (douts ++ pouts) (Z.of_nat i) = true) ->
  carries X input ->
  let Sn := Z.to_nat (safeStripeSize (Z.of_nat kn) (Z.of_nat mn) hint) in
  let nn := Z.to_nat (Js.ceil_div (Z.of_nat (List.length X)) (Z.of_nat (kn * Sn))) in
  exists w0,
    encode junk (Some input) (Z.of_nat (List.length X)) douts pouts hint = Ok w0
    /\ encoding_ok X kn mn Sn nn 0 input w0 /\ inFlight (ctx w0) = false.
Proof.
  intros Hk Hm Hh Hld Hlp Hpres Hin Sn nn.
  assert (HS : 0 < safeStripeSize (Z.of_nat kn) (Z.of_nat mn) hint)
    by (apply safeStripeSize_pos; unfold MAX_K, MAX_M; lia).
  assert (ESn : Z.of_nat Sn = safeStripeSize (Z.of_nat kn) (Z.of_nat mn) hint)
    by (unfold Sn; lia).
  destruct (stripes_of_ceil (kn * Sn) X ltac:(nia)) as [Hn0 Hst]. fold nn in Hst.
  assert (Enn : Z.of_nat nn = Js.ceil_div (Z.of_nat (List.length X)) (Z.of_nat (kn * Sn)))
    by (unfold nn; lia).
  assert (Henc : exists w0,
             encode junk (Some input) (Z.of_nat (List.length X)) douts pouts hint = Ok w0).
  { unfold encode. rewrite Hld, Hlp.
    rewrite create_next by (unfold MAX_K, MAX_M; lia).
    simpl. eexists. reflexivity. }
  destruct Henc as (w0 & Henc). exists w0. split; [exact Henc |].
  assert (Hsnd : sound Encoding w0).
  { apply (started_sound junk). exists (Some input),
      (Z.of_nat (List.length X)), douts, pouts, hint.
    split; [lia |]. split; [exact Hpres | exact Henc]. }
  unfold encode in Henc. rewrite Hld, Hlp in Henc.
  rewrite create_next in Henc by (unfold MAX_K, MAX_M; lia).
  simpl in Henc. inversion Henc; subst w0. clear Henc.
  assert (Hzero : (Z.of_nat kn * Z.of_nat Sn =? 0) = false) by (apply Z.eqb_neq; nia).
  split; [| reflexivity].
  constructor; simpl; try reflexivity; try assumption.
  - symmetry. exact ESn.
  - rewrite <- ESn, Hzero, Enn. do 2 f_equal. lia.
  - rewrite length_app. lia.
  - apply targets_bits; lia.
  - split; [reflexivity | lia].
  - destruct input; reflexivity.
  - lia.
  - intros _. rewrite heap_bytes_length, <- ESn. lia.
Qed.

(** C1 (as amended). For valid code parameters and a positive stripe size
    hint, an encode of the object [X] into [kn] data and [mn] parity
    streams starts, whatever its input holds at first. Let the input receive
    [X] in chunks of any sizes, at any moments, its end being signalled or
    not, while the primitive reports no failure. Then from wherever the
    encode stands it can be driven to the end of its last stripe, by
    delivering what is left of [X] and letting the pending callbacks run.
    Once an encode has processed its stripes, take a decode of the same size
    and hint whose data lanes receive, again in chunks of any sizes at any
    moments, what the encode has written on its data streams, whatever the
    parity lanes are and receive: the decode starts, whatever happens its
    output is a prefix of [X] and it is exactly [X] once the decode has
    processed its stripes, and from wherever the decode stands it can be
    driven there and has then written exactly [X]. *)
Theorem round_trip (kn mn : nat) (hint : Z) (input : Readable) :
  (0 < kn <= 24)%nat -> (0 < mn <= 6)%nat -> 0 < hint ->
  let size := Z.of_nat (List.length X) in
  let S := safeStripeSize (Z.of_nat kn) (Z.of_nat mn) hint in
  let n := Js.ceil_div size (Z.of_nat kn * S) in
  exists wE0,
    encode junk (Some input) size
           (repeat (Some writable) kn) (repeat (Some writable) mn) hint = Ok wE0
    /\ nStripe (ctx wE0) = Some n
    /\ forall evE wE,
        Forall (fun e => primitive_succeeds e = true) evE ->
        carries X (fed 0 evE input) ->
        run junk rs Encoding wE0 evE = Ok wE ->
        (exists more wE',
            run junk rs Encoding wE more = Ok wE'
            /\ Forall (fun e => primitive_succeeds e = true) more
            /\ carries X (fed 0 (evE ++ more) input)
            /\ processedStripe (ctx wE') = n)
        /\ (processedStripe (ctx wE) = n ->
            forall (lanes : nat -> Readable) (parityStreams : list (option Readable)),
              List.length parityStreams = mn ->
              exists wD0,
                decode junk (Some writable) size
                       (map (fun j => Some (lanes j)) (seq 0 kn)) parityStreams hint
                = Ok wD0
                /\ forall evD wD,
                    (forall j, (j < kn)%nat ->
                               carries (written j (trace wE)) (fed j evD (lanes j))) ->
                    run junk rs Decoding wD0 evD = Ok wD ->
                    (exists rest, X = written 0 (trace wD) ++ rest)
                    /\ (processedStripe (ctx wD) = n -> written 0 (trace wD) = X)
                    /\ exists more wD',
                        run junk rs Decoding wD more = Ok wD'
                        /\ (forall j, (j < kn)%nat ->
                                      carries (written j (trace wE))
                                              (fed j (evD ++ more) (lanes j)))
                        /\ processedStripe (ctx wD') = n
                        /\ written 0 (trace wD') = X).
Proof.
  intros Hk Hm Hh size S n.
  assert (HE0 : exists wE0,
             encode junk (Some input) size
                    (repeat (Some writable) kn) (repeat (Some writable) mn) hint = Ok wE0).
  { assert (HS0 : 0 < S) by (apply safeStripeSize_pos; unfold MAX_K, MAX_M; lia).
    unfold encode. rewrite !repeat_length.
    rewrite create_next by (try exact (Z.lt_le_incl _ _ HS0); unfold MAX_K, MAX_M; lia).
    cbn [bind]. eexists. reflexivity. }
  destruct HE0 as (wE0 & HE0). exists wE0. split; [exact HE0 |].
  set (Sn := Z.to_nat S).
  assert (HS : 0 < S) by (apply safeStripeSize_pos; unfold MAX_K, MAX_M; lia).
  assert (HSn : (0 < Sn)%nat) by (unfold Sn; lia).
  assert (EkS : Z.of_nat (kn * Sn) = Z.of_nat kn * S) by (unfold Sn; lia).
  set (nn := Z.to_nat n).
  assert (Hnn : nn = Z.to_nat (Js.ceil_div (Z.of_nat (List.length X)) (Z.of_nat (kn * Sn))))
    by (rewrite EkS; reflexivity).
  destruct (stripes_of_ceil (kn * Sn) X ltac:(nia)) as [Hn0 Hst].
  rewrite <- Hnn in Hst.
  assert (En : Z.of_nat nn = n) by (unfold nn, n, size; rewrite <- EkS; lia).
  assert (Hpres : forall i, (i < List.length (repeat (Some writable) kn
                                              ++ repeat (Some writable) mn))%nat ->
             present (repeat (Some writable) kn ++ repeat (Some writable) mn) (Z.of_nat i)
             = true).
  { intros i Hi. rewrite present_spec, <- repeat_app.
    rewrite <- repeat_app, repeat_length in Hi.
    rewrite (nth_error_repeat (Some writable) Hi). reflexivity. }
  assert (Hstart : forall input0, carries X input0 -> input0 = input ->
                                  encoding_ok X kn mn Sn nn 0 input wE0).
  { intros input0 Hc ->.
    destruct (encode_start input (repeat (Some writable) kn) (repeat (Some writable) mn)
                           hint kn mn Hk Hm Hh (repeat_length _ _) (repeat_length _ _)
                           Hpres Hc) as (x & Ex & D & _).
    fold S Sn in D. rewrite <- Hnn in D. fold size in Ex.
    assert (x = wE0) by congruence. subst x. exact D. }
  assert (HnS : nStripe (ctx wE0) = Some n).
  { unfold encode in HE0. rewrite !repeat_length in HE0.
    rewrite create_next in HE0
      by (try exact (Z.lt_le_incl _ _ HS); unfold MAX_K, MAX_M; lia).
    cbn [bind] in HE0. inversion HE0; subst wE0. cbn.
    fold S. destruct (Z.eqb_spec (Z.of_nat kn * S) 0) as [A | _]; [nia | reflexivity]. }
  split; [exact HnS |].
  intros evE wE FE CE RE.
  assert (DE0 := Hstart input (carries_fed X 0 evE input CE) eq_refl).
  destruct (run_encoding junk rs X kn mn Sn nn ltac:(lia) ltac:(lia) ltac:(lia) HSn Hst
                         evE 0%nat input wE0 wE DE0 CE FE RE) as (pn & DE).
  split.
  - destruct (encoding_live junk rs X kn mn Sn nn ltac:(lia) ltac:(lia) ltac:(lia) HSn Hst
                            pn _ wE DE) as (more & wE' & R & F & C & D).
    exists more, wE'. split; [exact R |]. split; [exact F |].
    split; [rewrite fed_app; exact C |].
    rewrite (proj1 (enc_p _ _ _ _ _ _ _ _ D)). exact En.
  - intros PE lanes parityStreams Hlp.
    assert (Hout : forall j, (j < kn)%nat ->
                             written j (trace wE) = lane_from kn Sn nn j 0 X).
    { intros j Hj.
      apply (encoding_output X kn mn Sn nn ltac:(lia) ltac:(lia) ltac:(lia) HSn pn _ wE DE
                             ltac:(lia) j Hj). }
    assert (Hlanes : forall j, (j < kn)%nat ->
               nth_error (map (fun j => Some (lanes j)) (seq 0 kn)) j
               = Some (Some (lanes j))).
    { intros j Hj.
      rewrite (map_nth_error (fun j => Some (lanes j)) j (seq 0 kn) (d := j))
        by (rewrite nth_error_nth' with (d := 0%nat) by (rewrite length_seq; exact Hj);
            rewrite seq_nth by exact Hj; reflexivity).
      reflexivity. }
    assert (Hdec : exists wD0,
               decode junk (Some writable) size
                      (map (fun j => Some (lanes j)) (seq 0 kn)) parityStreams hint
               = Ok wD0
               /\ forall g, (forall j, (j < kn)%nat -> g j = lanes j) ->
                            (forall j, (j < kn)%nat ->
                                       carries (lane_from kn Sn nn j 0 X) (g j)) ->
                            decoding_ok X kn mn Sn nn 0 g wD0).
    { assert (H0 : forall g, (forall j, (j < kn)%nat -> g j = lanes j) ->
                             (forall j, (j < kn)%nat ->
                                        carries (lane_from kn Sn nn j 0 X) (g j)) ->
                   exists wD0,
                     decode junk (Some writable) size
                            (map (fun j => Some (lanes j)) (seq 0 kn)) parityStreams hint
                     = Ok wD0
                     /\ decoding_ok X kn mn Sn nn 0 g wD0).
      { intros g Hg Hc.
        destruct (decode_start junk X (map (fun j => Some (lanes j)) (seq 0 kn))
                               parityStreams hint kn mn g Hk Hm Hh)
          as (_ & _ & wD0 & HD0 & DD0 & _).
        { rewrite length_map, length_seq. reflexivity. }
        { exact Hlp. }
        { intros j Hj. rewrite (Hlanes j Hj), (Hg j Hj). reflexivity. }
        { fold S Sn. rewrite <- Hnn. exact Hc. }
        fold S Sn in DD0. rewrite <- Hnn in DD0.
        exists wD0. split; [exact HD0 | exact DD0]. }
      destruct (decode_returns junk X (map (fun j => Some (lanes j)) (seq 0 kn))
                               parityStreams hint kn mn Hk Hm Hh) as (wD0 & HD0).
      { rewrite length_map, length_seq. reflexivity. }
      { exact Hlp. }
      { intros j Hj. exists (lanes j). apply Hlanes, Hj. }
      exists wD0. split; [exact HD0 |].
      intros g Hg Hc. destruct (H0 g Hg Hc) as (x & Ex & Dx).
      unfold size in Ex. assert (x = wD0) by congruence. subst x. exact Dx. }
    destruct Hdec as (wD0 & HD0 & DD0).
    exists wD0. split; [exact HD0 |].
    intros evD wD CD RD.
    assert (CD' : forall j, (j < kn)%nat ->
                            carries (lane_from kn Sn nn j 0 X) (fed j evD (lanes j)))
      by (intros j Hj; rewrite <- (Hout j Hj); apply CD, Hj).
    assert (D0 := DD0 lanes (fun j _ => eq_refl)
                      (fun j Hj => carries_fed _ j evD _ (CD' j Hj))).
    destruct (run_decoding junk rs X kn mn Sn nn ltac:(lia) ltac:(lia) HSn Hst
                           evD 0%nat lanes wD0 wD D0 CD' RD) as (pd & DD).
    destruct (decoding_output X kn mn Sn nn ltac:(lia) ltac:(lia) HSn Hst pd _ wD DD)
      as [O1 O2].
    split; [exact O1 |]. split; [rewrite <- En; exact O2 |].
    destruct (decoding_live junk rs X kn mn Sn nn ltac:(lia) ltac:(lia) HSn Hst pd _ wD DD)
      as (more & wD' & R & C & D).
    exists more, wD'. split; [exact R |].
    split; [intros j Hj; rewrite (Hout j Hj), fed_app; apply C, Hj |].
    assert (Hp : processedStripe (ctx wD') = Z.of_nat nn)
      by apply (proj1 (dec_p _ _ _ _ _ _ _ _ D)).
    split; [rewrite Hp; exact En |].
    apply (decoding_output X kn mn Sn nn ltac:(lia) ltac:(lia) HSn Hst nn _ wD' D), Hp.
Qed.

End RoundTrip.

Lemma round_trip_witness :
  exists wE0 wD0,
    encode noJunk (Some (mkReadable [] false)) 23
           (repeat (Some writable) 2) (repeat (Some writable) 1) 8 = Ok wE0
    /\ run noJunk noRs Encoding wE0 sampleTrickle = Ok sampleTrickled
    /\ processedStripe (ctx sampleTrickled) = 2
    /\ decode noJunk (Some writable) 23
              (map (fun _ => Some (mkReadable [] false)) (seq 0 2))
              [Some (mkReadable [] false)] 8 = Ok wD0
    /\ run noJunk noRs Decoding wD0 sampleDrip = Ok sampleDripped
    /\ processedStripe (ctx sampleDripped) = 2
    /\ written 0 (trace sampleDripped) = sampleObject.
Proof.
  destruct (round_trip noJunk noRs sampleObject 2 1 8 (mkReadable [] false)
                       ltac:(lia) ltac:(lia) ltac:(lia)) as (wE0 & E0 & _ & H).
  assert (EE : wE0 = sampleTrickleEncode)
    by (vm_compute in E0 |- *; injection E0 as <-; reflexivity).
  assert (RE : run noJunk noRs Encoding wE0 sampleTrickle = Ok sampleTrickled)
    by (rewrite EE; vm_compute; reflexivity).
  assert (PE : processedStripe (ctx sampleTrickled) = 2) by (vm_compute; reflexivity).
  destruct (H sampleTrickle sampleTrickled) as [_ Hd].
  { repeat constructor. }
  { exists []. split; [vm_compute; reflexivity | reflexivity]. }
  { exact RE. }
  destruct (Hd PE (fun _ => mkReadable [] false) [Some (mkReadable [] false)] eq_refl)
    as (wD0 & D0 & HD).
  assert (ED : wD0 = sampleDripDecode)
    by (vm_compute in D0 |- *; injection D0 as <-; reflexivity).
  assert (RD : run noJunk noRs Decoding wD0 sampleDrip = Ok sampleDripped)
    by (rewrite ED; vm_compute; reflexivity).
  assert (PD : processedStripe (ctx sampleDripped) = 2) by (vm_compute; reflexivity).
  destruct (HD sampleDrip sampleDripped) as (_ & W & _).
  { intros j Hj. exists [].
    destruct j as [| [| j]]; [| | lia]; (split; [vm_compute; reflexivity | reflexivity]). }
  { exact RD. }
  exists wE0, wD0.
  split; [exact E0 |]. split; [exact RE |]. split; [exact PE |].
  split; [exact D0 |]. split; [exact RD |]. split; [exact PD |].
  exact (W PD).
Defined.

(** ** A stripe size of zero *)

Lemma stream_read_zero (s : Readable) : stream_read 0 s = (None, s).
Proof. reflexivity. Qed.

(** An encode or a decode whose stripe size is zero never moves: a read
    asks for no byte and returns nothing, so no stripe is ever submitted and
    no byte is ever written, whatever arrives. *)
Lemma step_stalled (junk : nat -> Byte.byte)
      (rs : Z -> Z -> Z -> Z -> bytes -> bytes -> nat -> bytes)
      (op : Operation) (w w' : World) (e : Event) :
  op <> Repairing -> stalled w -> step junk rs op w e = Ok w' -> stalled w'.
Proof.
  intros Hop (HS & HD & HN & HF & HP & HC & HI & HW) H.
  destruct e as [i | i chunk | i | i err | err okf | |]; unfold step in H.
  - unfold listener in H.
    destruct (existsb (Nat.eqb i) (readers w));
      [| inversion H; subst w'; repeat split; assumption].
    destruct op; [| | contradiction].
    + unfold encodeBufferStep, Context.wait in H. rewrite HF in H. cbv zeta in H.
      unfold is_nStripe in H. rewrite HN, HD in H.
      destruct (nth_error (istreams (ctx w)) i) as [[s |] |]; try discriminate.
      rewrite stream_read_zero in H. inversion H; subst w'.
      unfold stalled. simpl. repeat split; try assumption.
      intros j. rewrite written_app, HW. reflexivity.
    + unfold decodeBufferStep, Context.wait in H. rewrite HF in H.
      destruct (Js.band (waiting (ctx w)) (Js.shl 1 (Z.of_nat i)) =? 0);
        [inversion H; subst w'; repeat split; assumption |].
      unfold fillStripeBuffers in H. rewrite HS in H.
      destruct (nth_error (istreams (ctx w)) i) as [[s |] |]; try discriminate.
      rewrite stream_read_zero in H. simpl in H. inversion H; subst w'.
      unfold stalled. simpl. repeat split; try assumption.
      intros j. rewrite written_app, HW. reflexivity.
  - inversion H; subst w'. unfold map_lane.
    destruct (nth_error (istreams (ctx w)) i); repeat split; assumption.
  - inversion H; subst w'. unfold map_lane.
    destruct (nth_error (istreams (ctx w)) i); repeat split; assumption.
  - destruct (existsb (Nat.eqb i) (errorListeners w)); inversion H; subst w';
      [| repeat split; assumption].
    unfold Context.error. simpl.
    destruct (inputError (ctx w)); unfold stalled; simpl; repeat split; try assumption.
    intros j. rewrite written_app, HW, written_errors. reflexivity.
  - rewrite HP in H. inversion H; subst w'. repeat split; assumption.
  - rewrite HC in H. inversion H; subst w'. repeat split; assumption.
  - rewrite HI in H. inversion H; subst w'. repeat split; assumption.
Qed.

Lemma run_stalled (junk : nat -> Byte.byte)
      (rs : Z -> Z -> Z -> Z -> bytes -> bytes -> nat -> bytes)
      (op : Operation) (events : list Event) :
  op <> Repairing ->
  forall w w', stalled w -> run junk rs op w events = Ok w' -> stalled w'.
Proof.
  intros Hop. induction events as [| e events IH]; intros w w' Hs H; simpl in H.
  - inversion H; subst w'. exact Hs.
  - destruct (step junk rs op w e) as [w1 |] eqn:E; simpl in H; [| discriminate].
    apply (IH w1 w' (step_stalled junk rs op w w1 e Hop Hs E) H).
Qed.

(** C1, the hint the claim has to leave out. RS(2,1) and a stripe size hint
    of 0: the stripe size is 0, the number of stripes is not a number the
    count of processed stripes can reach, and a read asks for no byte. The
    encode of the 23 bytes of [sampleObject] starts, and whatever happens
    next it writes nothing on any stream; a decode of what it has written
    starts too, and whatever happens next, whatever arrives on its lanes, it
    writes nothing: its output is never the object. *)
Lemma zero_hint_round_trip :
  exists wE0,
    encode noJunk (Some (mkReadable sampleObject true)) 23
           (repeat (Some writable) 2) (repeat (Some writable) 1) 0 = Ok wE0
    /\ nStripe (ctx wE0) = None
    /\ forall evE wE,
        run noJunk noRs Encoding wE0 evE = Ok wE ->
        (forall j, written j (trace wE) = [])
        /\ exists wD0,
            decode noJunk (Some writable) 23
                   (map (fun j => Some (mkReadable (written j (trace wE)) true)) (seq 0 2))
                   (map (fun j => Some (mkReadable (written j (trace wE)) true)) (seq 2 1))
                   0 = Ok wD0
            /\ forall evD wD,
                run noJunk noRs Decoding wD0 evD = Ok wD ->
                written 0 (trace wD) = [] /\ written 0 (trace wD) <> sampleObject.
Proof.
  eexists. split; [vm_compute; reflexivity |]. split; [reflexivity |].
  intros evE wE RE.
  assert (HsE : stalled wE).
  { eapply run_stalled; [| | exact RE]; [discriminate |]. repeat split. }
  assert (HW : forall j, written j (trace wE) = [])
    by (destruct HsE as (_ & _ & _ & _ & _ & _ & _ & A); exact A).
  split; [exact HW |].
  cbn [seq map]. rewrite !HW.
  eexists. split; [vm_compute; reflexivity |].
  intros evD wD RD.
  assert (HsD : stalled wD).
  { eapply run_stalled; [| | exact RD]; [discriminate |]. repeat split. }
  destruct HsD as (_ & _ & _ & _ & _ & _ & _ & A).
  rewrite A. split; [reflexivity | discriminate].
Qed.


(** ** Starting on arbitrary arguments *)

Lemma getECContext_throws (k m : Z) :
  Context.getECContext k m = Ok tt \/ Context.getECContext k m = Throw Assert_getECContext.
Proof.
  unfold Context.getECContext.
  destruct ((0 <? k) && (k <=? MAX_K) && (0 <? m) && (m <=? MAX_M)); auto.
Qed.

(** The constructor of a context: the parameters of the code are checked
    first, the buffers of the first stripe are allocated last, and their
    size is negative as soon as the stripe size hint is -8 or less. *)
Lemma create_throws (junk : nat -> Byte.byte) (k m : Z)
      (ins : list (option Readable)) (outs : list (option Writable))
      (size src tgt hint : Z) :
  (0 < k <= MAX_K /\ 0 < m <= MAX_M /\ -8 < hint
   /\ exists c, Context.create junk k m ins outs size src tgt hint = Ok c)
  \/ (0 < k <= MAX_K /\ 0 < m <= MAX_M /\ hint <= -8
      /\ Context.create junk k m ins outs size src tgt hint = Throw RangeError)
  \/ (~ (0 < k <= MAX_K /\ 0 < m <= MAX_M)
      /\ Context.create junk k m ins outs size src tgt hint = Throw Assert_getECContext).
Proof.
  destruct (getECContext_throws k m) as [E | E].
  - apply getECContext_ok in E. destruct E as [Hk Hm].
    assert (Hsign := safeStripeSize_sign k m hint Hk Hm).
    destruct (Z_lt_le_dec (-8) hint) as [Hh | Hh].
    + left. split; [exact Hk |]. split; [exact Hm |]. split; [exact Hh |].
      eexists. apply create_next; [exact Hk | exact Hm | apply Hsign, Hh].
    + right. left. split; [exact Hk |]. split; [exact Hm |]. split; [exact Hh |].
      apply create_negative; [exact Hk | exact Hm |].
      destruct (Z_lt_le_dec (safeStripeSize k m hint) 0) as [A | A]; [exact A |].
      apply Hsign in A. lia.
  - right. right. unfold Context.create. rewrite E. simpl.
    split; [| reflexivity]. intros H. apply getECContext_ok in H. congruence.
Qed.

(** The lanes [attach] listens to hold a stream as soon as every source
    does. *)
Lemma attach_total (n : Z) (lanes : list nat) (w : World) :
  mask_below n (sources (ctx w)) -> 0 <= n <= 30 ->
  lanes_of (sources (ctx w)) (present (istreams (ctx w))) ->
  (forall i, In i lanes -> Z.of_nat i < 30) ->
  exists w', attach lanes w = Ok w'.
Proof.
  intros Hm Hn Hl Hi.
  destruct (attach_readers lanes w) as (w' & H & _); [| exists w'; exact H].
  intros i Hin Hb.
  rewrite (band_lane n) in Hb by (assumption || (specialize (Hi i Hin); lia)).
  apply Hl; [lia |]. destruct (Z.testbit _ _); [reflexivity | congruence].
Qed.

(** The lanes of [arr.filter (s => s)] are the slots that hold a stream. *)
Lemma live_present {A : Type} (arr : list (option A)) (j : nat) :
  In j (live arr) <-> present arr (Z.of_nat j) = true.
Proof. apply (In_live 1%nat 1%nat 1%nat); lia. Qed.

(** Recording an error touches nothing but the retained error. *)
Lemma error_ctx (err : Error) (w : World) :
  ctx (Context.error err w)
  = set_inputError (inputError (ctx (Context.error err w))) (ctx w).
Proof.
  unfold Context.error. destruct (inputError (ctx w)) eqn:E; simpl; [| reflexivity].
  clear E. destruct (ctx w); reflexivity.
Qed.

(** X1. [decode] starts exactly when the numbers of data and parity slots
    are in the range of the code and the stripe size hint is above -8,
    whichever slots are empty. Out of the range it throws the assertion of
    [getECContext]; in the range with a hint of -8 or less the stripe size is
    negative and the allocation of the stripe buffers throws a [RangeError];
    it throws nothing else. *)
Theorem decode_starts (junk : nat -> Byte.byte) (ostream : option Writable) (sz : Z)
        (dataStreams parityStreams : list (option Readable)) (hint : Z) :
  let kk := Z.of_nat (List.length dataStreams) in
  let mm := Z.of_nat (List.length parityStreams) in
  let range := 0 < kk <= MAX_K /\ 0 < mm <= MAX_M in
  ((exists w, decode junk ostream sz dataStreams parityStreams hint = Ok w)
   <-> (range /\ -8 < hint))
  /\ (decode junk ostream sz dataStreams parityStreams hint = Throw Assert_getECContext
      <-> ~ range)
  /\ (decode junk ostream sz dataStreams parityStreams hint = Throw RangeError
      <-> (range /\ hint <= -8))
  /\ (forall e, decode junk ostream sz dataStreams parityStreams hint = Throw e ->
                e = Assert_getECContext \/ e = RangeError)
  /\ (forall w, decode junk ostream sz dataStreams parityStreams hint = Ok w ->
                k (ctx w) = kk /\ m (ctx w) = mm
                /\ stripeSize (ctx w) = safeStripeSize kk mm hint
                /\ istreams (ctx w) = dataStreams ++ parityStreams
                /\ ostreams (ctx w) = [ostream]
                /\ processedStripe (ctx w) = 0 /\ inFlight (ctx w) = false).
Proof.
  intros kk mm range. unfold decode. fold kk mm.
  set (roles := Decode.getPartRoles dataStreams parityStreams).
  destruct (create_throws junk kk mm (dataStreams ++ parityStreams) [ostream] sz
                          (r_sources roles) (r_targets roles) hint)
    as [(Hk & Hm & Hh & c & Ec) | [(Hk & Hm & Hh & Ec) | (Hn & Ec)]]; rewrite Ec; simpl.
  - assert (HR : range) by (split; assumption).
    assert (Hfit : kk + mm <= 30) by (unfold MAX_K, MAX_M in *; lia).
    destruct (decode_roles_spec dataStreams parityStreams Hfit) as [Hinv _].
    fold kk mm roles in Hinv. destruct Hinv as (Hs & _ & _ & Hl & _).
    destruct (create_fresh _ _ _ _ _ _ _ _ _ _ Ec)
      as ((Fp & Ff & _) & _ & Fi & Fo & Fs & _ & FS).
    apply create_ok in Ec. destruct Ec as (_ & Ec).
    assert (Hc : k c = kk /\ m c = mm) by (rewrite Ec; split; reflexivity).
    assert (Hstart : exists w,
               (if r_available roles <? kk
                then Ok (Context.error (not_enough (r_available roles) kk)
                           (mkWorld c [] [] [] 0 0 0 0))
                else attach (seq 0 (List.length (dataStreams ++ parityStreams)))
                            (mkWorld c [] [] [] 0 0 0 0)) = Ok w).
    { destruct (r_available roles <? kk); [eexists; reflexivity |].
      apply (attach_total (kk + mm)); simpl.
      - rewrite Fs. exact Hs.
      - lia.
      - rewrite Fs, Fi. exact Hl.
      - intros i Hi. apply in_seq in Hi. rewrite length_app in Hi. lia. }
    split; [split; [intros _; split; assumption | intros _; exact Hstart] |].
    split; [split; [intros H; destruct Hstart as (w & Hw); congruence
                   | intros H; contradiction] |].
    split; [split; [intros H; destruct Hstart as (w & Hw); congruence
                   | intros [_ H]; lia] |].
    split.
    + intros e He. destruct Hstart as (w & Hw). rewrite Hw in He. discriminate.
    + intros w Hw.
      assert (Hctx : ctx w = c \/ ctx w = set_inputError (inputError (ctx w)) c).
      { destruct (r_available roles <? kk).
        - inversion Hw; subst w. right. apply error_ctx.
        - left. apply attach_spec in Hw. exact (proj1 Hw). }
      destruct Hc as [Hc1 Hc2].
      destruct Hctx as [-> | ->]; simpl; repeat split; assumption.
  - assert (HR : range) by (split; assumption).
    split; [split; [intros (w & Hw); discriminate | intros [_ H]; lia] |].
    split; [split; [discriminate | intros H; contradiction] |].
    split; [split; [intros _; split; assumption | reflexivity] |].
    split; [intros e He; right; congruence | intros w Hw; discriminate].
  - split; [split; [intros (w & Hw); discriminate | intros [H _]; contradiction] |].
    split; [split; [intros _; exact Hn | reflexivity] |].
    split; [split; [discriminate | intros [H _]; contradiction] |].
    split; [intros e He; left; congruence | intros w Hw; discriminate].
Qed.

(** What a call of [repair] comes to, case by case. *)
Lemma repair_outcome (junk : nat -> Byte.byte) (kk mm : Z)
        (ins : list (option Readable)) (outs : list (option Writable)) (sz hint : Z) :
  let lengths := kk + mm = Z.of_nat (List.length ins)
                 /\ kk + mm = Z.of_nat (List.length outs) in
  let range := 0 < kk <= MAX_K /\ 0 < mm <= MAX_M in
  (repair junk kk mm ins outs sz hint = Throw Assert_length <-> ~ lengths)
  /\ (repair junk kk mm ins outs sz hint = Throw Assert_getECContext
      <-> lengths /\ ~ range)
  /\ (repair junk kk mm ins outs sz hint = Throw RangeError
      <-> lengths /\ range /\ hint <= -8)
  /\ ((exists w, repair junk kk mm ins outs sz hint = Ok w)
      <-> lengths /\ range /\ -8 < hint)
  /\ (forall e, repair junk kk mm ins outs sz hint = Throw e ->
                e = Assert_length \/ e = Assert_getECContext \/ e = RangeError)
  /\ (forall w, repair junk kk mm ins outs sz hint = Ok w ->
                k (ctx w) = kk /\ m (ctx w) = mm
                /\ stripeSize (ctx w) = safeStripeSize kk mm hint
                /\ istreams (ctx w) = ins /\ ostreams (ctx w) = outs
                /\ processedStripe (ctx w) = 0 /\ inFlight (ctx w) = false).
Proof.
  intros lengths range. unfold repair.
  destruct (Z.eqb_spec (kk + mm) (Z.of_nat (List.length ins))) as [Hli | Hli]; simpl.
  2:{ unfold lengths.
      split; [split; [intros _ [H _]; contradiction | reflexivity] |].
      split; [split; [discriminate | intros [[H _] _]; contradiction] |].
      split; [split; [discriminate | intros [[H _] _]; contradiction] |].
      split; [split; [intros (w & Hw); discriminate
                     | intros [[H _] _]; contradiction] |].
      split; [intros e He; left; congruence | intros w Hw; discriminate]. }
  destruct (Z.eqb_spec (kk + mm) (Z.of_nat (List.length outs))) as [Hlo | Hlo]; simpl.
  2:{ unfold lengths.
      split; [split; [intros _ [_ H]; contradiction | reflexivity] |].
      split; [split; [discriminate | intros [[_ H] _]; contradiction] |].
      split; [split; [discriminate | intros [[_ H] _]; contradiction] |].
      split; [split; [intros (w & Hw); discriminate
                     | intros [[_ H] _]; contradiction] |].
      split; [intros e He; left; congruence | intros w Hw; discriminate]. }
  assert (HL : lengths) by (split; assumption).
  set (roles := Repair.getPartRoles kk mm ins outs).
  destruct (create_throws junk kk mm ins outs sz (r_sources roles) (r_targets roles) hint)
    as [(Hk & Hm & Hh & c & Ec) | [(Hk & Hm & Hh & Ec) | (Hn & Ec)]]; rewrite Ec; simpl.
  - assert (HR : range) by (split; assumption).
    assert (Hfit : kk + mm <= 30) by (unfold MAX_K, MAX_M in *; lia).
    destruct (repair_roles_spec kk mm ins outs ltac:(lia) Hfit Hli)
      as (Hs & Hl & _).
    fold roles in Hs, Hl.
    destruct (create_fresh _ _ _ _ _ _ _ _ _ _ Ec)
      as ((Fp & Ff & _) & _ & Fi & Fo & Fs & _ & FS).
    apply create_ok in Ec. destruct Ec as (_ & Ec).
    assert (Hc : k c = kk /\ m c = mm) by (rewrite Ec; split; reflexivity).
    assert (Hstart : exists w,
               (if r_available roles <? kk
                then Ok (Context.error (not_enough (r_available roles) kk)
                           (mkWorld c [] [] [] 0 0 0 0))
                else attach (seq 0 (List.length ins))
                            (mkWorld c [] [] [] 0 0 0 0)) = Ok w).
    { destruct (r_available roles <? kk); [eexists; reflexivity |].
      apply (attach_total (kk + mm)); simpl.
      - rewrite Fs. exact Hs.
      - lia.
      - rewrite Fs, Fi. exact Hl.
      - intros i Hi. apply in_seq in Hi. lia. }
    split; [split; [intros H; destruct Hstart as (w & Hw); congruence
                   | intros H; contradiction] |].
    split; [split; [intros H; destruct Hstart as (w & Hw); congruence
                   | intros [_ H]; contradiction] |].
    split; [split; [intros H; destruct Hstart as (w & Hw); congruence
                   | intros (_ & _ & H); lia] |].
    split; [split; [intros _; split; [exact HL | split; [exact HR | exact Hh]]
                   | intros _; exact Hstart] |].
    split; [intros e He; destruct Hstart as (w & Hw); congruence |].
    intros w Hw.
    assert (Hctx : ctx w = c \/ ctx w = set_inputError (inputError (ctx w)) c).
    { destruct (r_available roles <? kk).
      - inversion Hw; subst w. right. apply error_ctx.
      - left. apply attach_spec in Hw. exact (proj1 Hw). }
    destruct Hc as [Hc1 Hc2].
    destruct Hctx as [-> | ->]; simpl; repeat split; assumption.
  - assert (HR : range) by (split; assumption).
    split; [split; [discriminate | intros H; contradiction] |].
    split; [split; [discriminate | intros [_ H]; contradiction] |].
    split; [split; [intros _; split; [exact HL | split; [exact HR | exact Hh]]
                   | reflexivity] |].
    split; [split; [intros (w & Hw); discriminate | intros (_ & _ & H); lia] |].
    split; [intros e He; right; right; congruence | intros w Hw; discriminate].
  - split; [split; [discriminate | intros H; contradiction] |].
    split; [split; [intros _; split; assumption | reflexivity] |].
    split; [split; [discriminate | intros (_ & H & _); contradiction] |].
    split; [split; [intros (w & Hw); discriminate | intros (_ & H & _); contradiction] |].
    split; [intros e He; right; left; congruence | intros w Hw; discriminate].
Qed.

(** X2. [repair] checks the lengths of both arrays first, then the range
    of the code parameters, then allocates the stripe buffers, whose size is
    negative when the stripe size hint is -8 or less, and throws nothing
    else: with [k + m] slots for inputs and for outputs, parameters in range
    and a hint above -8 it starts, whichever slots are empty. *)
Theorem repair_starts (junk : nat -> Byte.byte) (kk mm : Z)
        (ins : list (option Readable)) (outs : list (option Writable)) (sz hint : Z) :
  let lengths := kk + mm = Z.of_nat (List.length ins)
                 /\ kk + mm = Z.of_nat (List.length outs) in
  let range := 0 < kk <= MAX_K /\ 0 < mm <= MAX_M in
  (repair junk kk mm ins outs sz hint = Throw Assert_length <-> ~ lengths)
  /\ (repair junk kk mm ins outs sz hint = Throw Assert_getECContext
      <-> lengths /\ ~ range)
  /\ (repair junk kk mm ins outs sz hint = Throw RangeError
      <-> lengths /\ range /\ hint <= -8)
  /\ ((exists w, repair junk kk mm ins outs sz hint = Ok w)
      <-> lengths /\ range /\ -8 < hint)
  /\ (forall e, repair junk kk mm ins outs sz hint = Throw e ->
                e = Assert_length \/ e = Assert_getECContext \/ e = RangeError)
  /\ (forall w, repair junk kk mm ins outs sz hint = Ok w ->
                k (ctx w) = kk /\ m (ctx w) = mm
                /\ stripeSize (ctx w) = safeStripeSize kk mm hint
                /\ istreams (ctx w) = ins /\ ostreams (ctx w) = outs
                /\ processedStripe (ctx w) = 0 /\ inFlight (ctx w) = false).
Proof. exact (repair_outcome junk kk mm ins outs sz hint). Qed.


(** ** The lanes [decode] selects *)

Lemma count_present_firstn_bound {A : Type} (arr : list (option A)) (i : nat) :
  count_present (firstn i arr) <= Z.of_nat i.
Proof.
  assert (H := count_present_le_length (firstn i arr)).
  rewrite length_firstn in H. lia.
Qed.

Lemma count_present_firstn_mono {A : Type} (arr : list (option A)) (i j : nat) :
  (i <= j)%nat -> count_present (firstn i arr) <= count_present (firstn j arr).
Proof.
  intros H.
  replace (firstn i arr) with (firstn i (firstn j arr))
    by (rewrite firstn_firstn; f_equal; lia).
  apply count_present_firstn_le.
Qed.

Section DecodeLanes.

Variables dataStreams parityStreams : list (option Readable).

Let K := Z.of_nat (List.length dataStreams).
Let M := Z.of_nat (List.length parityStreams).

Hypothesis lanes_fit : K + M <= 30.

Lemma scanData_lanes (fuel : nat) :
  forall i r,
    0 <= i -> i + Z.of_nat fuel = K ->
    mask_below i (r_sources r) -> mask_below i (r_targets r) ->
    (forall j, 0 <= j < i ->
               Z.testbit (r_sources r) j = present dataStreams j
               /\ Z.testbit (r_targets r) j = negb (present dataStreams j)) ->
    r_available r = count_present (firstn (Z.to_nat i) dataStreams) ->
    let r' := Decode.scanData fuel i K dataStreams r in
    mask_below K (r_sources r') /\ mask_below K (r_targets r')
    /\ (forall j, 0 <= j < K ->
                  Z.testbit (r_sources r') j = present dataStreams j
                  /\ Z.testbit (r_targets r') j = negb (present dataStreams j)).
Proof.
  induction fuel as [| fuel IH]; intros i r Hi Hfuel Hs Ht Hb Hav.
  - simpl. assert (i = K) by lia. subst i. auto.
  - assert (HiK : i < K) by lia.
    assert (Hm : 0 <= M) by (unfold M; lia).
    assert (Hstep := count_present_step dataStreams i ltac:(fold K; lia)).
    assert (Hbound := count_present_firstn_bound dataStreams (Z.to_nat i)).
    simpl. destruct (Z.ltb_spec i K); [| lia].
    destruct (present dataStreams i) eqn:Ep.
    + assert (Hs1 : mask_below (i + 1) (r_sources r + 2 ^ i))
        by (apply (mask_below_add i); [assumption | lia]).
      assert (Ht1 : mask_below (i + 1) (r_targets r))
        by (apply (mask_below_mono i); [assumption | lia]).
      assert (Hb1 : forall j, 0 <= j < i + 1 ->
                 Z.testbit (r_sources r + 2 ^ i) j = present dataStreams j
                 /\ Z.testbit (r_targets r) j = negb (present dataStreams j)).
      { intros j Hj. rewrite (testbit_add_lane i) by (assumption || lia).
        destruct (Z.eqb_spec i j) as [<- | Hne].
        - rewrite Ep, orb_true_r. split; [reflexivity |].
          apply (testbit_above _ i); [exact Ht | lia].
        - rewrite orb_false_r. apply Hb. lia. }
      rewrite (bor_lane i) by (assumption || lia).
      destruct (Z.eqb_spec (r_available r + 1) K) as [Heq | Hne].
      * assert (i + 1 = K) by lia.
        simpl. split; [apply (mask_below_mono (i + 1)); [assumption | lia] |].
        split; [apply (mask_below_mono (i + 1)); [assumption | lia] |].
        intros j Hj. apply Hb1. lia.
      * apply IH; try lia; try assumption. simpl. lia.
    + assert (Hs1 : mask_below (i + 1) (r_sources r))
        by (apply (mask_below_mono i); [assumption | lia]).
      assert (Ht1 : mask_below (i + 1) (r_targets r + 2 ^ i))
        by (apply (mask_below_add i); [assumption | lia]).
      rewrite (bor_lane i) by (assumption || lia).
      apply IH; try lia; try assumption; [| simpl; lia].
      simpl. intros j Hj. rewrite (testbit_add_lane i) by (assumption || lia).
      destruct (Z.eqb_spec i j) as [<- | Hne].
      * rewrite Ep, orb_true_r. split; [| reflexivity].
        apply (testbit_above _ i); [exact Hs | lia].
      * rewrite orb_false_r. apply Hb. lia.
Qed.

Lemma scanParity_lanes (a0 : Z) (fuel : nat) :
  forall i r,
    0 <= i -> i + Z.of_nat fuel = M ->
    mask_below (K + i) (r_sources r) ->
    (forall j, 0 <= j < i ->
               Z.testbit (r_sources r) (K + j)
               = present parityStreams j
                 && (a0 + count_present (firstn (Z.to_nat j) parityStreams) <? K)) ->
    r_available r < K ->
    r_available r = a0 + count_present (firstn (Z.to_nat i) parityStreams) ->
    let r' := Decode.scanParity fuel i K M parityStreams r in
    r_targets r' = r_targets r
    /\ (forall j, 0 <= j < K -> Z.testbit (r_sources r') j = Z.testbit (r_sources r) j)
    /\ (forall j, 0 <= j < M ->
                  Z.testbit (r_sources r') (K + j)
                  = present parityStreams j
                    && (a0 + count_present (firstn (Z.to_nat j) parityStreams) <? K)).
Proof.
  induction fuel as [| fuel IH]; intros i r Hi Hfuel Hs Hb Hlt Hav.
  - simpl. assert (i = M) by lia. subst i. auto.
  - assert (HiM : i < M) by lia.
    assert (Hk : 0 <= K) by (unfold K; lia).
    assert (Hstep := count_present_step parityStreams i ltac:(fold M; lia)).
    simpl. destruct (Z.ltb_spec i M); [| lia].
    destruct (present parityStreams i) eqn:Ep.
    + assert (Hs1 : mask_below (K + (i + 1)) (r_sources r + 2 ^ (K + i))).
      { replace (K + (i + 1)) with (K + i + 1) by lia.
        apply (mask_below_add (K + i)); [assumption | lia]. }
      assert (Hlow : forall j, 0 <= j < K ->
                 Z.testbit (r_sources r + 2 ^ (K + i)) j = Z.testbit (r_sources r) j).
      { intros j Hj. rewrite (testbit_add_lane (K + i)) by (assumption || lia).
        destruct (Z.eqb_spec (K + i) j); [lia | apply orb_false_r]. }
      assert (Hb1 : forall j, 0 <= j < i + 1 ->
                 Z.testbit (r_sources r + 2 ^ (K + i)) (K + j)
                 = present parityStreams j
                   && (a0 + count_present (firstn (Z.to_nat j) parityStreams) <? K)).
      { intros j Hj. rewrite (testbit_add_lane (K + i)) by (assumption || lia).
        destruct (Z.eqb_spec (K + i) (K + j)) as [E | Hne].
        - assert (j = i) by lia. subst j. rewrite Ep, orb_true_r. simpl.
          symmetry. apply Z.ltb_lt. lia.
        - rewrite orb_false_r. apply Hb. lia. }
      rewrite (bor_lane (K + i)) by (assumption || lia).
      destruct (Z.eqb_spec (r_available r + 1) K) as [Heq | Hne].
      * simpl. split; [reflexivity |]. split; [exact Hlow |].
        intros j Hj. destruct (Z.ltb_spec j (i + 1)) as [Hji | Hji]; [apply Hb1; lia |].
        rewrite (testbit_above _ (K + (i + 1))) by (assumption || lia).
        symmetry. apply andb_false_iff. right. apply Z.ltb_ge.
        assert (Hmono := count_present_firstn_mono parityStreams
                           (Z.to_nat (i + 1)) (Z.to_nat j) ltac:(lia)).
        lia.
      * destruct (IH (i + 1)
                     (mkRoles (r_sources r + 2 ^ (K + i)) (r_targets r) (r_available r + 1)))
          as (T & L & P); try lia; try assumption; [simpl; lia | simpl; lia |].
        split; [exact T |]. split; [| exact P].
        intros j Hj. rewrite L by exact Hj. apply Hlow, Hj.
    + apply IH; try lia.
      * apply (mask_below_mono (K + i)); [assumption | lia].
      * intros j Hj. destruct (Z.eq_dec j i) as [-> | Hne]; [| apply Hb; lia].
        rewrite Ep. simpl. apply (testbit_above _ (K + i)); [assumption | lia].
Qed.

(** The roles of [decode], lane by lane. *)
Lemma decode_roles_lanes :
  let r := Decode.getPartRoles dataStreams parityStreams in
  mask_below K (r_targets r)
  /\ (forall j, 0 <= j < K ->
                Z.testbit (r_sources r) j = present dataStreams j
                /\ Z.testbit (r_targets r) j = negb (present dataStreams j))
  /\ (forall j, 0 <= j < M ->
                Z.testbit (r_sources r) (K + j)
                = present parityStreams j
                  && (count_present dataStreams
                      + count_present (firstn (Z.to_nat j) parityStreams) <? K)).
Proof.
  intros r.
  assert (Hk : 0 <= K) by (unfold K; lia).
  assert (Hm : 0 <= M) by (unfold M; lia).
  destruct (scanData_lanes (Z.to_nat K) 0 (mkRoles 0 0 0)) as (Hs & Ht & Hb);
    try lia; try reflexivity;
    try (unfold mask_below; simpl; lia).
  destruct (scanData_spec dataStreams parityStreams lanes_fit (Z.to_nat K) 0 (mkRoles 0 0 0))
    as [Hinv Hav]; try lia; try reflexivity.
  { unfold roles_inv, mask_below, lanes_of. simpl.
    repeat split; try lia; intros j _; rewrite Z.bits_0; discriminate. }
  fold K in Hav, Hinv.
  unfold r, Decode.getPartRoles. fold K M.
  set (r0 := Decode.scanData (Z.to_nat K) 0 K dataStreams (mkRoles 0 0 0)) in *.
  destruct (Z.ltb_spec (r_available r0) K) as [Hlt | Hge].
  - destruct (scanParity_lanes (count_present dataStreams) (Z.to_nat M) 0 r0)
      as (T & L & P); try lia.
    + replace (K + 0) with K by lia. exact Hs.
    + simpl. unfold count_present at 2. simpl. lia.
    + rewrite T. split; [exact Ht |]. split; [| exact P].
      intros j Hj. rewrite L by exact Hj. apply Hb, Hj.
  - split; [exact Ht |]. split; [exact Hb |].
    intros j Hj. rewrite (testbit_above _ K) by (assumption || lia).
    symmetry. apply andb_false_iff. right. apply Z.ltb_ge.
    assert (H0 := count_present_nonneg (firstn (Z.to_nat j) parityStreams)). lia.
Qed.

(** X3. What [decode] selects, lane by lane: every data lane that holds a
    stream is a source and every empty data lane is a target, nothing else
    is a target, and the parity lanes used as sources are the first ones
    that hold a stream, as many as data lanes are missing. *)
Theorem decode_roles_exact :
  let r := Decode.getPartRoles dataStreams parityStreams in
  mask_below K (r_targets r)
  /\ (forall j, 0 <= j < K ->
                Z.testbit (r_sources r) j = present dataStreams j
                /\ Z.testbit (r_targets r) j = negb (present dataStreams j))
  /\ (forall j, 0 <= j < M ->
                Z.testbit (r_sources r) (K + j)
                = present parityStreams j
                  && (count_present dataStreams
                      + count_present (firstn (Z.to_nat j) parityStreams) <? K)).
Proof. exact decode_roles_lanes. Qed.

End DecodeLanes.


(** ** Feeding a stripe size back *)

Lemma round_up8_mono (a b : Z) : a <= b -> round_up8 a <= round_up8 b.
Proof.
  intros H. rewrite <- !aligned_hint, !ceil_div_Z.
  assert (H1 : (- b) / 8 <= (- a) / 8) by (apply Z.div_le_mono; lia). lia.
Qed.

Lemma maxStripe_aligned (k m : Z) : maxStripe k m mod 8 = 0.
Proof.
  unfold maxStripe. rewrite Z.mul_comm. apply Z.mod_mul. lia.
Qed.

(** X4. The stripe size is stable: computed again from a stripe size it
    has returned, as a decoder does that is given the stripe size of the
    encoder for hint, it is that stripe size; and a larger hint never gives
    a smaller stripe. *)
Theorem safeStripeSize_stable (k m hint hint' : Z) :
  safeStripeSize k m (safeStripeSize k m hint) = safeStripeSize k m hint
  /\ (hint <= hint' -> safeStripeSize k m hint <= safeStripeSize k m hint').
Proof.
  rewrite !safeStripeSize_eq. unfold safeStripeSize_spec. split.
  - assert (Ha : Z.min (round_up8 hint) (maxStripe k m) mod 8 = 0).
    { destruct (Z.min_spec (round_up8 hint) (maxStripe k m)) as [[_ ->] | [_ ->]].
      - apply Z.mod_divide; [lia | apply round_up8_divide].
      - apply maxStripe_aligned. }
    rewrite (round_up8_aligned _ Ha). lia.
  - intros H. apply round_up8_mono in H. lia.
Qed.

(** ** End of stream *)

Section Ending.

Variable junk : nat -> Byte.byte.
Variable rs : Z -> Z -> Z -> Z -> bytes -> bytes -> nat -> bytes.

(** X5. Along every run of an operation, end-of-stream reaches an output
    at most once, it reaches every output that holds a stream or none, and
    it has reached none before as many stripes are processed as the object
    has; an object of no stripe never gets there. *)
Theorem end_at_most_once (op : Operation) (w0 w : World) (events : list Event) :
  started junk op w0 ->
  run junk rs op w0 events = Ok w ->
  (forall lane, (count (is_end_on lane) (trace w) <= 1)%nat)
  /\ (forall lane lane',
         count (is_end_on lane) (trace w) = 1%nat ->
         present (ostreams (ctx w)) (Z.of_nat lane') = true ->
         count (is_end_on lane') (trace w) = 1%nat)
  /\ (forall lane,
         count (is_end_on lane) (trace w) = 1%nat ->
         present (ostreams (ctx w0)) (Z.of_nat lane) = true
         /\ exists n, nStripe (ctx w0) = Some n /\ 0 < n <= processedStripe (ctx w)).
Proof.
  intros Hs Hr.
  destruct (signals_run junk rs op events w0 w Hr (started_signals junk op w0 Hs))
    as [(Hp & He) _].
  assert (Hf := frame_run junk rs op events w0 w Hr).
  destruct Hf as (_ & _ & _ & _ & _ & _ & _ & _ & Fn & Fo & _).
  assert (Hc : forall lane,
             count (is_end_on lane) (trace w) = 0%nat
             \/ (count (is_end_on lane) (trace w)
                 = (if present (ostreams (ctx w)) (Z.of_nat lane) then 1%nat else 0%nat)
                 /\ exists n, nStripe (ctx w) = Some n /\ 0 < n <= processedStripe (ctx w))).
  { intros lane. rewrite count_end_filter.
    destruct He as [-> | (-> & Hn)]; [left; reflexivity | right].
    split; [apply count_ends_live | exact Hn]. }
  split; [| split].
  - intros lane. destruct (Hc lane) as [-> | (-> & _)]; [lia |].
    destruct (present _ _); lia.
  - intros lane lane' H1 Hp'.
    destruct (Hc lane) as [E | (_ & Hn)]; [congruence |].
    rewrite count_end_filter.
    destruct He as [E | (-> & _)].
    + rewrite count_end_filter, E in H1. discriminate.
    + rewrite count_ends_live, Hp'. reflexivity.
  - intros lane H1. destruct (Hc lane) as [E | (E & Hn)]; [congruence |].
    rewrite <- Fo, <- Fn. split; [| exact Hn].
    rewrite E in H1. destruct (present _ _); [reflexivity | discriminate].
Qed.

End Ending.


(** ** Which lanes are read *)

Lemma reads_on_refl (w : World) : reads_on w w.
Proof.
  split; [reflexivity |]. split; [reflexivity |].
  exists []. split; [symmetry; apply app_nil_r | intros i n []].
Qed.

Lemma reads_on_trans (a b c : World) : reads_on a b -> reads_on b c -> reads_on a c.
Proof.
  intros (R1 & S1 & n1 & T1 & H1) (R2 & S2 & n2 & T2 & H2).
  split; [congruence |]. split; [congruence |].
  exists (n1 ++ n2). split; [rewrite T2, T1, app_assoc; reflexivity |].
  intros i n Hin. apply in_app_or in Hin. destruct Hin as [Hin | Hin].
  - apply H1, Hin.
  - rewrite <- R1, <- S1. apply H2, Hin.
Qed.

(** Effects other than reads change nothing to what was read. *)
Lemma reads_on_quiet (w w' : World) (new : list Effect) :
  readers w' = readers w -> continues w new w' -> filter is_read new = [] ->
  reads_on w w'.
Proof.
  intros Hr (Ht & Hf & _) Hq.
  split; [exact Hr |]. split; [apply Hf |].
  exists new. split; [exact Ht |].
  intros i n Hin.
  assert (H : In (Read i n) (filter is_read new)) by (apply filter_In; auto).
  rewrite Hq in H. destruct H.
Qed.

Lemma fillStripeBuffers_readers (i : nat) (w w1 : World) (filled : bool) :
  fillStripeBuffers i w = Ok (filled, w1) ->
  readers w1 = readers w /\ errorListeners w1 = errorListeners w
  /\ waiting (ctx w1) = waiting (ctx w) /\ inFlight (ctx w1) = inFlight (ctx w).
Proof.
  unfold fillStripeBuffers. intros H.
  destruct (nth_error (istreams (ctx w)) i) as [[s |] |] eqn:Es; try discriminate.
  destruct (stream_read (stripeSize (ctx w)) s) as [[chunk |] s'].
  - destruct (Z.of_nat i <? k (ctx w)).
    + destruct (buf_copy chunk (dataBuffer (ctx w)) _) as [buf copied].
      destruct (copied =? Z.of_nat (List.length chunk)); [| discriminate].
      inversion H; subst; clear H. repeat split.
    + destruct (buf_copy chunk (parityBuffer (ctx w)) _) as [buf copied].
      destruct (copied =? Z.of_nat (List.length chunk)); [| discriminate].
      inversion H; subst; clear H. repeat split.
  - inversion H; subst; clear H. repeat split.
Qed.

Lemma submit_readers (w w' : World) :
  (w1 <- Context.ref w ;; Context.encode w1) = Ok w' ->
  readers w' = readers w /\ errorListeners w' = errorListeners w
  /\ waiting (ctx w) = 0 /\ waiting (ctx w') = 0 /\ inFlight (ctx w') = true.
Proof.
  unfold Context.ref, Context.encode. intros H.
  destruct (Z.eqb_spec (waiting (ctx w)) 0) as [E |]; simpl in H; [| discriminate].
  destruct (targets (ctx w) =? 0); inversion H; subst; clear H; simpl; auto.
Qed.

Lemma decodeBufferStep_reads (i : nat) (w w' : World) :
  In i (readers w) -> decodeBufferStep i w = Ok w' -> reads_on w w'.
Proof.
  unfold decodeBufferStep. intros Hi H.
  destruct (Context.wait w); [inversion H; subst; apply reads_on_refl |].
  destruct (Js.band (waiting (ctx w)) (Js.shl 1 (Z.of_nat i)) =? 0);
    [inversion H; subst; apply reads_on_refl |].
  destruct (fillStripeBuffers i w) as [[filled w1] |] eqn:Ef; simpl in H; [| discriminate].
  assert (Hk := fillStripeBuffers_readers i w w1 filled Ef).
  apply fillStripeBuffers_continues in Ef. destruct Ef as [Hc _].
  assert (R1 : reads_on w w1).
  { split; [apply Hk |]. split; [apply Hc |].
    exists [Read i (stripeSize (ctx w))]. split; [apply Hc |].
    intros j n [E | []]. inversion E; subst. auto. }
  destruct filled; simpl in H; [| inversion H; subst; exact R1].
  apply (reads_on_trans w w1 w' R1).
  destruct (Context.readyForEncoding _).
  - assert (Hr := submit_readers _ _ H).
    apply submit_continues in H. destruct H as (e & He & Hs).
    apply (reads_on_quiet _ _ [e]).
    + destruct Hr as (-> & _). reflexivity.
    + eapply continues_trans with (n1 := []);
        [apply addedToStripe_continues | exact He].
    + simpl. destruct e; try discriminate; reflexivity.
  - inversion H; subst.
    apply (reads_on_quiet _ _ []);
      [reflexivity | apply addedToStripe_continues | reflexivity].
Qed.

Lemma listener_reads (op : Operation) (i : nat) (w w' : World) :
  op <> Encoding -> listener op i w = Ok w' -> reads_on w w'.
Proof.
  unfold listener. intros Hop H.
  destruct (existsb (Nat.eqb i) (readers w)) eqn:E;
    [| inversion H; subst; apply reads_on_refl].
  apply existsb_exists in E. destruct E as (j & Hj & Ej).
  apply Nat.eqb_eq in Ej. subst j.
  destruct op; [congruence | |]; apply (decodeBufferStep_reads i); assumption.
Qed.

Lemma wake_reads (op : Operation) (lanes : list nat) :
  op <> Encoding ->
  forall w w', Context.wake (listener op) lanes w = Ok w' -> reads_on w w'.
Proof.
  intros Hop. induction lanes as [| i lanes IH]; intros w w' H; simpl in H.
  - inversion H; subst. apply reads_on_refl.
  - destruct (listener op i (log (Emit_readable i) w)) as [w1 |] eqn:E; simpl in H;
      [| discriminate].
    apply (reads_on_trans w (log (Emit_readable i) w) w').
    + apply (reads_on_quiet _ _ [Emit_readable i]);
        [reflexivity | apply continues_log | reflexivity].
    + eapply reads_on_trans; [eapply listener_reads; eassumption | apply IH, H].
Qed.

Lemma unref_reads (junk : nat -> Byte.byte) (op : Operation) (w w' : World) :
  op <> Encoding -> unref junk op w = Ok w' -> reads_on w w'.
Proof.
  unfold unref. intros Hop H. apply unref_inv in H. cbv zeta in H.
  match type of H with
  | (if ?c then _ else _) = _ => destruct c
  end.
  - inversion H; subst; clear H.
    split; [reflexivity |]. split; [reflexivity |].
    eexists. split; [reflexivity |].
    intros i n Hin. exfalso. clear - Hin.
    induction (live _) as [| x l IH]; simpl in Hin; [assumption |].
    destruct Hin as [Hx | Hin]; [discriminate | auto].
  - apply (wake_reads op _ Hop) in H.
    destruct H as (R & S & new & T & Hn).
    split; [exact R |]. split; [exact S |].
    exists new. split; [exact T | exact Hn].
Qed.

Lemma repairWrites_only (okf : nat -> bool) (lanes : list nat) :
  forall w w', repairWrites lanes okf w = Ok w' -> writes_only w w'.
Proof.
  induction lanes as [| i lanes IH]; intros w w' H; simpl in H.
  - inversion H; subst. apply writes_only_refl.
  - destruct (Js.band (targets (ctx w)) (Js.shl 1 (Z.of_nat i)) =? 0); [apply IH, H |].
    destruct (nth_error (ostreams (ctx w)) i) as [[s |] |]; try discriminate.
    eapply writes_only_trans; [| apply IH, H].
    apply (write_one_spec 2 i _ (okf i) w).
Qed.

(** A dispatch step that found no error only writes. *)
Lemma dispatch_writes_only (junk : nat -> Byte.byte) (op : Operation)
      (okf : nat -> bool) (w w' : World) :
  dispatcher junk op None okf w = Ok w' -> writes_only w w'.
Proof.
  destruct op; simpl; intros H.
  - apply encodeWrites_trace in H. destruct H as (_ & Hw & _). exact Hw.
  - inversion H; subst; clear H.
    match goal with
    | |- writes_only _ (fold_left _ ?lanes ?w0) =>
        apply (writes_only_trans w w0);
          [repeat split | apply (decodeWrites_spec _ okf lanes w0)]
    end.
  - destruct (repairWrites _ okf (set_nPending 1 w)) as [w1 |] eqn:E; simpl in H;
      [| discriminate].
    inversion H; subst; clear H. apply repairWrites_only in E.
    destruct E as (A & B & C & D & F). repeat split; assumption.
Qed.

Lemma error_reads (err : Error) (w : World) : reads_on w (Context.error err w).
Proof.
  assert (H := error_spec err w).
  destruct (inputError (ctx w)) eqn:E; [rewrite H; apply reads_on_refl |].
  destruct H as (Ht & Hf & _).
  split; [unfold Context.error; rewrite E; reflexivity |]. split; [apply Hf |].
  eexists. split; [exact Ht |].
  intros i n Hin. exfalso. clear - Hin.
  induction (live _) as [| x l IH]; simpl in Hin; [assumption |].
  destruct Hin as [Hx | Hin]; [discriminate | auto].
Qed.

Lemma reads_on_ext (w w' : World) :
  readers w' = readers w -> stripeSize (ctx w') = stripeSize (ctx w) ->
  trace w' = trace w -> reads_on w w'.
Proof.
  intros R S T. split; [exact R |]. split; [exact S |].
  exists []. split; [rewrite T; symmetry; apply app_nil_r | intros i n []].
Qed.

Section Reading.

Variable junk : nat -> Byte.byte.
Variable rs : Z -> Z -> Z -> Z -> bytes -> bytes -> nat -> bytes.

Lemma dispatch_reads (op : Operation) (err : option Error) (okf : nat -> bool)
      (w w' : World) :
  op <> Encoding -> dispatcher junk op err okf w = Ok w' -> reads_on w w'.
Proof.
  intros Hop H. destruct err as [err |].
  - rewrite dispatch_failure in H.
    eapply reads_on_trans; [apply (error_reads err) | eapply unref_reads; eassumption].
  - assert (Hw := dispatch_writes_only junk op okf w w' H).
    apply dispatch_success in H. destruct H as (new & Hc & Hf).
    apply (reads_on_quiet _ _ new); [apply Hw | exact Hc |].
    apply (filter_none is_write); [| exact Hf].
    intros e He. destruct e; try discriminate; reflexivity.
Qed.

Lemma map_lane_reads (f : option Readable -> option Readable) (i : nat) (w : World) :
  reads_on w (map_lane f i w).
Proof.
  unfold map_lane. destruct (nth_error (istreams (ctx w)) i);
    [| apply reads_on_refl].
  apply reads_on_ext; reflexivity.
Qed.

Lemma step_reads (op : Operation) (w w' : World) (e : Event) :
  op <> Encoding -> step junk rs op w e = Ok w' -> reads_on w w'.
Proof.
  intros Hop H. destruct e as [i | i chunk | i | i err | err okf | |]; simpl in H.
  - eapply listener_reads; eassumption.
  - inversion H; subst. apply map_lane_reads.
  - inversion H; subst. apply map_lane_reads.
  - destruct (existsb (Nat.eqb i) (errorListeners w)); inversion H; subst;
      [| apply reads_on_refl].
    eapply reads_on_trans; [| apply error_reads]. apply reads_on_ext; reflexivity.
  - destruct (primitive w) as [| n]; [inversion H; subst; apply reads_on_refl |].
    assert (H1 : reads_on w (set_primitive n w)) by (apply reads_on_ext; reflexivity).
    destruct (targets (ctx w) =? 0);
      [eapply reads_on_trans; [exact H1 | eapply dispatch_reads; eassumption] |].
    destruct err as [err |];
      [eapply reads_on_trans; [exact H1 | eapply dispatch_reads; eassumption] |].
    eapply reads_on_trans; [exact H1 |].
    eapply reads_on_trans; [| eapply dispatch_reads; eassumption].
    apply reads_on_ext; try reflexivity.
    destruct (primitive_result_spec rs (ctx w)) as (E & _).
    change (stripeSize (primitive_result rs (ctx w)) = stripeSize (ctx w)).
    rewrite E. reflexivity.
  - destruct (callbacks w) as [| n]; [inversion H; subst; apply reads_on_refl |].
    assert (H1 : reads_on w (set_nPending (nPending w - 1) (set_callbacks n w)))
      by (apply reads_on_ext; reflexivity).
    destruct (nPending w - 1 =? 0).
    + destruct op;
        try (eapply reads_on_trans; [exact H1 | eapply unref_reads; eassumption]).
      inversion H; subst. apply reads_on_ext; reflexivity.
    + inversion H; subst. exact H1.
  - destruct (immediates w) as [| n]; [inversion H; subst; apply reads_on_refl |].
    eapply reads_on_trans; [| eapply unref_reads; eassumption].
    apply reads_on_ext; reflexivity.
Qed.

Lemma run_reads (op : Operation) (events : list Event) :
  op <> Encoding ->
  forall w w', run junk rs op w events = Ok w' -> reads_on w w'.
Proof.
  intros Hop. induction events as [| e events IH]; intros w w' H; simpl in H.
  - inversion H; subst. apply reads_on_refl.
  - destruct (step junk rs op w e) as [w1 |] eqn:E; simpl in H; [| discriminate].
    eapply reads_on_trans; [eapply step_reads; eassumption | apply IH, H].
Qed.

(** The listeners [attach] installs are on source lanes. *)
Lemma attach_sources (lanes : list nat) :
  forall w w',
    attach lanes w = Ok w' ->
    forall i, In i (readers w') ->
              In i (readers w)
              \/ (In i lanes
                  /\ Js.band (sources (ctx w)) (Js.shl 1 (Z.of_nat i)) <> 0
                  /\ present (istreams (ctx w)) (Z.of_nat i) = true).
Proof.
  induction lanes as [| j lanes IH]; intros w w' H i Hi; simpl in H.
  - inversion H; subst. left. exact Hi.
  - destruct (Z.eqb_spec (Js.band (sources (ctx w)) (Js.shl 1 (Z.of_nat j))) 0) as [E | E].
    + destruct (IH _ _ H i Hi) as [Hin | (Hin & Hb & Hp)].
      * left. destruct (present _ _); exact Hin.
      * right. split; [right; exact Hin |].
        destruct (present (istreams (ctx w)) (Z.of_nat j)); auto.
    + destruct (nth_error (istreams (ctx w)) j) as [[s |] |] eqn:Es; try discriminate.
      destruct (IH _ _ H i Hi) as [Hin | (Hin & Hb & Hp)].
      * simpl in Hin. apply in_app_or in Hin. destruct Hin as [Hin | [<- | []]];
          [left; exact Hin |].
        right. split; [left; reflexivity |]. split; [exact E |].
        rewrite present_spec, Es. reflexivity.
      * right. split; [right; exact Hin | auto].
Qed.

Lemma started_readers (op : Operation) (w0 : World) :
  op <> Encoding -> started junk op w0 ->
  forall i, In i (readers w0) ->
            Z.testbit (sources (ctx w0)) (Z.of_nat i) = true
            /\ present (istreams (ctx w0)) (Z.of_nat i) = true.
Proof.
  intros Hop Hs.
  assert (Hgen : forall c lanes n,
             mask_below n (sources c) -> 0 <= n <= 30 ->
             (forall i, In i lanes -> Z.of_nat i < 30) ->
             attach lanes (mkWorld c [] [] [] 0 0 0 0) = Ok w0 ->
             forall i, In i (readers w0) ->
                       Z.testbit (sources (ctx w0)) (Z.of_nat i) = true
                       /\ present (istreams (ctx w0)) (Z.of_nat i) = true).
  { intros c lanes n Hm Hn Hl Ha i Hi.
    assert (Hc := proj1 (attach_spec _ _ _ Ha)). simpl in Hc. rewrite Hc.
    destruct (attach_sources _ _ _ Ha i Hi) as [[] | (Hin & Hb & Hp)].
    simpl in Hb, Hp. split; [| exact Hp].
    rewrite (band_lane n) in Hb by (assumption || (specialize (Hl i Hin); lia)).
    destruct (Z.testbit _ _); [reflexivity | congruence]. }
  destruct op; [congruence | |]; simpl in Hs.
  - destruct Hs as (ostream & size & ds & ps & hint & Hh & H).
    unfold decode in H.
    match type of H with bind ?cr _ = _ => destruct cr as [c |] eqn:Ec end;
      simpl in H; [| discriminate].
    destruct (create_fresh _ _ _ _ _ _ _ _ _ _ Ec)
      as (_ & _ & Fi & _ & Fs & _).
    apply create_ok in Ec. destruct Ec as ((Hk & Hm) & _).
    assert (Hfit : Z.of_nat (List.length ds) + Z.of_nat (List.length ps) <= 30)
      by (unfold MAX_K, MAX_M in *; lia).
    destruct (decode_roles_spec ds ps Hfit) as [(Hmask & _) _].
    destruct (r_available _ <? _).
    + inversion H; subst w0. intros i Hi. exfalso.
      unfold Context.error in Hi. simpl in Hi.
      destruct (inputError c); exact Hi.
    + eapply Hgen; [| | | exact H]; simpl.
      * rewrite Fs. exact Hmask.
      * lia.
      * intros i Hi. apply in_seq in Hi. rewrite length_app in Hi. lia.
  - destruct Hs as (kk & mm & ist & ost & size & hint & Hh & H).
    unfold repair in H.
    destruct (Z.eqb_spec (kk + mm) (Z.of_nat (List.length ist))) as [Hli |];
      simpl in H; [| discriminate].
    destruct (Z.eqb_spec (kk + mm) (Z.of_nat (List.length ost))) as [Hlo |];
      simpl in H; [| discriminate].
    match type of H with bind ?cr _ = _ => destruct cr as [c |] eqn:Ec end;
      simpl in H; [| discriminate].
    destruct (create_fresh _ _ _ _ _ _ _ _ _ _ Ec)
      as (_ & _ & Fi & _ & Fs & _).
    apply create_ok in Ec. destruct Ec as ((Hk & Hm) & _).
    assert (Hfit : kk + mm <= 30) by (unfold MAX_K, MAX_M in *; lia).
    destruct (repair_roles_spec kk mm ist ost ltac:(lia) Hfit Hli) as (Hmask & _).
    destruct (r_available _ <? _).
    + inversion H; subst w0. intros i Hi. exfalso.
      unfold Context.error in Hi. simpl in Hi.
      destruct (inputError c); exact Hi.
    + eapply Hgen; [| | | exact H]; simpl.
      * rewrite Fs. exact Hmask.
      * lia.
      * intros i Hi. apply in_seq in Hi. lia.
Qed.

(** X6. A decode or a repair reads from source lanes only: whatever
    happens, every read it makes is a read of one shard, [stripeSize]
    bytes, on a lane that it selected as a source and that holds a stream.
    The other lanes are never read. *)
Theorem reads_only_sources (op : Operation) (w0 w : World) (events : list Event) :
  op <> Encoding -> started junk op w0 ->
  run junk rs op w0 events = Ok w ->
  forall i n,
    In (Read i n) (trace w) ->
    Z.testbit (sources (ctx w0)) (Z.of_nat i) = true
    /\ present (istreams (ctx w0)) (Z.of_nat i) = true
    /\ n = stripeSize (ctx w0).
Proof.
  intros Hop Hs Hr i n Hin.
  destruct (run_reads op events Hop w0 w Hr) as (_ & _ & new & Ht & Hn).
  rewrite Ht in Hin. apply in_app_or in Hin. destruct Hin as [Hin | Hin].
  - exfalso.
    destruct (started_shape junk op w0 Hs) as (_ & _ & _ & _ & [(_ & Hq) | (err & _ & Hq & _)]).
    + apply setup_quiet in Hq. destruct Hq as (_ & _ & _ & Hq).
      assert (H : In (Read i n) (filter is_read (trace w0))) by (apply filter_In; auto).
      rewrite Hq in H. destruct H.
    + rewrite Hq in Hin. clear - Hin.
      induction (live _) as [| x l IH]; simpl in Hin; [assumption |].
      destruct Hin as [Hx | Hin]; [discriminate | auto].
  - destruct (Hn i n Hin) as [Hi ->].
    destruct (started_readers op w0 Hop Hs i Hi) as [A B]. auto.
Qed.

End Reading.


(** ** Submissions and the stripe counter *)

(** What a buffer-filling step does to the flight of the stripe. *)
Lemma listener_flight (op : Operation) (i : nat) (w w' : World) :
  listener op i w = Ok w' ->
  (inFlight (ctx w) = true -> w' = w)
  /\ (flying_ok w -> flying_ok w')
  /\ submitted w' = submitted w
  /\ (waiting (ctx w) = 0 -> op <> Encoding -> w' = w).
Proof.
  unfold listener. intros H.
  destruct (existsb (Nat.eqb i) (readers w));
    [| inversion H; subst; repeat split; auto].
  assert (Hsub : forall w1 w2 : World,
             inFlight (ctx w) = false ->
             inFlight (ctx w1) = false ->
             count is_submission (trace w1) = count is_submission (trace w) ->
             (w3 <- Context.ref w1 ;; Context.encode w3) = Ok w2 ->
             flying_ok w2 /\ submitted w2 = submitted w).
  { intros w1 w2 F F1 C1 Hs.
    destruct (submit_readers _ _ Hs) as (_ & _ & _ & W2 & F2).
    apply submit_continues in Hs. destruct Hs as (e & (Ht & _) & Hsub).
    split; [intros _; exact W2 |].
    unfold submitted. rewrite F2, F, Ht, count_app, C1.
    unfold count at 2. simpl. rewrite Hsub. simpl. lia. }
  destruct op.
  - unfold encodeBufferStep in H. unfold Context.wait in H.
    destruct (inFlight (ctx w)) eqn:F;
      [inversion H; subst; repeat split; auto; congruence |].
    destruct (nth_error (istreams (ctx w)) i) as [[s |] |] eqn:Es; try discriminate.
    match type of H with
    | context [stream_read ?n s] => destruct (stream_read n s) as [[dataBytes |] s']
    end.
    + match type of H with
      | (w3 <- Context.ref ?w1 ;; _) = _ =>
          destruct (Hsub w1 w' eq_refl) as [A B]; try exact H
      end.
      * destruct (Z.of_nat (List.length dataBytes) <? data_size (ctx w)); simpl; exact F.
      * destruct (Z.of_nat (List.length dataBytes) <? data_size (ctx w)); simpl;
          unfold count; rewrite filter_app; simpl; rewrite app_nil_r; reflexivity.
      * split; [discriminate |]. split; [intros _; exact A |].
        split; [exact B | intros _ C; congruence].
    + inversion H; subst; clear H.
      split; [discriminate |]. split; [intros _ C; simpl in C; congruence |].
      split; [| intros _ C; congruence].
      unfold submitted. simpl. rewrite F. unfold count. rewrite filter_app. simpl.
      rewrite app_nil_r. reflexivity.
  - unfold decodeBufferStep in H. unfold Context.wait in H.
    destruct (inFlight (ctx w)) eqn:F;
      [inversion H; subst; repeat split; auto; congruence |].
    destruct (Z.eqb_spec (Js.band (waiting (ctx w)) (Js.shl 1 (Z.of_nat i))) 0) as [Eb | Eb];
      [inversion H; subst; repeat split; auto |].
    destruct (fillStripeBuffers i w) as [[filled w1] |] eqn:Ef; simpl in H; [| discriminate].
    destruct (fillStripeBuffers_readers i w w1 filled Ef) as (_ & _ & W1 & F1).
    apply fillStripeBuffers_continues in Ef. destruct Ef as [(Ht & _) _].
    assert (C1 : count is_submission (trace w1) = count is_submission (trace w)).
    { rewrite Ht, count_app. unfold count at 2. simpl. lia. }
    assert (Hz : waiting (ctx w) = 0 -> w' = w).
    { intros Hz. rewrite Hz, band_0_l in Eb. congruence. }
    split; [discriminate |].
    destruct filled; simpl in H.
    + destruct (Context.readyForEncoding _).
      * destruct (Hsub (Context.addedToStripe (Js.shl 1 (Z.of_nat i)) w1) w' eq_refl)
          as [A B]; [simpl; congruence | exact C1 | exact H |].
        split; [intros _; exact A |]. split; [exact B | intros Hw _; auto].
      * inversion H; subst; clear H.
        split; [intros _ C; simpl in C; congruence |].
        split; [| intros Hw _; auto].
        unfold submitted. simpl. rewrite F1, F. simpl in C1. rewrite C1. reflexivity.
    + inversion H; subst; clear H.
      split; [intros _ C; congruence |]. split; [| intros Hw _; auto].
      unfold submitted. rewrite F1, F, C1. reflexivity.
  - unfold decodeBufferStep in H. unfold Context.wait in H.
    destruct (inFlight (ctx w)) eqn:F;
      [inversion H; subst; repeat split; auto; congruence |].
    destruct (Z.eqb_spec (Js.band (waiting (ctx w)) (Js.shl 1 (Z.of_nat i))) 0) as [Eb | Eb];
      [inversion H; subst; repeat split; auto |].
    destruct (fillStripeBuffers i w) as [[filled w1] |] eqn:Ef; simpl in H; [| discriminate].
    destruct (fillStripeBuffers_readers i w w1 filled Ef) as (_ & _ & W1 & F1).
    apply fillStripeBuffers_continues in Ef. destruct Ef as [(Ht & _) _].
    assert (C1 : count is_submission (trace w1) = count is_submission (trace w)).
    { rewrite Ht, count_app. unfold count at 2. simpl. lia. }
    assert (Hz : waiting (ctx w) = 0 -> w' = w).
    { intros Hz. rewrite Hz, band_0_l in Eb. congruence. }
    split; [discriminate |].
    destruct filled; simpl in H.
    + destruct (Context.readyForEncoding _).
      * destruct (Hsub (Context.addedToStripe (Js.shl 1 (Z.of_nat i)) w1) w' eq_refl)
          as [A B]; [simpl; congruence | exact C1 | exact H |].
        split; [intros _; exact A |]. split; [exact B | intros Hw _; auto].
      * inversion H; subst; clear H.
        split; [intros _ C; simpl in C; congruence |].
        split; [| intros Hw _; auto].
        unfold submitted. simpl. rewrite F1, F. simpl in C1. rewrite C1. reflexivity.
    + inversion H; subst; clear H.
      split; [intros _ C; congruence |]. split; [| intros Hw _; auto].
      unfold submitted. rewrite F1, F, C1. reflexivity.
Qed.

Lemma wake_flight (op : Operation) (lanes : list nat) :
  forall w w',
    Context.wake (listener op) lanes w = Ok w' ->
    (flying_ok w -> flying_ok w') /\ submitted w' = submitted w.
Proof.
  induction lanes as [| i lanes IH]; intros w w' H; simpl in H.
  - inversion H; subst. auto.
  - destruct (listener op i (log (Emit_readable i) w)) as [w1 |] eqn:E; simpl in H;
      [| discriminate].
    destruct (listener_flight op i _ _ E) as (_ & A & B & _).
    destruct (IH _ _ H) as (A' & B').
    split; [intros F; apply A', A; exact F |].
    rewrite B', B. unfold submitted. simpl. unfold count. rewrite filter_app. simpl.
    rewrite app_nil_r. reflexivity.
Qed.

Lemma count_submission_ends (lanes : list nat) :
  count is_submission (map Emit_end lanes) = 0%nat.
Proof. induction lanes; [reflexivity | assumption]. Qed.

Lemma count_submission_errors (err : Error) (lanes : list nat) :
  count is_submission (map (fun i => Emit_error i err) lanes) = 0%nat.
Proof. induction lanes; [reflexivity | assumption]. Qed.

(** [unref] closes the flight of a stripe. *)
Lemma unref_flight (junk : nat -> Byte.byte) (op : Operation) (w w' : World) :
  unref junk op w = Ok w' ->
  flying_ok w'
  /\ (inFlight (ctx w) = true -> submitted w' = submitted w + 1).
Proof.
  unfold unref. intros H. apply unref_inv in H. cbv zeta in H.
  match type of H with
  | (if ?c then _ else _) = _ => destruct c
  end.
  - inversion H; subst; clear H. split; [intros C; discriminate |].
    intros F. unfold submitted. simpl. rewrite F, count_app, count_submission_ends. lia.
  - apply wake_flight in H. destruct H as [A B].
    split; [apply A; intros C; discriminate |].
    intros F. rewrite B. unfold submitted. simpl. rewrite F. lia.
Qed.

Lemma error_flight (err : Error) (w : World) :
  (flying_ok w -> flying_ok (Context.error err w))
  /\ submitted (Context.error err w) = submitted w
  /\ inFlight (ctx (Context.error err w)) = inFlight (ctx w)
  /\ waiting (ctx (Context.error err w)) = waiting (ctx w).
Proof.
  assert (Hc := error_ctx err w).
  assert (F : inFlight (ctx (Context.error err w)) = inFlight (ctx w))
    by (rewrite Hc; reflexivity).
  assert (W : waiting (ctx (Context.error err w)) = waiting (ctx w))
    by (rewrite Hc; reflexivity).
  split; [unfold flying_ok; rewrite F, W; auto |].
  split; [| split; assumption].
  unfold submitted. rewrite F. f_equal. f_equal.
  assert (H := error_spec err w).
  destruct (inputError (ctx w)); [rewrite H; reflexivity |].
  destruct H as (-> & _). rewrite count_app, count_submission_errors. lia.
Qed.

Lemma count_submission_writes (new : list Effect) :
  forallb is_write new = true -> count is_submission new = 0%nat.
Proof.
  intros H. unfold count. rewrite (filter_none is_write); [reflexivity | | exact H].
  intros e He. destruct e; try discriminate; reflexivity.
Qed.

Section Flight.

Variable junk : nat -> Byte.byte.
Variable rs : Z -> Z -> Z -> Z -> bytes -> bytes -> nat -> bytes.

(** What is in progress when [unref] is about to run. *)
Lemma immediate_released (op : Operation) (w : World) :
  sound op w -> immediates w <> 0%nat -> released op (set_immediates 0 w).
Proof.
  intros (A & B & C & D & J1 & J2 & J3 & J4 & J5) Hi.
  assert (Hp : primitive w = 0%nat).
  { destruct (primitive w) as [| [| p]] eqn:Ep; [reflexivity | | lia].
    destruct (J3 eq_refl). lia. }
  assert (Hc : callbacks w = 0%nat).
  { destruct (callbacks w) eqn:Ec; [reflexivity |].
    destruct (J4 ltac:(lia)). lia. }
  destruct w; simpl in *.
  split; [exact A |]. split; [exact B |]. split; [exact C |]. split; [exact D |].
  split; [exact Hp |]. split; [exact Hc | reflexivity].
Qed.

Lemma sound_busy (op : Operation) (w : World) :
  sound op w ->
  (primitive w <> 0%nat \/ callbacks w <> 0%nat \/ immediates w <> 0%nat) ->
  inFlight (ctx w) = true.
Proof.
  intros (_ & _ & _ & _ & _ & J2 & _) H.
  destruct (inFlight (ctx w)); [reflexivity |].
  destruct (J2 eq_refl) as (A & B & C). lia.
Qed.

Lemma failed_released (op : Operation) (err : Error) (w : World) :
  sound op w -> primitive w <> 0%nat ->
  released op (Context.error err (set_primitive 0 w)).
Proof.
  intros Hs Hp.
  assert (Hf := sound_busy op w Hs (or_introl Hp)).
  destruct Hs as (A & B & C & D & J1 & J2 & J3 & J4 & J5).
  assert (Ep : primitive w = 1%nat) by lia.
  destruct (J3 Ep) as [Hc Hi].
  assert (Hs : sound op (Context.error err (set_primitive 0 w))).
  { apply error_sound. destruct w; simpl in *.
    split; [exact A |]. split; [exact B |]. split; [exact C |]. split; [exact D |].
    unfold flight_ok. simpl. subst. repeat split; try lia; congruence. }
  destruct Hs as (A' & B' & C' & D' & _).
  split; [exact A' |]. split; [exact B' |]. split; [exact C' |]. split; [exact D' |].
  unfold Context.error. simpl.
  destruct (inputError (ctx w)); simpl; auto.
Qed.

(** A step either leaves the stripe counter alone, or it is the [unref] of
    a stripe in flight, all of whose callbacks have run. *)
Lemma step_releases (op : Operation) (w w' : World) (e : Event) :
  sound op w -> step junk rs op w e = Ok w' ->
  (processedStripe (ctx w') = processedStripe (ctx w)
   /\ (flying_ok w -> flying_ok w') /\ submitted w' = submitted w)
  \/ (exists wr,
         released op wr /\ inFlight (ctx w) = true
         /\ inFlight (ctx wr) = true /\ waiting (ctx wr) = waiting (ctx w)
         /\ processedStripe (ctx wr) = processedStripe (ctx w)
         /\ nStripe (ctx wr) = nStripe (ctx w)
         /\ submitted wr = submitted w
         /\ unref junk op wr = Ok w').
Proof.
  intros Hs H.
  assert (Hquiet : forall w1 : World,
             ctx w1 = ctx w -> trace w1 = trace w ->
             processedStripe (ctx w1) = processedStripe (ctx w)
             /\ (flying_ok w -> flying_ok w1) /\ submitted w1 = submitted w).
  { intros w1 Hc Ht. unfold flying_ok, submitted. rewrite Hc, Ht. auto. }
  assert (Hlane : forall f i,
             processedStripe (ctx (map_lane f i w)) = processedStripe (ctx w)
             /\ (flying_ok w -> flying_ok (map_lane f i w))
             /\ submitted (map_lane f i w) = submitted w).
  { intros f i. unfold map_lane. destruct (nth_error (istreams (ctx w)) i);
      [| apply Hquiet; reflexivity].
    unfold flying_ok, submitted. simpl. auto. }
  assert (Hdisp : forall okf w1 w2,
             processedStripe (ctx w1) = processedStripe (ctx w) ->
             (flying_ok w -> flying_ok w1) -> submitted w1 = submitted w ->
             dispatcher junk op None okf w1 = Ok w2 ->
             processedStripe (ctx w2) = processedStripe (ctx w)
             /\ (flying_ok w -> flying_ok w2) /\ submitted w2 = submitted w).
  { intros okf w1 w2 P1 F1 S1 Hd.
    destruct (dispatch_writes_only junk op okf w1 w2 Hd) as (Hc & _).
    apply dispatch_success in Hd. destruct Hd as (new & (Ht & _) & Hf).
    rewrite <- P1, <- S1. unfold flying_ok in *. unfold submitted.
    rewrite Hc, Ht, count_app, (count_submission_writes new Hf).
    split; [reflexivity |]. split; [exact F1 | f_equal; lia]. }
  destruct e as [i | i chunk | i | i err | err okf | |]; simpl in H.
  - left. destruct (listener_flight op i w w' H) as (_ & A & B & _).
    apply listener_continues in H. destruct H as (new & (_ & _ & P & _) & _). auto.
  - inversion H; subst. left. apply Hlane.
  - inversion H; subst. left. apply Hlane.
  - left. destruct (existsb (Nat.eqb i) (errorListeners w)); inversion H; subst;
      [| apply Hquiet; reflexivity].
    match goal with
    | |- context [Context.error err ?w1] =>
        destruct (error_flight err w1) as (A & B & _);
          destruct (Hquiet w1 eq_refl eq_refl) as (P & F & S')
    end.
    split; [| split; [intros Hf; apply A, F, Hf | rewrite B; exact S']].
    assert (E := error_spec err (set_errorListeners
                                   (filter (fun j => negb (Nat.eqb i j)) (errorListeners w)) w)).
    simpl in E. destruct (inputError (ctx w)); [rewrite E; reflexivity | apply E].
  - destruct (primitive w) as [| n] eqn:Ep; [inversion H; subst; left; auto |].
    destruct (Hquiet (set_primitive n w) eq_refl eq_refl) as (P & F & S').
    destruct (targets (ctx w) =? 0); [left; eapply Hdisp; eassumption |].
    destruct err as [err |].
    + right. rewrite dispatch_failure in H.
      assert (Hn : n = 0%nat).
      { destruct Hs as (_ & _ & _ & _ & J1 & _). lia. }
      subst n.
      assert (Hf := sound_busy op w Hs ltac:(left; lia)).
      exists (Context.error err (set_primitive 0 w)).
      destruct (error_flight err (set_primitive 0 w)) as (_ & B & C & D).
      split; [apply failed_released; [exact Hs | lia] |].
      split; [exact Hf |]. split; [rewrite C; exact Hf |].
      split; [rewrite D; reflexivity |].
      assert (E := error_spec err (set_primitive 0 w)).
      assert (Hc := error_ctx err (set_primitive 0 w)).
      split; [rewrite Hc; reflexivity |]. split; [rewrite Hc; reflexivity |].
      split; [rewrite B; exact S' | exact H].
    + left. eapply Hdisp; [| | | exact H].
      * destruct (primitive_result_spec rs (ctx w)) as (E & _).
        change (processedStripe (primitive_result rs (ctx w)) = processedStripe (ctx w)).
        rewrite E. reflexivity.
      * destruct (primitive_result_spec rs (ctx w)) as (E & _).
        unfold flying_ok.
        change (inFlight (ctx w) = true -> waiting (ctx w) = 0 ->
                inFlight (primitive_result rs (ctx w)) = true ->
                waiting (primitive_result rs (ctx w)) = 0) || idtac.
        intros Fw. simpl. rewrite E. simpl. exact Fw.
      * destruct (primitive_result_spec rs (ctx w)) as (E & _).
        unfold submitted. simpl. rewrite E. reflexivity.
  - destruct (callbacks w) as [| n] eqn:Ec; [inversion H; subst; left; auto |].
    destruct (Hquiet (set_nPending (nPending w - 1) (set_callbacks n w)) eq_refl eq_refl)
      as (P & F & S').
    simpl in H. destruct (Z.eqb_spec (nPending w - 1) 0) as [Ez | Ez];
      [| inversion H; subst; left; auto].
    assert (Hf := sound_busy op w Hs ltac:(right; left; lia)).
    assert (Hrel : released op (set_nPending (nPending w - 1) (set_callbacks 0 w))
                   /\ n = 0%nat).
    { pose proof Hs as (A & B & C & D & J1 & J2 & J3 & J4 & J5).
      destruct (J4 ltac:(lia)) as [Hn Hi].
      assert (Hp : primitive w = 0%nat).
      { destruct (primitive w) as [| [| p]] eqn:Ep; [reflexivity | | lia].
        destruct (J3 eq_refl). lia. }
      split; [| lia].
      apply callback_released; [exact Hs | exact Hp | exact Hi]. }
    destruct Hrel as [Hrel ->].
    destruct op;
      try (right; eexists; split; [exact Hrel |];
           repeat split; solve [assumption | reflexivity]).
    inversion H; subst. left. apply Hquiet; reflexivity.
  - destruct (immediates w) as [| n] eqn:Ei; [inversion H; subst; left; auto |].
    assert (Hf := sound_busy op w Hs ltac:(right; right; lia)).
    assert (Hn : n = 0%nat).
    { destruct Hs as (_ & _ & _ & _ & _ & _ & _ & _ & J5). lia. }
    subst n. right. exists (set_immediates 0 w).
    split; [apply immediate_released; [exact Hs | lia] |].
    repeat split; solve [assumption | reflexivity].
Qed.

Lemma started_flight (op : Operation) (w0 : World) :
  started junk op w0 -> flying_ok w0 /\ submitted w0 = processedStripe (ctx w0).
Proof.
  intros Hs.
  destruct (started_shape junk op w0 Hs) as ((P & F & _) & _ & _ & _ & Ht).
  split; [intros C; congruence |].
  unfold submitted. rewrite F, P.
  destruct Ht as [(_ & Hq) | (err & _ & -> & _)].
  - apply setup_quiet in Hq. destruct Hq as (_ & _ & Hq & _).
    unfold count. rewrite Hq. reflexivity.
  - rewrite count_submission_errors. reflexivity.
Qed.

Lemma step_flight (op : Operation) (w w' : World) (e : Event) :
  sound op w -> flying_ok w -> submitted w = processedStripe (ctx w) ->
  step junk rs op w e = Ok w' ->
  flying_ok w' /\ submitted w' = processedStripe (ctx w').
Proof.
  intros Hs Hf Hb H.
  destruct (step_releases op w w' e Hs H)
    as [(P & F & S') | (wr & Hr & Fw & Fr & Wr & Pr & Nr & Sr & Hu)].
  - split; [apply F, Hf | congruence].
  - destruct (unref_flight junk op wr w' Hu) as [A B].
    split; [exact A |]. rewrite (B Fr), Sr, Hb.
    apply unref_advances in Hu. destruct Hu as (new & (_ & _ & P & _) & _). lia.
Qed.

Lemma run_flight (op : Operation) (events : list Event) :
  forall w w',
    sound op w -> flying_ok w -> submitted w = processedStripe (ctx w) ->
    run junk rs op w events = Ok w' ->
    flying_ok w' /\ submitted w' = processedStripe (ctx w').
Proof.
  induction events as [| e events IH]; intros w w' Hs Hf Hb H; simpl in H.
  - inversion H; subst. auto.
  - destruct (step_sound junk rs op w e Hs) as (w1 & E & Hs1).
    rewrite E in H. simpl in H.
    destruct (step_flight op w w1 e Hs Hf Hb E) as [Hf1 Hb1].
    apply (IH w1 w' Hs1 Hf1 Hb1 H).
Qed.

(** X7. Every stripe goes to the primitive once: along every run of an
    operation, the stripes handed over (to the primitive, or past it when
    nothing is to be computed) are the stripes processed, plus the one in
    flight if there is one, and a stripe in flight is complete, no lane
    being waited for. *)
Theorem submissions_counted (op : Operation) (w0 w : World) (events : list Event) :
  started junk op w0 ->
  run junk rs op w0 events = Ok w ->
  Z.of_nat (count is_submission (trace w))
  = processedStripe (ctx w) + (if inFlight (ctx w) then 1 else 0)
  /\ (inFlight (ctx w) = true -> waiting (ctx w) = 0)
  /\ 0 <= processedStripe (ctx w).
Proof.
  intros Hs Hr.
  destruct (started_flight op w0 Hs) as [Hf Hb].
  destruct (run_flight op events w0 w (started_sound junk op w0 Hs) Hf Hb Hr) as [A B].
  split; [unfold submitted in B; lia |]. split; [exact A |].
  destruct (signals_run junk rs op events w0 w Hr (started_signals junk op w0 Hs))
    as [(Hp & _) _].
  exact Hp.
Qed.

End Flight.


(** ** Once all the stripes are processed *)

Lemma forallb_errors (err : Error) (lanes : list nat) :
  forallb is_error (map (fun i => Emit_error i err) lanes) = true.
Proof. induction lanes; [reflexivity | assumption]. Qed.

Section Completion.

Variable junk : nat -> Byte.byte.
Variable rs : Z -> Z -> Z -> Z -> bytes -> bytes -> nat -> bytes.

(** With nothing in progress and nothing waited for, a decode or a repair
    only passes errors on. *)
Lemma finished_step (op : Operation) (w w' : World) (e : Event) :
  op <> Encoding -> finished w -> step junk rs op w e = Ok w' ->
  finished w'
  /\ processedStripe (ctx w') = processedStripe (ctx w)
  /\ exists new, trace w' = trace w ++ new /\ forallb is_error new = true.
Proof.
  intros Hop (F & W & P & C & I) H.
  assert (Hsame : finished w /\ processedStripe (ctx w) = processedStripe (ctx w)
                  /\ exists new, trace w = trace w ++ new /\ forallb is_error new = true).
  { split; [repeat split; assumption |]. split; [reflexivity |].
    exists []. split; [symmetry; apply app_nil_r | reflexivity]. }
  destruct e as [i | i chunk | i | i err | err okf | |]; simpl in H.
  - destruct (listener_flight op i w w' H) as (_ & _ & _ & Hz).
    rewrite (Hz W Hop). exact Hsame.
  - inversion H; subst. unfold map_lane.
    destruct (nth_error (istreams (ctx w)) i); [| exact Hsame].
    split; [repeat split; assumption |]. split; [reflexivity |].
    exists []. split; [symmetry; apply app_nil_r | reflexivity].
  - inversion H; subst. unfold map_lane.
    destruct (nth_error (istreams (ctx w)) i); [| exact Hsame].
    split; [repeat split; assumption |]. split; [reflexivity |].
    exists []. split; [symmetry; apply app_nil_r | reflexivity].
  - destruct (existsb (Nat.eqb i) (errorListeners w)); inversion H; subst;
      [| exact Hsame].
    match goal with
    | |- context [Context.error err ?w1] =>
        destruct (error_flight err w1) as (_ & _ & F1 & W1);
          assert (E := error_spec err w1);
          assert (K : primitive (Context.error err w1) = primitive w
                      /\ callbacks (Context.error err w1) = callbacks w
                      /\ immediates (Context.error err w1) = immediates w)
          by (unfold Context.error; destruct (inputError (ctx w1)); repeat split)
    end.
    destruct K as (K1 & K2 & K3).
    split; [split; [rewrite F1; exact F |];
            split; [rewrite W1; exact W |]; repeat split; congruence |].
    simpl in E. destruct (inputError (ctx w)).
    + rewrite E. split; [reflexivity |].
      exists []. split; [symmetry; apply app_nil_r | reflexivity].
    + destruct E as (Et & _ & Ep & _). split; [exact Ep |].
      eexists. split; [exact Et | apply forallb_errors].
  - rewrite P in H. inversion H; subst. exact Hsame.
  - rewrite C in H. inversion H; subst. exact Hsame.
  - rewrite I in H. inversion H; subst. exact Hsame.
Qed.

Lemma finished_run (op : Operation) (events : list Event) :
  op <> Encoding ->
  forall w w',
    finished w -> run junk rs op w events = Ok w' ->
    finished w'
    /\ processedStripe (ctx w') = processedStripe (ctx w)
    /\ exists new, trace w' = trace w ++ new /\ forallb is_error new = true.
Proof.
  intros Hop. induction events as [| e events IH]; intros w w' Hf H; simpl in H.
  - inversion H; subst. split; [exact Hf |]. split; [reflexivity |].
    exists []. split; [symmetry; apply app_nil_r | reflexivity].
  - destruct (step junk rs op w e) as [w1 |] eqn:E; simpl in H; [| discriminate].
    destruct (finished_step op w w1 e Hop Hf E) as (F1 & P1 & n1 & T1 & E1).
    destruct (IH w1 w' F1 H) as (F2 & P2 & n2 & T2 & E2).
    split; [exact F2 |]. split; [congruence |].
    exists (n1 ++ n2). split; [rewrite T2, T1, app_assoc; reflexivity |].
    rewrite forallb_app, E1, E2. reflexivity.
Qed.

Lemma step_completes (op : Operation) (w w' : World) (e : Event) :
  op <> Encoding -> sound op w -> flying_ok w -> completes_ok w ->
  step junk rs op w e = Ok w' -> completes_ok w'.
Proof.
  intros Hop Hs Hf Hc H n Hn Hpos.
  assert (Hfr : nStripe (ctx w') = nStripe (ctx w)).
  { assert (Hr : run junk rs op w [e] = Ok w') by (simpl; rewrite H; reflexivity).
    apply frame_run in Hr. apply Hr. }
  rewrite Hfr in Hn. destruct (Hc n Hn Hpos) as [Hle Hfin].
  destruct (Z.eq_dec (processedStripe (ctx w)) n) as [Heq | Hne].
  - destruct (finished_step op w w' e Hop (Hfin Heq) H) as (F1 & P1 & _).
    rewrite P1. split; [exact Hle | intros _; exact F1].
  - destruct (step_releases junk rs op w w' e Hs H)
      as [(P & _) | (wr & Hr & Fw & Fr & Wr & Pr & Nr & Sr & Hu)].
    + rewrite P. split; [exact Hle | intros C; contradiction].
    + assert (Ha := unref_advances junk op wr w' Hu).
      destruct Ha as (new & (_ & _ & Pa & _) & _).
      rewrite Pa, Pr. split; [lia |]. intros Hend.
      unfold unref in Hu. apply unref_inv in Hu. cbv zeta in Hu.
      change (is_nStripe
                (processedStripe
                   (ctx (upd_ctx (fun c => set_processedStripe (processedStripe c + 1)
                                             (set_inFlight false c)) wr)))
                (ctx (upd_ctx (fun c => set_processedStripe (processedStripe c + 1)
                                          (set_inFlight false c)) wr)))
        with (is_nStripe (processedStripe (ctx wr) + 1) (ctx wr)) in Hu.
      unfold is_nStripe in Hu. rewrite Nr, Hn, Pr in Hu.
      destruct (Z.eqb_spec (processedStripe (ctx w) + 1) n); [| contradiction].
      inversion Hu; subst w'; clear Hu.
      destruct Hr as (_ & _ & _ & _ & Rp & Rc & Ri).
      split; [reflexivity |]. split; [simpl; rewrite Wr; apply Hf, Fw |].
      repeat split; assumption.
Qed.

Lemma run_completes (op : Operation) (events : list Event) :
  op <> Encoding ->
  forall w w',
    sound op w -> flying_ok w -> submitted w = processedStripe (ctx w) ->
    completes_ok w ->
    run junk rs op w events = Ok w' -> completes_ok w'.
Proof.
  intros Hop. induction events as [| e events IH]; intros w w' Hs Hf Hb Hc H; simpl in H.
  - inversion H; subst. exact Hc.
  - destruct (step_sound junk rs op w e Hs) as (w1 & E & Hs1).
    rewrite E in H. simpl in H.
    destruct (step_flight junk rs op w w1 e Hs Hf Hb E) as [Hf1 Hb1].
    apply (IH w1 w' Hs1 Hf1 Hb1); [| exact H].
    apply (step_completes op w w1 e Hop Hs Hf Hc E).
Qed.

(** X8. A decode or a repair of an object of at least one stripe never
    processes more stripes than the object has; end-of-stream is signalled
    when it has processed them all and not before; and from then on it is
    inert: whatever happens next, the stripe counter stays where it is and
    nothing reaches the outputs but the error of an input that fails, so
    nothing is read, handed to the primitive or written any more. *)
Theorem completion_final (op : Operation) (w0 w : World) (events : list Event) (n : Z) :
  op <> Encoding -> started junk op w0 ->
  nStripe (ctx w0) = Some n -> 0 < n ->
  run junk rs op w0 events = Ok w ->
  0 <= processedStripe (ctx w) <= n
  /\ (forall lane, In (Emit_end lane) (trace w) -> processedStripe (ctx w) = n)
  /\ (processedStripe (ctx w) = n ->
      forall more w',
        run junk rs op w more = Ok w' ->
        processedStripe (ctx w') = n
        /\ exists new, trace w' = trace w ++ new /\ forallb is_error new = true).
Proof.
  intros Hop Hs Hn Hpos Hr.
  destruct (started_flight junk op w0 Hs) as [Hf Hb].
  destruct (started_shape junk op w0 Hs) as ((P0 & _) & _).
  assert (Hc0 : completes_ok w0).
  { intros n' Hn' Hpos'. rewrite P0. split; [lia | intros C; lia]. }
  assert (Hc := run_completes op events Hop w0 w (started_sound junk op w0 Hs)
                              Hf Hb Hc0 Hr).
  assert (Hfr : nStripe (ctx w) = Some n).
  { apply frame_run in Hr. destruct Hr as (_ & _ & _ & _ & _ & _ & _ & _ & Fn & _).
    congruence. }
  destruct (Hc n Hfr Hpos) as [Hle Hfin].
  destruct (signals_run junk rs op events w0 w Hr (started_signals junk op w0 Hs))
    as [(Hp & He) _].
  split; [lia |]. split.
  - intros lane Hin.
    destruct He as [Hq | (_ & n' & Hn' & Hb')].
    + assert (H : In (Emit_end lane) (filter is_end (trace w)))
        by (apply filter_In; auto).
      rewrite Hq in H. destruct H.
    + assert (n' = n) by congruence. lia.
  - intros Heq more w' Hm.
    destruct (finished_run op more Hop w w' (Hfin Heq) Hm) as (_ & P & Hnew).
    split; [congruence | exact Hnew].
Qed.

(** ** Nowhere to write *)

Lemma repairWrites_none (okf : nat -> bool) (lanes : list nat) :
  forall w w',
    live (ostreams (ctx w)) = [] ->
    repairWrites lanes okf w = Ok w' -> w' = w.
Proof.
  induction lanes as [| i lanes IH]; intros w w' Hl H; simpl in H.
  - inversion H; subst. reflexivity.
  - destruct (Js.band (targets (ctx w)) (Js.shl 1 (Z.of_nat i)) =? 0);
      [apply IH; assumption |].
    destruct (nth_error (ostreams (ctx w)) i) as [[s |] |] eqn:Es; try discriminate.
    exfalso.
    assert (Hin : In i (live (ostreams (ctx w))))
      by (apply live_present; rewrite present_spec, Es; reflexivity).
    rewrite Hl in Hin. destruct Hin.
Qed.

(** No output holds a stream, and no callback of a dispatch step is
    outstanding. *)
Lemma step_stalls (op : Operation) (w w' : World) (e : Event) :
  op <> Encoding -> primitive_succeeds e = true ->
  live (ostreams (ctx w)) = [] -> callbacks w = 0%nat -> immediates w = 0%nat ->
  step junk rs op w e = Ok w' ->
  live (ostreams (ctx w')) = [] /\ callbacks w' = 0%nat /\ immediates w' = 0%nat
  /\ processedStripe (ctx w') = processedStripe (ctx w)
  /\ count is_write (trace w') = count is_write (trace w).
Proof.
  intros Hop Hok Hl Hc Hi H.
  assert (Hcont : forall (w1 w2 : World) new,
             continues w1 new w2 -> filter is_write new = [] ->
             ostreams (ctx w2) = ostreams (ctx w1)
             /\ processedStripe (ctx w2) = processedStripe (ctx w1)
             /\ count is_write (trace w2) = count is_write (trace w1)).
  { intros w1 w2 new (Ht & Hf & Hp & _) Hq.
    split; [apply Hf |]. split; [exact Hp |].
    rewrite Ht, count_app. unfold count at 2. rewrite Hq. simpl. lia. }
  assert (Hdisp : forall okf w1,
             live (ostreams (ctx w1)) = [] -> callbacks w1 = 0%nat ->
             immediates w1 = 0%nat ->
             dispatcher junk op None okf w1 = Ok w' ->
             live (ostreams (ctx w')) = [] /\ callbacks w' = 0%nat /\ immediates w' = 0%nat
             /\ processedStripe (ctx w') = processedStripe (ctx w1)
             /\ count is_write (trace w') = count is_write (trace w1)).
  { intros okf w1 Hl1 Hc1 Hi1 Hd.
    destruct op; [congruence | |]; simpl in Hd.
    - rewrite Hl1 in Hd. simpl in Hd. inversion Hd; subst; clear Hd. simpl. auto.
    - destruct (repairWrites _ okf (set_nPending 1 w1)) as [w2 |] eqn:E; simpl in Hd;
        [| discriminate].
      apply repairWrites_none in E; [| exact Hl1]. subst w2.
      inversion Hd; subst; clear Hd. simpl. auto. }
  destruct e as [i | i chunk | i | i err | err okf | |]; simpl in H.
  - destruct (listener_callbacks op i w w' H) as (C1 & I1 & _).
    apply listener_continues in H. destruct H as (new & Hcn & Hf).
    destruct (fill_quiet new Hf) as (_ & _ & Hq).
    destruct (Hcont _ _ _ Hcn Hq) as (O & P & Wr).
    rewrite O. repeat split; congruence.
  - inversion H; subst.
    destruct (map_lane_bookkeeping (push_chunk chunk) i w) as (T & P & C1 & I1 & _).
    assert (O : ostreams (ctx (map_lane (push_chunk chunk) i w)) = ostreams (ctx w))
      by (unfold map_lane; destruct (nth_error _ i); reflexivity).
    rewrite O, T. repeat split; congruence.
  - inversion H; subst.
    destruct (map_lane_bookkeeping push_end i w) as (T & P & C1 & I1 & _).
    assert (O : ostreams (ctx (map_lane push_end i w)) = ostreams (ctx w))
      by (unfold map_lane; destruct (nth_error _ i); reflexivity).
    rewrite O, T. repeat split; congruence.
  - destruct (existsb (Nat.eqb i) (errorListeners w)); inversion H; subst;
      [| repeat split; assumption].
    match goal with
    | |- context [Context.error err ?w1] =>
        assert (Hctx := error_ctx err w1);
          assert (E := error_spec err w1);
          assert (K : callbacks (Context.error err w1) = callbacks w
                      /\ immediates (Context.error err w1) = immediates w)
          by (unfold Context.error; destruct (inputError (ctx w1)); split; reflexivity)
    end.
    destruct K as (K1 & K2).
    rewrite Hctx. simpl. split; [exact Hl |]. split; [congruence |].
    split; [congruence |]. split; [reflexivity |].
    simpl in E. destruct (inputError (ctx w)); [rewrite E; reflexivity |].
    destruct E as (-> & _). rewrite Hl. simpl. rewrite app_nil_r. reflexivity.
  - destruct (primitive w) as [| n]; [inversion H; subst; repeat split; assumption |].
    destruct (targets (ctx w) =? 0);
      [apply (Hdisp okf (set_primitive n w) Hl Hc Hi H) |].
    destruct err as [err |]; [discriminate |].
    destruct (primitive_result_spec rs (ctx w)) as (E & _).
    apply Hdisp in H; simpl; try assumption.
    + destruct H as (A & B & C & D & F). simpl in D.
      rewrite E in D. simpl in D. auto.
    + rewrite E. simpl. exact Hl.
  - rewrite Hc in H. inversion H; subst. repeat split; assumption.
  - rewrite Hi in H. inversion H; subst. repeat split; assumption.
Qed.

Lemma run_stalls (op : Operation) (events : list Event) :
  op <> Encoding ->
  forall w w',
    Forall (fun e => primitive_succeeds e = true) events ->
    live (ostreams (ctx w)) = [] -> callbacks w = 0%nat -> immediates w = 0%nat ->
    run junk rs op w events = Ok w' ->
    processedStripe (ctx w') = processedStripe (ctx w)
    /\ count is_write (trace w') = count is_write (trace w).
Proof.
  intros Hop. induction events as [| e events IH]; intros w w' Hok Hl Hc Hi H; simpl in H.
  - inversion H; subst. auto.
  - destruct (step junk rs op w e) as [w1 |] eqn:E; simpl in H; [| discriminate].
    apply Forall_cons_iff in Hok. destruct Hok as [Hok1 Hok].
    destruct (step_stalls op w w1 e Hop Hok1 Hl Hc Hi E) as (L1 & C1 & I1 & P1 & W1).
    destruct (IH w1 w' Hok L1 C1 I1 H) as (P2 & W2).
    split; congruence.
Qed.

(** X9. A decode without an output stream, or a repair that is asked for
    no lane, starts and reads like any other, but it never gets past its
    first stripe: a dispatch step that writes nothing registers no callback,
    so that [unref] is never called. As long as the primitive reports no
    failure, no stripe is counted as processed, at most one is handed over,
    and neither a write nor end-of-stream ever happens. *)
Theorem no_output_stalls (op : Operation) (w0 w : World) (events : list Event) :
  op <> Encoding -> started junk op w0 ->
  live (ostreams (ctx w0)) = [] ->
  Forall (fun e => primitive_succeeds e = true) events ->
  run junk rs op w0 events = Ok w ->
  processedStripe (ctx w) = 0
  /\ (count is_submission (trace w) <= 1)%nat
  /\ count is_write (trace w) = 0%nat
  /\ count is_end (trace w) = 0%nat.
Proof.
  intros Hop Hs Hl Hok Hr.
  destruct (started_shape junk op w0 Hs) as ((P0 & _) & _ & C0 & I0 & Ht).
  destruct (run_stalls op events Hop w0 w Hok Hl C0 I0 Hr) as (P & Wr).
  destruct (started_flight junk op w0 Hs) as [Hf Hb].
  destruct (run_flight junk rs op events w0 w (started_sound junk op w0 Hs) Hf Hb Hr)
    as [_ B].
  assert (Ho : ostreams (ctx w) = ostreams (ctx w0)).
  { apply frame_run in Hr. apply Hr. }
  split; [congruence |].
  split; [unfold submitted in B; destruct (inFlight (ctx w)); lia |].
  split.
  - rewrite Wr. destruct Ht as [(_ & Hq) | (err & _ & -> & _)].
    + unfold count. rewrite (filter_none is_setup); [reflexivity | | exact Hq].
      intros e He. destruct e; try discriminate; reflexivity.
    + rewrite Hl. reflexivity.
  - destruct (signals_run junk rs op events w0 w Hr (started_signals junk op w0 Hs))
      as [(_ & He) _].
    unfold count. destruct He as [-> | (-> & _)]; [reflexivity |].
    rewrite Ho, Hl. reflexivity.
Qed.

End Completion.


(** ** The size of the lanes written *)

Lemma lane_slice_length (c : DencodeContext) (i : nat) :
  geometry_ok c -> roomy c -> Z.of_nat i < k c + m c ->
  Z.of_nat (List.length (lane_slice c i)) = stripeSize c.
Proof.
  intros (G1 & G2 & G3 & G4 & G5) (R1 & R2) Hi.
  unfold lane_slice.
  set (Sn := Z.to_nat (stripeSize c)).
  assert (ES : stripeSize c = Z.of_nat Sn) by (unfold Sn; lia).
  destruct (Z.ltb_spec (Z.of_nat i) (k c)) as [A | A].
  - rewrite ES, buf_slice_piece, piece_length; [nia | nia].
  - replace (Z.of_nat i - k c) with (Z.of_nat (i - Z.to_nat (k c))) by lia.
    rewrite ES, buf_slice_piece, piece_length; [nia | nia].
Qed.

Lemma written_writes (f : nat -> bytes) (j : nat) (l : list nat) :
  NoDup l ->
  written j (map (fun i => Write i (f i)) l)
  = if existsb (Nat.eqb j) l then f j else [].
Proof.
  induction l as [| a l IH]; intros Hn; [reflexivity |].
  apply NoDup_cons_iff in Hn. destruct Hn as [Ha Hn].
  simpl map. rewrite written_write, (IH Hn). simpl existsb.
  rewrite (Nat.eqb_sym j a).
  destruct (Nat.eqb_spec a j) as [-> | Hne]; simpl; [| reflexivity].
  destruct (existsb (Nat.eqb j) l) eqn:E; [| apply app_nil_r].
  apply existsb_exists in E. destruct E as (x & Hx & Ex).
  apply Nat.eqb_eq in Ex. subst x. contradiction.
Qed.

Lemma existsb_seq (j n : nat) : existsb (Nat.eqb j) (seq 0 n) = (j <? n)%nat.
Proof.
  destruct (Nat.ltb_spec j n) as [A | A].
  - apply existsb_exists. exists j. split; [apply in_seq; lia | apply Nat.eqb_refl].
  - destruct (existsb (Nat.eqb j) (seq 0 n)) eqn:E; [| reflexivity].
    apply existsb_exists in E. destruct E as (x & Hx & Ex).
    apply Nat.eqb_eq in Ex. subst x. apply in_seq in Hx. lia.
Qed.

Lemma existsb_filter_seq (p : nat -> bool) (j n : nat) :
  existsb (Nat.eqb j) (filter p (seq 0 n)) = (j <? n)%nat && p j.
Proof.
  destruct (existsb (Nat.eqb j) (filter p (seq 0 n))) eqn:E.
  - apply existsb_exists in E. destruct E as (x & Hx & Ex).
    apply Nat.eqb_eq in Ex. subst x. apply filter_In in Hx. destruct Hx as [Hx ->].
    apply in_seq in Hx. symmetry. rewrite andb_true_r. apply Nat.ltb_lt. lia.
  - destruct (Nat.ltb_spec j n) as [A | A]; [| reflexivity].
    destruct (p j) eqn:Ep; [| reflexivity].
    assert (H : existsb (Nat.eqb j) (filter p (seq 0 n)) = true).
    { apply existsb_exists. exists j. split; [| apply Nat.eqb_refl].
      apply filter_In. split; [apply in_seq; lia | exact Ep]. }
    congruence.
Qed.

(** The writes of the dispatch step of a repair, lane by lane. *)
Lemma repairWrites_trace (okf : nat -> bool) (lanes : list nat) :
  forall w w',
    repairWrites lanes okf w = Ok w' ->
    trace w' = trace w ++ map (fun i => Write i (lane_slice (ctx w) i))
                              (filter (targeted (ctx w)) lanes)
    /\ writes_only w w'
    /\ (callbacks w + List.length (filter (targeted (ctx w)) lanes) <= callbacks w')%nat.
Proof.
  induction lanes as [| i lanes IH]; intros w w' H; simpl in H.
  - inversion H; subst w'. simpl. rewrite app_nil_r, Nat.add_0_r.
    split; [reflexivity |]. split; [apply writes_only_refl | lia].
  - assert (Et : targeted (ctx w) i
                 = negb (Js.band (targets (ctx w)) (Js.shl 1 (Z.of_nat i)) =? 0))
      by reflexivity.
    simpl filter. rewrite Et.
    destruct (Js.band (targets (ctx w)) (Js.shl 1 (Z.of_nat i)) =? 0); simpl negb; cbv iota.
    + apply IH, H.
    + destruct (nth_error (ostreams (ctx w)) i) as [[s |] |]; try discriminate.
      apply IH in H. destruct H as (T & C & L).
      destruct (write_one_spec 2 i (lane_slice (ctx w) i) (okf i) w) as [W _].
      assert (C' := writes_only_trans _ _ _ W C).
      unfold write_one in *.
      destruct (okf i) eqn:Eo; simpl in *.
      * split; [rewrite T, <- app_assoc; reflexivity |]. split; [exact C' | lia].
      * split; [rewrite T, <- app_assoc; reflexivity |]. split; [exact C' | lia].
Qed.

Lemma buf_fill0_length (buf : bytes) (start : Z) :
  (Z.to_nat start <= List.length buf)%nat ->
  List.length (buf_fill0 buf start) = List.length buf.
Proof.
  intros H. unfold buf_fill0. rewrite length_app, length_firstn, repeat_length. lia.
Qed.

Lemma submit_ctx (w w' : World) :
  (w1 <- Context.ref w ;; Context.encode w1) = Ok w' ->
  ctx w' = set_inFlight true (ctx w).
Proof.
  unfold Context.ref, Context.encode. intros H.
  destruct (waiting (ctx w) =? 0); simpl in H; [| discriminate].
  destruct (targets (ctx w) =? 0); inversion H; subst; reflexivity.
Qed.

Lemma encodeBufferStep_roomy (i : nat) (w w' : World) :
  roomy (ctx w) -> encodeBufferStep i w = Ok w' -> roomy (ctx w').
Proof.
  unfold encodeBufferStep. intros (R1 & R2) H.
  destruct (Context.wait w); [inversion H; subst; split; assumption |].
  destruct (nth_error (istreams (ctx w)) i) as [[s |] |] eqn:Es; try discriminate.
  match type of H with
  | context [stream_read ?n s] => destruct (stream_read n s) as [[dataBytes |] s']
  end.
  - apply submit_ctx in H. rewrite H. unfold roomy. simpl.
    destruct (Z.ltb_spec (Z.of_nat (List.length dataBytes)) (data_size (ctx w))) as [A | A];
      simpl; (split; [| exact R2]).
    + rewrite buf_fill0_length; rewrite ?length_app, ?length_firstn, ?length_skipn; lia.
    + lia.
  - inversion H; subst. split; assumption.
Qed.

Lemma listener_roomy (i : nat) (w w' : World) :
  roomy (ctx w) -> listener Encoding i w = Ok w' -> roomy (ctx w').
Proof.
  unfold listener. intros R H.
  destruct (existsb (Nat.eqb i) (readers w)); [| inversion H; subst; exact R].
  apply (encodeBufferStep_roomy i w w' R H).
Qed.

Lemma wake_roomy (lanes : list nat) :
  forall w w',
    roomy (ctx w) -> Context.wake (listener Encoding) lanes w = Ok w' -> roomy (ctx w').
Proof.
  induction lanes as [| i lanes IH]; intros w w' R H; simpl in H.
  - inversion H; subst. exact R.
  - destruct (listener Encoding i (log (Emit_readable i) w)) as [w1 |] eqn:E; simpl in H;
      [| discriminate].
    apply (IH w1 w'); [| exact H]. apply (listener_roomy i (log (Emit_readable i) w) w1 R E).
Qed.

Lemma unref_roomy (junk : nat -> Byte.byte) (w w' : World) :
  roomy (ctx w) -> unref junk Encoding w = Ok w' -> roomy (ctx w').
Proof.
  unfold unref. intros R H. apply unref_inv in H. cbv zeta in H.
  match type of H with
  | (if ?c then _ else _) = _ => destruct c
  end.
  - inversion H; subst. exact R.
  - apply wake_roomy in H; [exact H |].
    unfold roomy. simpl. rewrite !heap_bytes_length. lia.
Qed.

Lemma sound_roomy (op : Operation) (w : World) :
  op <> Encoding -> sound op w -> roomy (ctx w).
Proof.
  intros Hop (_ & _ & _ & Hb & _).
  destruct op; [congruence | |]; destruct Hb as (_ & A & B); unfold roomy; lia.
Qed.

Lemma written_error (j : nat) (err : Error) (w : World) :
  written j (trace (Context.error err w)) = written j (trace w).
Proof.
  unfold Context.error. destruct (inputError (ctx w)); [reflexivity |].
  simpl. rewrite written_app, written_errors, app_nil_r. reflexivity.
Qed.

Lemma dispatched_to_frame (op : Operation) (c c' : DencodeContext) (j : nat) :
  same_frame c c' -> dispatched_to op c' j = dispatched_to op c j.
Proof.
  intros (_ & _ & _ & _ & _ & _ & _ & Ft & _ & Fo & _).
  unfold dispatched_to, targeted. rewrite Ft, Fo. reflexivity.
Qed.

Section Dispatching.

Variable junk : nat -> Byte.byte.
Variable rs : Z -> Z -> Z -> Z -> bytes -> bytes -> nat -> bytes.

Lemma step_roomy (op : Operation) (w w' : World) (e : Event) :
  sound op w -> roomy (ctx w) -> step junk rs op w e = Ok w' -> roomy (ctx w').
Proof.
  intros Hs R H.
  destruct (step_sound junk rs op w e Hs) as (x & Ex & Hx).
  assert (x = w') by congruence. subst x.
  assert (Hop : op <> Encoding -> roomy (ctx w'))
    by (intros Hop; apply (sound_roomy op w' Hop Hx)).
  destruct op; [| apply Hop; discriminate | apply Hop; discriminate]. clear Hop.
  assert (Hdisp : forall err okf w1,
             roomy (ctx w1) -> dispatcher junk Encoding err okf w1 = Ok w' ->
             roomy (ctx w')).
  { intros err okf w1 R1 Hd. destruct err as [err |].
    - rewrite dispatch_failure in Hd. apply unref_roomy in Hd; [exact Hd |].
      rewrite error_ctx. exact R1.
    - apply dispatch_writes_only in Hd. destruct Hd as (-> & _). exact R1. }
  destruct e as [i | i chunk | i | i err | err okf | |]; unfold step in H.
  - apply (listener_roomy i w w' R H).
  - inversion H; subst. unfold map_lane.
    destruct (nth_error (istreams (ctx w)) i); exact R.
  - inversion H; subst. unfold map_lane.
    destruct (nth_error (istreams (ctx w)) i); exact R.
  - destruct (existsb (Nat.eqb i) (errorListeners w)); inversion H; subst;
      [rewrite error_ctx |]; exact R.
  - destruct (primitive w) as [| n]; [inversion H; subst; exact R |].
    destruct (targets (ctx w) =? 0); [apply (Hdisp None okf (set_primitive n w) R H) |].
    destruct err as [err |]; [apply (Hdisp (Some err) okf (set_primitive n w) R H) |].
    apply (Hdisp None okf) in H; [exact H |].
    destruct (primitive_result_spec rs (ctx w)) as (E & L1 & L2).
    destruct R as [R1 R2]. unfold roomy. simpl. rewrite L1, L2, E. simpl.
    split; assumption.
  - destruct (callbacks w) as [| n]; [inversion H; subst; exact R |].
    cbn [nPending set_nPending set_callbacks] in H.
    destruct (nPending w - 1 =? 0); [| inversion H; subst; exact R].
    apply unref_roomy in H; exact H || exact R.
  - destruct (immediates w) as [| n]; [inversion H; subst; exact R |].
    apply unref_roomy in H; exact H || exact R.
Qed.

(** What the dispatch step of a stripe that was computed writes, lane by
    lane. *)
Lemma dispatch_dispatches (op : Operation) (w w' : World) (err : option Error)
      (okf : nat -> bool) :
  op <> Decoding -> dispatches op w -> primitive w <> 0%nat ->
  primitive_succeeds (Primitive_done err okf) = true ->
  step junk rs op w (Primitive_done err okf) = Ok w' ->
  callbacks w = 0%nat /\ immediates w = 0%nat /\ immediates w' = 0%nat
  /\ processedStripe (ctx w') = processedStripe (ctx w)
  /\ forall j,
      exists chunk,
        written j (trace w') = written j (trace w) ++ chunk
        /\ if dispatched_to op (ctx w) j
           then Z.of_nat (List.length chunk) = stripeSize (ctx w) /\ callbacks w' <> 0%nat
           else chunk = [].
Proof.
  intros Hop (Hs & R & Ho) Hp Hok H.
  pose proof Hs as (Hg & _ & _ & _ & J1 & _ & J3 & _).
  assert (Ep : primitive w = 1%nat) by lia.
  destruct (J3 Ep) as [Hc Hi].
  split; [exact Hc |]. split; [exact Hi |].
  assert (Hx : exists wx,
             step junk rs op w (Primitive_done err okf)
             = dispatcher junk op None okf wx
             /\ buffers_only (ctx w) (ctx wx) /\ trace wx = trace w
             /\ callbacks wx = 0%nat /\ immediates wx = 0%nat).
  { simpl. rewrite Ep. destruct (targets (ctx w) =? 0).
    - exists (set_primitive 0 w). split; [reflexivity |].
      split; [apply buffers_only_refl | repeat split; assumption].
    - destruct err as [err |]; [discriminate |].
      exists (upd_ctx (primitive_result rs) (set_primitive 0 w)). split; [reflexivity |].
      split; [apply (primitive_result_spec rs) | repeat split; assumption]. }
  destruct Hx as (wx & Ex & Hbo & Tx & Cx & Ix).
  rewrite Ex in H. clear Ex.
  assert (Hgx : geometry_ok (ctx wx)) by (eapply buffers_only_geometry; eassumption).
  pose proof Hbo as (E & L1 & L2).
  assert (Rx : roomy (ctx wx)).
  { destruct R as [R1 R2]. unfold roomy. rewrite L1, L2, E. simpl. split; assumption. }
  assert (Eo : ostreams (ctx wx) = ostreams (ctx w)) by (rewrite E; reflexivity).
  assert (Et : targets (ctx wx) = targets (ctx w)) by (rewrite E; reflexivity).
  assert (Ek : k (ctx wx) + m (ctx wx) = k (ctx w) + m (ctx w)) by (rewrite E; reflexivity).
  assert (ES : stripeSize (ctx wx) = stripeSize (ctx w)) by (rewrite E; reflexivity).
  assert (EP : processedStripe (ctx wx) = processedStripe (ctx w))
    by (rewrite E; reflexivity).
  assert (Hlen : forall j, (j < List.length (ostreams (ctx w)))%nat ->
                           Z.of_nat (List.length (lane_slice (ctx wx) j)) = stripeSize (ctx w)).
  { intros j Hj. rewrite <- ES. apply lane_slice_length; [assumption | assumption | lia]. }
  destruct op; [| congruence |]; simpl in H.
  - apply encodeWrites_trace in H. destruct H as (T & (Ec & _ & _ & _ & Ei) & L & _).
    simpl in T, Ec, Ei, L. rewrite length_seq in L.
    split; [rewrite Ei; exact Ix |]. split; [rewrite Ec; exact EP |].
    intros j. eexists. split.
    + rewrite T, Tx, written_app. reflexivity.
    + rewrite written_writes by apply seq_NoDup.
      rewrite existsb_seq, Eo. unfold dispatched_to. rewrite andb_true_r.
      destruct (Nat.ltb_spec j (List.length (ostreams (ctx w)))) as [A | A];
        [| reflexivity].
      split; [apply Hlen, A | rewrite Eo in L; lia].
  - destruct (repairWrites _ okf (set_nPending 1 wx)) as [w1 |] eqn:Er; simpl in H;
      [| discriminate].
    inversion H; subst w'; clear H.
    apply repairWrites_trace in Er. destruct Er as (T & (Ec & _ & _ & _ & Ei) & L).
    simpl in T, Ec, Ei, L.
    split; [simpl; rewrite Ei; exact Ix |]. split; [simpl; rewrite Ec; exact EP |].
    intros j. eexists. split.
    + simpl. rewrite T, Tx, written_app. reflexivity.
    + rewrite written_writes by (apply NoDup_filter, seq_NoDup).
      rewrite existsb_filter_seq, Eo. unfold dispatched_to.
      replace (targeted (ctx wx) j) with (targeted (ctx w) j)
        by (unfold targeted; rewrite Et; reflexivity).
      destruct ((j <? List.length (ostreams (ctx w)))%nat && targeted (ctx w) j) eqn:Ej;
        [| reflexivity].
      apply andb_prop in Ej. destruct Ej as [A B]. apply Nat.ltb_lt in A.
      split; [apply Hlen, A |]. simpl.
      assert (Hin : In j (filter (targeted (ctx wx)) (seq 0 (List.length (ostreams (ctx wx)))))).
      { apply filter_In. split; [apply in_seq; rewrite Eo; lia |].
        unfold targeted. rewrite Et. exact B. }
      destruct (filter _ _) as [| a l]; [destruct Hin |]. simpl in L. lia.
Qed.

Lemma step_dispatches (op : Operation) (w w' : World) (e : Event) (j : nat) :
  op <> Decoding -> dispatches op w -> primitive_succeeds e = true ->
  step junk rs op w e = Ok w' ->
  dispatches op w' /\ (lane_balance op j w -> lane_balance op j w').
Proof.
  intros Hop Hd He H.
  assert (Hrun : run junk rs op w [e] = Ok w') by (simpl; rewrite H; reflexivity).
  assert (Hfr := frame_run junk rs op [e] w w' Hrun).
  pose proof Hd as (Hs & R & Ho).
  assert (Hs' : sound op w').
  { destruct (step_sound junk rs op w e Hs) as (x & Ex & Hx). congruence. }
  split.
  { split; [exact Hs' |]. split; [apply (step_roomy op w w' e Hs R H) |].
    destruct Hfr as (F1 & F2 & _ & _ & _ & _ & _ & _ & _ & F10 & _). congruence. }
  unfold lane_balance. rewrite (dispatched_to_frame op _ _ j Hfr).
  destruct Hfr as (_ & _ & F3 & _). rewrite F3.
  destruct (dispatched_to op (ctx w) j) eqn:Ej.
  2:{ (* a lane that is not written to *)
    intros Hb.
    assert (Hq : forall new, filter is_write new = [] ->
                             trace w' = trace w ++ new ->
                             Z.of_nat (List.length (written j (trace w'))) = 0).
    { intros new Q T. rewrite T, written_app, (written_quiet j new Q), app_nil_r. exact Hb. }
    destruct e as [i | i chunk | i | i err | err okf | |].
    - simpl in H. destruct (listener_continues op i w w' H) as (new & (T & _) & Fn).
      apply (Hq new); [apply (fill_quiet new Fn) | exact T].
    - simpl in H. inversion H; subst w'.
      rewrite (proj1 (map_lane_bookkeeping _ i w)). exact Hb.
    - simpl in H. inversion H; subst w'.
      rewrite (proj1 (map_lane_bookkeeping _ i w)). exact Hb.
    - simpl in H. destruct (existsb (Nat.eqb i) (errorListeners w)); inversion H; subst w';
        [rewrite written_error |]; exact Hb.
    - destruct (primitive w) as [| p0] eqn:Ep;
        [simpl in H; rewrite Ep in H; inversion H; subst w'; exact Hb |].
      destruct (dispatch_dispatches op w w' err okf Hop Hd ltac:(lia) He H)
        as (_ & _ & _ & _ & Hw).
      destruct (Hw j) as (chunk & -> & Hc). rewrite Ej in Hc. subst chunk.
      rewrite app_nil_r. exact Hb.
    - simpl in H. destruct (callbacks w) as [| c0] eqn:Ec;
        [inversion H; subst w'; exact Hb |].
      simpl in H. destruct (nPending w - 1 =? 0); [| inversion H; subst w'; exact Hb].
      destruct op; [| congruence | inversion H; subst w'; exact Hb].
      destruct (unref_advances junk Encoding _ _ H) as (new & (T & _) & Hnew).
      apply (Hq new); [| exact T].
      destruct (is_nStripe _ _).
      + destruct Hnew as [-> _]. clear. induction (live _); [reflexivity | assumption].
      + destruct Hnew as [_ Hr]. apply (refill_quiet new Hr).
    - simpl in H. destruct (immediates w) as [| c0] eqn:Ec;
        [inversion H; subst w'; exact Hb |].
      destruct (unref_advances junk op _ _ H) as (new & (T & _) & Hnew).
      apply (Hq new); [| exact T].
      destruct (is_nStripe _ _).
      + destruct Hnew as [-> _]. clear. induction (live _); [reflexivity | assumption].
      + destruct Hnew as [_ Hr]. apply (refill_quiet new Hr). }
  intros Hb.
  assert (Hsame : forall new,
             filter is_write new = [] -> trace w' = trace w ++ new ->
             stripes_dispatched w' = stripes_dispatched w ->
             Z.of_nat (List.length (written j (trace w')))
             = stripeSize (ctx w) * stripes_dispatched w').
  { intros new Q T D. rewrite T, written_app, (written_quiet j new Q), app_nil_r, D.
    exact Hb. }
  assert (Hunref : forall wr,
             trace wr = trace w -> processedStripe (ctx wr) = processedStripe (ctx w) ->
             callbacks wr = 0%nat -> immediates wr = 0%nat ->
             stripes_dispatched w = processedStripe (ctx w) + 1 ->
             unref junk op wr = Ok w' ->
             Z.of_nat (List.length (written j (trace w')))
             = stripeSize (ctx w) * stripes_dispatched w').
  { intros wr Tr Pr Cr Ir D Hu.
    destruct (unref_callbacks _ _ _ _ Hu) as (C & I & _).
    destruct (unref_advances junk op _ _ Hu) as (new & (T & _ & P & _) & Hnew).
    apply (Hsame new).
    - destruct (is_nStripe _ _).
      + destruct Hnew as [-> _]. clear. induction (live _); [reflexivity | assumption].
      + destruct Hnew as [_ Hr]. apply (refill_quiet new Hr).
    - rewrite T, Tr. reflexivity.
    - rewrite D. unfold stripes_dispatched. rewrite C, I, Cr, Ir, P, Pr. simpl. lia. }
  destruct e as [i | i chunk | i | i err | err okf | |].
  - simpl in H. destruct (listener_continues op i w w' H) as (new & (T & _ & P & _) & Fn).
    destruct (listener_callbacks _ _ _ _ H) as (C & I & _).
    apply (Hsame new); [apply (fill_quiet new Fn) | exact T |].
    unfold stripes_dispatched. rewrite P, C, I. reflexivity.
  - simpl in H. inversion H; subst w'.
    destruct (map_lane_bookkeeping (push_chunk chunk) i w) as (T & P & C & I & _).
    apply (Hsame []); [reflexivity | rewrite T; symmetry; apply app_nil_r |].
    unfold stripes_dispatched. rewrite P, C, I. reflexivity.
  - simpl in H. inversion H; subst w'.
    destruct (map_lane_bookkeeping push_end i w) as (T & P & C & I & _).
    apply (Hsame []); [reflexivity | rewrite T; symmetry; apply app_nil_r |].
    unfold stripes_dispatched. rewrite P, C, I. reflexivity.
  - simpl in H. destruct (existsb (Nat.eqb i) (errorListeners w)); inversion H; subst w';
      [| exact Hb].
    rewrite written_error.
    match goal with
    | |- context [Context.error err ?x] =>
        destruct (error_bookkeeping err x) as (_ & P & C & I & _)
    end.
    unfold stripes_dispatched. rewrite P, C, I. exact Hb.
  - destruct (primitive w) as [| p0] eqn:Ep;
      [simpl in H; rewrite Ep in H; inversion H; subst w'; exact Hb |].
    destruct (dispatch_dispatches op w w' err okf Hop Hd ltac:(lia) He H)
      as (C & I & I' & P & Hw).
    destruct (Hw j) as (chunk & -> & Hc). rewrite Ej in Hc. destruct Hc as [Hl Hc].
    rewrite length_app, Nat2Z.inj_add, Hb, Hl.
    unfold stripes_dispatched. rewrite C, I, I', P. simpl.
    destruct (callbacks w'); [congruence |]. simpl. lia.
  - simpl in H. destruct (callbacks w) as [| c0] eqn:Ec;
      [inversion H; subst w'; exact Hb |].
    pose proof Hs as (_ & _ & _ & _ & _ & _ & _ & J4 & _).
    destruct J4 as [Jn Ji]; [rewrite Ec; discriminate |].
    simpl in H. destruct c0 as [| c1].
    + replace (nPending w - 1 =? 0) with true in H
        by (symmetry; apply Z.eqb_eq; rewrite Jn, Ec; reflexivity).
      assert (D : stripes_dispatched w = processedStripe (ctx w) + 1)
        by (unfold stripes_dispatched; rewrite Ec; reflexivity).
      destruct op; [| congruence |].
      * apply (Hunref (set_nPending (nPending w - 1) (set_callbacks 0 w))
                        eq_refl eq_refl eq_refl Ji D H).
      * inversion H; subst w'. simpl. rewrite Hb, D.
        unfold stripes_dispatched. simpl. reflexivity.
    + replace (nPending w - 1 =? 0) with false in H
        by (symmetry; apply Z.eqb_neq; rewrite Jn, Ec; lia).
      inversion H; subst w'. simpl. rewrite Hb.
      unfold stripes_dispatched. simpl. rewrite Ec. reflexivity.
  - simpl in H. destruct (immediates w) as [| c0] eqn:Ec;
      [inversion H; subst w'; exact Hb |].
    pose proof Hs as (_ & _ & _ & _ & _ & _ & _ & J4 & J5).
    assert (c0 = 0%nat) by lia. subst c0.
    assert (Hc : callbacks w = 0%nat).
    { destruct (callbacks w) eqn:Ecb; [reflexivity |].
      destruct J4 as [_ Ji]; [discriminate | lia]. }
    assert (D : stripes_dispatched w = processedStripe (ctx w) + 1)
      by (unfold stripes_dispatched; rewrite Ec, Hc; reflexivity).
    apply (Hunref (set_immediates 0 w) eq_refl eq_refl Hc eq_refl D H).
Qed.

Lemma run_dispatches (op : Operation) (events : list Event) (j : nat) :
  op <> Decoding ->
  forall w w',
    dispatches op w -> lane_balance op j w ->
    Forall (fun e => primitive_succeeds e = true) events ->
    run junk rs op w events = Ok w' ->
    dispatches op w' /\ lane_balance op j w'.
Proof.
  intros Hop. induction events as [| e events IH]; intros w w' Hd Hb Hf H; simpl in H.
  - inversion H; subst w'. auto.
  - destruct (step junk rs op w e) as [w1 |] eqn:E; simpl in H; [| discriminate].
    apply Forall_cons_iff in Hf. destruct Hf as [He Hf'].
    destruct (step_dispatches op w w1 e j Hop Hd He E) as [Hd1 Hb1].
    apply (IH w1 w' Hd1 (Hb1 Hb) Hf' H).
Qed.

(** Only a repair defers the call of [unref]. *)
Lemma step_immediates (op : Operation) (w w' : World) (e : Event) :
  op <> Repairing -> immediates w = 0%nat -> step junk rs op w e = Ok w' ->
  immediates w' = 0%nat.
Proof.
  intros Hop H0 H.
  assert (Hd : forall err okf y, immediates y = 0%nat ->
                                 dispatcher junk op err okf y = Ok w' ->
                                 immediates w' = 0%nat).
  { intros err okf y Hy Hd. destruct err as [err |].
    - rewrite dispatch_failure in Hd.
      destruct (unref_callbacks _ _ _ _ Hd) as (_ & I & _).
      destruct (error_bookkeeping err y) as (_ & _ & _ & I' & _). congruence.
    - apply dispatch_writes_only in Hd. destruct Hd as (_ & _ & _ & _ & I).
      congruence. }
  destruct e as [i | i chunk | i | i err | err okf | |]; unfold step in H.
  - destruct (listener_callbacks _ _ _ _ H) as (_ & I & _). congruence.
  - inversion H; subst.
    destruct (map_lane_bookkeeping (push_chunk chunk) i w) as (_ & _ & _ & I & _).
    congruence.
  - inversion H; subst.
    destruct (map_lane_bookkeeping push_end i w) as (_ & _ & _ & I & _).
    congruence.
  - destruct (existsb (Nat.eqb i) (errorListeners w)); inversion H; subst;
      [| exact H0].
    match goal with
    | |- context [Context.error err ?y] =>
        destruct (error_bookkeeping err y) as (_ & _ & _ & I & _)
    end.
    rewrite I. exact H0.
  - destruct (primitive w) as [| n]; [inversion H; subst; exact H0 |].
    destruct (targets (ctx w) =? 0); [apply (Hd None okf (set_primitive n w) H0 H) |].
    destruct err as [err |]; [apply (Hd (Some err) okf (set_primitive n w) H0 H) |].
    apply (Hd None okf (upd_ctx (primitive_result rs) (set_primitive n w)) H0 H).
  - destruct (callbacks w) as [| n]; [inversion H; subst; exact H0 |].
    cbn [nPending set_nPending set_callbacks] in H.
    destruct (nPending w - 1 =? 0); [| inversion H; subst; exact H0].
    destruct op; [| | congruence];
      destruct (unref_callbacks _ _ _ _ H) as (_ & I & _); simpl in I; congruence.
  - rewrite H0 in H. inversion H; subst. exact H0.
Qed.

Lemma run_immediates (op : Operation) (events : list Event) :
  op <> Repairing ->
  forall w w', immediates w = 0%nat -> run junk rs op w events = Ok w' ->
               immediates w' = 0%nat.
Proof.
  intros Hop. induction events as [| e events IH]; intros w w' H0 H; simpl in H.
  - inversion H; subst. exact H0.
  - destruct (step junk rs op w e) as [x |] eqn:E; simpl in H; [| discriminate].
    apply (IH x w'); [| exact H]. apply (step_immediates op w x e Hop H0 E).
Qed.

(** An operation that has just started has written nothing. *)
Lemma started_balance (op : Operation) (w0 : World) (j : nat) :
  started junk op w0 -> lane_balance op j w0 /\ stripes_dispatched w0 = 0.
Proof.
  intros Hs.
  destruct (started_shape junk op w0 Hs) as ((P & _) & _ & C & I & Ht).
  assert (D : stripes_dispatched w0 = 0)
    by (unfold stripes_dispatched; rewrite P, C, I; reflexivity).
  split; [| exact D].
  unfold lane_balance. rewrite D, Z.mul_0_r.
  assert (W : written j (trace w0) = []).
  { destruct Ht as [(_ & Hq) | (err & _ & -> & _)];
      [apply written_setup, Hq | apply written_errors]. }
  rewrite W. destruct (dispatched_to op (ctx w0) j); reflexivity.
Qed.

(** X10. An encode writes to all its lanes alike: as long as the
    primitive reports no failure, every output stream, data or parity, has
    received exactly [stripeSize] bytes for each stripe written, the last
    stripe of the object included, which is padded and never cut; an output
    of an encode that has processed [n] stripes holds [n * stripeSize]
    bytes. *)
Theorem encode_lane_sizes (instream : option Readable) (sz : Z)
        (dataOutStreams parityOutStreams : list (option Writable)) (hint : Z)
        (events : list Event) (w0 w : World) (lane : nat) :
  0 <= hint ->
  (forall i, (i < List.length (dataOutStreams ++ parityOutStreams))%nat ->
             present (dataOutStreams ++ parityOutStreams) (Z.of_nat i) = true) ->
  encode junk instream sz dataOutStreams parityOutStreams hint = Ok w0 ->
  Forall (fun e => primitive_succeeds e = true) events ->
  run junk rs Encoding w0 events = Ok w ->
  (lane < List.length dataOutStreams + List.length parityOutStreams)%nat ->
  let S := safeStripeSize (Z.of_nat (List.length dataOutStreams))
                          (Z.of_nat (List.length parityOutStreams)) hint in
  Z.of_nat (List.length (written lane (trace w))) = S * stripes_written w
  /\ (callbacks w = 0%nat ->
      Z.of_nat (List.length (written lane (trace w))) = S * processedStripe (ctx w)).
Proof.
  intros Hh Hp He Hok Hr Hl S.
  assert (Hs : started junk Encoding w0).
  { exists instream, sz, dataOutStreams, parityOutStreams, hint. auto. }
  assert (Hs0 := started_sound junk Encoding w0 Hs).
  destruct (started_balance Encoding w0 lane Hs) as [Hb0 _].
  destruct (started_shape junk Encoding w0 Hs) as (_ & _ & _ & I0 & _).
  unfold encode in He.
  match type of He with bind ?cr _ = _ => destruct cr as [c |] eqn:Ec end;
    simpl in He; [| discriminate].
  destruct instream as [s |]; [| discriminate]. inversion He; subst w0; clear He.
  destruct (create_fresh _ _ _ _ _ _ _ _ _ _ Ec) as (_ & _ & _ & Fo & _ & _ & FS).
  apply create_ok in Ec. destruct Ec as (_ & Ec).
  assert (Hd0 : dispatches Encoding (mkWorld c [Pause 0] [0%nat] [0%nat] 0 0 0 0)).
  { split; [exact Hs0 |]. split.
    - rewrite Ec. unfold roomy. simpl. rewrite !heap_bytes_length. lia.
    - simpl. rewrite Fo, Ec, length_app. simpl. lia. }
  destruct (run_dispatches Encoding events lane ltac:(discriminate) _ w Hd0 Hb0 Hok Hr)
    as [(Hsw & _ & _) Hb].
  assert (Hfr := frame_run junk rs Encoding events _ w Hr).
  destruct Hfr as (_ & _ & F3 & _ & _ & _ & _ & _ & _ & F10 & _). simpl in F3, F10.
  assert (Hi : immediates w = 0%nat)
    by (apply (run_immediates Encoding events ltac:(discriminate)
                              (mkWorld c [Pause 0] [0%nat] [0%nat] 0 0 0 0) w eq_refl Hr)).
  unfold lane_balance in Hb.
  assert (Ed : dispatched_to Encoding (ctx w) lane = true).
  { unfold dispatched_to. rewrite F10, Fo, length_app, andb_true_r.
    apply Nat.ltb_lt. exact Hl. }
  rewrite Ed, F3, FS in Hb. fold S in Hb.
  assert (Esw : stripes_dispatched w = stripes_written w).
  { unfold stripes_dispatched, stripes_written. rewrite Hi, andb_true_r. reflexivity. }
  rewrite Esw in Hb. split; [exact Hb |].
  intros Hc. rewrite Hb. unfold stripes_written. rewrite Hc. simpl. lia.
Qed.

(** X11. A repair writes whole shards to the lanes it was asked for and
    nothing to the others: as long as the primitive reports no failure,
    every lane with an output stream has received exactly [stripeSize] bytes
    for each stripe written, the last stripe of the object included, which
    is not cut to the size of the object as [decode] does; a repaired lane
    of an object of [n] stripes holds [n * stripeSize] bytes. *)
Theorem repair_lane_sizes (kk mm : Z) (ins : list (option Readable))
        (outs : list (option Writable)) (sz hint : Z)
        (events : list Event) (w0 w : World) (lane : nat) :
  0 <= hint ->
  repair junk kk mm ins outs sz hint = Ok w0 ->
  Forall (fun e => primitive_succeeds e = true) events ->
  run junk rs Repairing w0 events = Ok w ->
  let S := safeStripeSize kk mm hint in
  Z.of_nat (List.length (written lane (trace w)))
  = (if present outs (Z.of_nat lane) then S * stripes_dispatched w else 0)
  /\ (callbacks w = 0%nat -> immediates w = 0%nat ->
      Z.of_nat (List.length (written lane (trace w)))
      = if present outs (Z.of_nat lane) then S * processedStripe (ctx w) else 0).
Proof.
  intros Hh He Hok Hr S.
  assert (Hs : started junk Repairing w0).
  { exists kk, mm, ins, outs, sz, hint. auto. }
  assert (Hs0 := started_sound junk Repairing w0 Hs).
  destruct (started_balance Repairing w0 lane Hs) as [Hb0 _].
  destruct (repair_outcome junk kk mm ins outs sz hint) as (_ & _ & _ & Hst & _ & Hshape).
  destruct (proj1 Hst (ex_intro _ w0 He)) as ((Hli & Hlo) & (Hk & Hm) & _).
  destruct (Hshape w0 He) as (Ek & Em & ES & _ & Eo & _).
  assert (Hd0 : dispatches Repairing w0).
  { split; [exact Hs0 |]. split; [apply (sound_roomy Repairing); [discriminate | exact Hs0] |].
    rewrite Eo, Ek, Em. lia. }
  destruct (run_dispatches Repairing events lane ltac:(discriminate) w0 w Hd0 Hb0 Hok Hr)
    as [_ Hb].
  assert (Hfr := frame_run junk rs Repairing events w0 w Hr).
  assert (Ed := dispatched_to_frame Repairing _ _ lane Hfr).
  destruct Hfr as (_ & _ & F3 & _).
  unfold lane_balance in Hb. rewrite Ed, F3, ES in Hb. fold S in Hb.
  assert (Et : dispatched_to Repairing (ctx w0) lane = present outs (Z.of_nat lane)).
  { assert (Hfit : kk + mm <= 30) by (unfold MAX_K, MAX_M in *; lia).
    destruct (repair_roles_spec kk mm ins outs ltac:(lia) Hfit Hli)
      as (_ & _ & _ & _ & Hmask & Hbits).
    assert (Etg : targets (ctx w0) = r_targets (Repair.getPartRoles kk mm ins outs)).
    { unfold repair in He.
      rewrite (proj2 (Z.eqb_eq _ _) Hli), (proj2 (Z.eqb_eq _ _) Hlo) in He. simpl in He.
      match type of He with bind ?cr _ = _ => destruct cr as [c |] eqn:Ec end;
        simpl in He; [| discriminate].
      destruct (create_fresh _ _ _ _ _ _ _ _ _ _ Ec) as (_ & _ & _ & _ & _ & Ft & _).
      destruct (r_available _ <? kk).
      - inversion He; subst w0. rewrite error_ctx. simpl. exact Ft.
      - apply attach_spec in He. destruct He as (-> & _). exact Ft. }
    unfold dispatched_to, targeted. rewrite Eo, Etg.
    destruct (Nat.ltb_spec lane (List.length outs)) as [A | A].
    - rewrite (band_lane (kk + mm)) by (assumption || lia).
      rewrite Hbits by lia.
      destruct (present outs (Z.of_nat lane)); simpl; [| reflexivity].
      destruct (Z.eqb_spec (2 ^ Z.of_nat lane) 0) as [B | B]; [| reflexivity].
      assert (0 < 2 ^ Z.of_nat lane) by (apply Z.pow_pos_nonneg; lia). lia.
    - simpl. symmetry. rewrite present_spec.
      rewrite (proj2 (nth_error_None outs lane)) by lia. reflexivity. }
  rewrite Et in Hb. split; [exact Hb |].
  intros Hc Hi. rewrite Hb. unfold stripes_dispatched. rewrite Hc, Hi. simpl.
  destruct (present outs (Z.of_nat lane)); [f_equal; lia | reflexivity].
Qed.

End Dispatching.


(** ** Where the bytes of the object go *)

Lemma nth_error_flat_map {A : Type} (f : nat -> list A) (Sn : nat) :
  (forall q, List.length (f q) = Sn) ->
  forall n a p t,
    (p < n)%nat -> (t < Sn)%nat ->
    nth_error (flat_map f (seq a n)) (p * Sn + t) = nth_error (f (a + p)%nat) t.
Proof.
  intros Hlen. induction n as [| n IH]; intros a p t Hp Ht; [lia |].
  simpl. destruct p as [| p].
  - rewrite nth_error_app1 by (rewrite Hlen; exact Ht).
    rewrite Nat.add_0_r. reflexivity.
  - rewrite nth_error_app2 by (rewrite Hlen; simpl; lia).
    rewrite Hlen. replace (S p * Sn + t - Sn)%nat with (p * Sn + t)%nat by (simpl; lia).
    rewrite IH by lia. f_equal. f_equal. lia.
Qed.

Lemma length_flat_map_const {A : Type} (f : nat -> list A) (Sn : nat) (l : list nat) :
  (forall q, List.length (f q) = Sn) ->
  List.length (flat_map f l) = (List.length l * Sn)%nat.
Proof.
  intros Hlen. induction l as [| a l IH]; [reflexivity |].
  simpl. rewrite length_app, Hlen, IH. reflexivity.
Qed.

(** The bytes of a stripe: those of the object, then zeroes. *)
Lemma stripe_nth (c p i : nat) (X : bytes) :
  (i < c)%nat -> nth_error (stripe c p X) i = Some (nth (p * c + i) X Byte.x00).
Proof.
  intros Hi. unfold stripe.
  assert (Hl := piece_length c p X).
  destruct (Nat.lt_ge_cases i (List.length (piece c p X))) as [A | A].
  - rewrite nth_error_app1 by exact A. unfold piece.
    rewrite nth_error_firstn.
    destruct (Nat.ltb_spec i c); [| lia].
    rewrite nth_error_skipn. apply nth_error_nth'. lia.
  - rewrite nth_error_app2 by exact A.
    rewrite nth_overflow by lia.
    apply nth_error_repeat. lia.
Qed.

Section Systematic.

Variable junk : nat -> Byte.byte.
Variable rs : Z -> Z -> Z -> Z -> bytes -> bytes -> nat -> bytes.

(** X12. The code is systematic and striped. Let an encode of the object
    [X] receive it in chunks of any sizes, at any moments, its end signalled
    or not, whatever its input holds at first, while the primitive reports
    no failure. At any point, byte [t] of the [p]-th shard that data lane
    [j] has received is byte [p * k * S + j * S + t] of the object, or zero
    past its end. The data streams are the object itself, dealt out shard by
    shard and padded with zeroes, whatever the primitive computes. *)
Theorem encode_systematic (X : bytes) (kn mn : nat) (hint : Z) (input : Readable)
        (dataOutStreams parityOutStreams : list (option Writable))
        (events : list Event) (w0 w : World) (j p t : nat) :
  (0 < kn <= 24)%nat -> (0 < mn <= 6)%nat -> 0 < hint ->
  List.length dataOutStreams = kn -> List.length parityOutStreams = mn ->
  (forall i, (i < List.length (dataOutStreams ++ parityOutStreams))%nat ->
             present (dataOutStreams ++ parityOutStreams) (Z.of_nat i) = true) ->
  encode junk (Some input) (Z.of_nat (List.length X))
         dataOutStreams parityOutStreams hint = Ok w0 ->
  Forall (fun e => primitive_succeeds e = true) events ->
  carries X (fed 0 events input) ->
  run junk rs Encoding w0 events = Ok w ->
  let Sn := Z.to_nat (safeStripeSize (Z.of_nat kn) (Z.of_nat mn) hint) in
  (j < kn)%nat -> (t < Sn)%nat ->
  (p * Sn + t < List.length (written j (trace w)))%nat ->
  nth_error (written j (trace w)) (p * Sn + t)
  = Some (nth (p * (kn * Sn) + j * Sn + t) X Byte.x00).
Proof.
  intros Hk Hm Hh Hld Hlp Hpres He Hok Hc Hr Sn Hj Ht Hlt.
  assert (HS : 0 < safeStripeSize (Z.of_nat kn) (Z.of_nat mn) hint)
    by (apply safeStripeSize_pos; unfold MAX_K, MAX_M; lia).
  assert (HSn : (0 < Sn)%nat) by (unfold Sn; lia).
  destruct (stripes_of_ceil (kn * Sn) X ltac:(nia)) as [_ Hst].
  destruct (encode_start junk X input dataOutStreams parityOutStreams hint kn mn
                         Hk Hm Hh Hld Hlp Hpres (carries_fed X 0 events input Hc))
    as (x & Ex & D0 & _).
  fold Sn in D0. assert (x = w0) by congruence. subst x.
  destruct (run_encoding junk rs X kn mn Sn _ ltac:(lia) ltac:(lia) ltac:(lia) HSn Hst
                         events 0%nat input w0 w D0 Hc Hok Hr) as (pn & D).
  assert (Hw := enc_written _ _ _ _ _ _ _ _ D j Hj).
  assert (Hlen : forall q, List.length (shard kn Sn q j X) = Sn)
    by (intros q; apply shard_length, Hj).
  rewrite Hw in Hlt |- *.
  rewrite (length_flat_map_const _ Sn _ Hlen), length_seq in Hlt.
  rewrite (nth_error_flat_map _ Sn Hlen) by (assumption || nia).
  simpl. rewrite shard_nth by exact Ht.
  rewrite stripe_nth by nia. f_equal. f_equal. lia.
Qed.

End Systematic.


(** ** The further properties at work on RS(2,1) *)

Lemma sampleRepair_started : started noJunk Repairing sampleRepair.
Proof.
  exists 2, 1, [sixteen Byte.x01; None; sixteen Byte.x03], [None; aSink; None], 16, 8.
  split; [lia | vm_compute; reflexivity].
Qed.

Lemma sampleNoOutput_started : started noJunk Decoding sampleNoOutput.
Proof.
  exists None, 16, [sixteen Byte.x01; None], [sixteen Byte.x03], 8.
  split; [lia | vm_compute; reflexivity].
Qed.

Lemma decode_roles_exact_witness :
  Z.testbit (r_targets (Decode.getPartRoles [None; aStream; aStream; None] [aStream; None])) 3
  = negb (present [None; aStream; aStream; None] 3).
Proof.
  refine (proj2 (proj1 (proj2 (decode_roles_exact [None; aStream; aStream; None]
                                                  [aStream; None] _)) 3 _));
    simpl; lia.
Defined.

Lemma end_at_most_once_witness :
  (count (is_end_on 0) (trace sampleDecoded) <= 1)%nat.
Proof.
  refine (proj1 (end_at_most_once noJunk noRs Decoding sampleDecodeLast sampleDecoded
                   [On_readable 0%nat; On_readable 2%nat; Primitive_done None allOk;
                    Write_done]
                   sampleDecodeLast_started _) 0%nat).
  vm_compute. reflexivity.
Defined.

Lemma reads_only_sources_witness :
  Z.testbit (sources (ctx sampleDecode)) (Z.of_nat 2) = true
  /\ present (istreams (ctx sampleDecode)) (Z.of_nat 2) = true
  /\ 8 = stripeSize (ctx sampleDecode).
Proof.
  refine (reads_only_sources noJunk noRs Decoding sampleDecode sampleSubmitted
            [On_readable 0%nat; On_readable 2%nat] _ sampleDecode_started _ 2%nat 8 _).
  - discriminate.
  - vm_compute. reflexivity.
  - vm_compute. repeat (first [left; reflexivity | right]).
Defined.

Lemma submissions_counted_witness :
  Z.of_nat (count is_submission (trace sampleSubmitted))
  = processedStripe (ctx sampleSubmitted)
    + (if inFlight (ctx sampleSubmitted) then 1 else 0).
Proof.
  refine (proj1 (submissions_counted noJunk noRs Decoding sampleDecode sampleSubmitted
                   [On_readable 0%nat; On_readable 2%nat] sampleDecode_started _)).
  vm_compute. reflexivity.
Defined.

Lemma completion_final_witness :
  0 <= processedStripe (ctx sampleDecoded) <= 1.
Proof.
  refine (proj1 (completion_final noJunk noRs Decoding sampleDecodeLast sampleDecoded
                   [On_readable 0%nat; On_readable 2%nat; Primitive_done None allOk;
                    Write_done] 1 _ sampleDecodeLast_started _ _ _)).
  - discriminate.
  - vm_compute. reflexivity.
  - lia.
  - vm_compute. reflexivity.
Defined.

Lemma no_output_stalls_witness :
  processedStripe
    (ctx (the (run noJunk noRs Decoding sampleNoOutput
                   [On_readable 0%nat; On_readable 2%nat; Primitive_done None allOk;
                    Write_done; On_readable 0%nat])))
  = 0.
Proof.
  refine (proj1 (no_output_stalls noJunk noRs Decoding sampleNoOutput _
                   [On_readable 0%nat; On_readable 2%nat; Primitive_done None allOk;
                    Write_done; On_readable 0%nat] _ sampleNoOutput_started _ _ _)).
  - discriminate.
  - vm_compute. reflexivity.
  - repeat constructor.
  - vm_compute. reflexivity.
Defined.

Lemma encode_lane_sizes_witness :
  Z.of_nat (List.length (written 2 (trace sampleEncoded)))
  = safeStripeSize 2 1 8 * processedStripe (ctx sampleEncoded).
Proof.
  refine (proj2 (encode_lane_sizes noJunk noRs (Some (mkReadable sampleObject true)) 23
                   [aSink; aSink] [aSink] 8 (encodeSchedule 3 2)
                   sampleEncode sampleEncoded 2%nat _ _ _ _ _ _) _).
  - lia.
  - intros i Hi. simpl in Hi.
    destruct i as [| [| [| i]]]; [reflexivity | reflexivity | reflexivity | lia].
  - vm_compute. reflexivity.
  - repeat constructor.
  - vm_compute. reflexivity.
  - simpl. lia.
  - vm_compute. reflexivity.
Defined.

Lemma repair_lane_sizes_witness :
  Z.of_nat (List.length (written 1 (trace sampleRepaired)))
  = (if present [None; aSink; None] (Z.of_nat 1)
     then safeStripeSize 2 1 8 * processedStripe (ctx sampleRepaired) else 0).
Proof.
  refine (proj2 (repair_lane_sizes noJunk noRs 2 1 [sixteen Byte.x01; None; sixteen Byte.x03]
                   [None; aSink; None] 16 8
                   [On_readable 0%nat; On_readable 2%nat; Primitive_done None allOk;
                    Write_done; Immediate]
                   sampleRepair sampleRepaired 1%nat _ _ _ _) _ _).
  - lia.
  - vm_compute. reflexivity.
  - repeat constructor.
  - vm_compute. reflexivity.
  - vm_compute. reflexivity.
  - vm_compute. reflexivity.
Defined.

Lemma encode_systematic_witness :
  nth_error (written 1 (trace sampleTrickled)) (1 * 8 + 2)
  = Some (nth (1 * (2 * 8) + 1 * 8 + 2) sampleObject Byte.x00).
Proof.
  refine (encode_systematic noJunk noRs sampleObject 2 1 8 (mkReadable [] false)
            [aSink; aSink] [aSink]
            sampleTrickle sampleTrickleEncode sampleTrickled 1 1 2
            _ _ _ _ _ _ _ _ _ _ _ _ _).
  - lia.
  - lia.
  - lia.
  - reflexivity.
  - reflexivity.
  - intros i Hi. simpl in Hi.
    destruct i as [| [| [| i]]]; [reflexivity | reflexivity | reflexivity | lia].
  - vm_compute. reflexivity.
  - repeat constructor.
  - exists []. split; [vm_compute; reflexivity | reflexivity].
  - vm_compute. reflexivity.
  - lia.
  - vm_compute. lia.
  - vm_compute. lia.
Defined.


(** ** The lanes of the stripe buffers *)

Lemma piece_nth {A : Type} (Sn j t : nat) (l : list A) :
  nth_error (firstn Sn (skipn (j * Sn) l)) t
  = if (t <? Sn)%nat then nth_error l (j * Sn + t) else None.
Proof.
  rewrite nth_error_firstn. destruct (Nat.ltb_spec t Sn); [| reflexivity].
  apply nth_error_skipn.
Qed.

Lemma piece_full (Sn j : nat) (l : bytes) :
  ((j + 1) * Sn <= List.length l)%nat -> List.length (piece Sn j l) = Sn.
Proof. intros H. rewrite piece_length. nia. Qed.

(** A shard copied into its place is there, and the other lanes are as
    they were. *)
Lemma piece_copy (Sn i j : nat) (src target : bytes) :
  List.length src = Sn -> ((i + 1) * Sn <= List.length target)%nat ->
  piece Sn j (fst (buf_copy src target (Z.of_nat (i * Sn))))
  = if Nat.eqb j i then src else piece Sn j target.
Proof.
  intros Hs Ht. apply nth_error_ext. intros t. unfold piece at 1.
  rewrite piece_nth.
  rewrite (proj2 (buf_copy_nth src target (i * Sn) (j * Sn + t) ltac:(lia))), Hs.
  destruct (Nat.ltb_spec t Sn) as [A | A].
  - destruct (Nat.eqb_spec j i) as [-> | Hne].
    + destruct (Nat.leb_spec (i * Sn) (i * Sn + t)); [| lia].
      destruct (Nat.ltb_spec (i * Sn + t) (i * Sn + Sn)); [| lia]. simpl.
      f_equal. lia.
    + replace ((i * Sn <=? j * Sn + t)%nat && (j * Sn + t <? i * Sn + Sn)%nat) with false.
      * unfold piece. rewrite piece_nth.
        destruct (Nat.ltb_spec t Sn); [reflexivity | lia].
      * symmetry. apply andb_false_iff.
        destruct (Nat.lt_ge_cases j i);
          [left; apply Nat.leb_gt; nia | right; apply Nat.ltb_ge; nia].
  - destruct (Nat.eqb_spec j i) as [-> | Hne].
    + symmetry. apply nth_error_None. lia.
    + unfold piece. rewrite piece_nth.
      destruct (Nat.ltb_spec t Sn); [lia | reflexivity].
Qed.

(** A buffer is its lanes. *)
Lemma pieces_ext (kn Sn : nat) (a b : bytes) :
  List.length a = (kn * Sn)%nat -> List.length b = (kn * Sn)%nat ->
  (forall j, (j < kn)%nat -> piece Sn j a = piece Sn j b) -> a = b.
Proof.
  intros Ha Hb H. apply (buffer_ext kn Sn); try assumption.
  intros j t Hj Ht. assert (E := f_equal (fun l => nth_error l t) (H j Hj)).
  simpl in E. unfold piece in E. rewrite !piece_nth in E.
  destruct (Nat.ltb_spec t Sn); [exact E | lia].
Qed.

Lemma code_shard_length (X : bytes) (par : nat -> nat -> bytes) (kn mn Sn nn p j : nat) :
  (forall q i, (q < nn)%nat -> (i < mn)%nat -> List.length (par q i) = Sn) ->
  (p < nn)%nat -> (j < kn + mn)%nat ->
  List.length (code_shard X par kn Sn p j) = Sn.
Proof.
  intros Hpar Hp Hj. unfold code_shard.
  destruct (Nat.ltb_spec j kn); [| apply Hpar; lia].
  apply shard_length. assumption.
Qed.

Lemma code_from_next (X : bytes) (par : nat -> nat -> bytes) (kn Sn nn j p : nat) :
  (p < nn)%nat ->
  code_from X par kn Sn nn j p
  = code_shard X par kn Sn p j ++ code_from X par kn Sn nn j (p + 1).
Proof.
  intros H. unfold code_from.
  replace (nn - p)%nat with (S (nn - (p + 1))) by lia. simpl.
  replace (S p) with (p + 1)%nat by lia. reflexivity.
Qed.

Lemma code_from_end (X : bytes) (par : nat -> nat -> bytes) (kn Sn nn j p : nat) :
  (nn <= p)%nat -> code_from X par kn Sn nn j p = [].
Proof.
  intros H. unfold code_from. replace (nn - p)%nat with 0%nat by lia. reflexivity.
Qed.

(** On a data lane the code is the object. *)
Lemma code_from_data (X : bytes) (par : nat -> nat -> bytes) (kn Sn nn j p : nat) :
  (j < kn)%nat -> code_from X par kn Sn nn j p = lane_from kn Sn nn j p X.
Proof.
  intros H. unfold code_from, lane_from, code_shard.
  destruct (Nat.ltb_spec j kn); [reflexivity | lia].
Qed.

(** What [store_shard] leaves in the lanes of the stripe buffers. *)
Lemma store_shard_lanes (kn mn Sn i : nat) (sh : bytes) (c : DencodeContext) :
  k c = Z.of_nat kn -> stripeSize c = Z.of_nat Sn ->
  List.length (dataBuffer c) = (kn * Sn)%nat ->
  List.length (parityBuffer c) = (mn * Sn)%nat ->
  (i < kn + mn)%nat -> List.length (firstn Sn sh) = Sn ->
  forall j,
    buf_lane kn Sn (dataBuffer (store_shard i sh c)) (parityBuffer (store_shard i sh c)) j
    = if Nat.eqb j i then firstn Sn sh
      else buf_lane kn Sn (dataBuffer c) (parityBuffer c) j.
Proof.
  intros Ek ES Hd Hp Hi Hsh j. unfold store_shard. rewrite Ek, ES, Nat2Z.id.
  unfold buf_lane.
  destruct (Z.ltb_spec (Z.of_nat i) (Z.of_nat kn)) as [A | A].
  - replace (Z.of_nat i * Z.of_nat Sn) with (Z.of_nat (i * Sn)) by lia.
    cbn [dataBuffer parityBuffer set_dataBuffer set_parityBuffer].
    destruct (Nat.ltb_spec j kn) as [B | B].
    + apply piece_copy; [exact Hsh | nia].
    + destruct (Nat.eqb_spec j i); [lia | reflexivity].
  - replace ((Z.of_nat i - Z.of_nat kn) * Z.of_nat Sn)
      with (Z.of_nat ((i - kn) * Sn)) by nia.
    cbn [dataBuffer parityBuffer set_dataBuffer set_parityBuffer].
    destruct (Nat.ltb_spec j kn) as [B | B].
    + destruct (Nat.eqb_spec j i); [lia | reflexivity].
    + rewrite piece_copy by (exact Hsh || nia).
      destruct (Nat.eqb_spec (j - kn) (i - kn)), (Nat.eqb_spec j i);
        try reflexivity; lia.
Qed.

(** When the primitive completes, the lanes it had to compute hold what it
    computed from the buffers it was given, and the others are untouched. *)
Lemma primitive_result_lanes
      (rs : Z -> Z -> Z -> Z -> bytes -> bytes -> nat -> bytes)
      (kn mn Sn : nat) (c : DencodeContext) :
  k c = Z.of_nat kn -> m c = Z.of_nat mn -> stripeSize c = Z.of_nat Sn ->
  List.length (dataBuffer c) = (kn * Sn)%nat ->
  List.length (parityBuffer c) = (mn * Sn)%nat ->
  let computed := rs (k c) (m c) (sources c) (targets c) (dataBuffer c) (parityBuffer c) in
  (forall i, (i < kn + mn)%nat -> Z.testbit (targets c) (Z.of_nat i) = true ->
             List.length (firstn Sn (computed i)) = Sn) ->
  forall j, (j < kn + mn)%nat ->
    buf_lane kn Sn (dataBuffer (primitive_result rs c))
             (parityBuffer (primitive_result rs c)) j
    = if Z.testbit (targets c) (Z.of_nat j) then firstn Sn (computed j)
      else buf_lane kn Sn (dataBuffer c) (parityBuffer c) j.
Proof.
  intros Ek Em ES Hd Hp computed Hlen j Hj. unfold primitive_result. fold computed.
  rewrite Ek, Em. replace (Z.to_nat (Z.of_nat kn + Z.of_nat mn)) with (kn + mn)%nat by lia.
  assert (H : forall lanes c0,
             (forall i, In i lanes -> (i < kn + mn)%nat) ->
             k c0 = Z.of_nat kn -> stripeSize c0 = Z.of_nat Sn ->
             List.length (dataBuffer c0) = (kn * Sn)%nat ->
             List.length (parityBuffer c0) = (mn * Sn)%nat ->
             let c1 := fold_left
                         (fun c' i => if Z.testbit (targets c) (Z.of_nat i)
                                      then store_shard i (computed i) c' else c')
                         lanes c0 in
             buf_lane kn Sn (dataBuffer c1) (parityBuffer c1) j
             = if existsb (Nat.eqb j) lanes && Z.testbit (targets c) (Z.of_nat j)
               then firstn Sn (computed j)
               else buf_lane kn Sn (dataBuffer c0) (parityBuffer c0) j).
  { induction lanes as [| i lanes IH]; intros c0 Hin Ek0 ES0 Hd0 Hp0; [reflexivity |].
    cbn [fold_left existsb].
    assert (Hi : (i < kn + mn)%nat) by (apply Hin; left; reflexivity).
    destruct (Z.testbit (targets c) (Z.of_nat i)) eqn:Eb.
    - assert (Bo := store_shard_spec i (computed i) c0).
      destruct Bo as (Bc & Bd & Bp).
      rewrite IH.
      + rewrite (store_shard_lanes kn mn Sn i (computed i) c0 Ek0 ES0 Hd0 Hp0 Hi
                                   (Hlen i Hi Eb)).
        destruct (Nat.eqb_spec j i) as [-> | Hne]; simpl.
        * rewrite Eb. destruct (existsb (Nat.eqb i) lanes); reflexivity.
        * reflexivity.
      + intros x Hx. apply Hin. right. exact Hx.
      + rewrite Bc. simpl. exact Ek0.
      + rewrite Bc. simpl. exact ES0.
      + rewrite Bd. exact Hd0.
      + rewrite Bp. exact Hp0.
    - rewrite IH; try assumption; [| intros x Hx; apply Hin; right; exact Hx].
      destruct (Nat.eqb_spec j i) as [-> | Hne]; simpl; [| reflexivity].
      rewrite Eb, andb_false_r. reflexivity. }
  rewrite (H (seq 0 (kn + mn)) c) by (try assumption; intros i Hi; apply in_seq in Hi; lia).
  replace (existsb (Nat.eqb j) (seq 0 (kn + mn))) with true; [reflexivity |].
  symmetry. apply existsb_exists. exists j.
  split; [apply in_seq; lia | apply Nat.eqb_refl].
Qed.

(** The sizes of the stripe buffers of a decode or a repair. *)
Lemma sound_buffers (op : Operation) (kn mn Sn : nat) (w : World) :
  op <> Encoding -> sound op w ->
  k (ctx w) = Z.of_nat kn -> m (ctx w) = Z.of_nat mn -> stripeSize (ctx w) = Z.of_nat Sn ->
  List.length (istreams (ctx w)) = (kn + mn)%nat
  /\ List.length (dataBuffer (ctx w)) = (kn * Sn)%nat
  /\ List.length (parityBuffer (ctx w)) = (mn * Sn)%nat.
Proof.
  intros Hop ((_ & _ & _ & G4 & G5) & _ & _ & Hb & _) Ek Em ES.
  assert (H : Z.of_nat (List.length (istreams (ctx w))) = k (ctx w) + m (ctx w)
              /\ List.length (dataBuffer (ctx w)) = Z.to_nat (data_size (ctx w))
              /\ List.length (parityBuffer (ctx w)) = Z.to_nat (parity_size (ctx w)))
    by (destruct op; [contradiction | exact Hb | exact Hb]).
  destruct H as (A & B & C). rewrite B, C, G4, G5, ES, Ek, Em. repeat split; lia.
Qed.


(** ** Filling the stripe from the lanes of an encoded object *)

Lemma not_encoding (op : Operation) : op <> Encoding -> op = Decoding \/ op = Repairing.
Proof. destruct op; [contradiction | left | right]; reflexivity. Qed.

Lemma listener_decodes (op : Operation) (i : nat) (w : World) :
  op <> Encoding ->
  listener op i w
  = if existsb (Nat.eqb i) (readers w) then decodeBufferStep i w else Ok w.
Proof. intros H. unfold listener. destruct op; [contradiction | |]; reflexivity. Qed.

Lemma decodeWrites_callbacks (chunk : bytes) (okf : nat -> bool) (lanes : list nat) :
  forall w,
    (callbacks w + List.length lanes
     <= callbacks (fold_left (fun w' i => write_one 1 i chunk (okf i) w') lanes w))%nat.
Proof.
  induction lanes as [| i lanes IH]; intros w; simpl; [lia |].
  eapply Nat.le_trans; [| apply IH].
  unfold write_one. destruct (okf i); simpl; lia.
Qed.

(** A dispatch step that has an output to write to leaves a callback
    outstanding. *)
Lemma dispatch_callbacks (junk : nat -> Byte.byte) (op : Operation) (okf : nat -> bool)
      (w w' : World) :
  op <> Encoding ->
  writes_somewhere op (ostreams (ctx w)) (targets (ctx w)) ->
  dispatcher junk op None okf w = Ok w' -> callbacks w' <> 0%nat.
Proof.
  intros Hop Hout H. destruct op; [contradiction | |]; simpl in *.
  - unfold decodeDispatchStep in H. inversion H; subst w'; clear H.
    match goal with
    | |- callbacks (fold_left _ ?l ?x) <> _ =>
        assert (Hc := decodeWrites_callbacks
                        (if is_nStripe (processedStripe (ctx w) + 1) (ctx w)
                         then buf_slice (dataBuffer (ctx w)) 0
                                (size (ctx w)
                                 - processedStripe (ctx w) * stripeSize (ctx w) * k (ctx w))
                         else dataBuffer (ctx w)) okf l x)
    end.
    destruct (live (ostreams (ctx w))); [contradiction |]. simpl in *. lia.
  - unfold repairDispatchStep in H.
    destruct (repairWrites (seq 0 (List.length (ostreams (ctx w)))) okf (set_nPending 1 w))
      as [w1 |] eqn:E; simpl in H; [| discriminate].
    inversion H; subst w'; clear H. simpl.
    apply repairWrites_trace in E. destruct E as (_ & _ & L). simpl in L.
    destruct Hout as (i & Hi & Hb).
    assert (Hin : In i (filter (targeted (ctx w)) (seq 0 (List.length (ostreams (ctx w)))))).
    { apply filter_In. split; [apply in_seq; lia |].
      unfold targeted. apply negb_true_iff, Z.eqb_neq, Hb. }
    destruct (filter (targeted (ctx w)) (seq 0 (List.length (ostreams (ctx w)))));
      [destruct Hin |]. simpl in L. lia.
Qed.

(** A new stripe starts from a state with nothing outstanding. *)
Lemma newStripe_sound_any (junk : nat -> Byte.byte) (op : Operation) (w : World) :
  op <> Encoding -> sound op w ->
  primitive w = 0%nat -> callbacks w = 0%nat -> immediates w = 0%nat ->
  sound op
        (upd_ctx (next_stripe junk)
           (upd_ctx (fun c => set_processedStripe (processedStripe c + 1)
                                (set_inFlight false c)) w)).
Proof.
  intros Hop (Hg & Hr & Ho & Hb & _) Hp Hc Hi.
  split; [exact Hg |]. split; [exact Hr |].
  split; [destruct op; exact Ho |].
  split; [| apply flight_ok_idle; assumption].
  destruct op; [contradiction | |]; destruct Hb as (Hb1 & Hb2 & Hb3);
    simpl; rewrite !heap_bytes_length; simpl; repeat split; exact Hb1.
Qed.

Section Feeding.

Variable junk : nat -> Byte.byte.
Variable rs : Z -> Z -> Z -> Z -> bytes -> bytes -> nat -> bytes.
Variable op : Operation.
Variable X : bytes.
Variable par : nat -> nat -> bytes.
Variables kn mn Sn nn : nat.
Variables src tgt : Z.
Hypothesis Hop : op <> Encoding.
Hypothesis Hkn : (0 < kn)%nat.
Hypothesis Hkm : (kn + mn <= 30)%nat.
Hypothesis HSn : (0 < Sn)%nat.
Hypothesis Hpar :
  forall q i, (q < nn)%nat -> (i < mn)%nat -> List.length (par q i) = Sn.

(** A source lane that is waited for delivers its shard of the stripe. *)
Lemma fill_feeding (i pn : nat) (w : World) :
  feeding_ok op X par kn mn Sn nn src tgt pn w -> (i < kn + mn)%nat ->
  Z.testbit (waiting (ctx w)) (Z.of_nat i) = true -> (pn < nn)%nat ->
  exists db pb,
    fillStripeBuffers i w
    = Ok (true,
          log (Read i (Z.of_nat Sn))
              (upd_ctx (fun c => set_parityBuffer pb
                                   (set_dataBuffer db
                                      (set_istreams
                                         (list_set i
                                            (Some (mkReadable
                                                     (code_from X par kn Sn nn i (pn + 1))
                                                     true))
                                            (istreams c)) c))) w))
    /\ List.length db = (kn * Sn)%nat /\ List.length pb = (mn * Sn)%nat
    /\ forall j, buf_lane kn Sn db pb j
                 = if Nat.eqb j i then code_shard X par kn Sn pn i
                   else buf_lane kn Sn (dataBuffer (ctx w)) (parityBuffer (ctx w)) j.
Proof.
  intros Hd Hi Eb Hlt.
  destruct Hd as [Hsnd Ek Em ES En Esrc Etgt Hout [Ep Hpn] [Hwm Hws] Hl Hb Hf].
  destruct (sound_buffers op kn mn Sn w Hop Hsnd Ek Em ES) as (Hli & Hld & Hlp).
  destruct (Hl i Hi (Hws _ Eb)) as (_ & Hlane).
  rewrite Eb, andb_false_r, Nat.add_0_r in Hlane.
  assert (Hlen := code_shard_length X par kn mn Sn nn pn i Hpar Hlt Hi).
  unfold fillStripeBuffers. rewrite Hlane, ES.
  rewrite (code_from_next X par kn Sn nn i pn Hlt).
  rewrite stream_read_chunk by lia.
  rewrite Ek.
  destruct (Z.ltb_spec (Z.of_nat i) (Z.of_nat kn)) as [A | A].
  - replace (Z.of_nat i * Z.of_nat Sn) with (Z.of_nat (i * Sn)) by lia.
    assert (Hfit : (i * Sn + List.length (code_shard X par kn Sn pn i)
                    <= List.length (dataBuffer (ctx w)))%nat) by (rewrite Hlen, Hld; nia).
    destruct (buf_copy_nth _ _ _ 0 Hfit) as [Hcopy _].
    exists (fst (buf_copy (code_shard X par kn Sn pn i) (dataBuffer (ctx w))
                          (Z.of_nat (i * Sn)))), (parityBuffer (ctx w)).
    split; [| split; [| split; [exact Hlp |]]].
    + rewrite Hcopy. cbn [fst]. rewrite Z.eqb_refl.
      unfold log, log_all, upd_ctx. destruct w as [c t r e p n cb im]. simpl.
      destruct c; reflexivity.
    + rewrite buf_copy_length. exact Hld.
    + intros j. unfold buf_lane.
      destruct (Nat.ltb_spec j kn) as [B | B].
      * apply piece_copy; [exact Hlen | rewrite Hld; nia].
      * destruct (Nat.eqb_spec j i); [lia | reflexivity].
  - replace ((Z.of_nat i - Z.of_nat kn) * Z.of_nat Sn)
      with (Z.of_nat ((i - kn) * Sn)) by nia.
    assert (Hfit : ((i - kn) * Sn + List.length (code_shard X par kn Sn pn i)
                    <= List.length (parityBuffer (ctx w)))%nat) by (rewrite Hlen, Hlp; nia).
    destruct (buf_copy_nth _ _ _ 0 Hfit) as [Hcopy _].
    exists (dataBuffer (ctx w)),
      (fst (buf_copy (code_shard X par kn Sn pn i) (parityBuffer (ctx w))
                     (Z.of_nat ((i - kn) * Sn)))).
    split; [| split; [exact Hld | split]].
    + rewrite Hcopy. cbn [fst]. rewrite Z.eqb_refl.
      unfold log, log_all, upd_ctx. destruct w as [c t r e p n cb im]. simpl.
      destruct c; reflexivity.
    + rewrite buf_copy_length. exact Hlp.
    + intros j. unfold buf_lane.
      destruct (Nat.ltb_spec j kn) as [B | B].
      * destruct (Nat.eqb_spec j i); [lia | reflexivity].
      * rewrite piece_copy by (exact Hlen || (rewrite Hlp; nia)).
        destruct (Nat.eqb_spec (j - kn) (i - kn)), (Nat.eqb_spec j i);
          try reflexivity; lia.
Qed.

Lemma decodeBufferStep_feeding (i pn : nat) (w w' : World) :
  feeding_ok op X par kn mn Sn nn src tgt pn w ->
  In i (readers w) ->
  decodeBufferStep i w = Ok w' ->
  feeding_ok op X par kn mn Sn nn src tgt pn w'
  /\ (forall j, Z.testbit (waiting (ctx w)) j = false ->
                Z.testbit (waiting (ctx w')) j = false)
  /\ ((pn < nn)%nat -> Z.testbit (waiting (ctx w')) (Z.of_nat i) = false).
Proof.
  intros Hd Hi H.
  assert (Hpres : present (istreams (ctx w)) (Z.of_nat i) = true).
  { destruct (fd_sound _ _ _ _ _ _ _ _ _ _ _ Hd) as (_ & Hr & _). apply Hr, Hi. }
  assert (Hs' : sound op w').
  { destruct (decodeBufferStep_sound op i w Hop (fd_sound _ _ _ _ _ _ _ _ _ _ _ Hd) Hpres)
      as (x & Ex & Hx).
    congruence. }
  assert (Hfill := fill_feeding i pn w Hd).
  destruct Hd as [Hsnd Ek Em ES En Esrc Etgt Hout [Ep Hpn] [Hwm Hws] Hl Hb Hf].
  destruct (sound_buffers op kn mn Sn w Hop Hsnd Ek Em ES) as (Hli & Hld & Hlp).
  assert (Hilt : (i < kn + mn)%nat) by (apply present_lt in Hpres; lia).
  assert (Hbl := band_lane (Z.of_nat (kn + mn)) (waiting (ctx w)) (Z.of_nat i) Hwm
                           ltac:(lia) ltac:(lia)).
  assert (Hfl : inFlight (ctx w) = false ->
                primitive w = 0%nat /\ callbacks w = 0%nat /\ immediates w = 0%nat).
  { destruct Hsnd as (_ & _ & _ & _ & _ & J2 & _). exact J2. }
  unfold decodeBufferStep, Context.wait in H.
  destruct (inFlight (ctx w)) eqn:Ef.
  { (* a stripe is in flight *)
    inversion H; subst w'. destruct Hf as (Hlt & Hw0 & Hph).
    split; [| split; [auto |]].
    - constructor; try assumption; try (split; assumption).
      rewrite Ef. repeat split; assumption.
    - intros _. rewrite Hw0. apply Z.bits_0. }
  rewrite Hbl in H.
  destruct (Z.testbit (waiting (ctx w)) (Z.of_nat i)) eqn:Eb.
  2:{ (* the lane has been added already, or is not a source *)
      simpl in H. inversion H; subst w'.
      split; [| split; [auto |]].
      - constructor; try assumption; try (split; assumption).
        rewrite Ef. exact Hf.
      - intros _. exact Eb. }
  assert (Hpow : (2 ^ Z.of_nat i =? 0) = false)
    by (apply Z.eqb_neq; assert (0 < 2 ^ Z.of_nat i) by (apply Z.pow_pos_nonneg; lia); lia).
  rewrite Hpow in H.
  assert (Hsi : Z.testbit src (Z.of_nat i) = true) by (apply Hws, Eb).
  destruct (Hl i Hilt Hsi) as (_ & Hlane).
  rewrite Eb in Hlane. rewrite andb_false_r, Nat.add_0_r in Hlane.
  destruct (Nat.lt_ge_cases pn nn) as [Hlt | Hge].
  2:{ (* nothing is left on the lane *)
      unfold fillStripeBuffers in H. rewrite Hlane, ES in H.
      rewrite code_from_end in H, Hlane by exact Hge.
      rewrite stream_read_empty in H by reflexivity.
      simpl in H. inversion H; subst w'.
      split; [| split; [auto | intros; lia]].
      constructor; simpl; try assumption; try (split; assumption).
      - intros j Hj Hsj. destruct (Hl j Hj Hsj) as (Hr & Hlj).
        split; [exact Hr |].
        rewrite nth_error_list_set.
        destruct (Nat.eqb_spec i j) as [<- | Hne]; [| exact Hlj].
        assert (Hlt : (i <? List.length (istreams (ctx w)))%nat = true)
          by (apply Nat.ltb_lt; lia).
        rewrite Hlt, Eb, andb_false_r, Nat.add_0_r, code_from_end by exact Hge.
        reflexivity.
      - rewrite Ef. exact Hf. }
  (* the lane delivers its shard of the stripe *)
  destruct (Hfill Hilt eq_refl Hlt) as (db & pb & Efill & Hdb & Hpb & Hlanes').
  rewrite Efill in H. cbn [bind negb] in H. cbv iota in H.
  destruct (clear_lane (Z.of_nat (kn + mn)) (waiting (ctx w)) (Z.of_nat i) Hwm
                       ltac:(lia) ltac:(lia))
    as (Hclr & Hmask & Hbits).
  set (wt := Z.ldiff (waiting (ctx w)) (2 ^ Z.of_nat i)) in *.
  match type of H with
  | context [Context.addedToStripe ?mask ?x] =>
      replace (Context.addedToStripe mask x) with (upd_ctx (set_waiting wt) x) in H
        by (unfold Context.addedToStripe, upd_ctx; simpl; rewrite Hclr; reflexivity)
  end.
  unfold Context.readyForEncoding in H. simpl in H.
  assert (Hws' : forall j, Z.testbit wt j = true -> Z.testbit src j = true).
  { intros j Hj. unfold wt in Hj. rewrite Hbits in Hj.
    apply andb_true_iff in Hj. apply Hws, Hj. }
  assert (Hlanes : forall ist' : list (option Readable),
             ist' = list_set i (Some (mkReadable (code_from X par kn Sn nn i (pn + 1)) true))
                             (istreams (ctx w)) ->
             forall j, (j < kn + mn)%nat -> Z.testbit src (Z.of_nat j) = true ->
               In j (readers w)
               /\ nth_error ist' j
                  = Some (Some (mkReadable
                                  (code_from X par kn Sn nn j
                                     (pn + (if (pn <? nn)%nat
                                               && negb (Z.testbit wt (Z.of_nat j))
                                            then 1 else 0))) true))).
  { intros ist' -> j Hj Hsj. destruct (Hl j Hj Hsj) as (Hr & Hlj).
    split; [exact Hr |].
    rewrite nth_error_list_set. unfold wt. rewrite Hbits.
    destruct (Nat.eqb_spec i j) as [<- | Hne].
    - assert (Hlt' : (i <? List.length (istreams (ctx w)))%nat = true)
        by (apply Nat.ltb_lt; lia).
      rewrite Hlt', Z.eqb_refl, andb_false_r.
      destruct (Nat.ltb_spec pn nn); [| lia]. simpl. reflexivity.
    - destruct (Z.eqb_spec (Z.of_nat i) (Z.of_nat j)); [lia |].
      rewrite andb_true_r. exact Hlj. }
  assert (Hbuf : forall j, (j < kn + mn)%nat -> Z.testbit src (Z.of_nat j) = true ->
                           Z.testbit wt (Z.of_nat j) = false ->
                           buf_lane kn Sn db pb j = code_shard X par kn Sn pn j).
  { intros j Hj Hsj Hbit. rewrite Hlanes'.
    destruct (Nat.eqb_spec j i) as [-> | Hne]; [reflexivity |].
    apply Hb; try assumption.
    unfold wt in Hbit. rewrite Hbits in Hbit.
    destruct (Z.eqb_spec (Z.of_nat i) (Z.of_nat j)); [lia |].
    rewrite andb_true_r in Hbit. exact Hbit. }
  assert (Hmono : forall j, Z.testbit (waiting (ctx w)) j = false -> Z.testbit wt j = false).
  { intros j Hj. unfold wt. rewrite Hbits, Hj. reflexivity. }
  assert (Hcl : Z.testbit wt (Z.of_nat i) = false).
  { unfold wt. rewrite Hbits, Z.eqb_refl. apply andb_false_r. }
  destruct (Hfl eq_refl) as (Hp0 & Hc0 & Hi0).
  destruct (Z.eqb_spec wt 0) as [Hz | Hnz].
  - (* the stripe is complete: it is handed over *)
    unfold Context.ref, Context.encode in H. simpl in H.
    rewrite Hz in H. simpl in H.
    assert (Hw' : feeding_ok op X par kn mn Sn nn src tgt pn w'
                  /\ waiting (ctx w') = 0).
    { destruct (targets (ctx w) =? 0); inversion H; subst w'; simpl;
        (split; [| reflexivity]);
        (constructor; simpl; try assumption; try (split; assumption);
         [ split; [rewrite <- Hz; exact Hmask | rewrite <- Hz; exact Hws']
         | rewrite <- Hz; apply Hlanes; reflexivity
         | intros _; rewrite <- Hz; exact Hbuf
         | split; [exact Hlt |]; split; [reflexivity |]; left;
           rewrite Hp0; repeat split; assumption ]). }
    destruct Hw' as (D' & Hz').
    split; [exact D' |]. rewrite Hz'.
    split; [intros j _; apply Z.bits_0 | intros _; apply Z.bits_0].
  - inversion H; subst w'. simpl. fold wt.
    split; [| split; [exact Hmono | intros _; exact Hcl]].
    constructor; simpl; fold wt; try assumption; try (split; assumption).
    + apply Hlanes. reflexivity.
    + intros _. exact Hbuf.
    + rewrite Ef. intros _. exact Hnz.
Qed.

Lemma listener_feeding (i pn : nat) (w w' : World) :
  feeding_ok op X par kn mn Sn nn src tgt pn w ->
  listener op i w = Ok w' ->
  feeding_ok op X par kn mn Sn nn src tgt pn w'
  /\ same_callbacks w w'
  /\ (forall j, Z.testbit (waiting (ctx w)) j = false ->
                Z.testbit (waiting (ctx w')) j = false)
  /\ (In i (readers w) -> (pn < nn)%nat ->
      Z.testbit (waiting (ctx w')) (Z.of_nat i) = false).
Proof.
  intros Hd H.
  assert (Hc := listener_callbacks op i w w' H).
  rewrite (listener_decodes op i w Hop) in H.
  destruct (existsb (Nat.eqb i) (readers w)) eqn:Ee.
  - apply existsb_exists in Ee. destruct Ee as (j & Hj & Hij).
    apply Nat.eqb_eq in Hij. subst j.
    destruct (decodeBufferStep_feeding i pn w w' Hd Hj H) as (A & B & C).
    split; [exact A |]. split; [exact Hc |]. split; [exact B | intros _; exact C].
  - inversion H; subst w'.
    split; [exact Hd |]. split; [exact Hc |]. split; [auto |].
    intros Hi _. exfalso.
    assert (existsb (Nat.eqb i) (readers w) = true)
      by (apply existsb_exists; exists i; split; [exact Hi | apply Nat.eqb_refl]).
    congruence.
Qed.

(** Logging leaves the state of the operation as it is. *)
Lemma log_feeding (es : list Effect) (pn : nat) (w : World) :
  feeding_ok op X par kn mn Sn nn src tgt pn w ->
  feeding_ok op X par kn mn Sn nn src tgt pn (log_all es w).
Proof.
  intros [Hsnd Ek Em ES En Esrc Etgt Hout Hp Hwm Hl Hb Hf].
  constructor; simpl; assumption.
Qed.

Lemma wake_feeding (lanes : list nat) (pn : nat) :
  forall w w',
    feeding_ok op X par kn mn Sn nn src tgt pn w ->
    Context.wake (listener op) lanes w = Ok w' ->
    feeding_ok op X par kn mn Sn nn src tgt pn w'
    /\ same_callbacks w w'
    /\ (forall j, Z.testbit (waiting (ctx w)) j = false ->
                  Z.testbit (waiting (ctx w')) j = false)
    /\ (forall i, In i lanes -> In i (readers w) -> (pn < nn)%nat ->
                  Z.testbit (waiting (ctx w')) (Z.of_nat i) = false)
    /\ readers w' = readers w.
Proof.
  induction lanes as [| i lanes IH]; intros w w' Hd H; simpl in H.
  - inversion H; subst w'.
    split; [exact Hd |]. split; [apply same_callbacks_refl |].
    split; [auto |]. split; [intros i [] | reflexivity].
  - destruct (listener op i (log (Emit_readable i) w)) as [w1 |] eqn:El;
      simpl in H; [| discriminate].
    destruct (listener_feeding i pn _ w1 (log_feeding [Emit_readable i] pn w Hd) El)
      as (D1 & C1 & M1 & P1).
    assert (R1 : readers w1 = readers w)
      by (destruct (listener_reads op i _ w1 Hop El) as (A & _); exact A).
    destruct (IH w1 w' D1 H) as (D2 & C2 & M2 & P2 & R2).
    split; [exact D2 |].
    split; [eapply same_callbacks_trans; [| exact C2];
            eapply same_callbacks_trans; [| exact C1]; repeat split |].
    split; [intros j Hj; apply M2, M1, Hj |].
    split; [| congruence].
    intros j [<- | Hj] Hr Hlt; [apply M2, P1; assumption |].
    apply P2; [exact Hj | rewrite R1; exact Hr | exact Hlt].
Qed.

(** Nothing that arrives on an ended lane changes it. *)
Lemma map_lane_feeding (f : option Readable -> option Readable) (i pn : nat) (w : World) :
  (forall s, ended s = true -> f (Some s) = Some s) ->
  (forall s, (match f s with Some _ => true | None => false end)
             = (match s with Some _ => true | None => false end)) ->
  feeding_ok op X par kn mn Sn nn src tgt pn w ->
  feeding_ok op X par kn mn Sn nn src tgt pn (map_lane f i w).
Proof.
  intros Hf Hpres Hd.
  assert (Hs' := map_lane_sound op f i w Hpres (fd_sound _ _ _ _ _ _ _ _ _ _ _ Hd)).
  destruct Hd as [Hsnd Ek Em ES En Esrc Etgt Hout Hp Hwm Hl Hb Hfl].
  unfold map_lane in *.
  destruct (nth_error (istreams (ctx w)) i) as [s |] eqn:E;
    constructor; simpl; try assumption.
  intros j Hj Hsj. destruct (Hl j Hj Hsj) as (Hr & Hlj). split; [exact Hr |].
  rewrite nth_error_list_set.
  destruct (Nat.eqb_spec i j) as [<- | Hne]; [| exact Hlj].
  assert (Hlt : (i <? List.length (istreams (ctx w)))%nat = true)
    by (apply Nat.ltb_lt, nth_error_Some; rewrite E; discriminate).
  rewrite Hlt. rewrite Hlj in E. inversion E; subst s.
  rewrite Hf by reflexivity. reflexivity.
Qed.

Lemma error_feeding (err : Error) (pn : nat) (w : World) :
  feeding_ok op X par kn mn Sn nn src tgt pn w ->
  feeding_ok op X par kn mn Sn nn src tgt pn (Context.error err w).
Proof.
  intros Hd. unfold Context.error. destruct (inputError (ctx w)); [exact Hd |].
  apply log_feeding.
  destruct Hd as [Hsnd Ek Em ES En Esrc Etgt Hout Hp Hwm Hl Hb Hfl].
  constructor; simpl; assumption.
Qed.

End Feeding.


(** ** From one stripe to the next *)

(** What the primitive leaves as it is. *)
Lemma buffers_only_fields (c c' : DencodeContext) :
  buffers_only c c' ->
  k c' = k c /\ m c' = m c /\ stripeSize c' = stripeSize c /\ nStripe c' = nStripe c
  /\ sources c' = sources c /\ targets c' = targets c /\ ostreams c' = ostreams c
  /\ processedStripe c' = processedStripe c /\ waiting c' = waiting c
  /\ istreams c' = istreams c /\ inFlight c' = inFlight c /\ size c' = size c.
Proof. intros (E & _). rewrite E. simpl. repeat split. Qed.

Section Rebuilding.

Variable junk : nat -> Byte.byte.
Variable rs : Z -> Z -> Z -> Z -> bytes -> bytes -> nat -> bytes.
Variable op : Operation.
Variable X : bytes.
Variable par : nat -> nat -> bytes.
Variables kn mn Sn nn : nat.
Variables src tgt : Z.
Hypothesis Hop : op <> Encoding.
Hypothesis Hkn : (0 < kn)%nat.
Hypothesis Hkm : (kn + mn <= 30)%nat.
Hypothesis HSn : (0 < Sn)%nat.
Hypothesis Hpar :
  forall q i, (q < nn)%nat -> (i < mn)%nat -> List.length (par q i) = Sn.
Hypothesis Hsrc : src <> 0.
Hypothesis Hsm : mask_below (Z.of_nat (kn + mn)) src.
Hypothesis Hrs : forall p, (p < nn)%nat -> rebuilds rs X par kn mn Sn src tgt p.

(** When the primitive completes on a stripe, the dispatch step finds the
    shard of every source and of every target lane in the stripe buffers. *)
Lemma primitive_feeding (pn : nat) (w w' : World) (err : option Error) (okf : nat -> bool) :
  feeding_ok op X par kn mn Sn nn src tgt pn w -> primitive w = 1%nat ->
  primitive_succeeds (Primitive_done err okf) = true ->
  step junk rs op w (Primitive_done err okf) = Ok w' ->
  exists w1,
    dispatcher junk op None okf w1 = Ok w'
    /\ buffers_only (ctx w) (ctx w1)
    /\ trace w1 = trace w /\ readers w1 = readers w
    /\ primitive w1 = 0%nat /\ callbacks w1 = 0%nat /\ immediates w1 = 0%nat
    /\ (pn < nn)%nat /\ inFlight (ctx w) = true /\ waiting (ctx w) = 0
    /\ forall j, (j < kn + mn)%nat ->
                 Z.testbit src (Z.of_nat j) || Z.testbit tgt (Z.of_nat j) = true ->
                 buf_lane kn Sn (dataBuffer (ctx w1)) (parityBuffer (ctx w1)) j
                 = code_shard X par kn Sn pn j.
Proof.
  intros Hd Hp Hok H.
  destruct Hd as [Hsnd Ek Em ES En Esrc Etgt Hout [Ep Hpn] [Hwm Hws] Hl Hb Hf].
  destruct (sound_buffers op kn mn Sn w Hop Hsnd Ek Em ES) as (Hli & Hld & Hlp).
  assert (Hfl : inFlight (ctx w) = true /\ waiting (ctx w) = 0 /\ (pn < nn)%nat
                /\ callbacks w = 0%nat /\ immediates w = 0%nat).
  { destruct Hsnd as (_ & _ & _ & _ & _ & J2 & J3 & _).
    destruct (inFlight (ctx w)).
    - destruct Hf as (A & B & _). destruct (J3 Hp) as [C D]. repeat split; assumption.
    - destruct (J2 eq_refl) as (A & _). congruence. }
  destruct Hfl as (Ef & Hw0 & Hlt & Hc0 & Hi0).
  assert (Hsl : forall j, (j < kn + mn)%nat -> Z.testbit src (Z.of_nat j) = true ->
                          buf_lane kn Sn (dataBuffer (ctx w)) (parityBuffer (ctx w)) j
                          = code_shard X par kn Sn pn j).
  { intros j Hj Hsj. apply Hb; try assumption. rewrite Hw0. apply Z.bits_0. }
  unfold step in H. rewrite Hp in H.
  destruct (Z.eqb_spec (targets (ctx w)) 0) as [Ez | Ez].
  - exists (set_primitive 0 w). split; [exact H |].
    split; [apply buffers_only_refl |]. simpl.
    repeat (split; [first [reflexivity | assumption] |]).
    intros j Hj Hb2. apply Hsl; [exact Hj |].
    rewrite <- Etgt, Ez, Z.bits_0, orb_false_r in Hb2. exact Hb2.
  - destruct err as [e |]; [discriminate |].
    exists (upd_ctx (primitive_result rs) (set_primitive 0 w)). split; [exact H |].
    split; [apply primitive_result_spec |]. simpl.
    repeat (split; [first [reflexivity | assumption] |]).
    assert (Hcomp : forall i, (i < kn + mn)%nat ->
                Z.testbit (targets (ctx w)) (Z.of_nat i) = true ->
                firstn Sn (rs (k (ctx w)) (m (ctx w)) (sources (ctx w)) (targets (ctx w))
                              (dataBuffer (ctx w)) (parityBuffer (ctx w)) i)
                = code_shard X par kn Sn pn i).
    { intros i Hi Hti. rewrite Ek, Em, Esrc, Etgt. rewrite Etgt in Hti.
      apply (Hrs pn Hlt _ _ Hld Hlp Hsl i Hi Hti). }
    intros j Hj Hb2.
    rewrite (primitive_result_lanes rs kn mn Sn (ctx w) Ek Em ES Hld Hlp)
      by (try exact Hj; intros i Hi Hti; rewrite (Hcomp i Hi Hti);
          apply (code_shard_length X par kn mn Sn nn pn i Hpar Hlt Hi)).
    destruct (Z.testbit (targets (ctx w)) (Z.of_nat j)) eqn:Etj.
    + apply Hcomp; assumption.
    + apply Hsl; [exact Hj |].
      rewrite <- Etgt, Etj, orb_false_r in Hb2. exact Hb2.
Qed.

(** The dispatch step writes and leaves the inputs alone. *)
Lemma dispatch_feeding (pn : nat) (w w' : World) (err : option Error) (okf : nat -> bool) :
  feeding_ok op X par kn mn Sn nn src tgt pn w -> primitive w = 1%nat ->
  primitive_succeeds (Primitive_done err okf) = true ->
  step junk rs op w (Primitive_done err okf) = Ok w' ->
  feeding_ok op X par kn mn Sn nn src tgt pn w' /\ callbacks w' <> 0%nat.
Proof.
  intros Hd Hp Hok H.
  assert (Hs' : sound op w').
  { destruct (step_sound junk rs op w (Primitive_done err okf)
                         (fd_sound _ _ _ _ _ _ _ _ _ _ _ Hd)) as (x & Ex & Hx).
    congruence. }
  destruct (primitive_feeding pn w w' err okf Hd Hp Hok H)
    as (w1 & Hdisp & (Bc & Bd & Bp) & Et1 & Er1 & Hp1 & Hc1 & Hi1 & Hlt & Ef & Hw0 & Hlanes).
  destruct Hd as [Hsnd Ek Em ES En Esrc Etgt Hout [Ep Hpn] [Hwm Hws] Hl Hb Hf].
  destruct (dispatch_writes_only junk op okf w1 w' Hdisp) as (Wc & Wr & _ & Wp & Wi).
  assert (Hcb : callbacks w' <> 0%nat).
  { apply (dispatch_callbacks junk op okf w1 w' Hop); [| exact Hdisp].
    destruct (buffers_only_fields _ _ (conj Bc (conj Bd Bp)))
      as (_ & _ & _ & _ & _ & F6 & F7 & _).
    rewrite F6, F7, Etgt. exact Hout. }
  split; [| exact Hcb].
  destruct (buffers_only_fields _ _ (conj Bc (conj Bd Bp)))
    as (F1 & F2 & F3 & F4 & F5 & F6 & F7 & F8 & F9 & F10 & F11 & _).
  constructor; rewrite ?Wc, ?Wr, ?Er1; try exact Hs';
    rewrite ?F1, ?F2, ?F3, ?F4, ?F5, ?F6, ?F7, ?F8, ?F9, ?F10, ?F11;
    try assumption; try (split; assumption).
  - intros _ j Hj Hsj _. apply Hlanes; [exact Hj |]. rewrite Hsj. reflexivity.
  - rewrite Ef. split; [exact Hlt |]. split; [exact Hw0 |]. right.
    split; [congruence | left; exact Hcb].
Qed.

(** The stripe is done: the next one starts and every source lane is read
    again. *)
Lemma unref_feeding (pn : nat) (w w' : World) (t : list Effect) (n : Z) :
  feeding_ok op X par kn mn Sn nn src tgt pn w ->
  inFlight (ctx w) = true -> primitive w = 0%nat ->
  unref junk op (mkWorld (ctx w) t (readers w) (errorListeners w) 0 n 0 0) = Ok w' ->
  feeding_ok op X par kn mn Sn nn src tgt (pn + 1) w'
  /\ callbacks w' = 0%nat /\ immediates w' = 0%nat
  /\ ((pn + 1 < nn)%nat -> primitive w' = 1%nat).
Proof.
  intros Hd Ef Hp0 H.
  set (wr := mkWorld (ctx w) t (readers w) (errorListeners w) 0 n 0 0) in *.
  destruct Hd as [Hsnd Ek Em ES En Esrc Etgt Hout [Ep Hpn] [Hwm Hws] Hl Hb Hf].
  rewrite Ef in Hf. destruct Hf as (Hlt & Hw0 & _).
  assert (Hsr : sound op wr).
  { destruct Hsnd as (Hg & Hr & Ho & Hbb & _).
    split; [exact Hg |]. split; [exact Hr |]. split; [exact Ho |]. split; [exact Hbb |].
    apply flight_ok_idle; reflexivity. }
  assert (Hs' : sound op w').
  { destruct Hsr as (Hg & Hr & Ho & Hbb & _).
    destruct (unref_sound junk op wr Hg Hr Ho Hbb eq_refl eq_refl eq_refl) as (x & Ex & Hx).
    congruence. }
  unfold unref in H. apply unref_inv in H. cbv zeta in H. unfold is_nStripe in H. simpl in H.
  rewrite En, Ep in H.
  assert (Hlanes0 : forall wt j, (j < kn + mn)%nat -> Z.testbit src (Z.of_nat j) = true ->
             (pn + 1 < nn -> Z.testbit wt (Z.of_nat j) = true)%nat ->
             In j (readers w)
             /\ nth_error (istreams (ctx w)) j
                = Some (Some (mkReadable
                                (code_from X par kn Sn nn j
                                   (pn + 1 + (if (pn + 1 <? nn)%nat
                                                 && negb (Z.testbit wt (Z.of_nat j))
                                              then 1 else 0))) true))).
  { intros wt j Hj Hsj Hbit. destruct (Hl j Hj Hsj) as (Hr & Hlj). split; [exact Hr |].
    rewrite Hlj, Hw0, Z.bits_0.
    destruct (Nat.ltb_spec pn nn); [| lia]. simpl.
    destruct (Nat.ltb_spec (pn + 1) nn) as [A | A]; simpl.
    - rewrite (Hbit A). simpl. rewrite Nat.add_0_r. reflexivity.
    - rewrite Nat.add_0_r. reflexivity. }
  destruct (Z.eqb_spec (Z.of_nat pn + 1) (Z.of_nat nn)) as [E | E].
  - (* the last stripe *)
    inversion H; subst w'. simpl.
    split; [| split; [reflexivity | split; [reflexivity | intros; lia]]].
    constructor; simpl; try assumption; try (split; assumption).
    + split; lia.
    + intros j Hj Hsj. apply Hlanes0; [exact Hj | exact Hsj | intros; lia].
    + intros; lia.
    + intros; lia.
  - (* the next stripe: every lane is woken *)
    match type of H with
    | Context.wake _ _ ?x = _ => set (w2 := x) in *
    end.
    assert (D2 : feeding_ok op X par kn mn Sn nn src tgt (pn + 1) w2).
    { unfold w2. constructor; simpl; try assumption; try (split; assumption).
      - apply (newStripe_sound_any junk op wr Hop Hsr); reflexivity.
      - split; lia.
      - rewrite Esrc. split; [exact Hsm | auto].
      - rewrite Esrc. intros j Hj Hsj. apply Hlanes0; [exact Hj | exact Hsj | intros _; exact Hsj].
      - rewrite Esrc. intros _ j Hj Hsj Hbit. congruence.
      - rewrite Esrc. intros _. exact Hsrc. }
    destruct (wake_feeding op X par kn mn Sn nn src tgt Hop Hkn Hkm HSn Hpar
                           _ (pn + 1) w2 w' D2 H) as (D' & C' & _ & P' & _).
    destruct C' as (C1 & C2 & _). simpl in C1, C2.
    split; [exact D' |]. split; [exact C1 |]. split; [exact C2 |].
    intros Hlt'.
    assert (Hz : waiting (ctx w') = 0).
    { destruct (fd_waiting _ _ _ _ _ _ _ _ _ _ _ D') as [Hwm' Hws'].
      apply (mask_zero (Z.of_nat (kn + mn))); [exact Hwm' | lia |].
      intros j Hj. replace j with (Z.of_nat (Z.to_nat j)) by lia.
      destruct (Z.testbit src (Z.of_nat (Z.to_nat j))) eqn:Esj.
      - destruct (Hl (Z.to_nat j) ltac:(lia) Esj) as (Hr & Hlj).
        apply P'; [| exact Hr | exact Hlt'].
        apply live_present. unfold w2. simpl. rewrite present_spec, Hlj. reflexivity.
      - destruct (Z.testbit (waiting (ctx w')) (Z.of_nat (Z.to_nat j))) eqn:Ewj;
          [| reflexivity].
        apply Hws' in Ewj. congruence. }
    assert (F' := fd_flight _ _ _ _ _ _ _ _ _ _ _ D').
    destruct (inFlight (ctx w')).
    + destruct F' as (_ & _ & [(A & _) | (_ & [B | B])]); [exact A | |]; congruence.
    + exfalso. apply (F' Hlt'), Hz.
Qed.

(** Whatever happens, the operation stays on the encoded object. *)
Lemma step_feeding (pn : nat) (w w' : World) (e : Event) :
  feeding_ok op X par kn mn Sn nn src tgt pn w ->
  primitive_succeeds e = true ->
  step junk rs op w e = Ok w' ->
  feeding_ok op X par kn mn Sn nn src tgt pn w'
  \/ feeding_ok op X par kn mn Sn nn src tgt (pn + 1) w'.
Proof.
  intros Hd Hok H.
  assert (Hs' : sound op w').
  { destruct (step_sound junk rs op w e (fd_sound _ _ _ _ _ _ _ _ _ _ _ Hd))
      as (x & Ex & Hx).
    congruence. }
  destruct e as [i | i chunk | i | i err | err okf | |].
  - left. simpl in H.
    apply (listener_feeding op X par kn mn Sn nn src tgt Hop Hkn Hkm HSn Hpar i pn w w' Hd H).
  - left. simpl in H. inversion H; subst w'. apply map_lane_feeding; [| | exact Hd].
    + intros s Hs. simpl. rewrite Hs. reflexivity.
    + intros [s |]; simpl; [destruct (ended s) |]; reflexivity.
  - left. simpl in H. inversion H; subst w'. apply map_lane_feeding; [| | exact Hd].
    + intros [b e] Hs. simpl in *. subst e. reflexivity.
    + intros [s |]; reflexivity.
  - left. simpl in H.
    destruct (existsb (Nat.eqb i) (errorListeners w)); inversion H; subst w'; [| exact Hd].
    apply error_feeding.
    destruct Hd as [Hsnd Ek Em ES En Esrc Etgt Hout Hp Hwm Hl Hb Hfl].
    constructor; simpl; assumption.
  - left. destruct (primitive w) as [| p0] eqn:Ep.
    + unfold step in H. rewrite Ep in H. inversion H; subst w'. exact Hd.
    + assert (p0 = 0%nat).
      { destruct (fd_sound _ _ _ _ _ _ _ _ _ _ _ Hd) as (_ & _ & _ & _ & J1 & _).
        rewrite Ep in J1. lia. }
      subst p0. apply (dispatch_feeding pn w w' err okf Hd Ep Hok H).
  - unfold step in H.
    destruct (callbacks w) as [| c] eqn:Ec.
    + left. inversion H; subst w'. exact Hd.
    + cbv zeta in H. cbn [nPending set_nPending set_callbacks] in H.
      assert (Hst : nPending w = Z.of_nat (S c) /\ immediates w = 0%nat
                    /\ inFlight (ctx w) = true /\ primitive w = 0%nat).
      { destruct (fd_sound _ _ _ _ _ _ _ _ _ _ _ Hd) as (_ & _ & _ & _ & _ & J2 & J3 & J4 & _).
        destruct J4 as [A B]; [rewrite Ec; discriminate |].
        split; [rewrite A, Ec; reflexivity |]. split; [exact B |].
        destruct (inFlight (ctx w)) eqn:Ef.
        - split; [reflexivity |].
          destruct (primitive w) as [| [| p1]] eqn:Ep; [reflexivity | | ].
          + destruct (J3 eq_refl) as [C _]. congruence.
          + assert (Hf := fd_flight _ _ _ _ _ _ _ _ _ _ _ Hd). rewrite Ef in Hf.
            destruct Hf as (_ & _ & [(C & _) | (C & _)]); congruence.
        - destruct (J2 eq_refl) as (_ & C & _). congruence. }
      destruct Hst as (Hn & Hi0 & Ef & Hp0).
      destruct (Z.eqb_spec (nPending w - 1) 0) as [Ez | Ez].
      * assert (c = 0%nat) by lia. subst c.
        destruct (not_encoding op Hop) as [Eop | Eop]; rewrite Eop in H at 1.
        -- right.
           replace (set_nPending (nPending w - 1) (set_callbacks 0 w))
             with (mkWorld (ctx w) (trace w) (readers w) (errorListeners w) 0
                           (nPending w - 1) 0 0) in H
             by (unfold set_nPending, set_callbacks; simpl; rewrite Hp0, Hi0; reflexivity).
           apply (unref_feeding pn w w' _ _ Hd Ef Hp0 H).
        -- left. inversion H; subst w'.
           destruct Hd as [Hsnd Ek Em ES En Esrc Etgt Hout Hp Hwm Hl Hb Hfl].
           constructor; simpl; try assumption.
           rewrite Ef in Hfl |- *. destruct Hfl as (A & B & _).
           split; [exact A |]. split; [exact B |]. right.
           split; [exact Hp0 | right; discriminate].
      * left. inversion H; subst w'.
        destruct Hd as [Hsnd Ek Em ES En Esrc Etgt Hout Hp Hwm Hl Hb Hfl].
        constructor; simpl; try assumption.
        rewrite Ef in Hfl |- *. destruct Hfl as (A & B & _).
        split; [exact A |]. split; [exact B |]. right.
        split; [exact Hp0 | left; lia].
  - unfold step in H.
    destruct (immediates w) as [| c] eqn:Ei.
    + left. inversion H; subst w'. exact Hd.
    + right.
      assert (Hst : c = 0%nat /\ callbacks w = 0%nat
                    /\ inFlight (ctx w) = true /\ primitive w = 0%nat).
      { destruct (fd_sound _ _ _ _ _ _ _ _ _ _ _ Hd)
          as (_ & _ & _ & _ & _ & J2 & J3 & J4 & J5).
        split; [lia |].
        split; [destruct (callbacks w) eqn:Ec; [reflexivity |];
                destruct J4 as [_ B]; [discriminate | congruence] |].
        destruct (inFlight (ctx w)) eqn:Ef.
        - split; [reflexivity |].
          destruct (primitive w) as [| [| p1]] eqn:Ep; [reflexivity | | ].
          + destruct (J3 eq_refl) as [_ C]. congruence.
          + assert (Hf := fd_flight _ _ _ _ _ _ _ _ _ _ _ Hd). rewrite Ef in Hf.
            destruct Hf as (_ & _ & [(C & _) | (C & _)]); congruence.
        - destruct (J2 eq_refl) as (_ & _ & C). congruence. }
      destruct Hst as (-> & Hc0 & Ef & Hp0).
      replace (set_immediates 0 w)
        with (mkWorld (ctx w) (trace w) (readers w) (errorListeners w) 0
                      (nPending w) 0 0) in H
        by (unfold set_immediates; rewrite Hp0, Hc0; reflexivity).
      apply (unref_feeding pn w w' _ _ Hd Ef Hp0 H).
Qed.

Lemma run_feeding (events : list Event) :
  forall pn w w',
    feeding_ok op X par kn mn Sn nn src tgt pn w ->
    Forall (fun e => primitive_succeeds e = true) events ->
    run junk rs op w events = Ok w' ->
    exists pn', feeding_ok op X par kn mn Sn nn src tgt pn' w'.
Proof.
  induction events as [| e events IH]; intros pn w w' Hd Hok H; simpl in H.
  - inversion H; subst w'. exists pn. exact Hd.
  - destruct (step junk rs op w e) as [w1 |] eqn:E; simpl in H; [| discriminate].
    inversion Hok; subst.
    destruct (step_feeding pn w w1 e Hd ltac:(assumption) E) as [D | D];
      eapply IH; eassumption.
Qed.

End Rebuilding.


(** ** What reaches the outputs *)

(** Only a dispatch step writes, and only a dispatch step starts the
    writing of a stripe. *)
Lemma step_quiet (junk : nat -> Byte.byte)
      (rs : Z -> Z -> Z -> Z -> bytes -> bytes -> nat -> bytes)
      (op : Operation) (w w' : World) (e : Event) (j : nat) :
  sound op w -> step junk rs op w e = Ok w' ->
  (primitive w = 0%nat \/ match e with Primitive_done _ _ => False | _ => True end) ->
  written j (trace w') = written j (trace w)
  /\ stripes_dispatched w' = stripes_dispatched w.
Proof.
  intros Hs H Hq.
  assert (Hsame : forall new,
             filter is_write new = [] -> trace w' = trace w ++ new ->
             written j (trace w') = written j (trace w)).
  { intros new Q T. rewrite T, written_app, (written_quiet j new Q). apply app_nil_r. }
  assert (Hunref : forall wr,
             trace wr = trace w -> processedStripe (ctx wr) = processedStripe (ctx w) ->
             callbacks wr = 0%nat -> immediates wr = 0%nat ->
             stripes_dispatched w = processedStripe (ctx w) + 1 ->
             unref junk op wr = Ok w' ->
             written j (trace w') = written j (trace w)
             /\ stripes_dispatched w' = stripes_dispatched w).
  { intros wr Tr Pr Cr Ir D Hu.
    destruct (unref_callbacks _ _ _ _ Hu) as (C & I & _).
    destruct (unref_advances junk op _ _ Hu) as (new & (T & _ & P & _) & Hnew).
    split.
    - apply (Hsame new); [| rewrite T, Tr; reflexivity].
      destruct (is_nStripe _ _).
      + destruct Hnew as [-> _]. clear. induction (live _); [reflexivity | assumption].
      + destruct Hnew as [_ Hr]. apply (refill_quiet new Hr).
    - rewrite D. unfold stripes_dispatched. rewrite C, I, Cr, Ir, P, Pr. simpl. lia. }
  destruct e as [i | i chunk | i | i err | err okf | |].
  - simpl in H. destruct (listener_continues op i w w' H) as (new & (T & _ & P & _) & Fn).
    destruct (listener_callbacks _ _ _ _ H) as (C & I & _).
    split; [apply (Hsame new); [apply (fill_quiet new Fn) | exact T] |].
    unfold stripes_dispatched. rewrite P, C, I. reflexivity.
  - simpl in H. inversion H; subst w'.
    destruct (map_lane_bookkeeping (push_chunk chunk) i w) as (T & P & C & I & _).
    rewrite T. split; [reflexivity |].
    unfold stripes_dispatched. rewrite P, C, I. reflexivity.
  - simpl in H. inversion H; subst w'.
    destruct (map_lane_bookkeeping push_end i w) as (T & P & C & I & _).
    rewrite T. split; [reflexivity |].
    unfold stripes_dispatched. rewrite P, C, I. reflexivity.
  - simpl in H. destruct (existsb (Nat.eqb i) (errorListeners w)); inversion H; subst w';
      [| split; reflexivity].
    rewrite written_error.
    match goal with
    | |- context [Context.error err ?x] =>
        destruct (error_bookkeeping err x) as (_ & P & C & I & _)
    end.
    unfold stripes_dispatched. rewrite P, C, I. split; reflexivity.
  - destruct Hq as [Hp | []]. unfold step in H. rewrite Hp in H.
    inversion H; subst w'. split; reflexivity.
  - unfold step in H. destruct (callbacks w) as [| c0] eqn:Ec;
      [inversion H; subst w'; split; reflexivity |].
    pose proof Hs as (_ & _ & _ & _ & _ & _ & _ & J4 & _).
    destruct J4 as [Jn Ji]; [rewrite Ec; discriminate |].
    cbv zeta in H. cbn [nPending set_nPending set_callbacks] in H.
    destruct c0 as [| c1].
    + replace (nPending w - 1 =? 0) with true in H
        by (symmetry; apply Z.eqb_eq; rewrite Jn, Ec; reflexivity).
      assert (D : stripes_dispatched w = processedStripe (ctx w) + 1)
        by (unfold stripes_dispatched; rewrite Ec; reflexivity).
      destruct op.
      * apply (Hunref (set_nPending (nPending w - 1) (set_callbacks 0 w))
                        eq_refl eq_refl eq_refl Ji D H).
      * apply (Hunref (set_nPending (nPending w - 1) (set_callbacks 0 w))
                        eq_refl eq_refl eq_refl Ji D H).
      * inversion H; subst w'. simpl. split; [reflexivity |]. rewrite D.
        unfold stripes_dispatched. simpl. reflexivity.
    + replace (nPending w - 1 =? 0) with false in H
        by (symmetry; apply Z.eqb_neq; rewrite Jn, Ec; lia).
      inversion H; subst w'. simpl. split; [reflexivity |].
      unfold stripes_dispatched. simpl. rewrite Ec. reflexivity.
  - unfold step in H. destruct (immediates w) as [| c0] eqn:Ec;
      [inversion H; subst w'; split; reflexivity |].
    pose proof Hs as (_ & _ & _ & _ & _ & _ & _ & J4 & J5).
    assert (c0 = 0%nat) by lia. subst c0.
    assert (Hc : callbacks w = 0%nat).
    { destruct (callbacks w) eqn:Ecb; [reflexivity |].
      destruct J4 as [_ Ji]; [discriminate | lia]. }
    assert (D : stripes_dispatched w = processedStripe (ctx w) + 1)
      by (unfold stripes_dispatched; rewrite Ec, Hc; reflexivity).
    apply (Hunref (set_immediates 0 w) eq_refl eq_refl Hc eq_refl D H).
Qed.

Section DecodeOutput.

Variable junk : nat -> Byte.byte.
Variable rs : Z -> Z -> Z -> Z -> bytes -> bytes -> nat -> bytes.
Variable X : bytes.
Variable par : nat -> nat -> bytes.
Variables kn mn Sn nn : nat.
Variables src tgt : Z.
Hypothesis Hkn : (0 < kn)%nat.
Hypothesis Hkm : (kn + mn <= 30)%nat.
Hypothesis HSn : (0 < Sn)%nat.
Hypothesis Hpar :
  forall q i, (q < nn)%nat -> (i < mn)%nat -> List.length (par q i) = Sn.
Hypothesis Hsrc : src <> 0.
Hypothesis Hsm : mask_below (Z.of_nat (kn + mn)) src.
Hypothesis Hst : stripes_of (kn * Sn) nn X.
Hypothesis Hdata :
  forall j, (j < kn)%nat ->
            Z.testbit src (Z.of_nat j) || Z.testbit tgt (Z.of_nat j) = true.
Hypothesis Hrs : forall p, (p < nn)%nat -> rebuilds rs X par kn mn Sn src tgt p.

(** The dispatch step of a decode writes the stripe of the object, rebuilt
    where a data lane is missing. *)
Lemma step_decoded (pn : nat) (w w' : World) (e : Event) :
  feeding_ok Decoding X par kn mn Sn nn src tgt pn w ->
  ostreams (ctx w) = [Some writable] ->
  size (ctx w) = Z.of_nat (List.length X) ->
  primitive_succeeds e = true ->
  step junk rs Decoding w e = Ok w' ->
  decoded_upto X kn Sn w -> decoded_upto X kn Sn w'.
Proof.
  intros Hd Eo Esz Hok H Hu.
  assert (Hsnd := fd_sound _ _ _ _ _ _ _ _ _ _ _ Hd).
  assert (Hquiet : primitive w = 0%nat
                   \/ match e with Primitive_done _ _ => False | _ => True end ->
                   decoded_upto X kn Sn w').
  { intros Hq. destruct (step_quiet junk rs Decoding w w' e 0 Hsnd H Hq) as [A B].
    unfold decoded_upto. rewrite A, B. exact Hu. }
  destruct e as [i | i chunk | i | i err | err okf | |];
    try (apply Hquiet; right; exact I).
  destruct (primitive w) as [| p0] eqn:Ep; [apply Hquiet; left; reflexivity |].
  assert (p0 = 0%nat).
  { destruct Hsnd as (_ & _ & _ & _ & J1 & _). rewrite Ep in J1. lia. }
  subst p0. clear Hquiet.
  destruct (primitive_feeding junk rs Decoding X par kn mn Sn nn src tgt
                              ltac:(discriminate) Hpar Hrs
                              pn w w' err okf Hd Ep Hok H)
    as (w1 & Hdisp & Bo & Et1 & Er1 & Hp1 & Hc1 & Hi1 & Hlt & Ef & Hw0 & Hlanes).
  destruct (buffers_only_fields _ _ Bo)
    as (F1 & F2 & F3 & F4 & F5 & F6 & F7 & F8 & F9 & F10 & F11 & F12).
  destruct Hd as [_ Ek Em ES En Esrc Etgt Hout [Ep' Hpn] [Hwm Hws] Hl Hb Hf].
  destruct (sound_buffers Decoding kn mn Sn w ltac:(discriminate) Hsnd Ek Em ES)
    as (Hli & Hld & Hlp).
  assert (Hbuf : dataBuffer (ctx w1) = stripe (kn * Sn) pn X).
  { apply (pieces_ext kn Sn).
    - destruct Bo as (_ & Bd & _). rewrite Bd. exact Hld.
    - apply stripe_length.
    - intros j Hj. assert (A := Hlanes j ltac:(lia) (Hdata j Hj)).
      unfold buf_lane, code_shard in A.
      destruct (Nat.ltb_spec j kn); [exact A | lia]. }
  assert (Hc0 : callbacks w = 0%nat /\ immediates w = 0%nat).
  { destruct Hsnd as (_ & _ & _ & _ & _ & _ & J3 & _). apply J3, Ep. }
  simpl in Hdisp. unfold decodeDispatchStep, is_nStripe in Hdisp.
  rewrite F7, Eo, F4, En, F8, Ep', F12, Esz, F3, ES, F1, Ek, Hbuf in Hdisp.
  rewrite (decoding_chunk X kn mn Sn nn Hkn Hkm HSn Hst pn Hlt) in Hdisp.
  simpl in Hdisp. inversion Hdisp; subst w'; clear Hdisp.
  unfold decoded_upto in *. unfold write_one.
  assert (Es : stripes_dispatched w = Z.of_nat pn).
  { unfold stripes_dispatched. destruct Hc0 as [-> ->]. simpl. lia. }
  rewrite Es, Nat2Z.id in Hu.
  destruct (okf 0%nat); simpl; unfold stripes_dispatched; simpl;
    rewrite F8, Ep', Et1, written_app, Hu; simpl; rewrite app_nil_r;
    replace (Z.to_nat (Z.of_nat pn + 1)) with (pn + 1)%nat by lia;
    symmetry; apply firstn_pieces.
Qed.

Lemma run_decoded (events : list Event) :
  forall pn w w',
    feeding_ok Decoding X par kn mn Sn nn src tgt pn w ->
    ostreams (ctx w) = [Some writable] ->
    size (ctx w) = Z.of_nat (List.length X) ->
    decoded_upto X kn Sn w ->
    Forall (fun e => primitive_succeeds e = true) events ->
    run junk rs Decoding w events = Ok w' ->
    decoded_upto X kn Sn w'
    /\ exists pn', feeding_ok Decoding X par kn mn Sn nn src tgt pn' w'.
Proof.
  induction events as [| e events IH]; intros pn w w' Hd Eo Esz Hu Hok H; simpl in H.
  - inversion H; subst w'. split; [exact Hu | exists pn; exact Hd].
  - destruct (step junk rs Decoding w e) as [w1 |] eqn:E; simpl in H; [| discriminate].
    inversion Hok as [| e0 l0 He Hrest]; subst.
    assert (Hfr : same_frame (ctx w) (ctx w1)).
    { apply (frame_run junk rs Decoding [e]). simpl. rewrite E. reflexivity. }
    destruct Hfr as (_ & _ & _ & G4 & _ & _ & _ & _ & _ & G10 & _).
    assert (Hu1 := step_decoded pn w w1 e Hd Eo Esz He E Hu).
    destruct (step_feeding junk rs Decoding X par kn mn Sn nn src tgt
                           ltac:(discriminate) Hkn Hkm HSn Hpar Hsrc Hsm Hrs
                           pn w w1 e Hd He E) as [D | D];
      apply (IH _ w1 w' D); try assumption; congruence.
Qed.

(** What the output holds is a prefix of the object, and the whole of it
    once every stripe is processed. *)
Lemma decoded_output (pn : nat) (w : World) :
  feeding_ok Decoding X par kn mn Sn nn src tgt pn w ->
  decoded_upto X kn Sn w ->
  (exists rest, X = written 0 (trace w) ++ rest)
  /\ (processedStripe (ctx w) = Z.of_nat nn -> written 0 (trace w) = X).
Proof.
  intros Hd Hu. unfold decoded_upto in Hu. split.
  - rewrite Hu. eexists. symmetry. apply firstn_skipn.
  - intros Hp. rewrite Hu. apply firstn_all2.
    unfold stripes_dispatched. rewrite Hp.
    assert (Hle := proj1 Hst).
    destruct (Nat.eqb (callbacks w) 0 && Nat.eqb (immediates w) 0); nia.
Qed.

End DecodeOutput.

Section RepairOutput.

Variable junk : nat -> Byte.byte.
Variable rs : Z -> Z -> Z -> Z -> bytes -> bytes -> nat -> bytes.
Variable X : bytes.
Variable par : nat -> nat -> bytes.
Variables kn mn Sn nn : nat.
Variables src tgt : Z.
Hypothesis Hkn : (0 < kn)%nat.
Hypothesis Hkm : (kn + mn <= 30)%nat.
Hypothesis HSn : (0 < Sn)%nat.
Hypothesis Hpar :
  forall q i, (q < nn)%nat -> (i < mn)%nat -> List.length (par q i) = Sn.
Hypothesis Hsrc : src <> 0.
Hypothesis Hsm : mask_below (Z.of_nat (kn + mn)) src.
Hypothesis Htm : mask_below (Z.of_nat (kn + mn)) tgt.
Hypothesis Hrs : forall p, (p < nn)%nat -> rebuilds rs X par kn mn Sn src tgt p.

(** The dispatch step of a repair writes to each target lane its shard of
    the stripe, as the primitive has rebuilt it. *)
Lemma step_repaired (pn : nat) (w w' : World) (e : Event) :
  feeding_ok Repairing X par kn mn Sn nn src tgt pn w ->
  List.length (ostreams (ctx w)) = (kn + mn)%nat ->
  primitive_succeeds e = true ->
  step junk rs Repairing w e = Ok w' ->
  repaired_upto X par kn Sn w -> repaired_upto X par kn Sn w'.
Proof.
  intros Hd Eo Hok H Hu.
  assert (Hsnd := fd_sound _ _ _ _ _ _ _ _ _ _ _ Hd).
  assert (Hfr : same_frame (ctx w) (ctx w')).
  { apply (frame_run junk rs Repairing [e]). simpl. rewrite H. reflexivity. }
  assert (Hquiet : primitive w = 0%nat
                   \/ match e with Primitive_done _ _ => False | _ => True end ->
                   repaired_upto X par kn Sn w').
  { intros Hq j. destruct (step_quiet junk rs Repairing w w' e j Hsnd H Hq) as [A B].
    rewrite A, B, (dispatched_to_frame Repairing _ _ j Hfr). apply Hu. }
  destruct e as [i | i chunk | i | i err | err okf | |];
    try (apply Hquiet; right; exact I).
  destruct (primitive w) as [| p0] eqn:Ep; [apply Hquiet; left; reflexivity |].
  assert (p0 = 0%nat).
  { destruct Hsnd as (_ & _ & _ & _ & J1 & _). rewrite Ep in J1. lia. }
  subst p0. clear Hquiet.
  destruct (dispatch_feeding junk rs Repairing X par kn mn Sn nn src tgt
                             ltac:(discriminate) Hpar Hrs
                             pn w w' err okf Hd Ep Hok H) as [_ Hcb].
  destruct (primitive_feeding junk rs Repairing X par kn mn Sn nn src tgt
                              ltac:(discriminate) Hpar Hrs
                              pn w w' err okf Hd Ep Hok H)
    as (w1 & Hdisp & Bo & Et1 & Er1 & Hp1 & Hc1 & Hi1 & Hlt & Ef & Hw0 & Hlanes).
  destruct (buffers_only_fields _ _ Bo)
    as (F1 & F2 & F3 & F4 & F5 & F6 & F7 & F8 & F9 & F10 & F11 & F12).
  destruct Hd as [_ Ek Em ES En Esrc Etgt Hout [Ep' Hpn] [Hwm Hws] Hl Hb Hf].
  destruct (sound_buffers Repairing kn mn Sn w ltac:(discriminate) Hsnd Ek Em ES)
    as (Hli & Hld & Hlp).
  assert (Hc0 : callbacks w = 0%nat /\ immediates w = 0%nat).
  { destruct Hsnd as (_ & _ & _ & _ & _ & _ & J3 & _). apply J3, Ep. }
  assert (Es : stripes_dispatched w = Z.of_nat pn).
  { unfold stripes_dispatched. destruct Hc0 as [-> ->]. simpl. lia. }
  assert (Es' : stripes_dispatched w' = Z.of_nat pn + 1).
  { unfold stripes_dispatched.
    assert (P : processedStripe (ctx w') = processedStripe (ctx w)).
    { destruct (dispatch_writes_only junk Repairing okf w1 w' Hdisp) as (Wc & _).
      rewrite Wc. exact F8. }
    rewrite P, Ep'. destruct (callbacks w'); [congruence | reflexivity]. }
  simpl in Hdisp. unfold repairDispatchStep in Hdisp.
  destruct (repairWrites (seq 0 (List.length (ostreams (ctx w1)))) okf (set_nPending 1 w1))
    as [wx |] eqn:E; simpl in Hdisp; [| discriminate].
  inversion Hdisp; subst w'; clear Hdisp.
  apply repairWrites_trace in E. destruct E as (T & (Wc & _) & _).
  simpl in T, Wc.
  intros j. rewrite (dispatched_to_frame Repairing _ _ j Hfr).
  cbn [trace set_nPending ctx].
  rewrite T, Et1, written_app, (Hu j), Es, Es', Nat2Z.id.
  replace (Z.to_nat (Z.of_nat pn + 1)) with (S pn) by lia.
  rewrite written_writes by (apply NoDup_filter, seq_NoDup).
  rewrite existsb_filter_seq.
  assert (Edt : (j <? List.length (ostreams (ctx w1)))%nat && targeted (ctx w1) j
                = dispatched_to Repairing (ctx w) j).
  { unfold dispatched_to, targeted. rewrite F6, F7. reflexivity. }
  rewrite Edt.
  destruct (dispatched_to Repairing (ctx w) j) eqn:Ej; [| reflexivity].
  rewrite seq_S, flat_map_app. simpl. rewrite app_nil_r. f_equal.
  unfold dispatched_to, targeted in Ej. apply andb_true_iff in Ej.
  destruct Ej as [Ej1 Ej2]. apply Nat.ltb_lt in Ej1.
  apply negb_true_iff, Z.eqb_neq in Ej2.
  assert (Hj : (j < kn + mn)%nat) by lia.
  rewrite Etgt, (band_lane (Z.of_nat (kn + mn)) tgt (Z.of_nat j) Htm) in Ej2 by lia.
  assert (Htj : Z.testbit tgt (Z.of_nat j) = true)
    by (destruct (Z.testbit tgt (Z.of_nat j)); [reflexivity | contradiction]).
  rewrite <- (Hlanes j Hj) by (rewrite Htj; apply orb_true_r).
  destruct Bo as (_ & Bd & Bp).
  unfold lane_slice, buf_lane. rewrite F1, F3, Ek, ES.
  destruct (Z.ltb_spec (Z.of_nat j) (Z.of_nat kn)) as [A | A];
    destruct (Nat.ltb_spec j kn) as [B | B]; try lia.
  - apply buf_slice_piece. rewrite Bd, Hld. nia.
  - replace (Z.of_nat j - Z.of_nat kn) with (Z.of_nat (j - kn)) by lia.
    apply buf_slice_piece. rewrite Bp, Hlp. nia.
Qed.

Lemma run_repaired (events : list Event) :
  forall pn w w',
    feeding_ok Repairing X par kn mn Sn nn src tgt pn w ->
    List.length (ostreams (ctx w)) = (kn + mn)%nat ->
    repaired_upto X par kn Sn w ->
    Forall (fun e => primitive_succeeds e = true) events ->
    run junk rs Repairing w events = Ok w' ->
    repaired_upto X par kn Sn w'
    /\ exists pn', feeding_ok Repairing X par kn mn Sn nn src tgt pn' w'.
Proof.
  induction events as [| e events IH]; intros pn w w' Hd Eo Hu Hok H; simpl in H.
  - inversion H; subst w'. split; [exact Hu | exists pn; exact Hd].
  - destruct (step junk rs Repairing w e) as [w1 |] eqn:E; simpl in H; [| discriminate].
    inversion Hok as [| e0 l0 He Hrest]; subst.
    assert (Hfr : same_frame (ctx w) (ctx w1)).
    { apply (frame_run junk rs Repairing [e]). simpl. rewrite E. reflexivity. }
    destruct Hfr as (_ & _ & _ & _ & _ & _ & _ & _ & _ & G10 & _).
    assert (Hu1 := step_repaired pn w w1 e Hd Eo He E Hu).
    destruct (step_feeding junk rs Repairing X par kn mn Sn nn src tgt
                           ltac:(discriminate) Hkn Hkm HSn Hpar Hsrc Hsm Hrs
                           pn w w1 e Hd He E) as [D | D];
      apply (IH _ w1 w' D); try assumption; congruence.
Qed.

End RepairOutput.


(** ** Starting on the lanes of an encoded object *)

Lemma popcount_zero_not (s : Z) : 0 < popcount s -> s <> 0.
Proof. intros H E. subst s. simpl in H. lia. Qed.

Lemma lane_bit_band (n t : Z) (i : nat) :
  mask_below n t -> 0 <= n <= 30 -> (Z.of_nat i < 30) ->
  (Js.band t (Js.shl 1 (Z.of_nat i)) <> 0 <-> Z.testbit t (Z.of_nat i) = true).
Proof.
  intros Hm Hn Hi. rewrite (band_lane n t (Z.of_nat i) Hm Hn) by lia.
  assert (0 < 2 ^ Z.of_nat i) by (apply Z.pow_pos_nonneg; lia).
  destruct (Z.testbit t (Z.of_nat i)); split; intros A; try reflexivity; try lia;
    congruence.
Qed.

Section DecodeFeeds.

Variable junk : nat -> Byte.byte.
Variable X : bytes.
Variable par : nat -> nat -> bytes.

Lemma decode_feeds (dataStreams parityStreams : list (option Readable)) (hint : Z)
      (kn mn : nat) :
  (0 < kn <= 24)%nat -> (0 < mn <= 6)%nat -> 0 < hint ->
  List.length dataStreams = kn -> List.length parityStreams = mn ->
  let Sn := Z.to_nat (safeStripeSize (Z.of_nat kn) (Z.of_nat mn) hint) in
  let nn := Z.to_nat (Js.ceil_div (Z.of_nat (List.length X)) (Z.of_nat (kn * Sn))) in
  let src := r_sources (Decode.getPartRoles dataStreams parityStreams) in
  let tgt := r_targets (Decode.getPartRoles dataStreams parityStreams) in
  (forall j s, nth_error (dataStreams ++ parityStreams) j = Some (Some s) ->
               s = mkReadable (code_from X par kn Sn nn j 0) true) ->
  Z.of_nat kn <= count_present (dataStreams ++ parityStreams) ->
  (0 < Sn)%nat /\ stripes_of (kn * Sn) nn X
  /\ src <> 0 /\ mask_below (Z.of_nat (kn + mn)) src
  /\ (forall j, (j < kn)%nat ->
                Z.testbit src (Z.of_nat j) || Z.testbit tgt (Z.of_nat j) = true)
  /\ exists w0,
      decode junk (Some writable) (Z.of_nat (List.length X)) dataStreams parityStreams hint
      = Ok w0
      /\ feeding_ok Decoding X par kn mn Sn nn src tgt 0 w0
      /\ callbacks w0 = 0%nat /\ immediates w0 = 0%nat
      /\ ostreams (ctx w0) = [Some writable]
      /\ size (ctx w0) = Z.of_nat (List.length X)
      /\ decoded_upto X kn Sn w0.
Proof.
  intros Hk Hm Hh Hld Hlp Sn nn src tgt Hlanes Hcount.
  assert (HS : 0 < safeStripeSize (Z.of_nat kn) (Z.of_nat mn) hint)
    by (apply safeStripeSize_pos; unfold MAX_K, MAX_M; lia).
  assert (HSn : (0 < Sn)%nat) by (unfold Sn; lia).
  assert (ESn : Z.of_nat Sn = safeStripeSize (Z.of_nat kn) (Z.of_nat mn) hint)
    by (unfold Sn; lia).
  destruct (stripes_of_ceil (kn * Sn) X ltac:(nia)) as [Hn0 Hst]. fold nn in Hst.
  assert (Enn : Z.of_nat nn = Js.ceil_div (Z.of_nat (List.length X)) (Z.of_nat (kn * Sn)))
    by (unfold nn; lia).
  destruct (decode_roles_spec dataStreams parityStreams ltac:(lia))
    as [(Hsm & Htm & Hpop & Hsl & Htl) Hav].
  destruct (decode_roles_lanes dataStreams parityStreams ltac:(lia)) as (_ & Hdl & _).
  rewrite Hld, Hlp in *. fold src tgt in Hsm, Htm, Hpop, Hsl, Htl, Hdl.
  replace (Z.of_nat kn + Z.of_nat mn) with (Z.of_nat (kn + mn)) in * by lia.
  rewrite Z.min_l in Hav by exact Hcount.
  assert (Hsrc : src <> 0) by (apply popcount_zero_not; rewrite Hpop, Hav; lia).
  assert (Hdata : forall j, (j < kn)%nat ->
                            Z.testbit src (Z.of_nat j) || Z.testbit tgt (Z.of_nat j) = true).
  { intros j Hj. destruct (Hdl (Z.of_nat j) ltac:(lia)) as [-> ->].
    destruct (present dataStreams (Z.of_nat j)); reflexivity. }
  split; [exact HSn |]. split; [exact Hst |]. split; [exact Hsrc |].
  split; [exact Hsm |]. split; [exact Hdata |].
  assert (Hband : forall i, (i < kn + mn)%nat ->
                            Js.band src (Js.shl 1 (Z.of_nat i)) <> 0 ->
                            Z.testbit src (Z.of_nat i) = true).
  { intros i Hi. apply (lane_bit_band (Z.of_nat (kn + mn))); [exact Hsm | lia | lia]. }
  assert (Hsp : forall i, (i < kn + mn)%nat -> Z.testbit src (Z.of_nat i) = true ->
                          nth_error (dataStreams ++ parityStreams) i
                          = Some (Some (mkReadable (code_from X par kn Sn nn i 0) true))).
  { intros i Hi Hbit. assert (Hp := Hsl (Z.of_nat i) ltac:(lia) Hbit).
    destruct (present_nth _ _ Hp) as [s Es]. rewrite Es, (Hlanes i s Es). reflexivity. }
  assert (Hatt : forall w : World,
             ctx w = next_stripe junk
                       (mkContext (Z.of_nat kn) (Z.of_nat mn) (Z.of_nat Sn)
                          (Z.of_nat (List.length X))
                          (Z.of_nat Sn * Z.of_nat kn) (Z.of_nat Sn * Z.of_nat mn)
                          (dataStreams ++ parityStreams) [Some writable] src tgt
                          false 0
                          (if Z.of_nat kn * Z.of_nat Sn =? 0 then None
                           else Some (Js.ceil_div (Z.of_nat (List.length X))
                                                  (Z.of_nat kn * Z.of_nat Sn)))
                          0 [] [] None) ->
             forall i, In i (seq 0 (List.length (dataStreams ++ parityStreams))) ->
                       Js.band (sources (ctx w)) (Js.shl 1 (Z.of_nat i)) <> 0 ->
                       present (istreams (ctx w)) (Z.of_nat i) = true).
  { intros w Ew i Hi Hne. rewrite Ew in *. simpl in *. apply in_seq in Hi.
    rewrite length_app, Hld, Hlp in Hi.
    rewrite present_spec, (Hsp i) by (try apply Hband; (lia || assumption)).
    reflexivity. }
  assert (Hdec : exists w0,
             decode junk (Some writable) (Z.of_nat (List.length X))
                    dataStreams parityStreams hint = Ok w0).
  { unfold decode. fold src tgt. rewrite Hav, Hld, Hlp. 
    rewrite create_next by (unfold MAX_K, MAX_M; lia).
    cbn [bind]. rewrite Z.ltb_irrefl, <- ESn.
    match goal with
    | |- exists w0, attach ?l ?x = _ => destruct (attach_readers l x) as (w0 & A & _)
    end; [| exists w0; exact A].
    apply Hatt. reflexivity. }
  destruct Hdec as (w0 & Hdec). exists w0. split; [exact Hdec |].
  assert (Hsnd : sound Decoding w0).
  { apply (started_sound junk). exists (Some writable), (Z.of_nat (List.length X)),
      dataStreams, parityStreams, hint. split; [lia | exact Hdec]. }
  unfold decode in Hdec. fold src tgt in Hdec.
  rewrite Hav, Hld, Hlp in Hdec. 
  rewrite create_next in Hdec by (unfold MAX_K, MAX_M; lia).
  cbn [bind] in Hdec. rewrite Z.ltb_irrefl, <- ESn in Hdec.
  match type of Hdec with
  | attach ?l ?x = _ =>
      destruct (attach_readers l x) as (w1 & A & _ & Hread);
      [| destruct (attach_spec l x w0 Hdec) as (Ectx & Ep & Ec & Ei & _);
         destruct (attach_trace l x w0 Hdec) as (new & Et & Hnew)]
  end.
  { apply Hatt. reflexivity. }
  rewrite Hdec in A. inversion A; subst w1. clear A.
  simpl in Ectx, Ep, Ec, Ei, Et, Hread.
  assert (Hzero : (Z.of_nat kn * Z.of_nat Sn =? 0) = false) by (apply Z.eqb_neq; nia).
  split; [| split; [exact Ec | split; [exact Ei |]]].
  - constructor; rewrite ?Ectx; simpl; try reflexivity; try assumption.
    + rewrite Hzero, Enn. do 2 f_equal. lia.
    + discriminate.
    + split; [reflexivity | lia].
    + split; [exact Hsm | auto].
    + intros j Hj Hbit. split.
      * apply Hread; [apply in_seq; rewrite length_app; lia |].
        apply (lane_bit_band (Z.of_nat (kn + mn))); [exact Hsm | lia | lia | exact Hbit].
      * rewrite Hbit. simpl negb. rewrite andb_false_r.
        apply Hsp; assumption.
    + intros _ j Hj Hbit Hw. congruence.
    + intros _. exact Hsrc.
  - rewrite Ectx. simpl. split; [reflexivity |]. split; [reflexivity |].
    unfold decoded_upto, stripes_dispatched. rewrite Ectx, Ec, Ei. simpl.
    rewrite Et. simpl. apply written_setup, Hnew.
Qed.

End DecodeFeeds.

Section RepairFeeds.

Variable junk : nat -> Byte.byte.
Variable X : bytes.
Variable par : nat -> nat -> bytes.

Lemma repair_feeds (ins : list (option Readable)) (outs : list (option Writable))
      (hint : Z) (kn mn : nat) :
  (0 < kn <= 24)%nat -> (0 < mn <= 6)%nat -> 0 < hint ->
  List.length ins = (kn + mn)%nat -> List.length outs = (kn + mn)%nat ->
  let Sn := Z.to_nat (safeStripeSize (Z.of_nat kn) (Z.of_nat mn) hint) in
  let nn := Z.to_nat (Js.ceil_div (Z.of_nat (List.length X)) (Z.of_nat (kn * Sn))) in
  let src := r_sources (Repair.getPartRoles (Z.of_nat kn) (Z.of_nat mn) ins outs) in
  let tgt := r_targets (Repair.getPartRoles (Z.of_nat kn) (Z.of_nat mn) ins outs) in
  (forall j s, nth_error ins j = Some (Some s) ->
               s = mkReadable (code_from X par kn Sn nn j 0) true) ->
  Z.of_nat kn <= count_present ins ->
  (exists i, present outs (Z.of_nat i) = true) ->
  (0 < Sn)%nat /\ stripes_of (kn * Sn) nn X
  /\ src <> 0 /\ mask_below (Z.of_nat (kn + mn)) src
  /\ mask_below (Z.of_nat (kn + mn)) tgt
  /\ exists w0,
      repair junk (Z.of_nat kn) (Z.of_nat mn) ins outs
             (Z.of_nat (List.length X)) hint = Ok w0
      /\ feeding_ok Repairing X par kn mn Sn nn src tgt 0 w0
      /\ callbacks w0 = 0%nat /\ immediates w0 = 0%nat
      /\ ostreams (ctx w0) = outs
      /\ (forall j, dispatched_to Repairing (ctx w0) j = present outs (Z.of_nat j))
      /\ repaired_upto X par kn Sn w0.
Proof.
  intros Hk Hm Hh Hli Hlo Sn nn src tgt Hlanes Hcount Hsome.
  assert (HS : 0 < safeStripeSize (Z.of_nat kn) (Z.of_nat mn) hint)
    by (apply safeStripeSize_pos; unfold MAX_K, MAX_M; lia).
  assert (HSn : (0 < Sn)%nat) by (unfold Sn; lia).
  assert (ESn : Z.of_nat Sn = safeStripeSize (Z.of_nat kn) (Z.of_nat mn) hint)
    by (unfold Sn; lia).
  destruct (stripes_of_ceil (kn * Sn) X ltac:(nia)) as [Hn0 Hst]. fold nn in Hst.
  assert (Enn : Z.of_nat nn = Js.ceil_div (Z.of_nat (List.length X)) (Z.of_nat (kn * Sn)))
    by (unfold nn; lia).
  destruct (repair_roles_spec (Z.of_nat kn) (Z.of_nat mn) ins outs
                              ltac:(lia) ltac:(lia) ltac:(lia))
    as (Hsm & Hsl & Hpop & Hav & (Htm & Htb)).
  fold src tgt in Hsm, Hsl, Hpop, Htm, Htb.
  replace (Z.of_nat kn + Z.of_nat mn) with (Z.of_nat (kn + mn)) in * by lia.
  rewrite Z.min_l in Hav by exact Hcount.
  assert (Hsrc : src <> 0) by (apply popcount_zero_not; rewrite Hpop, Hav; lia).
  split; [exact HSn |]. split; [exact Hst |]. split; [exact Hsrc |].
  split; [exact Hsm |]. split; [exact Htm |].
  assert (Hsp : forall i, (i < kn + mn)%nat -> Z.testbit src (Z.of_nat i) = true ->
                          nth_error ins i
                          = Some (Some (mkReadable (code_from X par kn Sn nn i 0) true))).
  { intros i Hi Hbit. assert (Hp := Hsl (Z.of_nat i) ltac:(lia) Hbit).
    destruct (present_nth _ _ Hp) as [s Es]. rewrite Es, (Hlanes i s Es). reflexivity. }
  assert (Hatt : forall w : World,
             ctx w = next_stripe junk
                       (mkContext (Z.of_nat kn) (Z.of_nat mn) (Z.of_nat Sn)
                          (Z.of_nat (List.length X))
                          (Z.of_nat Sn * Z.of_nat kn) (Z.of_nat Sn * Z.of_nat mn)
                          ins outs src tgt
                          false 0
                          (if Z.of_nat kn * Z.of_nat Sn =? 0 then None
                           else Some (Js.ceil_div (Z.of_nat (List.length X))
                                                  (Z.of_nat kn * Z.of_nat Sn)))
                          0 [] [] None) ->
             forall i, In i (seq 0 (List.length ins)) ->
                       Js.band (sources (ctx w)) (Js.shl 1 (Z.of_nat i)) <> 0 ->
                       present (istreams (ctx w)) (Z.of_nat i) = true).
  { intros w Ew i Hi Hne. rewrite Ew in *. simpl in *. apply in_seq in Hi.
    rewrite present_spec, (Hsp i); [reflexivity | lia |].
    apply (lane_bit_band (Z.of_nat (kn + mn))); [exact Hsm | lia | lia | exact Hne]. }
  assert (Hunf : forall w0,
             repair junk (Z.of_nat kn) (Z.of_nat mn) ins outs
                    (Z.of_nat (List.length X)) hint = Ok w0
             <-> attach (seq 0 (List.length ins))
                        (mkWorld
                           (next_stripe junk
                              (mkContext (Z.of_nat kn) (Z.of_nat mn) (Z.of_nat Sn)
                                 (Z.of_nat (List.length X))
                                 (Z.of_nat Sn * Z.of_nat kn) (Z.of_nat Sn * Z.of_nat mn)
                                 ins outs src tgt
                                 false 0
                                 (if Z.of_nat kn * Z.of_nat Sn =? 0 then None
                                  else Some (Js.ceil_div (Z.of_nat (List.length X))
                                                         (Z.of_nat kn * Z.of_nat Sn)))
                                 0 [] [] None))
                           [] [] [] 0 0 0 0) = Ok w0).
  { intros w0. unfold repair.
    replace (Z.of_nat kn + Z.of_nat mn =? Z.of_nat (List.length ins)) with true
      by (symmetry; apply Z.eqb_eq; lia).
    replace (Z.of_nat kn + Z.of_nat mn =? Z.of_nat (List.length outs)) with true
      by (symmetry; apply Z.eqb_eq; lia).
    cbn [negb]. fold src tgt. rewrite Hav. 
    rewrite create_next by (unfold MAX_K, MAX_M; lia).
    cbn [bind]. rewrite Z.ltb_irrefl, <- ESn. reflexivity. }
  match type of Hunf with
  | forall w0, _ <-> attach ?l ?x = _ =>
      destruct (attach_readers l x) as (w0 & Hdec & _ & Hread);
      [apply Hatt; reflexivity |];
      destruct (attach_spec l x w0 Hdec) as (Ectx & Ep & Ec & Ei & _);
      destruct (attach_trace l x w0 Hdec) as (new & Et & Hnew)
  end.
  exists w0. split; [apply Hunf, Hdec |].
  assert (Hsnd : sound Repairing w0).
  { apply (started_sound junk).
    exists (Z.of_nat kn), (Z.of_nat mn), ins, outs, (Z.of_nat (List.length X)), hint.
    split; [lia | apply Hunf, Hdec]. }
  simpl in Ectx, Ep, Ec, Ei, Et, Hread.
  assert (Hzero : (Z.of_nat kn * Z.of_nat Sn =? 0) = false) by (apply Z.eqb_neq; nia).
  assert (Hdt : forall j, dispatched_to Repairing (ctx w0) j = present outs (Z.of_nat j)).
  { intros j. unfold dispatched_to, targeted. rewrite Ectx. simpl.
    destruct (Nat.ltb_spec j (List.length outs)) as [A | A].
    - simpl. rewrite <- (Htb (Z.of_nat j)) by lia.
      rewrite (band_lane (Z.of_nat (kn + mn)) tgt (Z.of_nat j) Htm) by lia.
      assert (0 < 2 ^ Z.of_nat j) by (apply Z.pow_pos_nonneg; lia).
      destruct (Z.testbit tgt (Z.of_nat j)); simpl; [| reflexivity].
      apply negb_true_iff, Z.eqb_neq. lia.
    - simpl. symmetry. rewrite present_spec.
      rewrite (proj2 (nth_error_None outs j)) by lia. reflexivity. }
  split; [| split; [exact Ec | split; [exact Ei |]]].
  - constructor; rewrite ?Ectx; simpl; try reflexivity; try assumption.
    + rewrite Hzero, Enn. do 2 f_equal. lia.
    + destruct Hsome as (i & Hi). exists i.
      assert (Hil := present_lt _ _ Hi).
      split; [exact Hil |].
      apply (lane_bit_band (Z.of_nat (kn + mn))); [exact Htm | lia | lia |].
      rewrite Htb by lia. exact Hi.
    + split; [reflexivity | lia].
    + split; [exact Hsm | auto].
    + intros j Hj Hbit. split.
      * apply Hread; [apply in_seq; lia |].
        apply (lane_bit_band (Z.of_nat (kn + mn))); [exact Hsm | lia | lia | exact Hbit].
      * rewrite Hbit. simpl negb. rewrite andb_false_r.
        apply Hsp; assumption.
    + intros _ j Hj Hbit Hw. congruence.
    + intros _. exact Hsrc.
  - split; [rewrite Ectx; reflexivity |]. split; [exact Hdt |].
    intros j. rewrite Et. simpl.
    rewrite (written_setup j new Hnew).
    unfold stripes_dispatched. rewrite Ectx, Ec, Ei. simpl.
    destruct (dispatched_to Repairing _ j); reflexivity.
Qed.

End RepairFeeds.


(** ** Driving a decode or a repair to its end *)

Lemma live_from_length {A : Type} (arr : list (option A)) :
  forall i, (List.length (live_from i arr) <= List.length arr)%nat.
Proof.
  induction arr as [| x arr IH]; intros i; simpl; [lia |].
  destruct x; simpl; specialize (IH (S i)); lia.
Qed.

Lemma decodeWrites_acked (chunk : bytes) (okf : nat -> bool) (lanes : list nat) :
  (forall i, okf i = true) ->
  forall w,
    callbacks (fold_left (fun w' i => write_one 1 i chunk (okf i) w') lanes w)
    = (callbacks w + List.length lanes)%nat.
Proof.
  intros Hok. induction lanes as [| i lanes IH]; intros w; simpl; [lia |].
  rewrite IH. unfold write_one. rewrite Hok. simpl. lia.
Qed.

Lemma repairWrites_acked (lanes : list nat) :
  forall w w',
    repairWrites lanes (fun _ => true) w = Ok w' ->
    (callbacks w' <= callbacks w + List.length lanes)%nat.
Proof.
  induction lanes as [| i lanes IH]; intros w w' H; simpl in H.
  - inversion H; subst. simpl. lia.
  - destruct (Js.band (targets (ctx w)) (Js.shl 1 (Z.of_nat i)) =? 0).
    + apply IH in H. simpl. lia.
    + destruct (nth_error (ostreams (ctx w)) i) as [[s |] |]; try discriminate.
      apply IH in H. unfold write_one in H. simpl in *. lia.
Qed.

(** When every write is taken at once, a dispatch step leaves at most one
    callback per output outstanding. *)
Lemma dispatch_bound (junk : nat -> Byte.byte) (op : Operation) (w w' : World) :
  op <> Encoding -> callbacks w = 0%nat ->
  dispatcher junk op None (fun _ => true) w = Ok w' ->
  (callbacks w' <= List.length (ostreams (ctx w)))%nat.
Proof.
  intros Hop Hc H. destruct op; [contradiction | |]; unfold dispatcher in H.
  - unfold decodeDispatchStep in H. injection H as <-.
    eapply Nat.le_trans;
      [apply Nat.eq_le_incl;
       exact (decodeWrites_acked _ (fun _ => true) _ (fun _ => eq_refl) _) |].
    simpl. rewrite Hc. apply (live_from_length (ostreams (ctx w)) 0).
  - unfold repairDispatchStep in H.
    destruct (repairWrites (seq 0 (List.length (ostreams (ctx w)))) (fun _ => true)
                           (set_nPending 1 w)) as [w1 |] eqn:E; simpl in H; [| discriminate].
    inversion H; subst w'; clear H. simpl.
    apply repairWrites_acked in E. simpl in E. rewrite length_seq, Hc in E. exact E.
Qed.

(** With nothing outstanding, acknowledgements and deferred calls find
    nothing to do. *)
Lemma settled_run (junk : nat -> Byte.byte)
      (rs : Z -> Z -> Z -> Z -> bytes -> bytes -> nat -> bytes)
      (op : Operation) (w : World) (n : nat) :
  callbacks w = 0%nat -> immediates w = 0%nat ->
  run junk rs op w (repeat Write_done n ++ [Immediate]) = Ok w.
Proof.
  intros Hc Hi. induction n as [| n IH]; simpl.
  - rewrite Hi. reflexivity.
  - rewrite Hc. simpl. exact IH.
Qed.

Section Driving.

Variable junk : nat -> Byte.byte.
Variable rs : Z -> Z -> Z -> Z -> bytes -> bytes -> nat -> bytes.
Variable op : Operation.
Variable X : bytes.
Variable par : nat -> nat -> bytes.
Variables kn mn Sn nn : nat.
Variables src tgt : Z.
Hypothesis Hop : op <> Encoding.
Hypothesis Hkn : (0 < kn)%nat.
Hypothesis Hkm : (kn + mn <= 30)%nat.
Hypothesis HSn : (0 < Sn)%nat.
Hypothesis Hpar :
  forall q i, (q < nn)%nat -> (i < mn)%nat -> List.length (par q i) = Sn.
Hypothesis Hsrc : src <> 0.
Hypothesis Hsm : mask_below (Z.of_nat (kn + mn)) src.
Hypothesis Hrs : forall p, (p < nn)%nat -> rebuilds rs X par kn mn Sn src tgt p.

(** Each lane in turn becomes readable. *)
Lemma sweep_feeding (lanes : list nat) (pn : nat) :
  forall w,
    feeding_ok op X par kn mn Sn nn src tgt pn w ->
    exists w',
      run junk rs op w (map On_readable lanes) = Ok w'
      /\ feeding_ok op X par kn mn Sn nn src tgt pn w'
      /\ same_callbacks w w'
      /\ (forall j, Z.testbit (waiting (ctx w)) j = false ->
                    Z.testbit (waiting (ctx w')) j = false)
      /\ (forall i, In i lanes -> In i (readers w) -> (pn < nn)%nat ->
                    Z.testbit (waiting (ctx w')) (Z.of_nat i) = false).
Proof.
  induction lanes as [| i lanes IH]; intros w Hd; simpl.
  - exists w. split; [reflexivity |]. split; [exact Hd |].
    split; [apply same_callbacks_refl |]. split; [auto | intros i []].
  - destruct (listener_sound op i w (fd_sound _ _ _ _ _ _ _ _ _ _ _ Hd)) as (w1 & E & _).
    rewrite E. simpl.
    destruct (listener_feeding op X par kn mn Sn nn src tgt Hop Hkn Hkm HSn Hpar
                               i pn w w1 Hd E) as (D1 & C1 & M1 & P1).
    assert (R1 : readers w1 = readers w)
      by (destruct (listener_reads op i _ w1 Hop E) as (A & _); exact A).
    destruct (IH w1 D1) as (w' & R & D2 & C2 & M2 & P2).
    exists w'. split; [exact R |]. split; [exact D2 |].
    split; [eapply same_callbacks_trans; eassumption |].
    split; [intros j Hj; apply M2, M1, Hj |].
    intros j [<- | Hj] Hr Hlt; [apply M2, P1; assumption |].
    apply P2; [exact Hj | rewrite R1; exact Hr | exact Hlt].
Qed.

(** The callbacks of a dispatch step run, then the deferred call: the
    stripe is done and the next one is on its way. *)
Lemma drain_feeding (n : nat) :
  forall pn w,
    feeding_ok op X par kn mn Sn nn src tgt pn w ->
    inFlight (ctx w) = true -> primitive w = 0%nat ->
    (callbacks w <= n)%nat ->
    exists w',
      run junk rs op w (repeat Write_done n ++ [Immediate]) = Ok w'
      /\ feeding_ok op X par kn mn Sn nn src tgt (pn + 1) w'
      /\ callbacks w' = 0%nat /\ immediates w' = 0%nat
      /\ ((pn + 1 < nn)%nat -> primitive w' = 1%nat).
Proof.
  induction n as [| n IH]; intros pn w Hd Ef Hp0 Hn.
  - (* the deferred call *)
    assert (Hc0 : callbacks w = 0%nat) by lia.
    assert (Hi1 : immediates w = 1%nat).
    { assert (Hf := fd_flight _ _ _ _ _ _ _ _ _ _ _ Hd). rewrite Ef in Hf.
      destruct (fd_sound _ _ _ _ _ _ _ _ _ _ _ Hd) as (_ & _ & _ & _ & _ & _ & _ & _ & J5).
      destruct Hf as (_ & _ & [(A & _) | (_ & [B | B])]); [congruence | congruence | lia]. }
    cbn [repeat app run]. unfold step. rewrite Hi1.
    replace (set_immediates 0 w)
      with (mkWorld (ctx w) (trace w) (readers w) (errorListeners w) 0
                    (nPending w) 0 0)
      by (unfold set_immediates; rewrite Hp0, Hc0; reflexivity).
    match goal with
    | |- exists w', bind ?u _ = _ /\ _ =>
        destruct u as [w1 |] eqn:E
    end.
    + exists w1. split; [reflexivity |].
      apply (unref_feeding junk op X par kn mn Sn nn src tgt Hop Hkn Hkm HSn Hpar Hsrc Hsm
                           pn w w1 _ _ Hd Ef Hp0 E).
    + exfalso.
      destruct (step_sound junk rs op w Immediate (fd_sound _ _ _ _ _ _ _ _ _ _ _ Hd))
        as (x & Ex & _).
      unfold step in Ex. rewrite Hi1 in Ex.
      replace (set_immediates 0 w)
        with (mkWorld (ctx w) (trace w) (readers w) (errorListeners w) 0
                      (nPending w) 0 0) in Ex
        by (unfold set_immediates; rewrite Hp0, Hc0; reflexivity).
      congruence.
  - cbn [repeat app run].
    destruct (step_sound junk rs op w Write_done (fd_sound _ _ _ _ _ _ _ _ _ _ _ Hd))
      as (w1 & E & _).
    rewrite E. cbn [bind].
    assert (Hstep := step_feeding junk rs op X par kn mn Sn nn src tgt
                                  Hop Hkn Hkm HSn Hpar Hsrc Hsm Hrs
                                  pn w w1 Write_done Hd eq_refl E).
    unfold step in E.
    destruct (callbacks w) as [| c] eqn:Ec.
    + inversion E; subst w1. apply IH; try assumption. lia.
    + cbv zeta in E. cbn [nPending set_nPending set_callbacks] in E.
      assert (Hst : nPending w = Z.of_nat (S c) /\ immediates w = 0%nat).
      { destruct (fd_sound _ _ _ _ _ _ _ _ _ _ _ Hd) as (_ & _ & _ & _ & _ & _ & _ & J4 & _).
        destruct J4 as [A B]; [rewrite Ec; discriminate |].
        split; [rewrite A, Ec; reflexivity | exact B]. }
      destruct Hst as (Hnp & Hi0).
      assert (Hsame : forall w2, processedStripe (ctx w2) = processedStripe (ctx w) ->
                        feeding_ok op X par kn mn Sn nn src tgt pn w2
                        \/ feeding_ok op X par kn mn Sn nn src tgt (pn + 1) w2 ->
                        feeding_ok op X par kn mn Sn nn src tgt pn w2).
      { intros w2 P [D | D]; [exact D | exfalso].
        destruct (fd_p _ _ _ _ _ _ _ _ _ _ _ D) as [A _].
        destruct (fd_p _ _ _ _ _ _ _ _ _ _ _ Hd) as [B _]. lia. }
      destruct (Z.eqb_spec (nPending w - 1) 0) as [Ez | Ez].
      * assert (c = 0%nat) by lia. subst c.
        destruct (not_encoding op Hop) as [Eop | Eop]; rewrite Eop in E at 1.
        -- replace (set_nPending (nPending w - 1) (set_callbacks 0 w))
             with (mkWorld (ctx w) (trace w) (readers w) (errorListeners w) 0
                           (nPending w - 1) 0 0) in E
             by (unfold set_nPending, set_callbacks; simpl; rewrite Hp0, Hi0; reflexivity).
           destruct (unref_feeding junk op X par kn mn Sn nn src tgt
                                   Hop Hkn Hkm HSn Hpar Hsrc Hsm
                                   pn w w1 _ _ Hd Ef Hp0 E) as (D1 & C1 & I1 & P1).
           exists w1. split; [apply settled_run; assumption |].
           split; [exact D1 |]. split; [exact C1 |]. split; [exact I1 | exact P1].
        -- inversion E; subst w1.
           apply IH; [apply Hsame; [reflexivity | exact Hstep] | exact Ef | exact Hp0 |].
           simpl. lia.
      * inversion E; subst w1.
        apply IH; [apply Hsame; [reflexivity | exact Hstep] | exact Ef | exact Hp0 |].
        simpl. lia.
Qed.

(** One stripe goes through: the primitive completes, the writes are
    acknowledged, the next stripe is filled and handed over. *)
Lemma cycle_feeding (n pn : nat) (w : World) :
  feeding_ok op X par kn mn Sn nn src tgt pn w -> primitive w = 1%nat ->
  (List.length (ostreams (ctx w)) <= n)%nat ->
  exists w',
    run junk rs op w
        (Primitive_done None (fun _ => true) :: repeat Write_done n ++ [Immediate]) = Ok w'
    /\ feeding_ok op X par kn mn Sn nn src tgt (pn + 1) w'
    /\ callbacks w' = 0%nat /\ immediates w' = 0%nat
    /\ ((pn + 1 < nn)%nat -> primitive w' = 1%nat).
Proof.
  intros Hd Hp Ho. cbn [run].
  destruct (step_sound junk rs op w (Primitive_done None (fun _ => true))
                       (fd_sound _ _ _ _ _ _ _ _ _ _ _ Hd)) as (w1 & E & Hs1).
  rewrite E. cbn [bind].
  destruct (dispatch_feeding junk rs op X par kn mn Sn nn src tgt Hop Hpar Hrs
                             pn w w1 None _ Hd Hp eq_refl E) as [D1 Hcb].
  destruct (primitive_feeding junk rs op X par kn mn Sn nn src tgt Hop Hpar Hrs
                              pn w w1 None _ Hd Hp eq_refl E)
    as (wx & Hdisp & Bo & _ & _ & _ & Hcx & _).
  assert (Hb := dispatch_bound junk op wx w1 Hop Hcx Hdisp).
  destruct (buffers_only_fields _ _ Bo) as (_ & _ & _ & _ & _ & _ & F7 & _).
  rewrite F7 in Hb.
  assert (Hf := fd_flight _ _ _ _ _ _ _ _ _ _ _ D1).
  destruct (inFlight (ctx w1)) eqn:Ef1.
  - apply (drain_feeding n pn w1 D1 Ef1); [| lia].
    destruct Hf as (_ & _ & [(_ & A & _) | (A & _)]); [congruence | exact A].
  - exfalso. destruct Hs1 as (_ & _ & _ & _ & _ & J2 & _).
    destruct (J2 Ef1) as (_ & A & _). congruence.
Qed.

Lemma cycles_feeding (n r : nat) :
  forall a pn w,
    feeding_ok op X par kn mn Sn nn src tgt pn w -> (pn + r = nn)%nat ->
    callbacks w = 0%nat -> immediates w = 0%nat ->
    ((0 < r)%nat -> primitive w = 1%nat) ->
    (List.length (ostreams (ctx w)) <= n)%nat ->
    exists w',
      run junk rs op w
          (flat_map (fun _ => Primitive_done None (fun _ => true)
                              :: repeat Write_done n ++ [Immediate]) (seq a r))
      = Ok w'
      /\ feeding_ok op X par kn mn Sn nn src tgt nn w'
      /\ callbacks w' = 0%nat /\ immediates w' = 0%nat.
Proof.
  induction r as [| r IH]; intros a pn w Hd Hr Hc Hi Hp Ho.
  - exists w. split; [reflexivity |].
    assert (E : pn = nn) by lia. revert Hd. rewrite E. auto.
  - cbn [seq flat_map]. rewrite run_app.
    destruct (cycle_feeding n pn w Hd (Hp ltac:(lia)) Ho) as (w1 & E1 & D1 & C1 & I1 & P1).
    rewrite E1. cbn [bind].
    apply (IH (S a) (pn + 1)%nat w1 D1); [lia | exact C1 | exact I1 | intros; apply P1; lia |].
    destruct (frame_run junk rs op _ w w1 E1)
      as (_ & _ & _ & _ & _ & _ & _ & _ & _ & G10 & _).
    rewrite G10. exact Ho.
Qed.

(** A decode or a repair of the encoded object can be driven to its end. *)
Lemma feeding_completes (w : World) :
  feeding_ok op X par kn mn Sn nn src tgt 0 w ->
  callbacks w = 0%nat -> immediates w = 0%nat ->
  (List.length (ostreams (ctx w)) <= kn + mn)%nat ->
  exists w',
    run junk rs op w (recoverSchedule (kn + mn) nn) = Ok w'
    /\ feeding_ok op X par kn mn Sn nn src tgt nn w'
    /\ callbacks w' = 0%nat /\ immediates w' = 0%nat.
Proof.
  intros Hd Hc Hi Ho. unfold recoverSchedule. rewrite run_app.
  destruct (sweep_feeding (seq 0 (kn + mn)) 0 w Hd) as (w1 & R1 & D1 & C1 & _ & P1).
  rewrite R1. cbn [bind].
  destruct C1 as (C1 & I1 & _).
  apply (cycles_feeding (kn + mn) nn 0%nat 0%nat w1 D1);
    [lia | congruence | congruence | |].
  - intros Hn.
    assert (Hz : waiting (ctx w1) = 0).
    { destruct (fd_waiting _ _ _ _ _ _ _ _ _ _ _ D1) as [Hwm' Hws'].
      apply (mask_zero (Z.of_nat (kn + mn))); [exact Hwm' | lia |].
      intros j Hj. replace j with (Z.of_nat (Z.to_nat j)) by lia.
      destruct (Z.testbit src (Z.of_nat (Z.to_nat j))) eqn:Esj.
      - destruct (fd_lanes _ _ _ _ _ _ _ _ _ _ _ Hd (Z.to_nat j) ltac:(lia) Esj) as (Hr & _).
        apply P1; [apply in_seq; lia | exact Hr | exact Hn].
      - destruct (Z.testbit (waiting (ctx w1)) (Z.of_nat (Z.to_nat j))) eqn:Ewj;
          [| reflexivity].
        apply Hws' in Ewj. congruence. }
    assert (F := fd_flight _ _ _ _ _ _ _ _ _ _ _ D1).
    destruct (inFlight (ctx w1)).
    + destruct F as (_ & _ & [(A & _) | (_ & [B | B])]); [exact A | |]; congruence.
    + exfalso. apply (F Hn), Hz.
  - destruct (frame_run junk rs op _ w w1 R1)
      as (_ & _ & _ & _ & _ & _ & _ & _ & _ & G10 & _).
    rewrite G10. exact Ho.
Qed.

End Driving.


(** ** Recovering from missing lanes *)

Lemma recoverSchedule_succeeds (lanes nn : nat) :
  Forall (fun e => primitive_succeeds e = true) (recoverSchedule lanes nn).
Proof.
  unfold recoverSchedule. apply Forall_app. split.
  - apply Forall_forall. intros e He. apply in_map_iff in He.
    destruct He as (i & <- & _). reflexivity.
  - apply Forall_forall. intros e He. apply in_flat_map in He.
    destruct He as (q & _ & [<- | He]); [reflexivity |].
    apply in_app_or in He. destruct He as [He | [<- | []]]; [| reflexivity].
    apply repeat_spec in He. subst e. reflexivity.
Qed.

Section Recovery.

Variable junk : nat -> Byte.byte.
Variable rs : Z -> Z -> Z -> Z -> bytes -> bytes -> nat -> bytes.

(** X13. Decoding with erasures. A decode is given, for an object [X] whose
    parity shards are [par], the complete stream of each lane it has, at
    least [k] of them, and the primitive rebuilds the shards of the missing
    data lanes from the lanes [decode] selects as sources. Then the decode
    starts; whatever happens, as long as the primitive reports no failure,
    what it has written is a prefix of [X], and all of [X] once every
    stripe is processed; and it can be driven there. *)
Theorem decode_recovers (X : bytes) (par : nat -> nat -> bytes) (kn mn : nat) (hint : Z)
        (dataStreams parityStreams : list (option Readable)) :
  (0 < kn <= 24)%nat -> (0 < mn <= 6)%nat -> 0 < hint ->
  List.length dataStreams = kn -> List.length parityStreams = mn ->
  let Sn := Z.to_nat (safeStripeSize (Z.of_nat kn) (Z.of_nat mn) hint) in
  let nn := Z.to_nat (Js.ceil_div (Z.of_nat (List.length X)) (Z.of_nat (kn * Sn))) in
  let roles := Decode.getPartRoles dataStreams parityStreams in
  (forall p i, (p < nn)%nat -> (i < mn)%nat -> List.length (par p i) = Sn) ->
  (forall j s, nth_error (dataStreams ++ parityStreams) j = Some (Some s) ->
               s = mkReadable (code_from X par kn Sn nn j 0) true) ->
  Z.of_nat kn <= count_present (dataStreams ++ parityStreams) ->
  (forall p, (p < nn)%nat ->
             rebuilds rs X par kn mn Sn (r_sources roles) (r_targets roles) p) ->
  exists w0,
    decode junk (Some writable) (Z.of_nat (List.length X)) dataStreams parityStreams hint
    = Ok w0
    /\ (forall events w,
           Forall (fun e => primitive_succeeds e = true) events ->
           run junk rs Decoding w0 events = Ok w ->
           (exists rest, X = written 0 (trace w) ++ rest)
           /\ (processedStripe (ctx w) = Z.of_nat nn -> written 0 (trace w) = X))
    /\ exists w,
        run junk rs Decoding w0 (recoverSchedule (kn + mn) nn) = Ok w
        /\ processedStripe (ctx w) = Z.of_nat nn
        /\ written 0 (trace w) = X.
Proof.
  intros Hk Hm Hh Hld Hlp Sn nn roles Hpar Hlanes Hcount Hrs.
  destruct (decode_feeds junk X par dataStreams parityStreams hint kn mn
                         Hk Hm Hh Hld Hlp Hlanes Hcount)
    as (HSn & Hst & Hsrc & Hsm & Hdata & w0 & Hdec & D0 & C0 & I0 & Eo & Esz & U0).
  fold Sn nn in HSn, Hst, D0, U0. fold roles in Hsrc, Hsm, Hdata, D0.
  exists w0. split; [exact Hdec |].
  assert (Hsafe : forall events w,
             Forall (fun e => primitive_succeeds e = true) events ->
             run junk rs Decoding w0 events = Ok w ->
             (exists rest, X = written 0 (trace w) ++ rest)
             /\ (processedStripe (ctx w) = Z.of_nat nn -> written 0 (trace w) = X)).
  { intros events w Hok Hr.
    destruct (run_decoded junk rs X par kn mn Sn nn _ _ ltac:(lia) ltac:(lia) HSn Hpar
                          Hsrc Hsm Hst Hdata Hrs events 0%nat w0 w D0 Eo Esz U0 Hok Hr)
      as (U & pn & D).
    apply (decoded_output X par kn mn Sn nn _ _ ltac:(lia) ltac:(lia) HSn Hst pn w D U). }
  split; [exact Hsafe |].
  destruct (feeding_completes junk rs Decoding X par kn mn Sn nn _ _
                              ltac:(discriminate) ltac:(lia) ltac:(lia) HSn Hpar
                              Hsrc Hsm Hrs w0 D0 C0 I0)
    as (w & Hr & D & _); [rewrite Eo; simpl; lia |].
  exists w. split; [exact Hr |].
  destruct (fd_p _ _ _ _ _ _ _ _ _ _ _ D) as [Ep _].
  split; [exact Ep |].
  apply (Hsafe _ w (recoverSchedule_succeeds _ _) Hr), Ep.
Qed.

(** X14. Repairing lost lanes. A repair is given the complete stream of
    each lane it has of the object [X] with parity shards [par], at least
    [k] of them, at least one output, and the primitive rebuilds the
    shards of the lanes with an output from the lanes [repair] selects as
    sources. Then the repair starts; whatever happens, as long as the
    primitive reports no failure, each output has received the shards of
    its lane for the stripes dispatched so far, in order, and nothing else
    was written; and the repair can be driven to the point where every
    output holds its whole lane. *)
Theorem repair_rebuilds (X : bytes) (par : nat -> nat -> bytes) (kn mn : nat) (hint : Z)
        (ins : list (option Readable)) (outs : list (option Writable)) :
  (0 < kn <= 24)%nat -> (0 < mn <= 6)%nat -> 0 < hint ->
  List.length ins = (kn + mn)%nat -> List.length outs = (kn + mn)%nat ->
  let Sn := Z.to_nat (safeStripeSize (Z.of_nat kn) (Z.of_nat mn) hint) in
  let nn := Z.to_nat (Js.ceil_div (Z.of_nat (List.length X)) (Z.of_nat (kn * Sn))) in
  let roles := Repair.getPartRoles (Z.of_nat kn) (Z.of_nat mn) ins outs in
  (forall p i, (p < nn)%nat -> (i < mn)%nat -> List.length (par p i) = Sn) ->
  (forall j s, nth_error ins j = Some (Some s) ->
               s = mkReadable (code_from X par kn Sn nn j 0) true) ->
  Z.of_nat kn <= count_present ins ->
  (exists i, present outs (Z.of_nat i) = true) ->
  (forall p, (p < nn)%nat ->
             rebuilds rs X par kn mn Sn (r_sources roles) (r_targets roles) p) ->
  exists w0,
    repair junk (Z.of_nat kn) (Z.of_nat mn) ins outs (Z.of_nat (List.length X)) hint = Ok w0
    /\ (forall events w,
           Forall (fun e => primitive_succeeds e = true) events ->
           run junk rs Repairing w0 events = Ok w ->
           forall j,
             written j (trace w)
             = if present outs (Z.of_nat j)
               then flat_map (fun q => code_shard X par kn Sn q j)
                             (seq 0 (Z.to_nat (stripes_dispatched w)))
               else [])
    /\ exists w,
        run junk rs Repairing w0 (recoverSchedule (kn + mn) nn) = Ok w
        /\ processedStripe (ctx w) = Z.of_nat nn
        /\ forall j,
            written j (trace w)
            = if present outs (Z.of_nat j) then code_from X par kn Sn nn j 0 else [].
Proof.
  intros Hk Hm Hh Hli Hlo Sn nn roles Hpar Hlanes Hcount Hsome Hrs.
  destruct (repair_feeds junk X par ins outs hint kn mn
                         Hk Hm Hh Hli Hlo Hlanes Hcount Hsome)
    as (HSn & Hst & Hsrc & Hsm & Htm & w0 & Hrep & D0 & C0 & I0 & Eo & Hdt & U0).
  fold Sn nn in HSn, Hst, D0, U0. fold roles in Hsrc, Hsm, Htm, D0.
  exists w0. split; [exact Hrep |].
  assert (Hsafe : forall events w,
             Forall (fun e => primitive_succeeds e = true) events ->
             run junk rs Repairing w0 events = Ok w ->
             forall j,
               written j (trace w)
               = if present outs (Z.of_nat j)
                 then flat_map (fun q => code_shard X par kn Sn q j)
                               (seq 0 (Z.to_nat (stripes_dispatched w)))
                 else []).
  { intros events w Hok Hr j.
    destruct (run_repaired junk rs X par kn mn Sn nn _ _ ltac:(lia) ltac:(lia) HSn Hpar
                           Hsrc Hsm Htm Hrs events 0%nat w0 w D0
                           ltac:(rewrite Eo; exact Hlo) U0 Hok Hr)
      as (U & _).
    rewrite (U j), (dispatched_to_frame Repairing _ _ j (frame_run junk rs _ _ _ _ Hr)).
    rewrite Hdt. reflexivity. }
  split; [exact Hsafe |].
  destruct (feeding_completes junk rs Repairing X par kn mn Sn nn _ _
                              ltac:(discriminate) ltac:(lia) ltac:(lia) HSn Hpar
                              Hsrc Hsm Hrs w0 D0 C0 I0)
    as (w & Hr & D & C & I); [rewrite Eo; lia |].
  exists w. split; [exact Hr |].
  destruct (fd_p _ _ _ _ _ _ _ _ _ _ _ D) as [Ep _].
  split; [exact Ep |].
  intros j. rewrite (Hsafe _ w (recoverSchedule_succeeds _ _) Hr j).
  unfold stripes_dispatched, code_from. rewrite Ep, C, I. simpl.
  replace (Z.to_nat (Z.of_nat nn + 0)) with nn by lia.
  rewrite Nat.sub_0_r. reflexivity.
Qed.

End Recovery.


(** ** From the streams of an encode back to the object *)

(** A stream cut in shards and put together again. *)
Lemma pieces_concat (Sn : nat) (L : bytes) (n : nat) :
  forall a, flat_map (fun q => piece Sn q L) (seq a n) = firstn (n * Sn) (skipn (a * Sn) L).
Proof.
  induction n as [| n IH]; intros a; [reflexivity |].
  cbn [seq flat_map]. rewrite IH.
  replace (S n * Sn)%nat with (Sn + n * Sn)%nat by lia.
  rewrite firstn_add, skipn_skipn. unfold piece.
  replace (Sn + a * Sn)%nat with (S a * Sn)%nat by lia. reflexivity.
Qed.

(** The shards dispatched so far are the head of the lane. *)
Lemma code_from_head (X : bytes) (par : nat -> nat -> bytes) (kn mn Sn nn j d : nat) :
  (forall q i, (q < nn)%nat -> (i < mn)%nat -> List.length (par q i) = Sn) ->
  (j < kn + mn)%nat -> (d <= nn)%nat ->
  flat_map (fun q => code_shard X par kn Sn q j) (seq 0 d)
  = firstn (d * Sn) (code_from X par kn Sn nn j 0).
Proof.
  intros Hpar Hj Hd. unfold code_from. rewrite Nat.sub_0_r.
  replace nn with (d + (nn - d))%nat at 1 by lia.
  rewrite seq_app, flat_map_app.
  assert (Hlen : List.length (flat_map (fun q => code_shard X par kn Sn q j) (seq 0 d))
                 = (d * Sn)%nat).
  { clear - Hpar Hj Hd. induction d as [| d IH]; [reflexivity |].
    rewrite seq_S, flat_map_app, length_app, IH by lia. simpl.
    rewrite app_nil_r, (code_shard_length X par kn mn Sn nn d j Hpar) by lia. lia. }
  set (A := flat_map (fun q => code_shard X par kn Sn q j) (seq 0 d)) in *.
  rewrite <- Hlen, <- (Nat.add_0_r (List.length A)), firstn_app_2. simpl.
  rewrite app_nil_r. reflexivity.
Qed.

(** No more stripes are dispatched than the object has. *)
Lemma feeding_dispatched (op : Operation) (X : bytes) (par : nat -> nat -> bytes)
      (kn mn Sn nn : nat) (src tgt : Z) (pn : nat) (w : World) :
  feeding_ok op X par kn mn Sn nn src tgt pn w ->
  (Z.to_nat (stripes_dispatched w) <= nn)%nat.
Proof.
  intros Hd. destruct (fd_p _ _ _ _ _ _ _ _ _ _ _ Hd) as [Ep Hpn].
  assert (Hf := fd_flight _ _ _ _ _ _ _ _ _ _ _ Hd).
  destruct (fd_sound _ _ _ _ _ _ _ _ _ _ _ Hd) as (_ & _ & _ & _ & _ & J2 & _).
  unfold stripes_dispatched. rewrite Ep.
  destruct (inFlight (ctx w)).
  - destruct Hf as (A & _).
    destruct (Nat.eqb (callbacks w) 0 && Nat.eqb (immediates w) 0); lia.
  - destruct (J2 eq_refl) as (_ & -> & ->). simpl. lia.
Qed.

Section Encoded.

Variable junk : nat -> Byte.byte.
Variable rs : Z -> Z -> Z -> Z -> bytes -> bytes -> nat -> bytes.

(** Every output of an encode has received one shard per stripe
    dispatched. *)
Lemma encoded_length (instream : option Readable) (sz : Z)
      (douts pouts : list (option Writable)) (hint : Z)
      (events : list Event) (w0 w : World) (lane : nat) :
  0 <= hint ->
  (forall i, (i < List.length (douts ++ pouts))%nat ->
             present (douts ++ pouts) (Z.of_nat i) = true) ->
  encode junk instream sz douts pouts hint = Ok w0 ->
  Forall (fun e => primitive_succeeds e = true) events ->
  run junk rs Encoding w0 events = Ok w ->
  (lane < List.length douts + List.length pouts)%nat ->
  Z.of_nat (List.length (written lane (trace w)))
  = safeStripeSize (Z.of_nat (List.length douts)) (Z.of_nat (List.length pouts)) hint
    * stripes_dispatched w.
Proof.
  intros Hh Hp He Hok Hr Hl.
  assert (Hs : started junk Encoding w0).
  { exists instream, sz, douts, pouts, hint. auto. }
  assert (Hs0 := started_sound junk Encoding w0 Hs).
  destruct (started_balance junk Encoding w0 lane Hs) as [Hb0 _].
  unfold encode in He.
  match type of He with bind ?cr _ = _ => destruct cr as [c |] eqn:Ec end;
    simpl in He; [| discriminate].
  destruct instream as [s |]; [| discriminate]. inversion He; subst w0; clear He.
  destruct (create_fresh _ _ _ _ _ _ _ _ _ _ Ec) as (_ & _ & _ & Fo & _ & _ & FS).
  apply create_ok in Ec. destruct Ec as (_ & Ec).
  assert (Hd0 : dispatches Encoding (mkWorld c [Pause 0] [0%nat] [0%nat] 0 0 0 0)).
  { split; [exact Hs0 |]. split.
    - rewrite Ec. unfold roomy. simpl. rewrite !heap_bytes_length. lia.
    - simpl. rewrite Fo, Ec, length_app. simpl. lia. }
  destruct (run_dispatches junk rs Encoding events lane ltac:(discriminate) _ w
                           Hd0 Hb0 Hok Hr) as [_ Hb].
  assert (Hfr := frame_run junk rs Encoding events _ w Hr).
  destruct Hfr as (_ & _ & F3 & _ & _ & _ & _ & _ & _ & F10 & _). simpl in F3, F10.
  unfold lane_balance in Hb.
  assert (Ed : dispatched_to Encoding (ctx w) lane = true).
  { unfold dispatched_to. rewrite F10, Fo, length_app, andb_true_r.
    apply Nat.ltb_lt. exact Hl. }
  rewrite Ed, F3, FS in Hb. exact Hb.
Qed.

(** The streams an encode has written once its stripes are processed, its
    input having received the object in chunks, are the lanes of a code of
    the object, whose parity shards are those it wrote. *)
Lemma encoded_lanes (X : bytes) (kn mn : nat) (hint : Z) (input : Readable)
      (events : list Event) (w0 w : World) :
  (0 < kn <= 24)%nat -> (0 < mn <= 6)%nat -> 0 < hint ->
  let Sn := Z.to_nat (safeStripeSize (Z.of_nat kn) (Z.of_nat mn) hint) in
  let nn := Z.to_nat (Js.ceil_div (Z.of_nat (List.length X)) (Z.of_nat (kn * Sn))) in
  let par := fun p i => piece Sn p (written (kn + i) (trace w)) in
  encode junk (Some input) (Z.of_nat (List.length X))
         (repeat (Some writable) kn) (repeat (Some writable) mn) hint = Ok w0 ->
  Forall (fun e => primitive_succeeds e = true) events ->
  carries X (fed 0 events input) ->
  run junk rs Encoding w0 events = Ok w ->
  processedStripe (ctx w) = Z.of_nat nn ->
  (forall p i, (p < nn)%nat -> (i < mn)%nat -> List.length (par p i) = Sn)
  /\ forall j, (j < kn + mn)%nat -> written j (trace w) = code_from X par kn Sn nn j 0.
Proof.
  intros Hk Hm Hh Sn nn par He Hok Hfed Hr Hp.
  assert (HS : 0 < safeStripeSize (Z.of_nat kn) (Z.of_nat mn) hint)
    by (apply safeStripeSize_pos; unfold MAX_K, MAX_M; lia).
  assert (HSn : (0 < Sn)%nat) by (unfold Sn; lia).
  destruct (stripes_of_ceil (kn * Sn) X ltac:(nia)) as [_ Hst]. fold nn in Hst.
  assert (Hpres : forall i, (i < List.length (repeat (Some writable) kn
                                              ++ repeat (Some writable) mn))%nat ->
                            present (repeat (Some writable) kn ++ repeat (Some writable) mn)
                                    (Z.of_nat i) = true).
  { intros i Hi. rewrite present_spec, <- repeat_app.
    rewrite <- repeat_app, repeat_length in Hi.
    rewrite (nth_error_repeat (Some writable) Hi). reflexivity. }
  destruct (encode_start junk X input (repeat (Some writable) kn)
                         (repeat (Some writable) mn)
                         hint kn mn Hk Hm Hh (repeat_length _ _) (repeat_length _ _) Hpres
                         (carries_fed X 0 events input Hfed))
    as (x & Ex & D0 & _).
  fold Sn nn in D0. assert (x = w0) by congruence. subst x.
  destruct (run_encoding junk rs X kn mn Sn nn ltac:(lia) ltac:(lia) ltac:(lia) HSn Hst
                         events 0%nat input w0 w D0 Hfed Hok Hr) as (pn & D).
  assert (Hidle : callbacks w = 0%nat /\ immediates w = 0%nat).
  { destruct (enc_p _ _ _ _ _ _ _ _ D) as [Ep _]. assert (pn = nn) by lia. subst pn.
    assert (Hf := enc_flight _ _ _ _ _ _ _ _ D).
    destruct (enc_sound _ _ _ _ _ _ _ _ D) as (_ & _ & _ & _ & _ & J2 & _).
    destruct (inFlight (ctx w)); [destruct Hf; lia |].
    destruct (J2 eq_refl) as (_ & A & B). split; assumption. }
  assert (Hlen : forall j, (j < kn + mn)%nat ->
                           List.length (written j (trace w)) = (nn * Sn)%nat).
  { intros j Hj.
    assert (A := encoded_length _ _ _ _ hint events w0 w j ltac:(lia) Hpres He Hok Hr
                                ltac:(rewrite !repeat_length; exact Hj)).
    rewrite !repeat_length in A.
    unfold stripes_dispatched in A. destruct Hidle as [Hc Hi].
    rewrite Hc, Hi, Hp in A. simpl in A. unfold Sn. nia. }
  split.
  - intros p i Hpn Hi. unfold par. apply piece_full.
    rewrite Hlen by lia. nia.
  - intros j Hj. destruct (Nat.lt_ge_cases j kn) as [A | A].
    + rewrite code_from_data by exact A.
      apply (encoding_output X kn mn Sn nn ltac:(lia) ltac:(lia) ltac:(lia) HSn pn _ w D Hp j A).
    + unfold code_from. rewrite Nat.sub_0_r.
      rewrite (flat_map_ext _ (fun q => piece Sn q (written j (trace w)))).
      * rewrite pieces_concat. simpl. rewrite <- (Hlen j Hj). symmetry. apply firstn_all.
      * intros q. unfold code_shard, par.
        destruct (Nat.ltb_spec j kn); [lia |].
        replace (kn + (j - kn))%nat with j by lia. reflexivity.
Qed.

(** X15. An encode followed by a decode that has lost lanes. An encode
    receives the object [X] in chunks of any sizes, at any moments, its end
    signalled or not, and its primitive reports no failure. Of the streams
    it has written once its stripes are processed, a decode is given any
    [k] or more (those [keep] selects); if the primitive
    rebuilds the shards of the missing data lanes from the lanes [decode]
    selects as sources, the parity shards being those the encode wrote,
    the decode starts, what it writes is always a prefix of [X], all of
    [X] once every stripe is processed, and it can be driven there. *)
Theorem erasure_round_trip (X : bytes) (kn mn : nat) (hint : Z) (keep : nat -> bool)
        (input : Readable) (evE : list Event) (wE0 wE : World) :
  (0 < kn <= 24)%nat -> (0 < mn <= 6)%nat -> 0 < hint ->
  let size := Z.of_nat (List.length X) in
  let Sn := Z.to_nat (safeStripeSize (Z.of_nat kn) (Z.of_nat mn) hint) in
  let nn := Z.to_nat (Js.ceil_div size (Z.of_nat (kn * Sn))) in
  encode junk (Some input) size
         (repeat (Some writable) kn) (repeat (Some writable) mn) hint = Ok wE0 ->
  Forall (fun e => primitive_succeeds e = true) evE ->
  carries X (fed 0 evE input) ->
  run junk rs Encoding wE0 evE = Ok wE ->
  processedStripe (ctx wE) = Z.of_nat nn ->
  let lane := fun j => if keep j : bool
                       then Some (mkReadable (written j (trace wE)) true) else None in
  let dataStreams := map lane (seq 0 kn) in
  let parityStreams := map lane (seq kn mn) in
  let par := fun p i => piece Sn p (written (kn + i) (trace wE)) in
  let roles := Decode.getPartRoles dataStreams parityStreams in
  Z.of_nat kn <= count_present (dataStreams ++ parityStreams) ->
  (forall p, (p < nn)%nat ->
             rebuilds rs X par kn mn Sn (r_sources roles) (r_targets roles) p) ->
  exists wD0,
    decode junk (Some writable) size dataStreams parityStreams hint = Ok wD0
    /\ (forall evD wD,
           Forall (fun e => primitive_succeeds e = true) evD ->
           run junk rs Decoding wD0 evD = Ok wD ->
           (exists rest, X = written 0 (trace wD) ++ rest)
           /\ (processedStripe (ctx wD) = Z.of_nat nn -> written 0 (trace wD) = X))
    /\ exists wD,
        run junk rs Decoding wD0 (recoverSchedule (kn + mn) nn) = Ok wD
        /\ processedStripe (ctx wD) = Z.of_nat nn
        /\ written 0 (trace wD) = X.
Proof.
  intros Hk Hm Hh size Sn nn He Hok Hc Hr Hp lane dataStreams parityStreams par roles
         Hcount Hrs.
  assert (Henc : (forall p i, (p < nn)%nat -> (i < mn)%nat -> List.length (par p i) = Sn)
                 /\ forall j, (j < kn + mn)%nat ->
                              written j (trace wE) = code_from X par kn Sn nn j 0)
    by exact (encoded_lanes X kn mn hint input evE wE0 wE Hk Hm Hh He Hok Hc Hr Hp).
  destruct Henc as [Hpar Hcode].
  assert (Hld : List.length dataStreams = kn)
    by (unfold dataStreams; rewrite length_map, length_seq; reflexivity).
  assert (Hlp : List.length parityStreams = mn)
    by (unfold parityStreams; rewrite length_map, length_seq; reflexivity).
  assert (Hall : dataStreams ++ parityStreams = map lane (seq 0 (kn + mn))).
  { unfold dataStreams, parityStreams. rewrite <- map_app, <- seq_app. reflexivity. }
  assert (Hlanes : forall j s,
             nth_error (dataStreams ++ parityStreams) j = Some (Some s) ->
             s = mkReadable (code_from X par kn Sn nn j 0) true).
  { intros j s Hs. rewrite Hall in Hs.
    assert (Hj : (j < List.length (map lane (seq 0 (kn + mn))))%nat)
      by (apply nth_error_Some; rewrite Hs; discriminate).
    rewrite length_map, length_seq in Hj.
    rewrite (map_nth_error lane j (seq 0 (kn + mn)) (d := j)) in Hs
      by (rewrite nth_error_nth' with (d := 0%nat) by (rewrite length_seq; exact Hj);
          rewrite seq_nth by exact Hj; reflexivity).
    unfold lane in Hs. destruct (keep j); [| discriminate].
    inversion Hs. rewrite (Hcode j Hj). reflexivity. }
  destruct (decode_feeds junk X par dataStreams parityStreams hint kn mn
                         Hk Hm Hh Hld Hlp Hlanes Hcount)
    as (HSn & Hst & Hsrc & Hsm & Hdata & w0 & Hdec & D0 & C0 & I0 & Eo & Esz & U0).
  fold Sn nn in HSn, Hst, D0, U0. fold roles in Hsrc, Hsm, Hdata, D0.
  exists w0. split; [exact Hdec |].
  assert (Hsafe : forall events w,
             Forall (fun e => primitive_succeeds e = true) events ->
             run junk rs Decoding w0 events = Ok w ->
             (exists rest, X = written 0 (trace w) ++ rest)
             /\ (processedStripe (ctx w) = Z.of_nat nn -> written 0 (trace w) = X)).
  { intros events w Hoke Hre.
    destruct (run_decoded junk rs X par kn mn Sn nn _ _ ltac:(lia) ltac:(lia) HSn Hpar
                          Hsrc Hsm Hst Hdata Hrs events 0%nat w0 w D0 Eo Esz U0 Hoke Hre)
      as (U & pn & D).
    apply (decoded_output X par kn mn Sn nn _ _ ltac:(lia) ltac:(lia) HSn Hst pn w D U). }
  split; [exact Hsafe |].
  destruct (feeding_completes junk rs Decoding X par kn mn Sn nn _ _
                              ltac:(discriminate) ltac:(lia) ltac:(lia) HSn Hpar
                              Hsrc Hsm Hrs w0 D0 C0 I0)
    as (w & Hrw & D & _); [rewrite Eo; simpl; lia |].
  exists w. split; [exact Hrw |].
  destruct (fd_p _ _ _ _ _ _ _ _ _ _ _ D) as [Ep _].
  split; [exact Ep |].
  apply (Hsafe _ w (recoverSchedule_succeeds _ _) Hrw), Ep.
Qed.

(** X16. An encode followed by a repair of lost lanes. An encode
    receives the object [X] in chunks of any sizes, at any moments, its end
    signalled or not, and its primitive reports no failure. Of the streams
    it has written once its stripes are processed, a repair is given any
    [k] or more (those [keep] selects) and
    outputs for the lanes to restore; if the primitive rebuilds the shards
    of those lanes from the lanes [repair] selects as sources, the repair
    starts, each output always holds the head of the stream the encode
    wrote on its lane, one shard per stripe dispatched, nothing goes to the
    other lanes, and the repair can be driven until every output holds the
    very stream the encode wrote. *)
Theorem repair_round_trip (X : bytes) (kn mn : nat) (hint : Z) (keep : nat -> bool)
        (outs : list (option Writable)) (input : Readable)
        (evE : list Event) (wE0 wE : World) :
  (0 < kn <= 24)%nat -> (0 < mn <= 6)%nat -> 0 < hint ->
  let size := Z.of_nat (List.length X) in
  let Sn := Z.to_nat (safeStripeSize (Z.of_nat kn) (Z.of_nat mn) hint) in
  let nn := Z.to_nat (Js.ceil_div size (Z.of_nat (kn * Sn))) in
  encode junk (Some input) size
         (repeat (Some writable) kn) (repeat (Some writable) mn) hint = Ok wE0 ->
  Forall (fun e => primitive_succeeds e = true) evE ->
  carries X (fed 0 evE input) ->
  run junk rs Encoding wE0 evE = Ok wE ->
  processedStripe (ctx wE) = Z.of_nat nn ->
  let lane := fun j => if keep j : bool
                       then Some (mkReadable (written j (trace wE)) true) else None in
  let ins := map lane (seq 0 (kn + mn)) in
  let par := fun p i => piece Sn p (written (kn + i) (trace wE)) in
  let roles := Repair.getPartRoles (Z.of_nat kn) (Z.of_nat mn) ins outs in
  List.length outs = (kn + mn)%nat ->
  Z.of_nat kn <= count_present ins ->
  (exists i, present outs (Z.of_nat i) = true) ->
  (forall p, (p < nn)%nat ->
             rebuilds rs X par kn mn Sn (r_sources roles) (r_targets roles) p) ->
  exists wR0,
    repair junk (Z.of_nat kn) (Z.of_nat mn) ins outs size hint = Ok wR0
    /\ (forall evR wR,
           Forall (fun e => primitive_succeeds e = true) evR ->
           run junk rs Repairing wR0 evR = Ok wR ->
           forall j,
             written j (trace wR)
             = if present outs (Z.of_nat j)
               then firstn (Z.to_nat (stripes_dispatched wR) * Sn) (written j (trace wE))
               else [])
    /\ exists wR,
        run junk rs Repairing wR0 (recoverSchedule (kn + mn) nn) = Ok wR
        /\ processedStripe (ctx wR) = Z.of_nat nn
        /\ forall j,
            written j (trace wR)
            = if present outs (Z.of_nat j) then written j (trace wE) else [].
Proof.
  intros Hk Hm Hh size Sn nn He Hok Hc Hr Hp lane ins par roles Hlo Hcount Hsome Hrs.
  assert (Henc : (forall p i, (p < nn)%nat -> (i < mn)%nat -> List.length (par p i) = Sn)
                 /\ forall j, (j < kn + mn)%nat ->
                              written j (trace wE) = code_from X par kn Sn nn j 0)
    by exact (encoded_lanes X kn mn hint input evE wE0 wE Hk Hm Hh He Hok Hc Hr Hp).
  destruct Henc as [Hpar Hcode].
  assert (Hli : List.length ins = (kn + mn)%nat)
    by (unfold ins; rewrite length_map, length_seq; reflexivity).
  assert (Hlanes : forall j s,
             nth_error ins j = Some (Some s) ->
             s = mkReadable (code_from X par kn Sn nn j 0) true).
  { intros j s Hs.
    assert (Hj : (j < List.length ins)%nat)
      by (apply nth_error_Some; rewrite Hs; discriminate).
    rewrite Hli in Hj. unfold ins in Hs.
    rewrite (map_nth_error lane j (seq 0 (kn + mn)) (d := j)) in Hs
      by (rewrite nth_error_nth' with (d := 0%nat) by (rewrite length_seq; exact Hj);
          rewrite seq_nth by exact Hj; reflexivity).
    unfold lane in Hs. destruct (keep j); [| discriminate].
    inversion Hs. rewrite (Hcode j Hj). reflexivity. }
  destruct (repair_feeds junk X par ins outs hint kn mn
                         Hk Hm Hh Hli Hlo Hlanes Hcount Hsome)
    as (HSn & Hst & Hsrc & Hsm & Htm & w0 & Hrep & D0 & C0 & I0 & Eo & Hdt & U0).
  fold Sn nn in HSn, Hst, D0, U0. fold roles in Hsrc, Hsm, Htm, D0.
  exists w0. split; [exact Hrep |].
  assert (Hout : forall j, present outs (Z.of_nat j) = true -> (j < kn + mn)%nat).
  { intros j Hj. apply present_lt in Hj. lia. }
  assert (Hsafe : forall events w,
             Forall (fun e => primitive_succeeds e = true) events ->
             run junk rs Repairing w0 events = Ok w ->
             forall j,
               written j (trace w)
               = if present outs (Z.of_nat j)
                 then firstn (Z.to_nat (stripes_dispatched w) * Sn) (written j (trace wE))
                 else []).
  { intros events w Hoke Hre j.
    destruct (run_repaired junk rs X par kn mn Sn nn _ _ ltac:(lia) ltac:(lia) HSn Hpar
                           Hsrc Hsm Htm Hrs events 0%nat w0 w D0
                           ltac:(rewrite Eo; exact Hlo) U0 Hoke Hre)
      as (U & pn & D).
    rewrite (U j), (dispatched_to_frame Repairing _ _ j (frame_run junk rs _ _ _ _ Hre)).
    rewrite Hdt.
    destruct (present outs (Z.of_nat j)) eqn:Ej; [| reflexivity].
    rewrite (Hcode j (Hout j Ej)).
    apply (code_from_head X par kn mn Sn nn j _ Hpar (Hout j Ej)).
    apply (feeding_dispatched _ _ _ _ _ _ _ _ _ _ _ D). }
  split; [exact Hsafe |].
  destruct (feeding_completes junk rs Repairing X par kn mn Sn nn _ _
                              ltac:(discriminate) ltac:(lia) ltac:(lia) HSn Hpar
                              Hsrc Hsm Hrs w0 D0 C0 I0)
    as (w & Hrw & D & C & I); [rewrite Eo; lia |].
  exists w. split; [exact Hrw |].
  destruct (fd_p _ _ _ _ _ _ _ _ _ _ _ D) as [Ep _].
  split; [exact Ep |].
  intros j. rewrite (Hsafe _ w (recoverSchedule_succeeds _ _) Hrw j).
  destruct (present outs (Z.of_nat j)) eqn:Ej; [| reflexivity].
  unfold stripes_dispatched. rewrite Ep, C, I. cbn [Nat.eqb andb].
  replace (Z.to_nat (Z.of_nat nn + 0)) with nn by lia.
  apply firstn_all2.
  rewrite (Hcode j (Hout j Ej)).
  assert (A := code_from_head X par kn mn Sn nn j nn Hpar (Hout j Ej) ltac:(lia)).
  assert (B : code_from X par kn Sn nn j 0
              = flat_map (fun q => code_shard X par kn Sn q j) (seq 0 nn))
    by (unfold code_from; rewrite Nat.sub_0_r; reflexivity).
  rewrite B, A, length_firstn. lia.
Qed.

End Encoded.


(** ** Recovery at work on RS(2,1) *)

Lemma sampleParity_length (p i : nat) : List.length (sampleParity p i) = 8%nat.
Proof.
  unfold sampleParity, xor_shards.
  rewrite length_map, length_combine, !shard_length by lia. reflexivity.
Qed.

(** From lanes 0 and 2 the exclusive or rebuilds lane 1. *)
Lemma xorRs_rebuilds_from (par : nat -> nat -> bytes) (p : nat) :
  par p 0%nat = sampleParity p 0 -> (p < 2)%nat ->
  rebuilds xorRs sampleObject par 2 1 8 5 2 p.
Proof.
  intros Epar Hp dbuf pbuf Hd Hpb Hsrc i Hi Hti.
  assert (A := Hsrc 0%nat ltac:(lia) eq_refl).
  assert (B := Hsrc 2%nat ltac:(lia) eq_refl).
  change (piece 8 0 dbuf = shard 2 8 p 0 sampleObject) in A.
  change (piece 8 0 pbuf = par p 0%nat) in B.
  destruct i as [| [| [| i]]]; try discriminate; [| lia].
  change (firstn 8 (xor_shards (piece 8 0 dbuf) (piece 8 0 pbuf))
          = shard 2 8 p 1 sampleObject).
  rewrite A, B, Epar.
  destruct p as [| [| p]]; [vm_compute; reflexivity | vm_compute; reflexivity | lia].
Qed.

Lemma xorRs_rebuilds (p : nat) :
  (p < 2)%nat -> rebuilds xorRs sampleObject sampleParity 2 1 8 5 2 p.
Proof. apply xorRs_rebuilds_from. reflexivity. Qed.

(** The parity the encode wrote is the exclusive or of the data shards. *)
Lemma xorRs_rebuilds_encoded (p : nat) :
  (p < 2)%nat ->
  rebuilds xorRs sampleObject
           (fun q i => piece 8 q (written (2 + i) (trace sampleXorEncoded))) 2 1 8 5 2 p.
Proof.
  intros Hp. apply xorRs_rebuilds_from; [| exact Hp].
  destruct p as [| [| p]]; [vm_compute; reflexivity | vm_compute; reflexivity | lia].
Qed.

Lemma sampleLanes_given (lanes : list (option Readable)) :
  lanes = [sampleLane 0; None; sampleLane 2] ->
  forall j s, nth_error lanes j = Some (Some s) ->
              s = mkReadable (code_from sampleObject sampleParity 2 8 2 j 0) true.
Proof.
  intros -> j s H.
  destruct j as [| [| [| j]]]; simpl in H; try discriminate;
    [inversion H; reflexivity | inversion H; reflexivity | destruct j; discriminate].
Qed.

Lemma lane1_selected (x a : bytes) :
  x = (if present [None; aSink; None] (Z.of_nat 1) then a else []) -> x = a.
Proof. intros H. exact H. Qed.

Lemma decode_recovers_witness :
  exists w,
    run noJunk xorRs Decoding sampleRecover (recoverSchedule 3 2) = Ok w
    /\ written 0 (trace w) = sampleObject.
Proof.
  destruct (decode_recovers noJunk xorRs sampleObject sampleParity 2 1 8
                            [sampleLane 0; None] [sampleLane 2])
    as (w0 & Hdec & _ & w & Hr & _ & Hw).
  - lia.
  - lia.
  - lia.
  - reflexivity.
  - reflexivity.
  - intros p i _ _. apply sampleParity_length.
  - apply sampleLanes_given. reflexivity.
  - vm_compute. discriminate.
  - exact xorRs_rebuilds.
  - exists w. split; [| exact Hw].
    unfold sampleRecover. rewrite Hdec. cbn [the]. exact Hr.
Defined.

Lemma repair_rebuilds_witness :
  exists w,
    run noJunk xorRs Repairing sampleRebuild (recoverSchedule 3 2) = Ok w
    /\ written 1 (trace w) = code_from sampleObject sampleParity 2 8 2 1 0.
Proof.
  destruct (repair_rebuilds noJunk xorRs sampleObject sampleParity 2 1 8
                            [sampleLane 0; None; sampleLane 2] [None; aSink; None])
    as (w0 & Hrep & _ & w & Hr & _ & Hw).
  - lia.
  - lia.
  - lia.
  - reflexivity.
  - reflexivity.
  - intros p i _ _. apply sampleParity_length.
  - apply sampleLanes_given. reflexivity.
  - vm_compute. discriminate.
  - exists 1%nat. reflexivity.
  - exact xorRs_rebuilds.
  - exists w. split; [| apply lane1_selected; exact (Hw 1%nat)].
    unfold sampleRebuild. change (Z.of_nat 2) with 2 in Hrep. change (Z.of_nat 1) with 1 in Hrep.
    rewrite Hrep. cbn [the]. exact Hr.
Defined.

Lemma erasure_round_trip_witness :
  exists wD,
    run noJunk xorRs Decoding sampleRestore (recoverSchedule 3 2) = Ok wD
    /\ written 0 (trace wD) = sampleObject.
Proof.
  destruct (erasure_round_trip noJunk xorRs sampleObject 2 1 8 sampleKeep
                               (mkReadable [] false)
                               sampleTrickle sampleXorEncode sampleXorEncoded)
    as (w0 & Hdec & _ & w & Hr & _ & Hw).
  - lia.
  - lia.
  - lia.
  - vm_compute. reflexivity.
  - repeat constructor.
  - exists []. split; [vm_compute; reflexivity | reflexivity].
  - vm_compute. reflexivity.
  - vm_compute. reflexivity.
  - vm_compute. discriminate.
  - exact xorRs_rebuilds_encoded.
  - exists w. split; [| exact Hw].
    unfold sampleRestore.
    change (map sampleKept (seq 0 2))
      with (map (fun j => if sampleKeep j
                          then Some (mkReadable (written j (trace sampleXorEncoded)) true)
                          else None) (seq 0 2)).
    change (map sampleKept (seq 2 1))
      with (map (fun j => if sampleKeep j
                          then Some (mkReadable (written j (trace sampleXorEncoded)) true)
                          else None) (seq 2 1)).
    rewrite Hdec. cbn [the]. exact Hr.
Defined.

Lemma repair_round_trip_witness :
  exists wR,
    run noJunk xorRs Repairing sampleRegenerate (recoverSchedule 3 2) = Ok wR
    /\ written 1 (trace wR) = written 1 (trace sampleXorEncoded).
Proof.
  destruct (repair_round_trip noJunk xorRs sampleObject 2 1 8 sampleKeep
                              [None; aSink; None] (mkReadable [] false)
                              sampleTrickle sampleXorEncode sampleXorEncoded)
    as (w0 & Hrep & _ & w & Hr & _ & Hw).
  - lia.
  - lia.
  - lia.
  - vm_compute. reflexivity.
  - repeat constructor.
  - exists []. split; [vm_compute; reflexivity | reflexivity].
  - vm_compute. reflexivity.
  - vm_compute. reflexivity.
  - reflexivity.
  - vm_compute. discriminate.
  - exists 1%nat. reflexivity.
  - exact xorRs_rebuilds_encoded.
  - exists w. split.
    + unfold sampleRegenerate.
      change (map sampleKept (seq 0 3))
        with (map (fun j => if sampleKeep j
                            then Some (mkReadable (written j (trace sampleXorEncoded)) true)
                            else None) (seq 0 (2 + 1))).
      change 2 with (Z.of_nat 2) at 1. change 1 with (Z.of_nat 1) at 1.
      rewrite Hrep. cbn [the]. exact Hr.
    + apply lane1_selected. exact (Hw 1%nat).
Defined.


(** ** The helpers of the tests *)

Lemma buf_slice_front (buf : bytes) (c : Z) :
  0 < c -> buf_slice buf 0 c = firstn (Z.to_nat c) buf.
Proof.
  intros Hc. unfold buf_slice, buf_clamp.
  destruct (Z.ltb_spec 0 0) as [A | _]; [lia |].
  destruct (Z.ltb_spec c 0) as [A | _]; [lia |].
  rewrite Z.min_l by lia. cbn [Z.to_nat skipn].
  destruct (Z.le_gt_cases c (Z.of_nat (List.length buf))) as [B | B].
  - rewrite Z.min_l by lia. reflexivity.
  - rewrite Z.min_r by lia. rewrite Nat2Z.id.
    rewrite !firstn_all2 by lia. reflexivity.
Qed.

Lemma buf_slice_back (buf : bytes) (c : Z) :
  0 < c -> buf_slice buf c (Z.of_nat (List.length buf)) = skipn (Z.to_nat c) buf.
Proof.
  intros Hc. unfold buf_slice, buf_clamp.
  destruct (Z.ltb_spec (Z.of_nat (List.length buf)) 0) as [A | _]; [lia |].
  destruct (Z.ltb_spec c 0) as [A | _]; [lia |].
  rewrite Z.min_id, Nat2Z.id, firstn_all.
  destruct (Z.le_gt_cases c (Z.of_nat (List.length buf))) as [B | B].
  - rewrite Z.min_l by lia. reflexivity.
  - rewrite Z.min_r by lia. rewrite Nat2Z.id.
    rewrite !skipn_all2 by lia. reflexivity.
Qed.

(** Whatever the size asked for, [slice (0, c)] and [slice (c)] cut the
    buffer in two. *)
Lemma buf_slice_cut (buf : bytes) (c : Z) :
  buf_slice buf 0 c ++ buf_slice buf c (Z.of_nat (List.length buf)) = buf.
Proof.
  unfold buf_slice.
  replace (buf_clamp (Z.of_nat (List.length buf)) 0) with 0
    by (unfold buf_clamp; simpl; lia).
  replace (buf_clamp (Z.of_nat (List.length buf)) (Z.of_nat (List.length buf)))
    with (Z.of_nat (List.length buf))
    by (unfold buf_clamp; destruct (Z.ltb_spec (Z.of_nat (List.length buf)) 0); lia).
  rewrite Nat2Z.id, firstn_all. cbn [Z.to_nat skipn].
  apply firstn_skipn.
Qed.

Lemma ticks_succ (c : Z) (n : nat) (f : Utils.Feed) :
  Utils.ticks c (S n) f = Utils.tick c (Utils.ticks c n f).
Proof.
  revert f. induction n as [| n IH]; intros f; [reflexivity |].
  change (Utils.ticks c (S (S n)) f) with (Utils.ticks c (S n) (Utils.tick c f)).
  rewrite IH. reflexivity.
Qed.

(** Nothing of the buffer is lost or repeated, whatever the chunk size. *)
Lemma tick_keeps (c : Z) (f : Utils.Feed) :
  List.concat (Utils.pushed (Utils.tick c f)) ++ Utils.leftover (Utils.tick c f)
  = List.concat (Utils.pushed f) ++ Utils.leftover f.
Proof.
  unfold Utils.tick. destruct (Utils.cleared f); [reflexivity |].
  destruct (Z.ltb_spec 0 (Z.of_nat (List.length (Utils.leftover f)))); [| reflexivity].
  cbn [Utils.pushed Utils.leftover].
  rewrite concat_app. cbn [List.concat]. rewrite app_nil_r, <- app_assoc.
  rewrite buf_slice_cut. reflexivity.
Qed.

Lemma ticks_keep (c : Z) (n : nat) (buffer : bytes) :
  List.concat (Utils.pushed (Utils.ticks c n (Utils.streamMe buffer)))
  ++ Utils.leftover (Utils.ticks c n (Utils.streamMe buffer)) = buffer.
Proof.
  induction n as [| n IH]; [reflexivity |].
  rewrite ticks_succ, tick_keeps. exact IH.
Qed.

(** The state of the timer after [n] runs, for a positive chunk size. *)
Lemma ticks_shape (buffer : bytes) (c : Z) (chunks : nat) :
  0 < c -> stripes_of (Z.to_nat c) chunks buffer ->
  forall n,
    Utils.ticks c n (Utils.streamMe buffer)
    = Utils.mkFeed (skipn (Nat.min n chunks * Z.to_nat c) buffer)
                   (map (fun i => piece (Z.to_nat c) i buffer) (seq 0 (Nat.min n chunks)))
                   (chunks <? n)%nat.
Proof.
  intros Hc [Hup Hlow] n. induction n as [| n IH]; [reflexivity |].
  rewrite ticks_succ, IH. unfold Utils.tick. cbn [Utils.cleared Utils.leftover Utils.pushed].
  destruct (Nat.ltb_spec chunks n) as [A | A].
  - destruct (Nat.ltb_spec chunks (S n)); [| lia].
    rewrite !Nat.min_r by lia. reflexivity.
  - rewrite Nat.min_l by lia. rewrite length_skipn.
    destruct (Z.ltb_spec 0 (Z.of_nat (List.length buffer - n * Z.to_nat c))) as [B | B].
    + assert (Hn : (n < chunks)%nat).
      { destruct (Nat.lt_ge_cases n chunks) as [C | C]; [exact C |].
        assert (n = chunks) by lia. subst n. lia. }
      destruct (Nat.ltb_spec chunks (S n)); [lia |].
      rewrite Nat.min_l by lia.
      rewrite <- (length_skipn (n * Z.to_nat c) buffer).
      rewrite buf_slice_back, buf_slice_front by exact Hc.
      rewrite skipn_skipn. f_equal.
      replace (S n) with (n + 1)%nat by lia.
      rewrite seq_app, map_app. reflexivity.
    + assert (Hn : n = chunks).
      { destruct (Nat.lt_ge_cases n chunks) as [C | C]; [| lia].
        specialize (Hlow n C). lia. }
      subst n. destruct (Nat.ltb_spec chunks (S chunks)); [| lia].
      rewrite Nat.min_r by lia. reflexivity.
Qed.

Lemma piece_chunk (c i chunks : nat) (buffer : bytes) :
  (0 < c)%nat -> stripes_of c chunks buffer -> (i < chunks)%nat ->
  (0 < List.length (piece c i buffer) <= c)%nat.
Proof.
  intros Hc [_ Hlow] Hi. rewrite piece_length. specialize (Hlow i Hi). lia.
Qed.

(** X17. [streamMe] with a positive chunk size cuts the buffer into
    [ceil (length / chunkSize)] chunks, one per run of its timer: chunk [i]
    is bytes [i * chunkSize, (i + 1) * chunkSize[ of the buffer, none is
    empty and none is longer than [chunkSize]; the run after the last chunk
    pushes the end and clears the timer, and by then the chunks pushed make
    up the buffer. *)
Theorem streamMe_delivers (buffer : bytes) (chunkSize : Z) (n : nat) :
  0 < chunkSize ->
  let c := Z.to_nat chunkSize in
  let chunks := Z.to_nat (Js.ceil_div (Z.of_nat (List.length buffer)) chunkSize) in
  let f := Utils.ticks chunkSize n (Utils.streamMe buffer) in
  Utils.pushed f = map (fun i => piece c i buffer) (seq 0 (Nat.min n chunks))
  /\ Forall (fun chunk => (0 < List.length chunk <= c)%nat) (Utils.pushed f)
  /\ Utils.cleared f = (chunks <? n)%nat
  /\ ((chunks < n)%nat -> List.concat (Utils.pushed f) = buffer).
Proof.
  intros Hc c chunks f.
  assert (Hst : stripes_of c chunks buffer).
  { destruct (stripes_of_ceil c buffer ltac:(unfold c; lia)) as [_ H].
    unfold c in H. rewrite Z2Nat.id in H by lia. exact H. }
  assert (Hf := ticks_shape buffer chunkSize chunks Hc Hst n).
  fold c in Hf. fold f in Hf. rewrite Hf. cbn [Utils.pushed Utils.cleared].
  split; [reflexivity |]. split; [| split; [reflexivity |]].
  - apply Forall_forall. intros chunk Hin. apply in_map_iff in Hin.
    destruct Hin as (i & <- & Hi). apply in_seq in Hi.
    apply (piece_chunk c i chunks); [unfold c; lia | exact Hst | lia].
  - intros Hn. rewrite Nat.min_r by lia.
    rewrite <- flat_map_concat_map, pieces_concat. cbn [Nat.mul skipn].
    apply firstn_all2. destruct Hst as [Hup _]. exact Hup.
Qed.

(** X18. [streamMe] with a chunk size that is zero or negative never ends
    the stream of a buffer that is not empty: after any number of runs of
    its timer the end has not been pushed and bytes are left over; still the
    chunks pushed, followed by what is left over, are the buffer. *)
Theorem streamMe_stalls (buffer : bytes) (chunkSize : Z) (n : nat) :
  chunkSize <= 0 -> buffer <> [] ->
  let f := Utils.ticks chunkSize n (Utils.streamMe buffer) in
  Utils.cleared f = false
  /\ Utils.leftover f <> []
  /\ List.concat (Utils.pushed f) ++ Utils.leftover f = buffer.
Proof.
  intros Hc Hb f.
  assert (H : Utils.cleared f = false /\ Utils.leftover f <> []).
  { unfold f. induction n as [| n [IH1 IH2]]; [split; [reflexivity | exact Hb] |].
    rewrite ticks_succ. unfold Utils.tick. rewrite IH1.
    set (l := Utils.leftover (Utils.ticks chunkSize n (Utils.streamMe buffer))) in *.
    assert (Hl : (0 < List.length l)%nat) by (destruct l; [congruence | simpl; lia]).
    destruct (Z.ltb_spec 0 (Z.of_nat (List.length l))) as [A | A]; [| lia].
    cbn [Utils.cleared Utils.leftover]. split; [reflexivity |].
    intros E. apply (f_equal (@List.length _)) in E. revert E.
    unfold buf_slice, buf_clamp.
    destruct (Z.ltb_spec (Z.of_nat (List.length l)) 0) as [B | _]; [lia |].
    rewrite Z.min_id, Nat2Z.id, firstn_all, length_skipn.
    destruct (Z.ltb_spec chunkSize 0) as [C | C]; simpl; lia. }
  destruct H as [H1 H2]. repeat split; try assumption.
  apply ticks_keep.
Qed.

Lemma scan_none (chunk expectedContent : bytes) :
  forall at_,
    (at_ + List.length chunk <= List.length expectedContent)%nat ->
    (Utils.scan chunk expectedContent at_ = None
     <-> chunk = firstn (List.length chunk) (skipn at_ expectedContent)).
Proof.
  induction chunk as [| a rest IH]; intros at_ Hfit; [split; reflexivity |].
  cbn [Utils.scan List.length] in *.
  destruct (nth_error expectedContent at_) as [e |] eqn:En.
  2:{ apply nth_error_None in En. lia. }
  assert (Hs : skipn at_ expectedContent = e :: skipn (S at_) expectedContent).
  { rewrite <- (firstn_skipn at_ expectedContent) in En at 1.
    rewrite nth_error_app2 in En by (rewrite length_firstn; lia).
    rewrite length_firstn, Nat.min_l, Nat.sub_diag in En by lia.
    destruct (skipn at_ expectedContent) as [| x l] eqn:El; [discriminate |].
    injection En as ->. f_equal.
    change (S at_) with (1 + at_)%nat. rewrite <- skipn_skipn, El. reflexivity. }
  rewrite Hs. cbn [firstn].
  destruct (Byte.eqb a e) eqn:Eb.
  - apply Byte.byte_dec_bl in Eb. subst e.
    rewrite (IH (S at_)) by lia. split; [intros <-; reflexivity | intros H; injection H; auto].
  - apply Byte.eqb_false in Eb. split; [discriminate | intros H; injection H; intros; congruence].
Qed.

Lemma scan_some (chunk expectedContent : bytes) :
  forall at_ d e a,
    Utils.scan chunk expectedContent at_ = Some (d, e, a) ->
    exists t,
      d = (at_ + t)%nat /\ (t < List.length chunk)%nat
      /\ (forall u, (u < t)%nat -> nth_error chunk u = nth_error expectedContent (at_ + u))
      /\ nth_error expectedContent d = Some e
      /\ nth_error chunk t = Some a
      /\ a <> e.
Proof.
  induction chunk as [| x rest IH]; intros at_ d e a H; [discriminate |].
  cbn [Utils.scan] in H.
  destruct (nth_error expectedContent at_) as [y |] eqn:En; [| discriminate].
  destruct (Byte.eqb x y) eqn:Eb.
  - apply Byte.byte_dec_bl in Eb. subst y.
    destruct (IH _ _ _ _ H) as (t & -> & Ht & Hpre & He & Ha & Hne).
    exists (S t). cbn [List.length nth_error].
    split; [lia |]. split; [lia |]. split; [| split; [exact He | split; assumption]].
    intros [| u] Hu; cbn [nth_error].
    + rewrite Nat.add_0_r. symmetry. exact En.
    + rewrite Hpre by lia. f_equal. lia.
  - apply Byte.eqb_false in Eb. injection H as <- <- <-.
    exists 0%nat. cbn [List.length nth_error]. rewrite Nat.add_0_r.
    split; [reflexivity |]. split; [lia |]. split; [intros u Hu; lia |].
    split; [exact En | split; [reflexivity | exact Eb]].
Qed.

(** What a run of chunks and the end come to, from a checker that has read
    [seen] and found it as expected. *)
Lemma watch_chunks (streamId : Z) (expectedContent : bytes) (chunks : list bytes) :
  forall seen c,
    reading (List.length seen) c ->
    (exists rest, expectedContent = seen ++ rest) ->
    let actual := seen ++ List.concat chunks in
    match Utils.watch streamId expectedContent c (map Utils.Data chunks ++ [Utils.End]) with
    | inl c' =>
        (Utils.verdicts c' = [None] /\ actual = expectedContent)
        \/ (exists d e a,
               Utils.verdicts c' = [Some (Utils.mismatch streamId d e a)]
               /\ firstn d actual = firstn d expectedContent
               /\ nth_error expectedContent d = Some e
               /\ nth_error actual d = Some a
               /\ a <> e)
    | inr Utils.Assert_complete =>
        exists rest, rest <> [] /\ expectedContent = actual ++ rest
    | inr Utils.Assert_fits =>
        (List.length expectedContent < List.length actual)%nat
    end.
Proof.
  induction chunks as [| chunk chunks IH]; intros seen c (Hm & Hr & Hoe & Hon & Hv) (rest & Hex) actual.
  - cbn [map app Utils.watch Utils.emit]. rewrite Hon, Hm, Hr.
    unfold actual. cbn [List.concat]. rewrite app_nil_r.
    destruct (Nat.eqb_spec (List.length seen) (List.length expectedContent)) as [E | E].
    + cbn [Utils.watch Utils.verdicts]. left. rewrite Hv. split; [reflexivity |].
      subst expectedContent. rewrite length_app in E.
      destruct rest; [rewrite app_nil_r; reflexivity | simpl in E; lia].
    + exists rest. split; [| exact Hex].
      intros ->. apply E. rewrite Hex, app_nil_r. reflexivity.
  - cbn [map app Utils.watch Utils.emit]. rewrite Hm, Hr.
    assert (Hact : actual = (seen ++ chunk) ++ List.concat chunks)
      by (unfold actual; cbn [List.concat]; rewrite app_assoc; reflexivity).
    destruct (Nat.leb_spec (List.length seen + List.length chunk)
                           (List.length expectedContent)) as [Hfit | Hfit].
    + destruct (Utils.scan chunk expectedContent (List.length seen))
        as [[[d e] a] |] eqn:Es.
      * (* a mismatch: nothing that follows is looked at *)
        destruct (scan_some _ _ _ _ _ _ Es) as (t & -> & Ht & Hpre & He & Ha & Hne).
        set (c1 := Utils.mkChecker _ _ _ _ _).
        assert (Hdone : forall signals,
                   Forall (fun s => s = Utils.End \/ exists x, s = Utils.Data x) signals ->
                   exists c', Utils.watch streamId expectedContent c1 signals = inl c'
                              /\ Utils.mismatchFound c' = true
                              /\ Utils.verdicts c' = Utils.verdicts c1).
        { intros signals. generalize c1 (eq_refl : Utils.mismatchFound c1 = true).
          induction signals as [| s signals IHs]; intros cc Hcc Hall.
          - exists cc. repeat split. exact Hcc.
          - inversion Hall as [| ? ? Hs Hrest]; subst.
            cbn [Utils.watch]. destruct Hs as [-> | (x & ->)]; cbn [Utils.emit]; rewrite Hcc.
            + destruct (Utils.onEnd cc).
              * destruct (IHs (Utils.mkChecker true (Utils.read cc) (Utils.onError cc) false
                                               (Utils.verdicts cc)) eq_refl Hrest)
                  as (c' & E1 & E2 & E3).
                exists c'. repeat split; assumption.
              * apply IHs; assumption.
            + apply IHs; assumption. }
        destruct (Hdone (map Utils.Data chunks ++ [Utils.End])) as (c' & E1 & _ & E3).
        { apply Forall_app. split.
          - apply Forall_forall. intros s Hin. apply in_map_iff in Hin.
            destruct Hin as (x & <- & _). right. exists x. reflexivity.
          - constructor; [left; reflexivity | constructor]. }
        rewrite E1. right. exists (List.length seen + t)%nat, e, a.
        rewrite E3. unfold c1. cbn [Utils.verdicts]. rewrite Hv. cbn [app].
        split; [reflexivity |].
        assert (Hn : forall u, (u < List.length seen + t)%nat ->
                               nth_error actual u = nth_error expectedContent u).
        { intros u Hu. rewrite Hact.
          rewrite nth_error_app1 by (rewrite length_app; lia).
          destruct (Nat.lt_ge_cases u (List.length seen)) as [A | A].
          - rewrite nth_error_app1 by exact A.
            rewrite Hex, nth_error_app1 by exact A. reflexivity.
          - rewrite nth_error_app2 by exact A.
            rewrite Hpre by lia. f_equal. lia. }
        split; [| split; [exact He | split; [| exact Hne]]].
        -- apply nth_error_ext. intros u.
           rewrite !nth_error_firstn.
           destruct (Nat.ltb_spec u (List.length seen + t)); [apply Hn; assumption | reflexivity].
        -- rewrite Hact. rewrite nth_error_app1 by (rewrite length_app; lia).
           rewrite nth_error_app2 by lia.
           replace (List.length seen + t - List.length seen)%nat with t by lia. exact Ha.
      * apply (scan_none _ _ _ Hfit) in Es.
        rewrite Hact.
        apply (IH (seen ++ chunk)).
        -- rewrite length_app. repeat split; assumption.
        -- rewrite Hex, skipn_app, skipn_all, Nat.sub_diag in Es. cbn [app skipn] in Es.
           exists (skipn (List.length chunk) rest).
           rewrite Hex, <- app_assoc. f_equal. rewrite Es at 1. symmetry. apply firstn_skipn.
    + unfold actual. cbn [List.concat]. rewrite !length_app. lia.
Qed.

Lemma watch_accepts (streamId : Z) (expectedContent : bytes) (chunks : list bytes) :
  (exists c,
      Utils.watch streamId expectedContent Utils.checkOutStream
                  (map Utils.Data chunks ++ [Utils.End]) = inl c
      /\ Utils.verdicts c = [None])
  <-> List.concat chunks = expectedContent.
Proof.
  assert (H := watch_chunks streamId expectedContent chunks [] Utils.checkOutStream
                            ltac:(repeat split) ltac:(exists expectedContent; reflexivity)).
  cbn [app] in H. cbv zeta in H.
  destruct (Utils.watch streamId expectedContent Utils.checkOutStream
                        (map Utils.Data chunks ++ [Utils.End])) as [c | r].
  - destruct H as [(Hv & Heq) | (d & e & a & Hv & _ & He & Ha & Hne)].
    + split; [intros _; exact Heq | intros _; exists c; split; [reflexivity | exact Hv]].
    + split.
      * intros (c' & E & Hv'). injection E as <-. rewrite Hv in Hv'. discriminate.
      * intros Heq. rewrite Heq in Ha. congruence.
  - split; [intros (c & E & _); discriminate |].
    intros Heq. destruct r.
    + rewrite Heq in H. lia.
    + destruct H as (rest & Hne & Hex). rewrite Heq in Hex.
      apply (f_equal (@List.length _)) in Hex. rewrite length_app in Hex.
      destruct rest; [congruence | simpl in Hex; lia].
Qed.

(** X19. [checkOutStream] passes a stream on its content alone: fed the
    chunks of a stream and then its end, it calls [callback (null)], once and
    with no other call, exactly when the chunks put end to end are the
    expected content, however the stream is cut into chunks. *)
Theorem checkOutStream_accepts (streamId : Z) (expectedContent : bytes)
        (chunks : list bytes) :
  (exists c,
      Utils.watch streamId expectedContent Utils.checkOutStream
                  (map Utils.Data chunks ++ [Utils.End]) = inl c
      /\ Utils.verdicts c = [None])
  <-> List.concat chunks = expectedContent.
Proof. exact (watch_accepts streamId expectedContent chunks). Qed.

(** X20. What [checkOutStream] does with a stream whose content is not the
    expected one. Either it calls the callback once, with the error of a
    mismatch whose offset is the first position where the stream differs
    from the expected content and whose two values are the bytes there; or
    the assertion of the [end] handler fails, when the stream stops short of
    the expected content, all its bytes as expected; or the assertion of the
    [data] handler fails, when the stream is longer than the expected
    content. It never calls [callback (null)]. *)
Theorem checkOutStream_rejects (streamId : Z) (expectedContent : bytes)
        (chunks : list bytes) :
  List.concat chunks <> expectedContent ->
  match Utils.watch streamId expectedContent Utils.checkOutStream
                    (map Utils.Data chunks ++ [Utils.End]) with
  | inl c =>
      exists d e a,
        Utils.verdicts c = [Some (Utils.mismatch streamId d e a)]
        /\ firstn d (List.concat chunks) = firstn d expectedContent
        /\ nth_error expectedContent d = Some e
        /\ nth_error (List.concat chunks) d = Some a
        /\ a <> e
  | inr Utils.Assert_complete =>
      exists rest, rest <> [] /\ expectedContent = List.concat chunks ++ rest
  | inr Utils.Assert_fits =>
      (List.length expectedContent < List.length (List.concat chunks))%nat
  end.
Proof.
  intros Hne.
  assert (H := watch_chunks streamId expectedContent chunks [] Utils.checkOutStream
                            ltac:(repeat split) ltac:(exists expectedContent; reflexivity)).
  cbn [app] in H. cbv zeta in H.
  destruct (Utils.watch streamId expectedContent Utils.checkOutStream
                        (map Utils.Data chunks ++ [Utils.End])) as [c | r]; [| exact H].
  destruct H as [(_ & Heq) | H]; [contradiction | exact H].
Qed.

Lemma emit_reported (streamId : Z) (expectedContent : bytes) (P : Error -> Prop)
      (c c' : Utils.Checker) (s : Utils.Signal) :
  reported expectedContent P c ->
  (forall err, s = Utils.Failure err -> P err) ->
  Utils.emit streamId expectedContent c s = inl c' ->
  reported expectedContent P c'.
Proof.
  intros H HP E. unfold reported in *.
  destruct H as [(Hm & Hoe & Hon & Hv) | [(Hm & err & Hv) | [(Hm & Hoe & Hon & Hr & Hv)
                | (Hm & err & Hv & Hp)]]];
    destruct s as [chunk | err' |]; cbn [Utils.emit] in E;
    rewrite ?Hm, ?Hoe, ?Hon in E.
  - destruct (_ <=? _)%nat; [| discriminate].
    destruct (Utils.scan _ _ _) as [[[d e] a] |]; injection E as <-;
      cbn [Utils.mismatchFound Utils.onError Utils.onEnd Utils.verdicts Utils.read].
    + right. left. split; [reflexivity |]. rewrite Hv. eexists. reflexivity.
    + left. repeat split; assumption.
  - injection E as <-. right. left. split; [reflexivity |].
    cbn [Utils.verdicts]. rewrite Hv. eexists. reflexivity.
  - destruct (Nat.eqb_spec (Utils.read c) (List.length expectedContent)); [| discriminate].
    injection E as <-. right. right. left.
    cbn [Utils.mismatchFound Utils.onError Utils.onEnd Utils.verdicts Utils.read].
    rewrite Hv. repeat split; assumption.
  - injection E as <-. right. left. split; [exact Hm | exists err; exact Hv].
  - destruct (Utils.onError c); injection E as <-; right; left;
      (split; [first [exact Hm | reflexivity] | exists err; exact Hv]).
  - destruct (Utils.onEnd c); injection E as <-; right; left;
      (split; [first [exact Hm | reflexivity] | exists err; exact Hv]).
  - rewrite Hr in E.
    destruct (Nat.leb_spec (List.length expectedContent + List.length chunk)
                           (List.length expectedContent)) as [A | A]; [| discriminate].
    destruct chunk as [| x chunk]; [| simpl in A; lia].
    cbn [Utils.scan List.length] in E. injection E as <-.
    right. right. left.
    cbn [Utils.mismatchFound Utils.onError Utils.onEnd Utils.verdicts Utils.read].
    repeat split; try assumption. lia.
  - injection E as <-. right. right. right. split; [reflexivity |].
    exists err'. cbn [Utils.verdicts]. rewrite Hv. split; [reflexivity |].
    apply HP. reflexivity.
  - injection E as <-. right. right. left. repeat split; assumption.
  - injection E as <-. right. right. right. split; [exact Hm |]. exists err. split; assumption.
  - destruct (Utils.onError c); injection E as <-; right; right; right;
      (split; [first [exact Hm | reflexivity] | exists err; split; assumption]).
  - destruct (Utils.onEnd c); injection E as <-; right; right; right;
      (split; [first [exact Hm | reflexivity] | exists err; split; assumption]).
Qed.

Lemma watch_reported (streamId : Z) (expectedContent : bytes) (P : Error -> Prop)
      (signals : list Utils.Signal) :
  forall c c',
    reported expectedContent P c ->
    (forall err, In (Utils.Failure err) signals -> P err) ->
    Utils.watch streamId expectedContent c signals = inl c' ->
    reported expectedContent P c'.
Proof.
  induction signals as [| s signals IH]; intros c c' H HP E.
  - injection E as <-. exact H.
  - cbn [Utils.watch] in E.
    destruct (Utils.emit streamId expectedContent c s) as [c1 | r] eqn:E1; [| discriminate].
    apply (IH c1 c'); [| intros err Hin; apply HP; right; exact Hin | exact E].
    apply (emit_reported streamId expectedContent P c c1 s H); [| exact E1].
    intros err ->. apply HP. left. reflexivity.
Qed.

(** X21. Whatever the watched stream emits, [checkOutStream] calls its
    callback once at most, but for one case: after it has called
    [callback (null)] at the end of the stream, an [error] of the stream
    still makes it call the callback a second time, with that error. A
    mismatch is never reported after the end, and nothing is reported after
    an error or a mismatch. *)
Theorem checkOutStream_calls (streamId : Z) (expectedContent : bytes)
        (signals : list Utils.Signal) (c : Utils.Checker) :
  Utils.watch streamId expectedContent Utils.checkOutStream signals = inl c ->
  Utils.verdicts c = []
  \/ Utils.verdicts c = [None]
  \/ (exists err, Utils.verdicts c = [Some err])
  \/ (exists err, Utils.verdicts c = [None; Some err] /\ In (Utils.Failure err) signals).
Proof.
  intros E.
  assert (H : reported expectedContent (fun err => In (Utils.Failure err) signals) c).
  { apply (watch_reported streamId expectedContent _ signals Utils.checkOutStream c);
      [left; repeat split | intros err Hin; exact Hin | exact E]. }
  destruct H as [(_ & _ & _ & Hv) | [(_ & err & Hv) | [(_ & _ & _ & _ & Hv)
                | (_ & err & Hv & Hp)]]].
  - left. exact Hv.
  - right. right. left. exists err. exact Hv.
  - right. left. exact Hv.
  - right. right. right. exists err. split; assumption.
Qed.

(** X22. The two helpers together: the chunks [streamMe] makes of a buffer,
    for any positive chunk size, and then the end of the stream, pass
    [checkOutStream] exactly when the expected content is that buffer. *)
Theorem streamMe_checks (streamId : Z) (buffer expectedContent : bytes)
        (chunkSize : Z) (n : nat) :
  0 < chunkSize ->
  (Z.to_nat (Js.ceil_div (Z.of_nat (List.length buffer)) chunkSize) < n)%nat ->
  let f := Utils.ticks chunkSize n (Utils.streamMe buffer) in
  (exists c,
      Utils.watch streamId expectedContent Utils.checkOutStream
                  (map Utils.Data (Utils.pushed f) ++ [Utils.End]) = inl c
      /\ Utils.verdicts c = [None])
  <-> buffer = expectedContent.
Proof.
  intros Hc Hn f.
  assert (Hk := ticks_keep chunkSize n buffer). fold f in Hk.
  assert (Hst : stripes_of (Z.to_nat chunkSize)
                           (Z.to_nat (Js.ceil_div (Z.of_nat (List.length buffer)) chunkSize))
                           buffer).
  { destruct (stripes_of_ceil (Z.to_nat chunkSize) buffer ltac:(lia)) as [_ H].
    rewrite Z2Nat.id in H by lia. exact H. }
  assert (Hf := ticks_shape buffer chunkSize _ Hc Hst n). fold f in Hf.
  assert (Hl : Utils.leftover f = []).
  { rewrite Hf. cbn [Utils.leftover]. rewrite Nat.min_r by lia.
    apply skipn_all2. destruct Hst as [Hup _]. exact Hup. }
  rewrite Hl, app_nil_r in Hk.
  rewrite (watch_accepts streamId expectedContent (Utils.pushed f)), Hk. reflexivity.
Qed.

(** ** The helpers at work *)

Lemma streamMe_delivers_witness :
  let f := Utils.ticks 2 4 (Utils.streamMe sampleFive) in
  Utils.pushed f = [[Byte.x01; Byte.x02]; [Byte.x03; Byte.x04]; [Byte.x05]]
  /\ Forall (fun chunk => (0 < List.length chunk <= 2)%nat) (Utils.pushed f)
  /\ Utils.cleared f = true
  /\ ((3 < 4)%nat -> List.concat (Utils.pushed f) = sampleFive).
Proof. exact (streamMe_delivers sampleFive 2 4 ltac:(lia)). Defined.

Lemma streamMe_stalls_witness :
  let f := Utils.ticks (-2) 3 (Utils.streamMe sampleFive) in
  Utils.cleared f = false
  /\ Utils.leftover f <> []
  /\ List.concat (Utils.pushed f) ++ Utils.leftover f = sampleFive.
Proof. exact (streamMe_stalls sampleFive (-2) 3 ltac:(lia) ltac:(discriminate)). Defined.

Lemma checkOutStream_rejects_witness :
  exists d e a,
    Utils.verdicts sampleMismatch = [Some (Utils.mismatch 7 d e a)]
    /\ firstn d [Byte.x01; Byte.x02; Byte.x09] = firstn d [Byte.x01; Byte.x02; Byte.x03]
    /\ nth_error [Byte.x01; Byte.x02; Byte.x03] d = Some e
    /\ nth_error [Byte.x01; Byte.x02; Byte.x09] d = Some a
    /\ a <> e.
Proof.
  exact (checkOutStream_rejects 7 [Byte.x01; Byte.x02; Byte.x03]
                                [[Byte.x01]; [Byte.x02; Byte.x09]] ltac:(discriminate)).
Defined.

Lemma checkOutStream_calls_witness :
  Utils.verdicts sampleTwice = []
  \/ Utils.verdicts sampleTwice = [None]
  \/ (exists err, Utils.verdicts sampleTwice = [Some err])
  \/ (exists err,
         Utils.verdicts sampleTwice = [None; Some err]
         /\ In (Utils.Failure err)
                [Utils.Data [Byte.x01]; Utils.End; Utils.Failure sampleError]).
Proof.
  exact (checkOutStream_calls 0 [Byte.x01]
                              [Utils.Data [Byte.x01]; Utils.End; Utils.Failure sampleError]
                              sampleTwice eq_refl).
Defined.

Lemma streamMe_checks_witness :
  (exists c,
      Utils.watch 0 sampleFive Utils.checkOutStream
                  (map Utils.Data (Utils.pushed (Utils.ticks 2 4 (Utils.streamMe sampleFive)))
                   ++ [Utils.End]) = inl c
      /\ Utils.verdicts c = [None])
  <-> sampleFive = sampleFive.
Proof.
  exact (streamMe_checks 0 sampleFive sampleFive 2 4 ltac:(lia) ltac:(vm_compute; lia)).
Defined.


(** ** The cache of Reed-Solomon contexts *)

Lemma in_codes (k m : Z) : in_range k m -> In (k, m) codes.
Proof.
  intros [Hk Hm]. unfold MAX_K, MAX_M in *. unfold codes. apply in_prod.
  - apply in_map_iff. exists (Z.to_nat k). split; [lia |]. apply in_seq. lia.
  - apply in_map_iff. exists (Z.to_nat m). split; [lia |]. apply in_seq. lia.
Qed.

(** The key tells the parameters: no two codes in range share one. *)
Lemma join_inj (k m k' m' : Z) :
  in_range k m -> in_range k' m' ->
  Cached.join k m = Cached.join k' m' -> k = k' /\ m = m'.
Proof.
  intros H H' E.
  assert (Hall : keys_differ = true) by (vm_compute; reflexivity).
  unfold keys_differ in Hall. rewrite forallb_forall in Hall.
  specialize (Hall _ (in_codes k m H)). rewrite forallb_forall in Hall.
  specialize (Hall _ (in_codes k' m' H')). cbn [fst snd] in Hall.
  rewrite E, String.eqb_refl in Hall. cbn [implb] in Hall.
  apply andb_true_iff in Hall. destruct Hall as [A B]. lia.
Qed.

Lemma get_In (key : string) (cache : Cached.ContextCache) (context : Cached.RsContext) :
  Cached.get key cache = Some context -> In (key, context) cache.
Proof.
  induction cache as [| [key' context'] rest IH]; cbn [Cached.get]; [discriminate |].
  destruct (String.eqb_spec key' key) as [-> | _].
  - intros H. injection H as ->. left. reflexivity.
  - intros H. right. apply IH, H.
Qed.

Lemma get_None (key : string) (cache : Cached.ContextCache) :
  Cached.get key cache = None <-> ~ In key (map fst cache).
Proof.
  induction cache as [| [key' context'] rest IH]; cbn [Cached.get map fst In].
  - split; [intros _ [] | reflexivity].
  - destruct (String.eqb_spec key' key) as [-> | N].
    + split; [discriminate | intros H; exfalso; apply H; left; reflexivity].
    + rewrite IH. split; [intros H [A | A]; [congruence | exact (H A)] | intros H A; apply H; right; exact A].
Qed.

Lemma get_app (key : string) (cache more : Cached.ContextCache) :
  Cached.get key (cache ++ more)
  = match Cached.get key cache with
    | Some context => Some context
    | None => Cached.get key more
    end.
Proof.
  induction cache as [| [key' context'] rest IH]; cbn [Cached.get app]; [reflexivity |].
  destruct (String.eqb key' key); [reflexivity | exact IH].
Qed.

Lemma set_fresh (key : string) (context : Cached.RsContext) (cache : Cached.ContextCache) :
  Cached.get key cache = None -> Cached.set key context cache = cache ++ [(key, context)].
Proof.
  induction cache as [| [key' context'] rest IH]; cbn [Cached.get Cached.set app];
    [reflexivity |].
  destruct (String.eqb key' key); [discriminate |].
  intros H. rewrite IH by exact H. reflexivity.
Qed.

(** One call: the cache stays as it should, nothing leaves it, and the
    context returned is the one it now holds for these parameters. *)
Lemma getECContext_step (k m : Z) (cache cache' : Cached.ContextCache)
      (context : Cached.RsContext) :
  cache_ok cache ->
  Cached.getECContext k m cache = Ok (context, cache') ->
  cache_ok cache'
  /\ (exists more, cache' = cache ++ more)
  /\ Cached.get (Cached.join k m) cache' = Some context
  /\ Cached.rs_k context = k /\ Cached.rs_m context = m.
Proof.
  intros [Hent Hnd] E. unfold Cached.getECContext in E.
  destruct (Context.getECContext k m) as [[] | e] eqn:Er; [| discriminate].
  apply getECContext_ok in Er. cbn [bind] in E. cbv zeta in E.
  destruct (Cached.get (Cached.join k m) cache) as [c |] eqn:Eg.
  - injection E as <- <-.
    split; [split; assumption |]. split; [exists []; rewrite app_nil_r; reflexivity |].
    split; [exact Eg |].
    apply get_In in Eg. apply In_nth_error in Eg. destruct Eg as [i Ei].
    destruct (Hent _ _ _ Ei) as (_ & Hr & Hk).
    apply (join_inj k m) in Hk; [| exact Er | exact Hr].
    destruct Hk as [-> ->]. split; reflexivity.
  - injection E as <- <-. rewrite (set_fresh _ _ _ Eg).
    split; [split |].
    + intros i key c Hi.
      destruct (Nat.lt_ge_cases i (List.length cache)) as [A | A].
      * rewrite nth_error_app1 in Hi by exact A. apply (Hent _ _ _ Hi).
      * rewrite nth_error_app2 in Hi by exact A.
        destruct (i - List.length cache)%nat as [| d] eqn:Ed;
          [| destruct d; discriminate].
        cbn [nth_error] in Hi. injection Hi as <- <-.
        cbn [Cached.rs_id Cached.rs_k Cached.rs_m].
        split; [lia |]. split; [exact Er | reflexivity].
    + rewrite map_app. cbn [map fst].
      apply NoDup_app; [exact Hnd | repeat constructor; intros [] |].
      intros x Hx [<- | []]. apply get_None in Eg. exact (Eg Hx).
    + split; [eexists; reflexivity |].
      rewrite get_app, Eg. cbn [Cached.get]. rewrite String.eqb_refl.
      split; [reflexivity | split; reflexivity].
Qed.

Lemma get_kept (key : string) (cache more : Cached.ContextCache) (context : Cached.RsContext) :
  Cached.get key cache = Some context -> Cached.get key (cache ++ more) = Some context.
Proof. intros H. rewrite get_app, H. reflexivity. Qed.

(** A series of calls: the cache stays as it should and only grows, and a
    call with parameters in range returns the context the final cache holds
    for them. *)
Lemma calls_spec (args : list (Z * Z)) :
  forall cache results final,
    cache_ok cache ->
    Cached.calls args cache = (results, final) ->
    cache_ok final
    /\ (exists more, final = cache ++ more)
    /\ List.length results = List.length args
    /\ forall i k m,
        nth_error args i = Some (k, m) ->
        (in_range k m ->
         exists context,
           nth_error results i = Some (Ok context)
           /\ Cached.get (Cached.join k m) final = Some context
           /\ Cached.rs_k context = k /\ Cached.rs_m context = m)
        /\ (~ in_range k m -> nth_error results i = Some (Throw Assert_getECContext)).
Proof.
  induction args as [| [k m] rest IH]; intros cache results final Hok E; cbn [Cached.calls] in E.
  - injection E as <- <-. split; [exact Hok |].
    split; [exists []; rewrite app_nil_r; reflexivity |]. split; [reflexivity |].
    intros [| i] ? ? H; discriminate.
  - destruct (Cached.getECContext k m cache) as [[c cache'] | e] eqn:E1.
    + destruct (Cached.calls rest cache') as [results' final'] eqn:E2.
      injection E as <- <-.
      destruct (getECContext_step k m cache cache' c Hok E1)
        as (Hok' & (more & ->) & Hget & Hk & Hm).
      destruct (IH _ _ _ Hok' E2) as (Hf & (more' & ->) & Hlen & Hres).
      split; [exact Hf |].
      split; [exists (more ++ more'); rewrite app_assoc; reflexivity |].
      split; [cbn [List.length]; rewrite Hlen; reflexivity |].
      intros [| i] k0 m0 Hi; cbn [nth_error] in Hi |- *.
      * injection Hi as <- <-. split.
        -- intros _. exists c. split; [reflexivity |].
           split; [apply get_kept; exact Hget | split; assumption].
        -- intros Hn. exfalso. apply Hn.
           unfold Cached.getECContext in E1.
           destruct (Context.getECContext k m) as [[] | e] eqn:Er; [| discriminate].
           apply getECContext_ok in Er. exact Er.
      * apply Hres, Hi.
    + destruct (Cached.calls rest cache) as [results' final'] eqn:E2.
      injection E as <- <-.
      destruct (IH _ _ _ Hok E2) as (Hf & Hmore & Hlen & Hres).
      split; [exact Hf |]. split; [exact Hmore |].
      split; [cbn [List.length]; rewrite Hlen; reflexivity |].
      intros [| i] k0 m0 Hi; cbn [nth_error] in Hi |- *.
      * injection Hi as <- <-.
        unfold Cached.getECContext in E1.
        destruct (getECContext_throws k m) as [Er | Er]; rewrite Er in E1; cbn [bind] in E1.
        -- cbv zeta in E1. destruct (Cached.get _ _); discriminate.
        -- injection E1 as <-. split; [| reflexivity].
           intros Hr. apply getECContext_ok in Hr. congruence.
      * apply Hres, Hi.
Qed.

Lemma empty_cache_ok : cache_ok [].
Proof.
  split; [intros [| i] ? ? H; discriminate | constructor].
Qed.

(** X23. Contexts are shared per code. From the empty cache, in any series
    of calls of [getECContext], a call with parameters in range returns a
    context of these parameters, and two such calls return the same context
    exactly when their parameters are the same: one context is created for
    each [(k, m)], whatever calls come in between, and the key
    [[k, m].join (',')] never takes one code for another. *)
Theorem getECContext_shared (args : list (Z * Z)) (i j : nat) (k m k' m' : Z) :
  nth_error args i = Some (k, m) -> nth_error args j = Some (k', m') ->
  in_range k m -> in_range k' m' ->
  exists c c',
    nth_error (fst (Cached.calls args [])) i = Some (Ok c)
    /\ nth_error (fst (Cached.calls args [])) j = Some (Ok c')
    /\ Cached.rs_k c = k /\ Cached.rs_m c = m
    /\ (Cached.rs_id c = Cached.rs_id c' <-> (k = k' /\ m = m')).
Proof.
  intros Hi Hj Hr Hr'.
  destruct (Cached.calls args []) as [results final] eqn:E.
  destruct (calls_spec args [] results final empty_cache_ok E) as ((Hent & _) & _ & _ & Hres).
  destruct (proj1 (Hres i k m Hi) Hr) as (c & Ec & Gc & Kc & Mc).
  destruct (proj1 (Hres j k' m' Hj) Hr') as (c' & Ec' & Gc' & Kc' & Mc').
  exists c, c'. cbn [fst].
  split; [exact Ec |]. split; [exact Ec' |]. split; [exact Kc |]. split; [exact Mc |].
  split.
  - intros Hid.
    apply get_In, In_nth_error in Gc. destruct Gc as [a Ha].
    apply get_In, In_nth_error in Gc'. destruct Gc' as [b Hb].
    destruct (Hent _ _ _ Ha) as (Ia & _). destruct (Hent _ _ _ Hb) as (Ib & _).
    assert (Hab : a = b) by congruence. rewrite Hab in Ha. rewrite Ha in Hb.
    injection Hb as Hkey Hc. subst c'. lia.
  - intros [<- <-]. congruence.
Qed.

Lemma calls_app (args more : list (Z * Z)) :
  forall cache,
    Cached.calls (args ++ more) cache
    = let (results, middle) := Cached.calls args cache in
      let (results', final) := Cached.calls more middle in
      (results ++ results', final).
Proof.
  induction args as [| [k m] rest IH]; intros cache; cbn [app Cached.calls].
  - destruct (Cached.calls more cache). reflexivity.
  - destruct (Cached.getECContext k m cache) as [[c cache'] | e]; rewrite IH.
    + destruct (Cached.calls rest cache') as [r1 c1].
      destruct (Cached.calls more c1). reflexivity.
    + destruct (Cached.calls rest cache) as [r1 c1].
      destruct (Cached.calls more c1). reflexivity.
Qed.

(** X24. Contexts are never deleted, and there are never many: along any
    series of calls of [getECContext] from the empty cache, the cache only
    grows at its end, so a context once returned stays the one of its code,
    and it never holds more than [MAX_K * MAX_M] contexts, however many
    calls are made and whatever their parameters. *)
Theorem getECContext_bounded (args more : list (Z * Z)) :
  let cache := snd (Cached.calls args []) in
  Z.of_nat (List.length cache) <= MAX_K * MAX_M
  /\ exists new, snd (Cached.calls (args ++ more) []) = cache ++ new.
Proof.
  intros cache. unfold cache. rewrite calls_app.
  destruct (Cached.calls args []) as [results middle] eqn:E.
  destruct (calls_spec args [] results middle empty_cache_ok E) as (Hok & _).
  cbn [snd]. split.
  - destruct Hok as [Hent Hnd].
    assert (Hincl : incl (map fst middle) (map (fun p => Cached.join (fst p) (snd p)) codes)).
    { intros key Hin. apply in_map_iff in Hin. destruct Hin as ([key' c] & <- & Hin).
      apply In_nth_error in Hin. destruct Hin as [i Hi].
      destruct (Hent _ _ _ Hi) as (_ & Hr & ->). cbn [fst].
      apply in_map_iff. exists (Cached.rs_k c, Cached.rs_m c).
      split; [reflexivity | apply in_codes, Hr]. }
    apply (NoDup_incl_length Hnd) in Hincl.
    rewrite !length_map in Hincl.
    assert (Hc : List.length codes = 144%nat) by (vm_compute; reflexivity).
    unfold MAX_K, MAX_M. lia.
  - destruct (Cached.calls more middle) as [results' final] eqn:E'.
    destruct (calls_spec more middle results' final Hok E') as (_ & Hmore & _).
    cbn [snd]. exact Hmore.
Qed.

Lemma getECContext_shared_witness :
  exists c c',
    nth_error (fst (Cached.calls [(4, 2); (12, 3); (0, 1); (1, 23); (4, 2)] [])) 0 = Some (Ok c)
    /\ nth_error (fst (Cached.calls [(4, 2); (12, 3); (0, 1); (1, 23); (4, 2)] [])) 4
       = Some (Ok c')
    /\ Cached.rs_k c = 4 /\ Cached.rs_m c = 2
    /\ (Cached.rs_id c = Cached.rs_id c' <-> (4 = 4 /\ 2 = 2)).
Proof.
  apply (getECContext_shared [(4, 2); (12, 3); (0, 1); (1, 23); (4, 2)] 0 4 4 2 4 2);
    try reflexivity; unfold in_range, MAX_K, MAX_M; lia.
Defined.
